(** * Affine IO: the STM32 DFU firmware loader

    A shallow embedding of the DFU loader (dfu_loader.c / dfu_loader.h) and
    the properties of its memory-layout parser, DFU state machine, erase
    planner and download orchestrator.

    Conventions.  C integers are [Z] with the wrap-around of every cast
    written out ([u8], [u16], [u32], [ulong]).  The loader is Windows code
    (it includes windows.h), so [unsigned long] is 32 bits wide.  C strings
    are [string]s holding the characters before the terminator.  The USB
    device is an oracle answering each control transfer; the calls of the
    loader are recorded in a trace. *)

From Stdlib Require Import ZArith List String Ascii Bool Lia Arith DecimalString.
Import ListNotations.

Open Scope Z_scope.

(** ** Machine integers *)

Definition u8 (z : Z) : Z := z mod 256.
Definition u16 (z : Z) : Z := z mod 65536.
Definition u32 (z : Z) : Z := z mod 4294967296.

(** [unsigned long] under the LLP64 model of the Windows toolchains. *)
Definition ULONG_MAX : Z := 4294967295.
Definition ulong (z : Z) : Z := z mod 4294967296.

Definition STM32_VENDOR_ID : Z := 0x0483.
Definition STM32_PRODUCT_ID : Z := 0xDF11.
Definition STM32_BASE_ADDRESS : Z := 0x08000000.
Definition STM32_DEFAULT_TRANSFER : Z := 1024.

Definition DFU_REQUEST_DNLOAD : Z := 1.
Definition DFU_REQUEST_GETSTATUS : Z := 3.
Definition DFU_REQUEST_CLRSTATUS : Z := 4.
Definition DFU_REQUEST_ABORT : Z := 6.

Definition DFU_STATE_dfuIDLE : Z := 2.
Definition DFU_STATE_dfuDNLOAD_SYNC : Z := 3.
Definition DFU_STATE_dfuDNBUSY : Z := 4.
Definition DFU_STATE_dfuDNLOAD_IDLE : Z := 5.
Definition DFU_STATE_dfuMANIFEST_SYNC : Z := 6.
Definition DFU_STATE_dfuMANIFEST : Z := 7.
Definition DFU_STATE_dfuMANIFEST_WAIT_RESET : Z := 8.
Definition DFU_STATE_dfuUPLOAD_IDLE : Z := 9.
Definition DFU_STATE_dfuERROR : Z := 10.

Definition LIBUSB_SUCCESS : Z := 0.
Definition LIBUSB_ERROR_IO : Z := -1.
Definition LIBUSB_ERROR_NO_DEVICE : Z := -4.

(** ** C strings *)

Module CString.

Definition code (c : ascii) : Z := Z.of_N (N_of_ascii c).

(** [*cursor]: the terminator is read at the end of the string. *)
Definition cur (s : string) : ascii :=
  match s with
  | String c _ => c
  | EmptyString => Ascii.zero
  end.

(** [cursor + 1], used by the loader only where [*cursor] is not the
    terminator. *)
Definition next (s : string) : string :=
  match s with
  | String _ s' => s'
  | EmptyString => EmptyString
  end.

Definition at_char (s : string) (c : string) : bool :=
  match c with
  | String c' _ => Ascii.eqb (cur s) c'
  | EmptyString => Ascii.eqb (cur s) Ascii.zero
  end.

(** [strchr(s, c)] for a character [c] other than the terminator: the
    suffix of [s] starting at the first [c], or NULL. *)
Fixpoint strchr (s : string) (c : ascii) : option string :=
  match s with
  | EmptyString => None
  | String a s' => if Ascii.eqb a c then Some s else strchr s' c
  end.

Definition isspace (c : ascii) : bool :=
  (code c =? 32) || ((9 <=? code c) && (code c <=? 13)).

Definition isdigit (c : ascii) : bool :=
  (48 <=? code c) && (code c <=? 57).

(** The value of a character as a digit of [strtoul], in any base. *)
Definition digit_value (c : ascii) : option Z :=
  let n := code c in
  if (48 <=? n) && (n <=? 57) then Some (n - 48)
  else if (97 <=? n) && (n <=? 122) then Some (n - 87)
  else if (65 <=? n) && (n <=? 90) then Some (n - 55)
  else None.

Definition digit_in (base : Z) (c : ascii) : option Z :=
  match digit_value c with
  | Some d => if d <? base then Some d else None
  | None => None
  end.

Fixpoint skip_space (s : string) : string :=
  match s with
  | String c s' => if isspace c then skip_space s' else s
  | EmptyString => s
  end.

(** The digits of the subject sequence: the value read so far, the number
    of digits consumed and the rest of the string. *)
Fixpoint scan_digits (base : Z) (s : string) (acc : Z) (n : nat)
  : Z * nat * string :=
  match s with
  | String c s' =>
      match digit_in base c with
      | Some d => scan_digits base s' (acc * base + d) (S n)
      | None => (acc, n, s)
      end
  | EmptyString => (acc, n, s)
  end.

(** [strtoul(nptr, &endptr, base)] of the C library, for base 10 and 16,
    as ISO C describes it: white space is skipped, a sign is accepted, in
    base 16 a 0x prefix is accepted when a hexadecimal digit follows, a
    value out of range is ULONG_MAX, a minus sign negates the value in
    the unsigned type, and when no digit is found the value is 0 and
    [endptr] is [nptr]. *)
Definition strtoul (nptr : string) (base : Z) : Z * string :=
  let s := skip_space nptr in
  let '(neg, s) :=
    if at_char s "-" then (true, next s)
    else if at_char s "+" then (false, next s)
    else (false, s) in
  let s :=
    if (base =? 16) && at_char s "0" && (at_char (next s) "x" || at_char (next s) "X")
    then match digit_in 16 (cur (next (next s))) with
         | Some _ => next (next s)
         | None => s
         end
    else s in
  let '(v, n, rest) := scan_digits base s 0 O in
  match n with
  | O => (0, nptr)
  | S _ =>
      if ULONG_MAX <? v then (ULONG_MAX, rest)
      else ((if neg then ulong (- v) else v), rest)
  end.

End CString.

Import CString.

(** ** Memory layout *)

Record stm32_dfu_segment_t := mk_segment {
  seg_start : Z;
  seg_end : Z;
  seg_page_size : Z
}.

(** The array of segments, read by index, and the number of entries in
    use; the loader keeps [count] within the eight slots of the array. *)
Record stm32_dfu_memory_layout_t := mk_layout {
  segments : nat -> stm32_dfu_segment_t;
  count : nat
}.

Definition SEGMENT_SLOTS : nat := 8.

Definition zero_segment : stm32_dfu_segment_t := mk_segment 0 0 0.

Definition zero_layout : stm32_dfu_memory_layout_t :=
  mk_layout (fun _ => zero_segment) 0.

(** The entries of the layout that the loader reads: the first [count]. *)
Definition layout_segments (l : stm32_dfu_memory_layout_t)
  : list stm32_dfu_segment_t :=
  map (segments l) (seq 0 (count l)).

(** [array[i] = x]. *)
Definition store_at {A} (i : nat) (x : A) (array : nat -> A) : nat -> A :=
  fun j => if (j =? i)%nat then x else array j.

(** [parse_size_bytes(text, &next)]: the value and the new cursor. *)
Fixpoint size_digits (s : string) (value : Z) : Z * string :=
  match s with
  | String c s' =>
      if isdigit c then size_digits s' (ulong (value * 10 + (code c - 48)))
      else (value, s)
  | EmptyString => (value, s)
  end.

Definition parse_size_bytes (text : string) : Z * string :=
  let '(value, cursor) := size_digits text 0 in
  let '(multiplier, cursor) :=
    if at_char cursor "K" || at_char cursor "k" then (1024, next cursor)
    else if at_char cursor "M" || at_char cursor "m" then (1024 * 1024, next cursor)
    else if at_char cursor "B" || at_char cursor "b" then (1, next cursor)
    else (1, cursor) in
  let cursor := if at_char cursor "g" || at_char cursor "G" then next cursor else cursor in
  (u32 (ulong (value * multiplier)), cursor).

(** The body of the segment store inside the parse loop. *)
Definition add_segment (l : stm32_dfu_memory_layout_t) (start cnt page_size : Z)
  : stm32_dfu_memory_layout_t :=
  if (count l <? SEGMENT_SLOTS)%nat then
    let s := u32 start in
    let length := cnt * page_size in
    mk_layout (store_at (count l) (mk_segment s (u32 (s + u32 length)) page_size)
                        (segments l))
              (S (count l))
  else l.

(** The loop of [parse_alt_memory_layout]; every iteration consumes at
    least the slash it found, so [fuel] above the length of the string is
    never used up. *)
Fixpoint parse_segments (fuel : nat) (cursor : string)
  (l : stm32_dfu_memory_layout_t) : stm32_dfu_memory_layout_t :=
  match fuel with
  | O => l
  | S fuel' =>
      match strchr cursor "/" with
      | None => l
      | Some at_slash =>
          let cursor := next at_slash in
          if negb (at_char cursor "0" && (at_char (next cursor) "x" || at_char (next cursor) "X"))
          then parse_segments fuel' cursor l
          else
            let '(start, endptr) := strtoul cursor 16 in
            if negb (at_char endptr "/") then parse_segments fuel' endptr l
            else
              let cursor := next endptr in
              let '(cnt, endptr) := strtoul cursor 10 in
              if negb (at_char endptr "*") then parse_segments fuel' endptr l
              else
                let cursor := next endptr in
                let '(page_size, cursor) := parse_size_bytes cursor in
                if page_size =? 0 then parse_segments fuel' cursor l
                else parse_segments fuel' cursor (add_segment l start cnt page_size)
      end
  end.

(** [parse_alt_memory_layout(alt_name, layout)], with [layout] the contents
    of the caller's structure before the call and [None] a NULL name. *)
Definition parse_alt_memory_layout (alt_name : option string)
  (layout : stm32_dfu_memory_layout_t) : bool * stm32_dfu_memory_layout_t :=
  let layout := mk_layout (segments layout) 0 in
  match alt_name with
  | None => (false, layout)
  | Some name =>
      let layout := parse_segments (S (String.length name)) name layout in
      ((0 <? count layout)%nat, layout)
  end.

Definition in_segment (address : Z) (s : stm32_dfu_segment_t) : bool :=
  (seg_start s <=? address) && (address <? seg_end s).

Definition find_segment (l : stm32_dfu_memory_layout_t) (address : Z)
  : option stm32_dfu_segment_t :=
  find (in_segment address) (layout_segments l).

(** ** The functional descriptor *)

(** The loop of [parse_transfer_size] over the extra descriptor bytes of
    the alternate setting; [extra_length] is the length of the list. *)
Fixpoint scan_descriptors (fuel : nat) (extra : list Z) : Z :=
  match fuel with
  | O => STM32_DEFAULT_TRANSFER
  | S fuel' =>
      let remaining := Z.of_nat (List.length extra) in
      if remaining <? 9 then STM32_DEFAULT_TRANSFER
      else
        let length := u8 (nth 0 extra 0) in
        let type := u8 (nth 1 extra 0) in
        if (length <? 3) || (remaining <? length) then STM32_DEFAULT_TRANSFER
        else if (type =? 0x21) && (9 <=? length) then
          let transfer :=
            u16 (Z.lor (u8 (nth 5 extra 0)) (Z.shiftl (u8 (nth 6 extra 0)) 8)) in
          if transfer =? 0 then STM32_DEFAULT_TRANSFER else transfer
        else scan_descriptors fuel' (skipn (Z.to_nat length) extra)
  end.

Definition parse_transfer_size (extra : list Z) : Z :=
  if Z.of_nat (List.length extra) <? 9 then STM32_DEFAULT_TRANSFER
  else scan_descriptors (List.length extra) extra.

(** ** Status messages *)

(** One constructor per format string of the loader. *)
Inductive message :=
| MsgLoading
| MsgPathInvalid
| MsgOpenFailed
| MsgSizeFailed
| MsgEmpty
| MsgNoMemory
| MsgReadFailed
| MsgInitUsb
| MsgInitFailed (ret : Z)
| MsgWaiting
| MsgEnumerateFailed (ret : Z)
| MsgCannotOpen (ret : Z)
| MsgNoInterface
| MsgClaimFailed (ret : Z)
| MsgAltFailed (ret : Z)
| MsgUsing (alt : Z) (name : string)
| MsgUsingUnnamed (alt : Z)
| MsgText (text : string)
| MsgNotFound
| MsgPreparing
| MsgStatusReadFailed (ret : Z)
| MsgDfuStatus (status state : Z)
| MsgDfuError
| MsgSendFailed (ret : Z)
| MsgSendIncomplete
| MsgOutside (address : Z)
| MsgMassErase
| MsgSetAddress (address : Z)
| MsgWriting
| MsgNoBuffer
| MsgWriteFailed (address len : Z)
| MsgDone
| MsgUnknown.

Module Format.

Open Scope string_scope.

Definition hex_digit (d : Z) : ascii :=
  if (d <? 10)%Z then ascii_of_N (Z.to_N (48 + d)) else ascii_of_N (Z.to_N (55 + d)).

Fixpoint hex_digits (fuel : nat) (n : Z) (acc : string) : string :=
  match fuel with
  | O => acc
  | S fuel' =>
      if (n =? 0)%Z then acc
      else hex_digits fuel' (n / 16) (String (hex_digit (n mod 16)) acc)
  end.

Fixpoint zeros (n : nat) : string :=
  match n with
  | O => ""
  | S n' => String "0" (zeros n')
  end.

(** The conversion %0wX of a value that is not negative. *)
Definition hex (width : nat) (n : Z) : string :=
  let d := hex_digits 16 n "" in
  zeros (width - String.length d)%nat ++ d.

(** The conversion %u. *)
Definition dec (n : Z) : string :=
  NilZero.string_of_uint (N.to_uint (Z.to_N n)).

(** [libusb_error_name], the table of the library. *)
Definition libusb_error_name (ret : Z) : string :=
  if (ret =? 0)%Z then "LIBUSB_SUCCESS"
  else if (ret =? -1)%Z then "LIBUSB_ERROR_IO"
  else if (ret =? -2)%Z then "LIBUSB_ERROR_INVALID_PARAM"
  else if (ret =? -3)%Z then "LIBUSB_ERROR_ACCESS"
  else if (ret =? -4)%Z then "LIBUSB_ERROR_NO_DEVICE"
  else if (ret =? -5)%Z then "LIBUSB_ERROR_NOT_FOUND"
  else if (ret =? -6)%Z then "LIBUSB_ERROR_BUSY"
  else if (ret =? -7)%Z then "LIBUSB_ERROR_TIMEOUT"
  else if (ret =? -8)%Z then "LIBUSB_ERROR_OVERFLOW"
  else if (ret =? -9)%Z then "LIBUSB_ERROR_PIPE"
  else if (ret =? -10)%Z then "LIBUSB_ERROR_INTERRUPTED"
  else if (ret =? -11)%Z then "LIBUSB_ERROR_NO_MEM"
  else if (ret =? -12)%Z then "LIBUSB_ERROR_NOT_SUPPORTED"
  else if (ret =? -99)%Z then "LIBUSB_ERROR_OTHER"
  else "**UNKNOWN**".

Definition render (m : message) : string :=
  match m with
  | MsgLoading => "Loading firmware file..."
  | MsgPathInvalid => "Error: firmware path invalid"
  | MsgOpenFailed => "Error: unable to open firmware file"
  | MsgSizeFailed => "Error: unable to read firmware size"
  | MsgEmpty => "Error: firmware file is empty"
  | MsgNoMemory => "Error: insufficient memory for firmware"
  | MsgReadFailed => "Error: failed to read firmware file"
  | MsgInitUsb => "Initialising USB..."
  | MsgInitFailed r => "Error: libusb init failed (" ++ libusb_error_name r ++ ")"
  | MsgWaiting => "Waiting for DFU device..."
  | MsgEnumerateFailed r =>
      "Error: failed to enumerate USB devices (" ++ libusb_error_name r ++ ")"
  | MsgCannotOpen r => "Error: cannot open DFU device (" ++ libusb_error_name r ++ ")"
  | MsgNoInterface => "Error: DFU interface not found on device"
  | MsgClaimFailed r =>
      "Error: failed to claim DFU interface (" ++ libusb_error_name r ++ ")"
  | MsgAltFailed r =>
      "Error: failed to set DFU alt setting (" ++ libusb_error_name r ++ ")"
  | MsgUsing alt name => "Using DFU interface " ++ dec alt ++ ": " ++ name
  | MsgUsingUnnamed alt => "Using DFU interface " ++ dec alt
  | MsgText text => text
  | MsgNotFound =>
      "Error: DFU device not found (VID=0x" ++ hex 4 STM32_VENDOR_ID
        ++ " PID=0x" ++ hex 4 STM32_PRODUCT_ID ++ ")"
  | MsgPreparing => "Preparing DFU state..."
  | MsgStatusReadFailed r =>
      "Error: failed to read DFU status (" ++ libusb_error_name r ++ ")"
  | MsgDfuStatus status state =>
      "Error: DFU status 0x" ++ hex 2 status ++ " (state=0x" ++ hex 2 state ++ ")"
  | MsgDfuError => "Error: DFU entered error state"
  | MsgSendFailed r => "Error: failed to send DFU data (" ++ libusb_error_name r ++ ")"
  | MsgSendIncomplete => "Error: DFU data sent incomplete"
  | MsgOutside a => "Error: address 0x" ++ hex 8 a ++ " outside DFU segment"
  | MsgMassErase => "Performing mass erase..."
  | MsgSetAddress a => "Setting write address 0x" ++ hex 8 a
  | MsgWriting => "Writing firmware..."
  | MsgNoBuffer => "Error: insufficient memory for transfer buffer"
  | MsgWriteFailed a len =>
      "Error: write failed at 0x" ++ hex 8 a ++ " (len=" ++ dec len ++ ")"
  | MsgDone => "Firmware written, device restarting"
  | MsgUnknown => "Unknown DFU failure"
  end.

(** What _TRUNCATE keeps of a text in a buffer of [size] bytes. *)
Definition truncate (size : nat) (text : string) : string :=
  substring 0 (size - 1) text.

End Format.

(** ** The world: the device, the caller and the trace *)

(** A control transfer: direction, bRequest, wValue, wIndex, the bytes sent
    (for OUT) and wLength. *)
Record request := mk_request {
  rq_in : bool;
  rq_code : Z;
  rq_value : Z;
  rq_index : Z;
  rq_data : list Z;
  rq_length : Z
}.

(** The result of [libusb_control_transfer] and, for IN, the bytes the
    device stored in the buffer. *)
Record transfer := mk_transfer {
  x_ret : Z;
  x_data : list Z
}.

(** What a run leaves in its trace: the calls of
    [libusb_control_transfer], which carry every DFU request, the calls
    of [Sleep], the calls of the progress and status callbacks, and the
    release of the interface by [release_device].  The calls that
    [open_stm32_dfu_device_once] makes to find the device (enumeration,
    open, descriptors, claim, alternate setting, and the release and
    close of a candidate it gives up) are no events: the environment
    answers an attempt as a whole. *)
Inductive event :=
| EvControl (rq : request)
| EvSleep (ms : Z)
| EvProgress (percent : Z)
| EvStatus (text : string)
| EvRelease (interface_number : Z).

(** The client structure the context pointer may resolve to: whether each
    callback is set. *)
Record dfu_loader_client_t := mk_client {
  progress_cb : bool;
  status_cb : bool
}.

(** The arguments of [dfu_loader_flash]. *)
Record caller := mk_caller {
  arg_path : bool;
  arg_progress_cb : bool;
  arg_client : option dfu_loader_client_t;
  arg_status_buf : bool;
  arg_status_len : nat
}.

(** What the file system answers to [load_firmware_file]. *)
Inductive file_system :=
| FsNoFile
| FsNoSeek
| FsFile (file_size : Z) (alloc : bool) (bytes_read : list Z).

(** One call of [open_stm32_dfu_device_once]: the errors it reported on
    the way and, when a device was claimed, the selected alternate
    setting. *)
Inductive attempt :=
| Attached (errors : list message) (interface_number alt_setting : Z)
    (extra : list Z) (alt_name : string)
| Absent (errors : list message).

Record environment := mk_environment {
  env_file : file_system;
  env_usb_init : Z;
  env_attempts : nat -> attempt;
  env_chunk_alloc : bool;
  env_device : nat -> request -> transfer
}.

Record world := mk_world {
  w_calls : nat;
  w_trace : list event;
  w_status : list ascii
}.

Inductive loop := PollLoop | PageLoop | RangeLoop | WriteLoop.

(** A computation returns or is cut off inside the named loop. *)
Inductive outcome (A : Type) :=
| Done (a : A) (w : world)
| Stuck (l : loop) (w : world).
Arguments Done {A} a w.
Arguments Stuck {A} l w.

Definition M (A : Type) : Type := world -> outcome A.

Definition ret {A} (a : A) : M A := fun w => Done a w.

Definition bind {A B} (m : M A) (k : A -> M B) : M B :=
  fun w =>
    match m w with
    | Done a w' => k a w'
    | Stuck l w' => Stuck l w'
    end.

Definition stuck {A} (l : loop) : M A := fun w => Stuck l w.

Declare Scope dfu_scope.
Delimit Scope dfu_scope with dfu.
Notation "x <- m ;; k" := (bind m (fun x => k))
  (at level 100, m at next level, right associativity) : dfu_scope.
Notation "m ;; k" := (bind m (fun _ => k))
  (at level 100, right associativity) : dfu_scope.
Open Scope dfu_scope.

Definition emit (e : event) : M unit :=
  fun w => Done tt (mk_world (w_calls w) (w_trace w ++ [e]) (w_status w)).

Definition Sleep (ms : Z) : M unit := emit (EvSleep ms).

(** A control transfer answered by [device]. *)
Definition control_transfer (device : nat -> request -> transfer) (rq : request)
  : M transfer :=
  fun w =>
    Done (device (w_calls w) rq)
         (mk_world (S (w_calls w)) (w_trace w ++ [EvControl rq]) (w_status w)).

Definition libusb_control_transfer (env : environment) (rq : request) : M transfer :=
  control_transfer (env_device env) rq.

(** The bytes [_vsnprintf_s] with _TRUNCATE leaves in a buffer of [len]
    bytes. *)
Definition store (len : nat) (text : string) (old : list ascii) : list ascii :=
  let kept := Format.truncate len text in
  list_ascii_of_string kept ++ Ascii.zero :: skipn (S (String.length kept)) old.

(** The second half of [set_status]: the status callback of the client. *)
Definition notify (cfg : caller) (m : message) : M unit :=
  match arg_client cfg with
  | Some client =>
      if status_cb client
      then emit (EvStatus (Format.truncate 256 (Format.render m)))
      else ret tt
  | None => ret tt
  end.

Definition set_status (cfg : caller) (m : message) : M unit :=
  (fun w =>
     if arg_status_buf cfg && (0 <? arg_status_len cfg)%nat
     then Done tt (mk_world (w_calls w) (w_trace w)
                            (store (arg_status_len cfg) (Format.render m) (w_status w)))
     else Done tt w) ;;
  notify cfg m.

Definition report_progress (cfg : caller) (percent : Z) : M unit :=
  match arg_client cfg with
  | Some client =>
      if progress_cb client then emit (EvProgress percent)
      else if arg_progress_cb cfg then emit (EvProgress percent) else ret tt
  | None => if arg_progress_cb cfg then emit (EvProgress percent) else ret tt
  end.

(** ** The device session *)

Record stm32_dfu_device_t := mk_device {
  handle : bool;
  interface_number : Z;
  alt_setting : Z;
  transfer_size : Z;
  alt_name : string;
  last_erased_page : Z;
  layout_valid : bool;
  mass_erased : bool;
  layout : stm32_dfu_memory_layout_t
}.

Definition NO_PAGE : Z := 0xFFFFFFFF.

(** [stm32_dfu_device_t device = {0}]. *)
Definition zero_device : stm32_dfu_device_t :=
  mk_device false 0 0 0 "" 0 false false zero_layout.

Definition with_last_erased_page (d : stm32_dfu_device_t) (page : Z)
  : stm32_dfu_device_t :=
  mk_device (handle d) (interface_number d) (alt_setting d) (transfer_size d)
            (alt_name d) page (layout_valid d) (mass_erased d) (layout d).

Definition with_mass_erased (d : stm32_dfu_device_t) (b : bool)
  : stm32_dfu_device_t :=
  mk_device (handle d) (interface_number d) (alt_setting d) (transfer_size d)
            (alt_name d) (last_erased_page d) (layout_valid d) b (layout d).

(** The device structure [open_stm32_dfu_device_once] fills in for the
    alternate setting [select_dfu_interface] chose. *)
Definition opened_device (iface alt : Z) (extra : list Z) (name : string)
  : stm32_dfu_device_t :=
  let parsed := parse_alt_memory_layout (Some name) zero_layout in
  mk_device true (u8 iface) (u8 alt) (parse_transfer_size extra) name
            NO_PAGE (fst parsed) false (snd parsed).

(** ** Loading and discovery *)

Definition load_firmware_file (cfg : caller) (env : environment)
  : M (option (list Z * Z)) :=
  if negb (arg_path cfg) then set_status cfg MsgPathInvalid ;; ret None
  else
    match env_file env with
    | FsNoFile => set_status cfg MsgOpenFailed ;; ret None
    | FsNoSeek => set_status cfg MsgSizeFailed ;; ret None
    | FsFile file_size alloc bytes_read =>
        if file_size <=? 0 then set_status cfg MsgEmpty ;; ret None
        else if negb alloc then set_status cfg MsgNoMemory ;; ret None
        else if negb (Z.of_nat (List.length bytes_read) =? file_size)
        then set_status cfg MsgReadFailed ;; ret None
        else ret (Some (bytes_read, file_size))
    end.

(** The errors of one attempt, written to the 160-byte [last_error] of
    [wait_for_stm32_dfu_device] and passed to the status callback. *)
Fixpoint report_errors (cfg : caller) (errors : list message) (last_error : string)
  : M string :=
  match errors with
  | [] => ret last_error
  | m :: errors' =>
      notify cfg m ;;
      report_errors cfg errors' (Format.truncate 160 (Format.render m))
  end.

(** The loop of [wait_for_stm32_dfu_device]: [n] attempts are left, the
    next one is attempt number [i]. *)
Fixpoint wait_attempts (cfg : caller) (env : environment) (n i : nat)
  (last_error : string) : M (option stm32_dfu_device_t) :=
  match n with
  | O =>
      (if arg_status_buf cfg && (0 <? arg_status_len cfg)%nat then
         if negb (at_char last_error "")
         then set_status cfg (MsgText last_error)
         else set_status cfg MsgNotFound
       else ret tt) ;;
      ret None
  | S n' =>
      match env_attempts env i with
      | Attached errors iface alt extra name =>
          _ <- report_errors cfg errors last_error ;;
          let d := opened_device iface alt extra name in
          (if arg_status_buf cfg && (0 <? arg_status_len cfg)%nat then
             if negb (at_char (alt_name d) "")
             then set_status cfg (MsgUsing (alt_setting d) (alt_name d))
             else set_status cfg (MsgUsingUnnamed (alt_setting d))
           else ret tt) ;;
          ret (Some d)
      | Absent errors =>
          last_error' <- report_errors cfg errors last_error ;;
          Sleep 100 ;;
          wait_attempts cfg env n' (S i) last_error'
      end
  end.

(** [elapsed] runs from 0 in steps of 100 while it is at most
    [timeout_ms]: [timeout_ms / 100 + 1] attempts for a [timeout_ms]
    below 4294967200, as the 10000 the loader passes, where [elapsed],
    a DWORD, does not wrap; a longer timeout is not described. *)
Definition wait_for_stm32_dfu_device (cfg : caller) (env : environment)
  (timeout_ms : Z) : M (option stm32_dfu_device_t) :=
  wait_attempts cfg env (Z.to_nat (timeout_ms / 100 + 1)) 0 "".

Definition release_device (d : stm32_dfu_device_t) : M unit :=
  if handle d then emit (EvRelease (interface_number d)) else ret tt.

(** ** The DFU state machine *)

Record dfu_status_t := mk_status {
  status : Z;
  state : Z;
  poll_timeout_ms : Z
}.

Definition zero_status : dfu_status_t := mk_status 0 0 0.

Definition get_status_request (d : stm32_dfu_device_t) : request :=
  mk_request true DFU_REQUEST_GETSTATUS 0 (interface_number d) [] 6.

Definition clear_status_request (d : stm32_dfu_device_t) : request :=
  mk_request false DFU_REQUEST_CLRSTATUS 0 (interface_number d) [] 0.

Definition abort_request (d : stm32_dfu_device_t) : request :=
  mk_request false DFU_REQUEST_ABORT 0 (interface_number d) [] 0.

Definition dnload_request (d : stm32_dfu_device_t) (block_number : Z)
  (data : list Z) (length : Z) : request :=
  mk_request false DFU_REQUEST_DNLOAD block_number (interface_number d)
             (firstn (Z.to_nat length) data) length.

(** Byte [i] of the zeroed six-byte buffer after the transfer. *)
Definition reply_byte (x : transfer) (i : nat) : Z := u8 (nth i (x_data x) 0).

Definition dfu_get_status (env : environment) (d : stm32_dfu_device_t)
  : M (Z * dfu_status_t) :=
  x <- libusb_control_transfer env (get_status_request d) ;;
  if x_ret x <? 0 then ret (x_ret x, zero_status)
  else if negb (x_ret x =? 6) then ret (LIBUSB_ERROR_IO, zero_status)
  else
    ret (LIBUSB_SUCCESS,
         mk_status (reply_byte x 0) (reply_byte x 4)
                   (Z.lor (Z.lor (reply_byte x 1) (Z.shiftl (reply_byte x 2) 8))
                          (Z.shiftl (reply_byte x 3) 16))).

Definition dfu_clear_status (env : environment) (d : stm32_dfu_device_t) : M unit :=
  _ <- libusb_control_transfer env (clear_status_request d) ;; ret tt.

Definition dfu_abort (env : environment) (d : stm32_dfu_device_t) : M unit :=
  _ <- libusb_control_transfer env (abort_request d) ;; ret tt.

Definition is_manifest_state (s : Z) : bool :=
  (s =? DFU_STATE_dfuMANIFEST_SYNC) || (s =? DFU_STATE_dfuMANIFEST)
  || (s =? DFU_STATE_dfuMANIFEST_WAIT_RESET).

Definition is_idle_state (s : Z) : bool :=
  (s =? DFU_STATE_dfuIDLE) || (s =? DFU_STATE_dfuDNLOAD_IDLE).

Fixpoint dfu_wait_ready (fuel : nat) (cfg : caller) (env : environment)
  (d : stm32_dfu_device_t) (allow_manifest : bool) : M bool :=
  match fuel with
  | O => stuck PollLoop
  | S fuel' =>
      r <- dfu_get_status env d ;;
      let '(ret_code, st) := r in
      if ret_code =? LIBUSB_ERROR_NO_DEVICE then ret allow_manifest
      else if negb (ret_code =? LIBUSB_SUCCESS) then
        set_status cfg (MsgStatusReadFailed ret_code) ;; ret false
      else if negb (status st =? 0) then
        dfu_clear_status env d ;;
        set_status cfg (MsgDfuStatus (status st) (state st)) ;;
        ret false
      else if is_idle_state (state st) then ret true
      else if is_manifest_state (state st) then ret allow_manifest
      else if state st =? DFU_STATE_dfuERROR then
        dfu_clear_status env d ;;
        set_status cfg MsgDfuError ;;
        ret false
      else
        Sleep (if 0 <? poll_timeout_ms st then poll_timeout_ms st else 5) ;;
        dfu_wait_ready fuel' cfg env d allow_manifest
  end.

Definition dfu_download_block (fuel : nat) (cfg : caller) (env : environment)
  (d : stm32_dfu_device_t) (block_number : Z) (data : list Z) (length : Z)
  (allow_manifest : bool) : M bool :=
  x <- libusb_control_transfer env (dnload_request d block_number data length) ;;
  if x_ret x <? 0 then set_status cfg (MsgSendFailed (x_ret x)) ;; ret false
  else if negb (x_ret x =? length) then set_status cfg MsgSendIncomplete ;; ret false
  else dfu_wait_ready fuel cfg env d allow_manifest.

Definition special_payload (command address : Z) : list Z :=
  [ command;
    u8 (Z.land address 0xFF);
    u8 (Z.land (Z.shiftr address 8) 0xFF);
    u8 (Z.land (Z.shiftr address 16) 0xFF);
    u8 (Z.land (Z.shiftr address 24) 0xFF) ].

Definition dfu_send_special_command (fuel : nat) (cfg : caller) (env : environment)
  (d : stm32_dfu_device_t) (command address length : Z) (allow_manifest : bool)
  : M bool :=
  let length := if 5 <? length then 5 else length in
  dfu_download_block fuel cfg env d 0 (special_payload command address) length
                     allow_manifest.

Definition dfu_set_address_pointer (fuel : nat) (cfg : caller) (env : environment)
  (d : stm32_dfu_device_t) (address : Z) : M bool :=
  dfu_send_special_command fuel cfg env d 0x21 address 5 false.

Definition dfu_mass_erase (fuel : nat) (cfg : caller) (env : environment)
  (d : stm32_dfu_device_t) : M bool :=
  dfu_send_special_command fuel cfg env d 0x41 0 1 false.

Definition dfu_prepare_idle (fuel : nat) (cfg : caller) (env : environment)
  (d : stm32_dfu_device_t) : M bool :=
  ok <- dfu_wait_ready fuel cfg env d true ;;
  if negb ok then
    dfu_abort env d ;;
    Sleep 5 ;;
    dfu_wait_ready fuel cfg env d true
  else ret true.

(** ** The erase planner *)

(** The inner loop of [dfu_erase_range] over the pages of one segment. *)
Fixpoint erase_pages (n fuel : nat) (cfg : caller) (env : environment)
  (d : stm32_dfu_device_t) (segment : stm32_dfu_segment_t) (page_base end_ : Z)
  : M (bool * stm32_dfu_device_t) :=
  match n with
  | O =>
      if (page_base <? seg_end segment) && (page_base <? end_)
      then stuck PageLoop else ret (true, d)
  | S n' =>
      if (page_base <? seg_end segment) && (page_base <? end_) then
        if negb (last_erased_page d =? page_base) then
          ok <- dfu_send_special_command fuel cfg env d 0x41 page_base 5 false ;;
          if negb ok then ret (false, d)
          else
            erase_pages n' fuel cfg env (with_last_erased_page d page_base) segment
                        (u32 (page_base + seg_page_size segment)) end_
        else
          erase_pages n' fuel cfg env d segment
                      (u32 (page_base + seg_page_size segment)) end_
      else ret (true, d)
  end.

(** The outer loop of [dfu_erase_range] over the segments of the range. *)
Fixpoint erase_segments (n fuel : nat) (cfg : caller) (env : environment)
  (d : stm32_dfu_device_t) (start end_ : Z) : M (bool * stm32_dfu_device_t) :=
  match n with
  | O => if start <? end_ then stuck RangeLoop else ret (true, d)
  | S n' =>
      if start <? end_ then
        match find_segment (layout d) start with
        | None => set_status cfg (MsgOutside start) ;; ret (false, d)
        | Some segment =>
            let page_base :=
              u32 (seg_start segment +
                   u32 (u32 (u32 (start - seg_start segment) / seg_page_size segment)
                        * seg_page_size segment)) in
            r <- erase_pages fuel fuel cfg env d segment page_base end_ ;;
            let '(ok, d') := r in
            if negb ok then ret (false, d')
            else erase_segments n' fuel cfg env d' (seg_end segment) end_
        end
      else ret (true, d)
  end.

Definition dfu_erase_range (fuel : nat) (cfg : caller) (env : environment)
  (d : stm32_dfu_device_t) (address length : Z) : M (bool * stm32_dfu_device_t) :=
  if negb (layout_valid d) || (count (layout d) =? 0)%nat then ret (true, d)
  else erase_segments fuel fuel cfg env d address (u32 (address + length)).

(** ** The download orchestrator *)

Definition data_block_number : Z := 2.

Definition initial_percent (d : stm32_dfu_device_t) : Z :=
  if layout_valid d then 6 else 5.

(** The bytes of the chunk buffer that are sent: the chunk, and 0xFF after
    a chunk of odd length. *)
Definition chunk_payload (firmware : list Z) (written data_len : Z) : list Z :=
  let data := firstn (Z.to_nat data_len) (skipn (Z.to_nat written) firmware) in
  if negb (data_len mod 2 =? 0) then data ++ [0xFF] else data.

Definition aligned_length (data_len : Z) : Z :=
  if negb (data_len mod 2 =? 0) then data_len + 1 else data_len.

Definition write_percent (d : stm32_dfu_device_t) (written firmware_len : Z) : Z :=
  let percent := initial_percent d + (written * 90) / firmware_len in
  if 95 <? percent then 95 else percent.

(** The size of the chunk at offset [written]: the transfer size or what
    is left of the image, and no more than what is left of the segment. *)
Definition chunk_size_at (d : stm32_dfu_device_t)
  (segment : option stm32_dfu_segment_t) (firmware_len written : Z) : Z :=
  let remaining := firmware_len - written in
  let chunk_size :=
    if transfer_size d <? remaining then transfer_size d else remaining in
  let chunk_address := u32 (STM32_BASE_ADDRESS + u32 written) in
  match segment with
  | Some s =>
      let seg_remaining := u32 (seg_end s - chunk_address) in
      if seg_remaining <? chunk_size then seg_remaining else chunk_size
  | None => chunk_size
  end.

(** The body of the write loop up to the update of [written]: the device
    structure and the new value of [written], or [None] where the code
    leaves for [cleanup]. *)
Definition write_chunk (fuel : nat) (cfg : caller) (env : environment)
  (d : stm32_dfu_device_t) (firmware : list Z) (firmware_len written : Z)
  : M (option (stm32_dfu_device_t * Z)) :=
  let chunk_address := u32 (STM32_BASE_ADDRESS + u32 written) in
  let segment :=
    if layout_valid d then find_segment (layout d) chunk_address else None in
  if layout_valid d && match segment with None => true | Some _ => false end
  then set_status cfg (MsgOutside chunk_address) ;; ret None
  else
    let chunk_size := chunk_size_at d segment firmware_len written in
    r <- (if negb (mass_erased d) && match segment with Some _ => true | None => false end
          then dfu_erase_range fuel cfg env d chunk_address (u32 chunk_size)
          else ret (true, d)) ;;
    let '(erased, d) := r in
    if negb erased then ret None
    else
      ok <- dfu_set_address_pointer fuel cfg env d chunk_address ;;
      if negb ok then ret None
      else
        let data_len := chunk_size in
        let aligned_len := aligned_length data_len in
        ok <- dfu_download_block fuel cfg env d data_block_number
                (chunk_payload firmware written data_len) (u16 aligned_len)
                false ;;
        if negb ok then
          set_status cfg (MsgWriteFailed chunk_address aligned_len) ;; ret None
        else ret (Some (d, written + data_len)).

(** The write loop of [dfu_loader_flash]; [n] bounds its iterations and
    [fuel] the loops inside. *)
Fixpoint write_loop (n fuel : nat) (cfg : caller) (env : environment)
  (d : stm32_dfu_device_t) (firmware : list Z) (firmware_len written : Z)
  : M bool :=
  match n with
  | O => if written <? firmware_len then stuck WriteLoop else ret true
  | S n' =>
      if written <? firmware_len then
        r <- write_chunk fuel cfg env d firmware firmware_len written ;;
        match r with
        | None => ret false
        | Some (d, written) =>
            report_progress cfg (write_percent d written firmware_len) ;;
            write_loop n' fuel cfg env d firmware firmware_len written
        end
      else ret true
  end.

(** The choice of the erase strategy in [dfu_loader_flash]: pages are
    erased as they are written when the layout is known, and the whole
    flash is erased at once when it is not. *)
Definition choose_erase (fuel : nat) (cfg : caller) (env : environment)
  (d : stm32_dfu_device_t) : M (bool * stm32_dfu_device_t) :=
  if layout_valid d then
    ret (true, with_last_erased_page (with_mass_erased d false) NO_PAGE)
  else
    set_status cfg MsgMassErase ;;
    report_progress cfg 3 ;;
    ok <- dfu_mass_erase fuel cfg env d ;;
    if negb ok then ret (false, d)
    else
      let d := with_mass_erased d true in
      ok <- dfu_prepare_idle fuel cfg env d ;;
      if negb ok then ret (false, d)
      else ret (true, with_last_erased_page d NO_PAGE).

(** [dfu_loader_flash] from the loading of the firmware file up to the
    write loop: whether the loop is reached, the device structure, the
    firmware and its length. *)
Definition flash_prepare (fuel : nat) (cfg : caller) (env : environment)
  : M (bool * stm32_dfu_device_t * (list Z * Z)) :=
  loaded <- load_firmware_file cfg env ;;
  match loaded with
  | None => ret (false, zero_device, ([], 0))
  | Some image =>
      set_status cfg MsgInitUsb ;;
      if negb (env_usb_init env =? LIBUSB_SUCCESS) then
        set_status cfg (MsgInitFailed (env_usb_init env)) ;;
        ret (false, zero_device, image)
      else
        set_status cfg MsgWaiting ;;
        found <- wait_for_stm32_dfu_device cfg env 10000 ;;
        match found with
        | None => ret (false, zero_device, image)
        | Some d =>
            set_status cfg MsgPreparing ;;
            ok <- dfu_prepare_idle fuel cfg env d ;;
            if negb ok then ret (false, d, image)
            else
              r <- choose_erase fuel cfg env d ;;
              let '(ok, d) := r in
              if negb ok then ret (false, d, image)
              else
                set_status cfg (MsgSetAddress STM32_BASE_ADDRESS) ;;
                ok <- dfu_set_address_pointer fuel cfg env d STM32_BASE_ADDRESS ;;
                if negb ok then ret (false, d, image)
                else
                  report_progress cfg (initial_percent d) ;;
                  set_status cfg MsgWriting ;;
                  if negb (env_chunk_alloc env) then
                    set_status cfg MsgNoBuffer ;; ret (false, d, image)
                  else ret (true, d, image)
        end
  end.

(** The end of [dfu_loader_flash] before the label [cleanup]: the final
    block of length zero. *)
Definition flash_finish (fuel : nat) (cfg : caller) (env : environment)
  (d : stm32_dfu_device_t) : M bool :=
  ok <- dfu_download_block fuel cfg env d data_block_number [] 0 true ;;
  if negb ok then ret false
  else
    report_progress cfg 99 ;;
    set_status cfg MsgDone ;;
    ret true.

(** [dfu_loader_flash] from the loading of the firmware file up to the
    label [cleanup]: the value of [success] and the device structure
    there. *)
Definition flash_body (fuel : nat) (cfg : caller) (env : environment)
  : M (bool * stm32_dfu_device_t) :=
  r <- flash_prepare fuel cfg env ;;
  let '(ready, d, (firmware, firmware_len)) := r in
  if negb ready then ret (false, d)
  else
    ok <- write_loop fuel fuel cfg env d firmware firmware_len 0 ;;
    if negb ok then ret (false, d)
    else
      ok <- flash_finish fuel cfg env d ;;
      ret (ok, d).

(** [dfu_loader_flash] up to the label [cleanup]. *)
Definition flash_steps (fuel : nat) (cfg : caller) (env : environment)
  : M (bool * stm32_dfu_device_t) :=
  report_progress cfg 0 ;;
  set_status cfg MsgLoading ;;
  flash_body fuel cfg env.

(** The code after the label [cleanup]. *)
Definition cleanup (cfg : caller) (success : bool) (d : stm32_dfu_device_t)
  : M bool :=
  (if success then report_progress cfg 100 else ret tt) ;;
  release_device d ;;
  (fun w =>
     if negb success && arg_status_buf cfg && (0 <? arg_status_len cfg)%nat
        && Ascii.eqb (hd Ascii.zero (w_status w)) Ascii.zero
     then set_status cfg MsgUnknown w
     else Done tt w) ;;
  ret success.

Definition dfu_loader_flash (fuel : nat) (cfg : caller) (env : environment)
  : M bool :=
  r <- flash_steps fuel cfg env ;;
  let '(success, d) := r in
  cleanup cfg success d.

(** The world at the call: no transfer made yet, and the bytes of the
    caller's status buffer. *)
Definition initial_world (buffer : list ascii) : world := mk_world 0 [] buffer.

(** ** The earlier loader

    The repository holds a second, earlier dfu_loader.c: it always erases
    the whole flash, sends the firmware unpadded and numbers its data
    blocks.  Its functions are modelled in this module under their own
    names. *)

Module Legacy.

Definition STM32_DEFAULT_TRANSFER : Z := 2048.

Fixpoint scan_descriptors (fuel : nat) (extra : list Z) : Z :=
  match fuel with
  | O => STM32_DEFAULT_TRANSFER
  | S fuel' =>
      let remaining := Z.of_nat (List.length extra) in
      if remaining <? 3 then STM32_DEFAULT_TRANSFER
      else
        let length := u8 (nth 0 extra 0) in
        let type := u8 (nth 1 extra 0) in
        if (length <? 3) || (remaining <? length) then STM32_DEFAULT_TRANSFER
        else if (type =? 0x21) && (9 <=? length) then
          let transfer :=
            u16 (Z.lor (u8 (nth 5 extra 0)) (Z.shiftl (u8 (nth 6 extra 0)) 8)) in
          if transfer =? 0 then STM32_DEFAULT_TRANSFER else transfer
        else scan_descriptors fuel' (skipn (Z.to_nat length) extra)
  end.

Definition parse_transfer_size (extra : list Z) : Z :=
  if Z.of_nat (List.length extra) <? 9 then STM32_DEFAULT_TRANSFER
  else scan_descriptors (List.length extra) extra.

Inductive message :=
| MsgLoading
| MsgPathInvalid
| MsgOpenFailed
| MsgSizeFailed
| MsgEmpty
| MsgNoMemory
| MsgReadFailed
| MsgInitUsb
| MsgInitFailed (ret : Z)
| MsgWaiting
| MsgEnumerateFailed (ret : Z)
| MsgAccess (ret : Z)
| MsgCannotOpen (ret : Z)
| MsgClaimFailed (ret : Z)
| MsgNoInterface
| MsgUsing (alt : Z) (name : string)
| MsgUsingUnnamed (alt : Z)
| MsgText (text : string)
| MsgNotFound
| MsgPreparing
| MsgErasing
| MsgStatusReadFailed (ret : Z)
| MsgDfuStatus (status state : Z)
| MsgDfuError
| MsgSendFailed (ret : Z)
| MsgSendIncomplete
| MsgSetAddress (address : Z)
| MsgWriting
| MsgDone
| MsgUnknown.

Definition render (m : message) : string :=
  let name := Format.libusb_error_name in
  (match m with
   | MsgLoading => "正在加载固件文件..."
   | MsgPathInvalid => "错误: 固件路径无效"
   | MsgOpenFailed => "错误: 无法打开固件文件"
   | MsgSizeFailed => "错误: 无法读取固件文件大小"
   | MsgEmpty => "错误: 固件文件为空"
   | MsgNoMemory => "错误: 内存不足，无法加载固件"
   | MsgReadFailed => "错误: 读取固件文件失败"
   | MsgInitUsb => "正在初始化 USB..."
   | MsgInitFailed r => "错误: 初始化 libusb 失败 (" ++ name r ++ ")"
   | MsgWaiting => "等待 DFU 设备出现..."
   | MsgEnumerateFailed r => "错误: 枚举 USB 设备失败 (" ++ name r ++ ")"
   | MsgAccess r =>
       "错误: 无法访问 DFU 设备，请安装 WinUSB/libusbK 驱动 (" ++ name r ++ ")"
   | MsgCannotOpen r => "错误: 无法打开 DFU 设备 (" ++ name r ++ ")"
   | MsgClaimFailed r => "错误: 无法占用 DFU 接口 (" ++ name r ++ ")"
   | MsgNoInterface => "错误: 未找到匹配的 DFU 接口"
   | MsgUsing alt text => "正在使用 DFU 接口 " ++ Format.dec alt ++ ": " ++ text
   | MsgUsingUnnamed alt => "正在使用 DFU 接口 " ++ Format.dec alt
   | MsgText text => text
   | MsgNotFound =>
       "错误: 未找到 DFU 设备 (VID=0x" ++ Format.hex 4 STM32_VENDOR_ID
         ++ " PID=0x" ++ Format.hex 4 STM32_PRODUCT_ID ++ ")"
   | MsgPreparing => "正在准备设备..."
   | MsgErasing => "正在擦除闪存..."
   | MsgStatusReadFailed r => "错误: 读取 DFU 状态失败 (" ++ name r ++ ")"
   | MsgDfuStatus status state =>
       "错误: DFU 状态 0x" ++ Format.hex 2 status
         ++ " (state=0x" ++ Format.hex 2 state ++ ")"
   | MsgDfuError => "错误: DFU 进入错误状态"
   | MsgSendFailed r => "错误: 发送 DFU 数据失败 (" ++ name r ++ ")"
   | MsgSendIncomplete => "错误: DFU 数据发送不完整"
   | MsgSetAddress a => "设置写入地址 0x" ++ Format.hex 8 a
   | MsgWriting => "正在写入固件..."
   | MsgDone => "固件写入完成，设备正在重启"
   | MsgUnknown => "未知错误: DFU 更新失败"
   end)%string.

Record stm32_dfu_device_t := mk_device {
  handle : bool;
  interface_number : Z;
  alt_setting : Z;
  transfer_size : Z;
  alt_name : string
}.

Definition zero_device : stm32_dfu_device_t := mk_device false 0 0 0 "".

(** One call of [open_stm32_dfu_device_once]: the claimed alternate
    setting, or the error left in the buffer of the caller. *)
Inductive attempt :=
| Attached (interface_number alt_setting : Z) (extra : list Z) (alt_name : string)
| Absent (error : option message).

Record environment := mk_environment {
  env_file : file_system;
  env_usb_init : Z;
  env_attempts : nat -> attempt;
  env_device : nat -> request -> transfer
}.

Definition set_status (cfg : caller) (m : message) : M unit :=
  fun w =>
    if arg_status_buf cfg && (0 <? arg_status_len cfg)%nat
    then Done tt (mk_world (w_calls w) (w_trace w)
                           (store (arg_status_len cfg) (render m) (w_status w)))
    else Done tt w.

Definition report_progress (cfg : caller) (percent : Z) : M unit :=
  if arg_progress_cb cfg then emit (EvProgress percent) else ret tt.

Definition load_firmware_file (cfg : caller) (env : environment)
  : M (option (list Z * Z)) :=
  if negb (arg_path cfg) then set_status cfg MsgPathInvalid ;; ret None
  else
    match env_file env with
    | FsNoFile => set_status cfg MsgOpenFailed ;; ret None
    | FsNoSeek => set_status cfg MsgSizeFailed ;; ret None
    | FsFile file_size alloc bytes_read =>
        if file_size <=? 0 then set_status cfg MsgEmpty ;; ret None
        else if negb alloc then set_status cfg MsgNoMemory ;; ret None
        else if negb (Z.of_nat (List.length bytes_read) =? file_size)
        then set_status cfg MsgReadFailed ;; ret None
        else ret (Some (bytes_read, file_size))
    end.

Definition opened_device (iface alt : Z) (extra : list Z) (name : string)
  : stm32_dfu_device_t :=
  mk_device true (u8 iface) (u8 alt) (parse_transfer_size extra) name.

(** The loop of [wait_for_stm32_dfu_device]; [last_error] is emptied
    before every attempt. *)
Fixpoint wait_attempts (cfg : caller) (env : environment) (n i : nat)
  (last_error : string) : M (option stm32_dfu_device_t) :=
  match n with
  | O =>
      (if arg_status_buf cfg && (0 <? arg_status_len cfg)%nat then
         if negb (at_char last_error "")
         then set_status cfg (MsgText last_error)
         else set_status cfg MsgNotFound
       else ret tt) ;;
      ret None
  | S n' =>
      match env_attempts env i with
      | Attached iface alt extra name =>
          let d := opened_device iface alt extra name in
          (if arg_status_buf cfg && (0 <? arg_status_len cfg)%nat then
             if negb (at_char (alt_name d) "")
             then set_status cfg (MsgUsing (alt_setting d) (alt_name d))
             else set_status cfg (MsgUsingUnnamed (alt_setting d))
           else ret tt) ;;
          ret (Some d)
      | Absent error =>
          Sleep 100 ;;
          wait_attempts cfg env n' (S i)
            match error with
            | Some m => Format.truncate 160 (render m)
            | None => ""%string
            end
      end
  end.

(** [timeout_ms / 100 + 1] attempts, for a [timeout_ms] below 4294967200,
    where the DWORD [elapsed] does not wrap; the loader passes 10000. *)
Definition wait_for_stm32_dfu_device (cfg : caller) (env : environment)
  (timeout_ms : Z) : M (option stm32_dfu_device_t) :=
  wait_attempts cfg env (Z.to_nat (timeout_ms / 100 + 1)) 0 "".

Definition release_device (d : stm32_dfu_device_t) : M unit :=
  if handle d then emit (EvRelease (interface_number d)) else ret tt.

Definition request_of (d : stm32_dfu_device_t) (dir_in : bool) (code value : Z)
  (data : list Z) (length : Z) : request :=
  mk_request dir_in code value (interface_number d)
             (firstn (Z.to_nat length) data) length.

Definition dfu_get_status (env : environment) (d : stm32_dfu_device_t)
  : M (Z * dfu_status_t) :=
  x <- control_transfer (env_device env)
         (request_of d true DFU_REQUEST_GETSTATUS 0 [] 6) ;;
  if x_ret x <? 0 then ret (x_ret x, zero_status)
  else if negb (x_ret x =? 6) then ret (LIBUSB_ERROR_IO, zero_status)
  else
    ret (LIBUSB_SUCCESS,
         mk_status (reply_byte x 0) (reply_byte x 4)
                   (Z.lor (Z.lor (reply_byte x 1) (Z.shiftl (reply_byte x 2) 8))
                          (Z.shiftl (reply_byte x 3) 16))).

Definition dfu_clear_status (env : environment) (d : stm32_dfu_device_t) : M bool :=
  x <- control_transfer (env_device env)
         (request_of d false DFU_REQUEST_CLRSTATUS 0 [] 0) ;;
  ret (0 <=? x_ret x).

Definition dfu_abort (env : environment) (d : stm32_dfu_device_t) : M bool :=
  x <- control_transfer (env_device env)
         (request_of d false DFU_REQUEST_ABORT 0 [] 0) ;;
  ret (0 <=? x_ret x).

Fixpoint dfu_wait_ready (fuel : nat) (cfg : caller) (env : environment)
  (d : stm32_dfu_device_t) (allow_manifest : bool) : M bool :=
  match fuel with
  | O => stuck PollLoop
  | S fuel' =>
      r <- dfu_get_status env d ;;
      let '(ret_code, st) := r in
      if ret_code =? LIBUSB_ERROR_NO_DEVICE then ret allow_manifest
      else if negb (ret_code =? LIBUSB_SUCCESS) then
        set_status cfg (MsgStatusReadFailed ret_code) ;; ret false
      else if negb (status st =? 0) then
        dfu_clear_status env d ;;
        set_status cfg (MsgDfuStatus (status st) (state st)) ;;
        ret false
      else if is_idle_state (state st) then ret true
      else if is_manifest_state (state st) then ret allow_manifest
      else if state st =? DFU_STATE_dfuERROR then
        dfu_clear_status env d ;;
        set_status cfg MsgDfuError ;;
        ret false
      else
        Sleep (if 0 <? poll_timeout_ms st then poll_timeout_ms st else 5) ;;
        dfu_wait_ready fuel' cfg env d allow_manifest
  end.

Definition dfu_download_block (fuel : nat) (cfg : caller) (env : environment)
  (d : stm32_dfu_device_t) (block_number : Z) (data : list Z) (length : Z)
  (allow_manifest : bool) : M bool :=
  x <- control_transfer (env_device env)
         (request_of d false DFU_REQUEST_DNLOAD block_number data length) ;;
  if x_ret x <? 0 then set_status cfg (MsgSendFailed (x_ret x)) ;; ret false
  else if negb (x_ret x =? length) then set_status cfg MsgSendIncomplete ;; ret false
  else dfu_wait_ready fuel cfg env d allow_manifest.

Definition dfu_set_address_pointer (fuel : nat) (cfg : caller) (env : environment)
  (d : stm32_dfu_device_t) (address : Z) : M bool :=
  dfu_download_block fuel cfg env d 0 (special_payload 0x21 address) 5 false.

Definition dfu_mass_erase (fuel : nat) (cfg : caller) (env : environment)
  (d : stm32_dfu_device_t) : M bool :=
  dfu_download_block fuel cfg env d 0 [0x41; 0xFF; 0xFF] 3 false.

Definition dfu_prepare_idle (fuel : nat) (cfg : caller) (env : environment)
  (d : stm32_dfu_device_t) : M bool :=
  ok <- dfu_wait_ready fuel cfg env d true ;;
  if negb ok then
    dfu_abort env d ;;
    Sleep 5 ;;
    dfu_wait_ready fuel cfg env d true
  else ret true.

Definition write_percent (written firmware_len : Z) : Z :=
  let percent := 6 + (written * 90) / firmware_len in
  if 95 <? percent then 95 else percent.

(** The write loop of the earlier [dfu_loader_flash]. *)
Fixpoint write_loop (n fuel : nat) (cfg : caller) (env : environment)
  (d : stm32_dfu_device_t) (firmware : list Z) (firmware_len : Z)
  (block_number written : Z) : M bool :=
  match n with
  | O => if written <? firmware_len then stuck WriteLoop else ret true
  | S n' =>
      if written <? firmware_len then
        let remaining := firmware_len - written in
        let chunk :=
          u16 (if transfer_size d <? remaining then transfer_size d else remaining) in
        ok <- dfu_download_block fuel cfg env d block_number
                (skipn (Z.to_nat written) firmware) chunk false ;;
        if negb ok then ret false
        else
          let written := written + chunk in
          let block_number := u16 (block_number + 1) in
          report_progress cfg (write_percent written firmware_len) ;;
          write_loop n' fuel cfg env d firmware firmware_len block_number written
      else ret true
  end.

(** The earlier [dfu_loader_flash] up to its write loop. *)
Definition flash_prepare (fuel : nat) (cfg : caller) (env : environment)
  : M (bool * stm32_dfu_device_t * (list Z * Z)) :=
  loaded <- load_firmware_file cfg env ;;
  match loaded with
  | None => ret (false, zero_device, ([], 0))
  | Some image =>
      set_status cfg MsgInitUsb ;;
      if negb (env_usb_init env =? LIBUSB_SUCCESS) then
        set_status cfg (MsgInitFailed (env_usb_init env)) ;;
        ret (false, zero_device, image)
      else
        set_status cfg MsgWaiting ;;
        found <- wait_for_stm32_dfu_device cfg env 10000 ;;
        match found with
        | None => ret (false, zero_device, image)
        | Some d =>
            set_status cfg MsgPreparing ;;
            ok <- dfu_prepare_idle fuel cfg env d ;;
            if negb ok then ret (false, d, image)
            else
              set_status cfg MsgErasing ;;
              report_progress cfg 3 ;;
              ok <- dfu_mass_erase fuel cfg env d ;;
              if negb ok then ret (false, d, image)
              else
                ok <- dfu_prepare_idle fuel cfg env d ;;
                if negb ok then ret (false, d, image)
                else
                  set_status cfg (MsgSetAddress STM32_BASE_ADDRESS) ;;
                  ok <- dfu_set_address_pointer fuel cfg env d STM32_BASE_ADDRESS ;;
                  if negb ok then ret (false, d, image)
                  else
                    report_progress cfg 6 ;;
                    set_status cfg MsgWriting ;;
                    ret (true, d, image)
        end
  end.

Definition flash_finish (fuel : nat) (cfg : caller) (env : environment)
  (d : stm32_dfu_device_t) : M bool :=
  ok <- dfu_download_block fuel cfg env d 0 [] 0 true ;;
  if negb ok then ret false
  else
    report_progress cfg 99 ;;
    set_status cfg MsgDone ;;
    ret true.

Definition flash_body (fuel : nat) (cfg : caller) (env : environment)
  : M (bool * stm32_dfu_device_t) :=
  r <- flash_prepare fuel cfg env ;;
  let '(ready, d, (firmware, firmware_len)) := r in
  if negb ready then ret (false, d)
  else
    ok <- write_loop fuel fuel cfg env d firmware firmware_len 2 0 ;;
    if negb ok then ret (false, d)
    else
      ok <- flash_finish fuel cfg env d ;;
      ret (ok, d).

Definition cleanup (cfg : caller) (success : bool) (d : stm32_dfu_device_t)
  : M bool :=
  (if success then report_progress cfg 100 else ret tt) ;;
  release_device d ;;
  (fun w =>
     if negb success && arg_status_buf cfg && (0 <? arg_status_len cfg)%nat
        && Ascii.eqb (hd Ascii.zero (w_status w)) Ascii.zero
     then set_status cfg MsgUnknown w
     else Done tt w) ;;
  ret success.

Definition dfu_loader_flash (fuel : nat) (cfg : caller) (env : environment)
  : M bool :=
  report_progress cfg 0 ;;
  set_status cfg MsgLoading ;;
  r <- flash_body fuel cfg env ;;
  let '(success, d) := r in
  cleanup cfg success d.

End Legacy.

(** ** The words of the specification *)

(** The invariant the specification states for a memory segment. *)
Definition segment_invariant (s : stm32_dfu_segment_t) : Prop :=
  seg_start s < seg_end s /\ seg_page_size s > 0
  /\ (seg_end s - seg_start s) mod seg_page_size s = 0.

Definition disjoint_segments (s t : stm32_dfu_segment_t) : Prop :=
  seg_end s <= seg_start t \/ seg_end t <= seg_start s.

(** No two entries of the list overlap. *)
Definition non_overlapping (l : list stm32_dfu_segment_t) : Prop :=
  forall i j s t, nth_error l i = Some s -> nth_error l j = Some t -> i <> j ->
                  disjoint_segments s t.

Definition memory_layout_invariant (l : list stm32_dfu_segment_t) : Prop :=
  Forall segment_invariant l /\ non_overlapping l.

(** What the parser does establish for a segment read with the page
    count [cnt]: the fields are 32-bit values, the page size is not zero
    and the end is the start plus [cnt] pages, both taken modulo 2^32. *)
Definition parsed_as (s : stm32_dfu_segment_t) (cnt : Z) : Prop :=
  0 <= cnt <= ULONG_MAX
  /\ 0 <= seg_start s <= ULONG_MAX /\ 0 <= seg_end s <= ULONG_MAX
  /\ 0 < seg_page_size s <= ULONG_MAX
  /\ seg_end s = u32 (seg_start s + u32 (cnt * seg_page_size s)).

Definition parsed_segment (s : stm32_dfu_segment_t) : Prop :=
  exists cnt, parsed_as s cnt.

(** The values of [start], [count] and [page_size] when the parse loop
    reaches the store of a segment. *)
Record section_values := mk_values {
  val_start : Z;
  val_count : Z;
  val_page_size : Z
}.

(** The segment the loop stores for these values when a slot is left. *)
Definition stored_segment (v : section_values) : stm32_dfu_segment_t :=
  let s := u32 (val_start v) in
  let length := val_count v * val_page_size v in
  mk_segment s (u32 (s + u32 length)) (val_page_size v).

(** The loop of [parse_alt_memory_layout] once more, keeping in place of
    the layout the values it has each time it reaches the store of a
    segment, whether a slot is left or not. *)
Fixpoint sections_read (fuel : nat) (cursor : string) : list section_values :=
  match fuel with
  | O => []
  | S fuel' =>
      match strchr cursor "/" with
      | None => []
      | Some at_slash =>
          let cursor := next at_slash in
          if negb (at_char cursor "0" && (at_char (next cursor) "x" || at_char (next cursor) "X"))
          then sections_read fuel' cursor
          else
            let '(start, endptr) := strtoul cursor 16 in
            if negb (at_char endptr "/") then sections_read fuel' endptr
            else
              let cursor := next endptr in
              let '(cnt, endptr) := strtoul cursor 10 in
              if negb (at_char endptr "*") then sections_read fuel' endptr
              else
                let cursor := next endptr in
                let '(page_size, cursor) := parse_size_bytes cursor in
                if page_size =? 0 then sections_read fuel' cursor
                else mk_values start cnt page_size :: sections_read fuel' cursor
      end
  end.

Definition sections_of_name (name : option string) : list section_values :=
  match name with
  | Some text => sections_read (S (String.length text)) text
  | None => []
  end.

(** The stores of the loop for the values read, in order. *)
Definition store_sections (l : stm32_dfu_memory_layout_t) (read : list section_values)
  : stm32_dfu_memory_layout_t :=
  fold_left (fun l v => add_segment l (val_start v) (val_count v) (val_page_size v))
            read l.

(** The layout the loader derives from an alternate-setting name. *)
Definition layout_of_name (name : string) : list stm32_dfu_segment_t :=
  layout_segments (snd (parse_alt_memory_layout (Some name) zero_layout)).

(** ** Reading a trace *)

Definition result_world {A} (o : outcome A) : world :=
  match o with
  | Done _ w => w
  | Stuck _ w => w
  end.

Definition is_dnload (rq : request) : bool :=
  negb (rq_in rq) && (rq_code rq =? DFU_REQUEST_DNLOAD).

(** The events that are neither a progress report nor a DNLOAD request. *)
Definition quiet (e : event) : bool :=
  match e with
  | EvProgress _ => false
  | EvControl rq => negb (is_dnload rq)
  | _ => true
  end.

(** The progress reports and DNLOAD requests of a trace, in order. *)
Definition visible (tr : list event) : list event :=
  filter (fun e => negb (quiet e)) tr.

Definition progress_of (tr : list event) : list Z :=
  flat_map (fun e => match e with EvProgress p => [p] | _ => [] end) tr.

Definition dnloads_of (tr : list event) : list request :=
  flat_map (fun e => match e with
                     | EvControl rq => if is_dnload rq then [rq] else []
                     | _ => []
                     end) tr.

(** [w'] continues [w] with events that all satisfy [p]. *)
Definition only (p : event -> bool) (w w' : world) : Prop :=
  exists evs, w_trace w' = w_trace w ++ evs /\ forallb p evs = true.

Definition quiet_step : world -> world -> Prop := only quiet.

(** The events that are not a progress report. *)
Definition unreported (e : event) : bool :=
  match e with
  | EvProgress _ => false
  | _ => true
  end.

(** What a class of events admits: progress reports, DNLOAD requests of
    the data block number, and the vendor command [command] sent with
    [len] bytes. *)
Definition allows_progress (p : event -> bool) : Prop :=
  forall percent, p (EvProgress percent) = true.

Definition allows_data (p : event -> bool) : Prop :=
  forall d data len, p (EvControl (dnload_request d data_block_number data len)) = true.

Definition allows_command (p : event -> bool) (command len : Z) : Prop :=
  forall d address,
    p (EvControl (dnload_request d 0 (special_payload command address) len)) = true.

(** The status buffer of [w'] is that of [w] or was written by
    [set_status]. *)
Definition status_step (cfg : caller) (w w' : world) : Prop :=
  w_status w' = w_status w
  \/ exists text old, w_status w' = store (arg_status_len cfg) text old.

(** A computation whose every run is related to its start by [R]. *)
Definition keeps {A} (R : world -> world -> Prop) (m : M A) : Prop :=
  forall w, R w (result_world (m w)).

(** ** One poll of the device *)

(** The world after the GETSTATUS request, after a CLRSTATUS request and
    after a sleep. *)
Definition polled (d : stm32_dfu_device_t) (w : world) : world :=
  mk_world (S (w_calls w)) (w_trace w ++ [EvControl (get_status_request d)])
           (w_status w).

Definition cleared (d : stm32_dfu_device_t) (w : world) : world :=
  mk_world (S (w_calls w)) (w_trace w ++ [EvControl (clear_status_request d)])
           (w_status w).

Definition slept (ms : Z) (w : world) : world :=
  mk_world (w_calls w) (w_trace w ++ [EvSleep ms]) (w_status w).

(** The answer of the device to the next GETSTATUS request. *)
Definition status_reply (env : environment) (d : stm32_dfu_device_t) (w : world)
  : transfer :=
  env_device env (w_calls w) (get_status_request d).

Definition reply_status (x : transfer) : Z := reply_byte x 0.
Definition reply_state (x : transfer) : Z := reply_byte x 4.
Definition reply_poll_timeout (x : transfer) : Z :=
  Z.lor (Z.lor (reply_byte x 1) (Z.shiftl (reply_byte x 2) 8))
        (Z.shiftl (reply_byte x 3) 16).

(** A failure that reports [m]. *)
Definition fail_with (cfg : caller) (m : message) : M bool :=
  set_status cfg m ;; ret false.

(** The pause between two polls as the specification words it. *)
Definition spec_poll_pause (poll_timeout : Z) : Z := Z.max poll_timeout 5.

(** The pause between two polls in [dfu_wait_ready]. *)
Definition poll_pause (poll_timeout : Z) : Z :=
  if 0 <? poll_timeout then poll_timeout else 5.

(** A device that is busy once, asking for 3 ms, and idle afterwards. *)
Definition busy_once_device (n : nat) (rq : request) : transfer :=
  match n with
  | O => mk_transfer 6 [0; 3; 0; 0; DFU_STATE_dfuDNBUSY; 0]
  | S _ => mk_transfer 6 [0; 0; 0; 0; DFU_STATE_dfuIDLE; 0]
  end.

Definition no_caller : caller := mk_caller true false None false 0.

Definition bare_environment (device : nat -> request -> transfer) : environment :=
  mk_environment FsNoFile 0 (fun _ => Absent []) true device.

(** ** The run as the specification describes it *)

(** Whether a progress report reaches a callback. *)
Definition has_progress_sink (cfg : caller) : bool :=
  match arg_client cfg with
  | Some client => progress_cb client || arg_progress_cb cfg
  | None => arg_progress_cb cfg
  end.

Definition progress_event (cfg : caller) (percent : Z) : list event :=
  if has_progress_sink cfg then [EvProgress percent] else [].

(** The image [load_firmware_file] returns. *)
Definition loaded_image (cfg : caller) (env : environment) : option (list Z * Z) :=
  if negb (arg_path cfg) then None
  else
    match env_file env with
    | FsFile file_size alloc bytes_read =>
        if (0 <? file_size) && alloc
           && (Z.of_nat (List.length bytes_read) =? file_size)
        then Some (bytes_read, file_size)
        else None
    | _ => None
    end.

(** The device the first successful attempt among [n], from attempt
    number [i] on, attaches. *)
Fixpoint first_attached (env : environment) (n i : nat)
  : option stm32_dfu_device_t :=
  match n with
  | O => None
  | S n' =>
      match env_attempts env i with
      | Attached _ iface alt extra name => Some (opened_device iface alt extra name)
      | Absent _ => first_attached env n' (S i)
      end
  end.

Definition attached_device (env : environment) : option stm32_dfu_device_t :=
  first_attached env 101 0.

(** The device structure when the write loop starts. *)
Definition session_device (d : stm32_dfu_device_t) : stm32_dfu_device_t :=
  if layout_valid d
  then with_last_erased_page (with_mass_erased d false) NO_PAGE
  else with_last_erased_page (with_mass_erased d true) NO_PAGE.

(** The sizes of the chunks of [remaining] bytes sent [transfer] bytes at
    a time. *)
Fixpoint chunks (fuel : nat) (transfer remaining : Z) : list Z :=
  match fuel with
  | O => []
  | S fuel' =>
      if 0 <? remaining then
        let c := Z.min transfer remaining in
        c :: chunks fuel' transfer (remaining - c)
      else []
  end.

Definition chunk_sizes (transfer firmware_len : Z) : list Z :=
  chunks (Z.to_nat firmware_len) transfer firmware_len.






Definition block_numbers (tr : list event) : list Z :=
  map rq_value (dnloads_of tr).

(** The block numbers the specification gives [n] data chunks: from 2,
    one more per chunk, in 16 bits. *)
Definition spec_block_numbers (n : nat) : list Z :=
  map (fun i => u16 (2 + Z.of_nat i)) (seq 0 n).

Definition is_vendor_command (rq : request) : bool :=
  match rq_data rq with
  | c :: _ => (c =? 0x21) || (c =? 0x41)
  | [] => false
  end.

(** A DNLOAD request is a vendor command in block 0 or carries the data
    block number. *)
Definition block_number_ok (e : event) : bool :=
  match e with
  | EvControl rq =>
      negb (is_dnload rq)
      || ((rq_value rq =? 0) && is_vendor_command rq)
      || (rq_value rq =? data_block_number)
  | _ => true
  end.

(** What [dfu_loader_flash] sends and reports between the loading of the
    file and the write loop, for the device [d] that was attached. *)
Definition prepare_events (cfg : caller) (d : stm32_dfu_device_t) : list event :=
  (if layout_valid d then []
   else progress_event cfg 3
        ++ [EvControl (dnload_request d 0 (special_payload 0x41 0) 1)])
  ++ [EvControl (dnload_request d 0 (special_payload 0x21 STM32_BASE_ADDRESS) 5)]
  ++ progress_event cfg (initial_percent d).

(** The final block and the reports after it. *)
Definition finish_events (cfg : caller) (d : stm32_dfu_device_t) : list event :=
  [EvControl (dnload_request d data_block_number [] 0)]
  ++ progress_event cfg 99 ++ progress_event cfg 100.


(** [d'] is the session [d] but for the page erased last. *)
Definition same_session (d d' : stm32_dfu_device_t) : Prop :=
  d' = with_last_erased_page d (last_erased_page d').

Definition contains (s : stm32_dfu_segment_t) (address : Z) : Prop :=
  seg_start s <= address < seg_end s.

(** The address of the byte at offset [k] of the image. *)
Definition image_address (k : Z) : Z := STM32_BASE_ADDRESS + k.

(** The address of the chunk at offset [written] and the segment the
    write loop finds for it. *)
Definition chunk_address (written : Z) : Z := u32 (STM32_BASE_ADDRESS + u32 written).

Definition chunk_segment (d : stm32_dfu_device_t) (written : Z)
  : option stm32_dfu_segment_t :=
  if layout_valid d then find_segment (layout d) (chunk_address written) else None.

(** A computation that is never cut off inside the loop [l]. *)
Definition never (l : loop) {A} (m : M A) : Prop :=
  forall w w', m w <> Stuck l w'.

(** A computation that is cut off inside the loop [l] whatever number of
    rounds [fuel] its loops are given: the code does not return. *)
Definition stalls (l : loop) {A} (run : nat -> M A) (w : world) : Prop :=
  forall fuel, exists w', run fuel w = Stuck l w'.

(** A device that accepts every block and is busy at every poll. *)
Definition busy_device (n : nat) (rq : request) : transfer :=
  if rq_in rq then mk_transfer 6 [0; 0; 0; 0; DFU_STATE_dfuDNBUSY; 0]
  else mk_transfer (rq_length rq) [].

(** A device that takes every block and is idle at every poll. *)
Definition accepting_device (n : nat) (rq : request) : transfer :=
  if rq_in rq then mk_transfer 6 [0; 0; 0; 0; DFU_STATE_dfuDNLOAD_IDLE; 0]
  else mk_transfer (rq_length rq) [].

(** A DFU functional descriptor announcing [transfer] bytes per block. *)
Definition functional_descriptor (transfer : Z) : list Z :=
  [9; 0x21; 0x0B; 0xFF; 0x00; transfer mod 256; transfer / 256; 0x1A; 0x01].

(** A file of [len] bytes and a device that attaches at once, with the
    alternate setting [name] and [transfer] bytes per block. *)
Definition scenario (device : nat -> request -> transfer) (len transfer : Z)
  (name : string) : environment :=
  mk_environment (FsFile len true (repeat 0xAA (Z.to_nat len))) 0
                 (fun _ => Attached [] 0 0 (functional_descriptor transfer) name)
                 true device.

(** The session of the examples: the device of [scenario] when the write
    loop starts. *)
Definition scenario_session (transfer : Z) (name : string) : stm32_dfu_device_t :=
  session_device (opened_device 0 0 (functional_descriptor transfer) name).

(** The events other than a DNLOAD request. *)
Definition no_dnload (e : event) : bool :=
  match e with
  | EvControl rq => negb (is_dnload rq)
  | _ => true
  end.

(** The DNLOAD requests of the earlier loader before and after its write
    loop: mass erase, address pointer, and the final block. *)
Definition legacy_mass_erase_request (d : Legacy.stm32_dfu_device_t) : request :=
  Legacy.request_of d false DFU_REQUEST_DNLOAD 0 [0x41; 0xFF; 0xFF] 3.

Definition legacy_address_request (d : Legacy.stm32_dfu_device_t) : request :=
  Legacy.request_of d false DFU_REQUEST_DNLOAD 0
                    (special_payload 0x21 STM32_BASE_ADDRESS) 5.

Definition legacy_final_request (d : Legacy.stm32_dfu_device_t) : request :=
  Legacy.request_of d false DFU_REQUEST_DNLOAD 0 [] 0.

(** [scenario] for the earlier loader. *)
Definition legacy_scenario (device : nat -> request -> transfer) (len transfer : Z)
  (name : string) : Legacy.environment :=
  Legacy.mk_environment (FsFile len true (repeat 0xAA (Z.to_nat len))) 0
                        (fun _ => Legacy.Attached 0 0 (functional_descriptor transfer)
                                                  name)
                        device.

(** ** Triples *)

(** From a world where [P] holds, [m] returns [a] in a world where [Q a]
    holds, or is cut off in a world where [X] holds. *)
Definition hoare {A} (P : world -> Prop) (m : M A) (Q : A -> world -> Prop)
  (X : world -> Prop) : Prop :=
  forall w, P w ->
    match m w with
    | Done a w' => Q a w'
    | Stuck _ w' => X w'
    end.

(** ** The erase planner in the trace *)

(** An erase-page command: the vendor command 0x41 with an address, sent
    as five bytes in block 0. *)
Definition is_erase_page (rq : request) : bool :=
  is_dnload rq && (rq_value rq =? 0) && (rq_length rq =? 5)
  && match rq_data rq with
     | c :: _ => c =? 0x41
     | [] => false
     end.

(** The little-endian address in the payload of a vendor command. *)
Definition payload_address (data : list Z) : Z :=
  nth 1 data 0 + 256 * nth 2 data 0 + 65536 * nth 3 data 0
  + 16777216 * nth 4 data 0.

(** The pages of the erase-page commands of a trace, in order. *)
Definition erased_pages (tr : list event) : list Z :=
  flat_map (fun e => match e with
                     | EvControl rq =>
                         if is_erase_page rq then [payload_address (rq_data rq)]
                         else []
                     | _ => []
                     end) tr.

Definition not_erase_page (e : event) : bool :=
  match e with
  | EvControl rq => negb (is_erase_page rq)
  | _ => true
  end.

(** No two consecutive elements of the list are the same. *)
Fixpoint no_repeat (l : list Z) : Prop :=
  match l with
  | a :: l' =>
      match l' with
      | b :: _ => a <> b
      | [] => True
      end /\ no_repeat l'
  | [] => True
  end.

Definition last_page (l : list Z) : option Z := last (map Some l) None.

(** No page is erased twice in a row in the trace of [w]. *)
Definition erase_safe (w : world) : Prop := no_repeat (erased_pages (w_trace w)).

(** The same, and [last_erased_page] is the page erased last, if any. *)
Definition erase_tracked (d : stm32_dfu_device_t) (w : world) : Prop :=
  erase_safe w
  /\ forall page, last_page (erased_pages (w_trace w)) = Some page ->
                  last_erased_page d = page.

(** What [dfu_erase_range] leaves: the trace is safe, and tracked by the
    device structure it returns when it succeeds. *)
Definition erase_result (r : bool * stm32_dfu_device_t) (w : world) : Prop :=
  erase_safe w /\ (fst r = true -> erase_tracked (snd r) w).

(** The page of [start] in [segment], as [dfu_erase_range] computes it. *)
Definition page_base_of (segment : stm32_dfu_segment_t) (start : Z) : Z :=
  u32 (seg_start segment +
       u32 (u32 (u32 (start - seg_start segment) / seg_page_size segment)
            * seg_page_size segment)).

(** The range of [len] bytes at [address] lies in one page of [s], and
    the page in [s]; the fields of [s] are 32-bit values. *)
Definition in_one_page (s : stm32_dfu_segment_t) (address len : Z) : Prop :=
  0 <= seg_start s /\ seg_end s <= ULONG_MAX /\ 0 < seg_page_size s
  /\ contains s address /\ 0 <= len
  /\ address + len <= page_base_of s address + seg_page_size s
  /\ page_base_of s address + seg_page_size s <= seg_end s.

(** A session with sixteen pages of 1 KiB from the base address. *)
Definition paged_session : stm32_dfu_device_t :=
  session_device
    (opened_device 0 0 (functional_descriptor 1024)
                   "@Internal Flash  /0x08000000/16*001Kg").

Definition first_page : stm32_dfu_segment_t :=
  mk_segment 0x08000000 0x08004000 1024.

(** ** Progress in the trace *)

(** No element of the list is less than the one before it. *)
Fixpoint nondecreasing (l : list Z) : Prop :=
  match l with
  | a :: l' =>
      match l' with
      | b :: _ => a <= b
      | [] => True
      end /\ nondecreasing l'
  | [] => True
  end.

(** The percentages reported so far do not decrease, and none is above
    [a]. *)
Definition reported_up_to (a : Z) (w : world) : Prop :=
  nondecreasing (progress_of (w_trace w))
  /\ Forall (fun p => p <= a) (progress_of (w_trace w)).

(** The reports of a run that has returned [success]: reports up to 99,
    and then 100 when [success] is true. *)
Definition reported_at_return (cfg : caller) (success : bool) (w : world) : Prop :=
  exists before,
    nondecreasing before /\ Forall (fun p => p <= 99) before
    /\ progress_of (w_trace w)
       = before ++ (if success then progress_of (progress_event cfg 100) else []).

(** ** Descriptors in the extra bytes *)

(** A descriptor as it lies in the extra bytes of an alternate setting:
    bytes, the first of which is the length of the descriptor. *)
Definition well_formed_descriptor (desc : list Z) : Prop :=
  Forall (fun b => 0 <= b <= 255) desc
  /\ 3 <= Z.of_nat (List.length desc)
  /\ nth 0 desc 0 = Z.of_nat (List.length desc).

(** A DFU functional descriptor: type 0x21 and nine bytes or more. *)
Definition is_functional (desc : list Z) : Prop :=
  nth 1 desc 0 = 0x21 /\ 9 <= Z.of_nat (List.length desc).

(** The field wTransferSize of a functional descriptor, little-endian. *)
Definition wTransferSize (desc : list Z) : Z :=
  nth 5 desc 0 + 256 * nth 6 desc 0.

(** ** Discovery: the descriptors of a device *)

Definition LIBUSB_CLASS_APPLICATION : Z := 0xFE.

(** [strstr]: the offset of the first occurrence of [needle], if any. *)
Definition strstr (haystack needle : string) : option nat :=
  String.index 0 needle haystack.

(** [struct libusb_interface_descriptor]: the fields the loader reads;
    [extra] holds the [extra_length] extra bytes. *)
Record libusb_interface_descriptor := mk_interface_descriptor {
  bInterfaceNumber : Z;
  bAlternateSetting : Z;
  bInterfaceClass : Z;
  bInterfaceSubClass : Z;
  bInterfaceProtocol : Z;
  iInterface : Z;
  extra : list Z
}.

(** [struct libusb_interface]: the alternate settings of an interface. *)
Definition libusb_interface : Type := list libusb_interface_descriptor.

(** [struct libusb_config_descriptor]: the interfaces. *)
Definition libusb_config_descriptor : Type := list libusb_interface.

(** What [libusb_get_string_descriptor_ascii] answers for an index: the
    string, or nothing when the call fails. *)
Definition string_table : Type := Z -> option string.

Definition is_dfu_interface (alt : libusb_interface_descriptor) : bool :=
  (bInterfaceClass alt =? LIBUSB_CLASS_APPLICATION)
  && (bInterfaceSubClass alt =? 1) && (bInterfaceProtocol alt =? 2).

(** The buffer [name] of 128 bytes in [select_dfu_interface]: zeroed, then
    filled by the library when the alternate setting has a string. *)
Definition alt_string (strings : string_table) (alt : libusb_interface_descriptor)
  : string :=
  if iInterface alt =? 0 then ""%string
  else
    match strings (iInterface alt) with
    | Some text => Format.truncate 128 text
    | None => ""%string
    end.

Definition is_internal (name : string) : bool :=
  match strstr name "Internal" with
  | Some _ => true
  | None => false
  end.

(** The structure [selected] after the assignments for [alt]. *)
Definition selected_device (alt : libusb_interface_descriptor) (name : string)
  : stm32_dfu_device_t :=
  mk_device true (u8 (bInterfaceNumber alt)) (u8 (bAlternateSetting alt))
            (parse_transfer_size (extra alt)) (Format.truncate 128 name)
            0 false false zero_layout.

(** The inner loop of [select_dfu_interface] over the alternate settings
    of one interface; [selected] is set once [found] is. *)
Fixpoint select_altsetting (strings : string_table) (alts : libusb_interface)
  (selected : option stm32_dfu_device_t) : option stm32_dfu_device_t :=
  match alts with
  | [] => selected
  | alt :: rest =>
      if negb (is_dfu_interface alt) then select_altsetting strings rest selected
      else
        let name := alt_string strings alt in
        let selected := Some (selected_device alt name) in
        if is_internal name then selected
        else select_altsetting strings rest selected
  end.

(** The outer loop, which ends as soon as [found] is set. *)
Fixpoint select_interface (strings : string_table)
  (interfaces : libusb_config_descriptor) : option stm32_dfu_device_t :=
  match interfaces with
  | [] => None
  | iface :: rest =>
      match select_altsetting strings iface None with
      | Some selected => Some selected
      | None => select_interface strings rest
      end
  end.

(** [select_dfu_interface]; [config] is what
    [libusb_get_active_config_descriptor] gives. *)
Definition select_dfu_interface (config : option libusb_config_descriptor)
  (strings : string_table) : option stm32_dfu_device_t :=
  match config with
  | None => None
  | Some interfaces => select_interface strings interfaces
  end.

(** ** Discovery: the devices of the bus *)

(** One device of the list: its device descriptor (idVendor, idProduct)
    when it can be read, the result of [libusb_open] (a handle is given
    with LIBUSB_SUCCESS and only then), its descriptors, and the results
    of claiming the interface and of setting the alternate setting. *)
Record usb_device := mk_usb_device {
  usb_descriptor : option (Z * Z);
  usb_open : Z;
  usb_config : option libusb_config_descriptor;
  usb_strings : string_table;
  usb_claim : Z;
  usb_set_alt : Z
}.

(** [libusb_get_device_list]: a negative count, or the list. *)
Inductive device_list :=
| ListError (count : Z)
| Listed (devices : list usb_device).

(** What [open_stm32_dfu_device_once] does to handles and interfaces;
    the number is the index of the device in the list. *)
Inductive usb_action :=
| UsbOpened (index : nat)
| UsbClaimed (index : nat) (interface_number : Z)
| UsbReleased (index : nat) (interface_number : Z)
| UsbClosed (index : nat).

(** The end of [open_stm32_dfu_device_once] for the device that is
    kept. *)
Definition attach (device : stm32_dfu_device_t) : stm32_dfu_device_t :=
  let parsed := parse_alt_memory_layout (Some (alt_name device)) (layout device) in
  mk_device true (interface_number device) (alt_setting device)
            (transfer_size device) (alt_name device) NO_PAGE (fst parsed)
            (mass_erased device) (snd parsed).

(** The outcome of one device that is not kept, before that of the
    devices after it. *)
Definition and_then (errors : list message) (actions : list usb_action)
  (tail : list message * list usb_action * option stm32_dfu_device_t)
  : list message * list usb_action * option stm32_dfu_device_t :=
  let '(errors', actions', result) := tail in
  (errors ++ errors', actions ++ actions', result).

(** The loop of [open_stm32_dfu_device_once] from device number [i] on:
    the messages it writes, in order, what it opens and closes, and the
    device structure it returns.  The result of
    [libusb_detach_kernel_driver] is not looked at. *)
Fixpoint open_devices (devices : list usb_device) (i : nat)
  : list message * list usb_action * option stm32_dfu_device_t :=
  match devices with
  | [] => ([], [], None)
  | dev :: rest =>
      let tail := open_devices rest (S i) in
      match usb_descriptor dev with
      | None => tail
      | Some (idVendor, idProduct) =>
          if negb (idVendor =? STM32_VENDOR_ID) || negb (idProduct =? STM32_PRODUCT_ID)
          then tail
          else if negb (usb_open dev =? LIBUSB_SUCCESS)
          then and_then [MsgCannotOpen (usb_open dev)] [] tail
          else
            match select_dfu_interface (usb_config dev) (usb_strings dev) with
            | None => and_then [MsgNoInterface] [UsbOpened i; UsbClosed i] tail
            | Some device =>
                if negb (usb_claim dev =? LIBUSB_SUCCESS)
                then and_then [MsgClaimFailed (usb_claim dev)]
                              [UsbOpened i; UsbClosed i] tail
                else if negb (usb_set_alt dev =? LIBUSB_SUCCESS)
                then and_then [MsgAltFailed (usb_set_alt dev)]
                              [UsbOpened i;
                               UsbClaimed i (interface_number device);
                               UsbReleased i (interface_number device);
                               UsbClosed i] tail
                else
                  ([], [UsbOpened i; UsbClaimed i (interface_number device)],
                   Some (attach device))
            end
      end
  end.

Definition open_stm32_dfu_device_once (bus : device_list)
  : list message * list usb_action * option stm32_dfu_device_t :=
  match bus with
  | ListError count => ([MsgEnumerateFailed count], [], None)
  | Listed devices => open_devices devices 0
  end.


(** The handles that are open and the interfaces that are claimed after
    the actions. *)
Fixpoint open_handles (actions : list usb_action) (held : list nat) : list nat :=
  match actions with
  | [] => held
  | UsbOpened i :: rest => open_handles rest (i :: held)
  | UsbClosed i :: rest => open_handles rest (remove Nat.eq_dec i held)
  | _ :: rest => open_handles rest held
  end.

Fixpoint claimed_interfaces (actions : list usb_action) (held : list nat)
  : list nat :=
  match actions with
  | [] => held
  | UsbClaimed i _ :: rest => claimed_interfaces rest (i :: held)
  | UsbReleased i _ :: rest => claimed_interfaces rest (remove Nat.eq_dec i held)
  | _ :: rest => claimed_interfaces rest held
  end.

(** A configuration of the examples: one interface with the alternate
    settings of an STM32 bootloader, option bytes before internal
    flash. *)
Definition bootloader_strings : string_table :=
  fun index =>
    if index =? 4 then Some "@Option Bytes  /0x1FFFC000/01*016 e"%string
    else if index =? 5 then Some "@Internal Flash  /0x08000000/16*001Kg"%string
    else None.

Definition bootloader_config : libusb_config_descriptor :=
  [[mk_interface_descriptor 0 0 0xFE 1 2 4 (functional_descriptor 2048);
    mk_interface_descriptor 0 1 0xFE 1 2 5 (functional_descriptor 2048);
    mk_interface_descriptor 0 2 0xFE 1 2 0 (functional_descriptor 2048)]].


(** ** Waiting for the device *)

(** The sleeps and the control transfers of a trace, in order. *)
Definition sleeps_of (tr : list event) : list Z :=
  flat_map (fun e => match e with EvSleep ms => [ms] | _ => [] end) tr.

Definition controls_of (tr : list event) : list request :=
  flat_map (fun e => match e with EvControl rq => [rq] | _ => [] end) tr.

(** The counter of the loop of [wait_for_stm32_dfu_device], in both
    loaders: [elapsed] is a DWORD, so that [elapsed += 100] wraps at
    2^32.  The number of rounds the loop makes while no round attaches a
    device, when it ends within [fuel] rounds. *)
Fixpoint wait_rounds (fuel : nat) (timeout_ms elapsed : Z) : option nat :=
  match fuel with
  | O => None
  | S fuel' =>
      if elapsed <=? timeout_ms
      then option_map S (wait_rounds fuel' timeout_ms (u32 (elapsed + 100)))
      else Some O
  end.

(** The number of attempts among [n], from number [i] on, that fail
    before one attaches a device. *)
Fixpoint failed_attempts (env : environment) (n i : nat) : nat :=
  match n with
  | O => O
  | S n' =>
      match env_attempts env i with
      | Attached _ _ _ _ _ => O
      | Absent _ => S (failed_attempts env n' (S i))
      end
  end.

(** The errors the attempts report, in order, up to the attempt that
    attaches a device. *)
Fixpoint attempt_errors (env : environment) (n i : nat) : list message :=
  match n with
  | O => []
  | S n' =>
      match env_attempts env i with
      | Attached errors _ _ _ _ => errors
      | Absent errors => errors ++ attempt_errors env n' (S i)
      end
  end.

(** The message [wait_for_stm32_dfu_device] ends with when no device was
    attached and [last_error] holds [text]. *)
Definition timeout_message (text : string) : message :=
  if negb (at_char text "") then MsgText text else MsgNotFound.

(** [last_error] after the errors [errors]. *)
Definition last_error_of (errors : list message) (before : string) : string :=
  fold_left (fun _ m => Format.truncate 160 (Format.render m)) errors before.

(** The status buffer after [set_status]. *)
Definition status_after (cfg : caller) (m : message) (old : list ascii)
  : list ascii :=
  if arg_status_buf cfg && (0 <? arg_status_len cfg)%nat
  then store (arg_status_len cfg) (Format.render m) old
  else old.

Definition is_status_event (e : event) : bool :=
  match e with
  | EvStatus _ => true
  | _ => false
  end.

(** An environment of the examples: the device attaches at the third
    attempt, after an attempt without a device and one that could not
    claim it. *)
Definition late_environment : environment :=
  mk_environment FsNoFile 0
                 (fun i => match i with
                           | O => Absent []
                           | S O => Absent [MsgClaimFailed (-6)]
                           | _ => Attached [] 0 0 (functional_descriptor 1024)
                                           "@Internal Flash  /0x08000000/16*001Kg"
                           end)
                 true accepting_device.

(** An environment without any device: every attempt fails, the second
    with an error. *)
Definition empty_environment : environment :=
  mk_environment FsNoFile 0
                 (fun i => match i with
                           | S O => Absent [MsgCannotOpen (-3)]
                           | _ => Absent []
                           end)
                 true accepting_device.

(** A step that at most calls the status callback and writes the status
    buffer. *)
Definition status_only {A} (m : M A) (a : A) (after : list ascii -> list ascii)
  : Prop :=
  forall w, exists evs,
    m w = Done a (mk_world (w_calls w) (w_trace w ++ evs) (after (w_status w)))
    /\ forallb is_status_event evs = true.

(** ** Waiting for the device in the earlier loader *)

(** Whether the [n] attempts from number [i] on all fail. *)
Fixpoint legacy_all_absent (env : Legacy.environment) (n i : nat) : bool :=
  match n with
  | O => true
  | S n' =>
      match Legacy.env_attempts env i with
      | Legacy.Attached _ _ _ _ => false
      | Legacy.Absent _ => legacy_all_absent env n' (S i)
      end
  end.

(** [last_error] after [n] failed attempts from number [i] on: what the
    last of them left. *)
Definition legacy_last_error (env : Legacy.environment) (n i : nat)
  (before : string) : string :=
  match n with
  | O => before
  | S n' =>
      match Legacy.env_attempts env (i + n') with
      | Legacy.Absent (Some m) => Format.truncate 160 (Legacy.render m)
      | _ => ""%string
      end
  end.

Definition legacy_timeout_message (text : string) : Legacy.message :=
  if negb (at_char text "") then Legacy.MsgText text else Legacy.MsgNotFound.

Definition legacy_status_after (cfg : caller) (m : Legacy.message)
  (old : list ascii) : list ascii :=
  if arg_status_buf cfg && (0 <? arg_status_len cfg)%nat
  then store (arg_status_len cfg) (Legacy.render m) old
  else old.

(** An environment of the examples for the earlier loader: no device;
    the first attempt cannot open one, the others see none. *)
Definition legacy_empty_environment : Legacy.environment :=
  Legacy.mk_environment FsNoFile 0
                        (fun i => match i with
                                  | O => Legacy.Absent (Some (Legacy.MsgCannotOpen (-3)))
                                  | _ => Legacy.Absent None
                                  end)
                        accepting_device.

(** ** Runs that send no request *)

(** The events that are neither a call of [libusb_control_transfer] nor
    the release of the interface by [release_device]. *)
Definition is_local (e : event) : bool :=
  match e with
  | EvControl _ => false
  | EvRelease _ => false
  | _ => true
  end.

(** A computation that returns [a] after local events only. *)
Definition local_only {A} (m : M A) (a : A) : Prop :=
  forall w, exists evs status,
    m w = Done a (mk_world (w_calls w) (w_trace w ++ evs) status)
    /\ forallb is_local evs = true.

(** ** The release of the device *)

(** The interfaces released in a trace, in order. *)
Definition releases_of (tr : list event) : list Z :=
  flat_map (fun e => match e with EvRelease i => [i] | _ => [] end) tr.

Definition not_release (e : event) : bool :=
  match e with
  | EvRelease _ => false
  | _ => true
  end.

(** The device a run of [dfu_loader_flash] attaches: the image must have
    been loaded and libusb initialised before the loader waits for
    one. *)
Definition session_started (cfg : caller) (env : environment)
  : option stm32_dfu_device_t :=
  match loaded_image cfg env with
  | None => None
  | Some _ =>
      if env_usb_init env =? LIBUSB_SUCCESS then attached_device env else None
  end.

(** The device structure at the label [cleanup]: that of the attached
    device, or the zeroed one. *)
Definition held_at_cleanup (cfg : caller) (env : environment)
  (d : stm32_dfu_device_t) : Prop :=
  match session_started cfg env with
  | Some d0 => handle d = true /\ interface_number d = interface_number d0
  | None => d = zero_device
  end.

(** Whatever [m] returns satisfies [F]. *)
Definition returns {A} (m : M A) (F : A -> Prop) : Prop :=
  forall w a w', m w = Done a w' -> F a.

(** What [release_device] adds to the trace. *)
Definition release_events (d : stm32_dfu_device_t) : list event :=
  if handle d then [EvRelease (interface_number d)] else [].

(** ** The erase strategy in the trace *)

(** The mass erase command: the vendor command 0x41 alone, in block 0. *)
Definition is_mass_erase (rq : request) : bool :=
  is_dnload rq && (rq_value rq =? 0) && (rq_length rq =? 1)
  && match rq_data rq with
     | c :: _ => c =? 0x41
     | [] => false
     end.

Definition not_mass_erase (e : event) : bool :=
  match e with
  | EvControl rq => negb (is_mass_erase rq)
  | _ => true
  end.

(** ** What a trace writes *)

(** The set-address-pointer command: the vendor command 0x21 with an
    address, sent as five bytes in block 0. *)
Definition is_set_address (rq : request) : bool :=
  is_dnload rq && (rq_value rq =? 0) && (rq_length rq =? 5)
  && match rq_data rq with
     | c :: _ => c =? 0x21
     | [] => false
     end.

(** A block of data: a DNLOAD request of the data block number that is
    not empty. *)
Definition is_data_block (rq : request) : bool :=
  is_dnload rq && (rq_value rq =? data_block_number) && (0 <? rq_length rq).

(** The address pointer of the bootloader after a trace. *)
Fixpoint pointer_after (tr : list event) (pointer : Z) : Z :=
  match tr with
  | [] => pointer
  | EvControl rq :: tr' =>
      if is_set_address rq then pointer_after tr' (payload_address (rq_data rq))
      else pointer_after tr' pointer
  | _ :: tr' => pointer_after tr' pointer
  end.

(** The writes a trace asks of the bootloader, in order: each block of
    data with the address the pointer was set to before it. *)
Fixpoint writes_of (tr : list event) (pointer : Z) : list (Z * list Z) :=
  match tr with
  | [] => []
  | EvControl rq :: tr' =>
      if is_set_address rq then writes_of tr' (payload_address (rq_data rq))
      else if is_data_block rq then (pointer, rq_data rq) :: writes_of tr' pointer
      else writes_of tr' pointer
  | _ :: tr' => writes_of tr' pointer
  end.

(** The events that neither write nor move the pointer, and those that do
    not write. *)
Definition neutral (e : event) : bool :=
  match e with
  | EvControl rq => negb (is_set_address rq) && negb (is_data_block rq)
  | _ => true
  end.

Definition no_write (e : event) : bool :=
  match e with
  | EvControl rq => negb (is_data_block rq)
  | _ => true
  end.

(** The [size] bytes of the image at [offset]. *)
Definition image_slice (firmware : list Z) (offset size : Z) : list Z :=
  firstn (Z.to_nat size) (skipn (Z.to_nat offset) firmware).

(** The chunks (offset, size) lie one after the other from [start] to
    [stop], and none is empty. *)
Fixpoint covers (chunks : list (Z * Z)) (start stop : Z) : Prop :=
  match chunks with
  | [] => start = stop
  | (offset, size) :: rest =>
      offset = start /\ 0 < size /\ covers rest (start + size) stop
  end.

(** The write of one chunk: its address, and its bytes with the byte 0xFF
    after a chunk of odd size. *)
Definition chunk_write (firmware : list Z) (chunk : Z * Z) : Z * list Z :=
  (chunk_address (fst chunk),
   image_slice firmware (fst chunk) (snd chunk)
   ++ (if snd chunk mod 2 =? 0 then [] else [0xFF])).

(** ** The pages of a range *)

(** [n] pages from [first] on, [page_size] apart. *)
Fixpoint page_seq (first page_size : Z) (n : nat) : list Z :=
  match n with
  | O => []
  | S n' => first :: page_seq (first + page_size) page_size n'
  end.

(** The pages from [first] on that start below [end_]. *)
Definition pages_of_range (first page_size end_ : Z) : list Z :=
  page_seq first page_size (Z.to_nat ((end_ - first + page_size - 1) / page_size)).

(** The same without the first page when it is [last], the page erased
    last. *)
Definition erase_plan (last first page_size end_ : Z) : list Z :=
  match pages_of_range first page_size end_ with
  | page :: rest => if last =? page then rest else page :: rest
  | [] => []
  end.

(** ** Erased before written *)

(** Byte [k] of the image is sent in a block of data of [evs] that puts
    it at its address, and the page of that address is erased by a
    command sent before the block. *)
Definition written_after_erase (l : stm32_dfu_memory_layout_t) (firmware : list Z)
  (pointer : Z) (evs : list event) (k : Z) : Prop :=
  exists tr1 rq tr2 s,
    evs = tr1 ++ EvControl rq :: tr2
    /\ is_data_block rq = true
    /\ pointer_after tr1 pointer <= image_address k
    /\ nth_error (rq_data rq) (Z.to_nat (image_address k - pointer_after tr1 pointer))
       = nth_error firmware (Z.to_nat k)
    /\ find_segment l (image_address k) = Some s
    /\ In (page_base_of s (image_address k)) (erased_pages tr1).

(** The page the device structure holds as erased last was erased by a
    command of [evs]. *)
Definition last_page_erased (d : stm32_dfu_device_t) (evs : list event) : Prop :=
  last_erased_page d = NO_PAGE \/ In (last_erased_page d) (erased_pages evs).

(** The fields of the segments are 32-bit values. *)
Definition segment_fields (s : stm32_dfu_segment_t) : Prop :=
  0 <= seg_start s /\ seg_end s <= ULONG_MAX.

(** ** Pages erased once *)

(** Each element of the list is less than the next. *)
Fixpoint increasing (l : list Z) : Prop :=
  match l with
  | a :: l' =>
      match l' with
      | b :: _ => a < b
      | [] => True
      end /\ increasing l'
  | [] => True
  end.

(** The pages erased so far are in ascending order, and the last of them
    is the page the device structure holds as erased last: the page of
    the last byte written. *)
Definition erased_up_to (d : stm32_dfu_device_t) (written : Z) (pages : list Z)
  : Prop :=
  increasing pages
  /\ forall x, last_page pages = Some x ->
               last_erased_page d = x
               /\ exists s, In s (layout_segments (layout d))
                            /\ contains s (image_address written - 1)
                            /\ x = page_base_of s (image_address written - 1).

(** ** A bootloader that answers *)

(** The computation returns from every world, with a value that
    satisfies [F]. *)
Definition succeeds {A} (m : M A) (F : A -> Prop) : Prop :=
  forall w, exists a w', m w = Done a w' /\ F a.

(** The device accepts every transfer it is sent in full, and answers
    every status request with six bytes: status OK and the state dfuIDLE
    or dfuDNLOAD-IDLE. *)
Definition responsive (env : environment) : Prop :=
  forall n rq,
    if rq_in rq
    then x_ret (env_device env n rq) = 6
         /\ reply_byte (env_device env n rq) 0 = 0
         /\ is_idle_state (reply_byte (env_device env n rq) 4) = true
    else x_ret (env_device env n rq) = rq_length rq.

(** Every byte of an image of [firmware_len] bytes lies in a segment of
    the layout. *)
Definition layout_covers (l : stm32_dfu_memory_layout_t) (firmware_len : Z) : Prop :=
  forall k, 0 <= k < firmware_len -> find_segment l (image_address k) <> None.

(** What the write loop needs of the device structure: a transfer size,
    and, when the layout is known, a layout that keeps the invariant and
    covers the image. *)
Definition writable (firmware_len : Z) (d : stm32_dfu_device_t) : Prop :=
  1 <= transfer_size d
  /\ (layout_valid d = true ->
      Forall segment_invariant (layout_segments (layout d))
      /\ Forall segment_fields (layout_segments (layout d))
      /\ STM32_BASE_ADDRESS + firmware_len <= ULONG_MAX + 1
      /\ layout_covers (layout d) firmware_len).

(** ** The text of a memory layout *)

(** The value of a character read as a digit. *)
Definition digit_of (c : ascii) : Z :=
  match digit_value c with
  | Some d => d
  | None => 0
  end.

(** The number a sequence of digits denotes in the base. *)
Definition number_of (base : Z) (digits : list ascii) : Z :=
  fold_left (fun acc c => acc * base + digit_of c) digits 0.

(** A number of the text: one digit of the base or more. *)
Definition digits_in (base : Z) (digits : list ascii) : Prop :=
  digits <> [] /\ Forall (fun c => digit_in base c <> None) digits.

(** The letter after a page size. *)
Inductive size_unit := UnitK | UnitM | UnitB | UnitNone.

Definition unit_text (u : size_unit) : string :=
  match u with
  | UnitK => "K"
  | UnitM => "M"
  | UnitB => "B"
  | UnitNone => ""
  end.

Definition unit_bytes (u : size_unit) : Z :=
  match u with
  | UnitK => 1024
  | UnitM => 1024 * 1024
  | UnitB => 1
  | UnitNone => 1
  end.

Definition is_unit_letter (c : ascii) : bool :=
  existsb (Ascii.eqb c) ["K"; "k"; "M"; "m"; "B"; "b"]%char.

(** One section of the name of an alternate setting: the address in
    hexadecimal, the number of pages and the page size in decimal, the
    unit, and what follows up to the next slash. *)
Record layout_section := mk_section {
  sec_start : list ascii;
  sec_count : list ascii;
  sec_size : list ascii;
  sec_unit : size_unit;
  sec_rest : string
}.

Definition section_text (x : layout_section) : string :=
  ("/0x" ++ string_of_list_ascii (sec_start x)
   ++ "/" ++ string_of_list_ascii (sec_count x)
   ++ "*" ++ string_of_list_ascii (sec_size x)
   ++ unit_text (sec_unit x) ++ sec_rest x)%string.

(** The name: a label and the sections. *)
Definition layout_text (label : string) (sections : list layout_section) : string :=
  (label ++ fold_right (fun x s => section_text x ++ s) EmptyString sections)%string.

(** The segment a section describes. *)
Definition section_segment (x : layout_section) : stm32_dfu_segment_t :=
  let start := number_of 16 (sec_start x) in
  let page_size := number_of 10 (sec_size x) * unit_bytes (sec_unit x) in
  mk_segment start (u32 (start + u32 (number_of 10 (sec_count x) * page_size)))
             page_size.

(** The numbers of the section are 32-bit values, the page size is not
    zero, the rest holds no slash, and a page size without a unit is not
    followed by a digit or a unit letter. *)
Definition well_formed_section (x : layout_section) : Prop :=
  digits_in 16 (sec_start x) /\ number_of 16 (sec_start x) <= ULONG_MAX
  /\ digits_in 10 (sec_count x) /\ number_of 10 (sec_count x) <= ULONG_MAX
  /\ digits_in 10 (sec_size x)
  /\ 0 < number_of 10 (sec_size x) * unit_bytes (sec_unit x) <= ULONG_MAX
  /\ strchr (sec_rest x) "/" = None
  /\ (sec_unit x = UnitNone ->
      isdigit (cur (sec_rest x)) = false
      /\ is_unit_letter (cur (sec_rest x)) = false).

(** ** The status at the end *)

(** What the status callback of the client receives for a message. *)
Definition status_events (cfg : caller) (m : message) : list event :=
  match arg_client cfg with
  | Some client =>
      if status_cb client
      then [EvStatus (Format.truncate 256 (Format.render m))]
      else []
  | None => []
  end.

Definition not_status (e : event) : bool := negb (is_status_event e).

Definition any_event (e : event) : bool := true.

(** ** Discovery in the earlier loader *)

Definition is_internal_flash (name : string) : bool :=
  match strstr name "Internal Flash" with
  | Some _ => true
  | None => false
  end.

(** The structure [local] of the earlier [select_dfu_interface] after the
    assignments for [alt]. *)
Definition legacy_selected_device (alt : libusb_interface_descriptor) (name : string)
  : Legacy.stm32_dfu_device_t :=
  Legacy.mk_device true (u8 (bInterfaceNumber alt)) (u8 (bAlternateSetting alt))
                   (Legacy.parse_transfer_size (extra alt))
                   (Format.truncate 128 name).

(** The inner loop of the earlier [select_dfu_interface]; [local] is set
    once [found] is. *)
Fixpoint legacy_select_altsetting (strings : string_table) (alts : libusb_interface)
  (local : option Legacy.stm32_dfu_device_t) : option Legacy.stm32_dfu_device_t :=
  match alts with
  | [] => local
  | alt :: rest =>
      if negb (is_dfu_interface alt) then legacy_select_altsetting strings rest local
      else
        let alt_name := alt_string strings alt in
        let is_default_alt := bAlternateSetting alt =? 0 in
        if match local with
           | None => true
           | Some l =>
               is_internal_flash alt_name
               || (is_default_alt && negb (Legacy.alt_setting l =? 0))
           end
        then
          let local := Some (legacy_selected_device alt alt_name) in
          if is_internal_flash alt_name then local
          else legacy_select_altsetting strings rest local
        else legacy_select_altsetting strings rest local
  end.

(** The outer loop, which ends as soon as [found] is set. *)
Fixpoint legacy_select_interface (strings : string_table)
  (interfaces : libusb_config_descriptor) : option Legacy.stm32_dfu_device_t :=
  match interfaces with
  | [] => None
  | iface :: rest =>
      match legacy_select_altsetting strings iface None with
      | Some local => Some local
      | None => legacy_select_interface strings rest
      end
  end.

Definition legacy_select_dfu_interface (config : option libusb_config_descriptor)
  (strings : string_table) : option Legacy.stm32_dfu_device_t :=
  match config with
  | None => None
  | Some interfaces => legacy_select_interface strings interfaces
  end.

(** The choice among the alternate settings of one interface, said
    directly: the first DFU alternate setting named Internal Flash; when
    there is none, the first DFU alternate setting, unless its number is
    not 0 and a DFU alternate setting number 0 follows it, which is then
    taken. *)
Definition legacy_choice (strings : string_table) (alts : libusb_interface)
  : option libusb_interface_descriptor :=
  let dfu := filter is_dfu_interface alts in
  match find (fun a => is_internal_flash (alt_string strings a)) dfu with
  | Some a => Some a
  | None =>
      match dfu with
      | [] => None
      | first :: rest =>
          if u8 (bAlternateSetting first) =? 0 then Some first
          else
            match find (fun a => bAlternateSetting a =? 0) rest with
            | Some a => Some a
            | None => Some first
            end
      end
  end.

(** ** The serial slider

    serialslider.c frames the commands of the slider board on a serial
    port: a packet is the byte 0xFF, a command, a size, as many bytes of
    payload and a checksum.  The port is modelled by the bytes it yields
    to [ReadFile] until a read gives nothing, and by the bytes handed to
    [WriteFile]. *)

Module Slider.

Definition BUFSIZE : nat := 128.

(** [slider_packet_t], through its member [data]: [syn], [cmd] and [size]
    are the bytes 0, 1 and 2, the payload starts at byte 3. *)
Definition slider_packet_t : Type := list Z.

Definition syn (p : slider_packet_t) : Z := nth 0 p 0.
Definition cmd (p : slider_packet_t) : Z := nth 1 p 0.
Definition size (p : slider_packet_t) : Z := nth 2 p 0.

(** [p->data[i] = x] for [i] inside the buffer. *)
Definition store_byte (i : nat) (x : Z) (p : slider_packet_t) : slider_packet_t :=
  firstn i p ++ x :: skipn (S i) p.

Definition package_init (p : slider_packet_t) : slider_packet_t := repeat 0 BUFSIZE.

(** The loop of [sliderserial_writeresp] over the payload, [n] bytes from
    byte [i] on. *)
Fixpoint checksum_loop (n : nat) (i : Z) (p : slider_packet_t) (checksum : Z)
  : slider_packet_t * Z :=
  match n with
  | O => (p, checksum)
  | S n' =>
      let d := nth (Z.to_nat (i + 3)) p 0 in
      let checksum := u8 (checksum - d) in
      let p :=
        if (d =? 0xff) && (d =? 0xfd) then store_byte (Z.to_nat (i + 3)) 0xfe p
        else p in
      checksum_loop n' (i + 1) p checksum
  end.

(** [sliderserial_writeresp]: the packet afterwards and the bytes given
    to [WriteFile]; nothing where the checksum would be stored outside
    the 128 bytes of the packet. *)
Definition sliderserial_writeresp (request : slider_packet_t)
  : option (slider_packet_t * list Z) :=
  let checksum := u8 (0 - syn request - cmd request - size request) in
  let length := u8 (size request + 4) in
  if 124 <? size request then None
  else
    let '(p, checksum) :=
      checksum_loop (Z.to_nat (size request)) 0 request checksum in
    let p := store_byte (Z.to_nat (size p + 3)) checksum p in
    Some (p, firstn (Z.to_nat length) p).

(** The local variables of [serial_read_cmd] and the packet it fills. *)
Record reader := mk_reader {
  reponse : slider_packet_t;
  checksum : Z;
  rep_size : Z;
  ESC : bool
}.

(** The end of the loop body of [serial_read_cmd], for the byte [c]
    after an escape is undone: the state for the next round, or the
    command returned. *)
Definition accept_byte (c : Z) (s : reader) : reader + Z * reader :=
  if cmd (reponse s) =? 0 then
    inl (mk_reader (store_byte 1 c (reponse s)) (u8 (checksum s + c))
                   (rep_size s) (ESC s))
  else if rep_size s =? 0 then
    inl (mk_reader (store_byte 2 c (reponse s)) (u8 (checksum s + c)) 3 (ESC s))
  else
    let p := store_byte (Z.to_nat (rep_size s)) c (reponse s) in
    let s' := mk_reader p (u8 (checksum s + c)) (rep_size s) (ESC s) in
    if (rep_size s =? size p + 3) || (34 <? rep_size s)
    then inr (cmd p, s')
    else inl (mk_reader p (u8 (checksum s + c)) (u8 (rep_size s + 1)) (ESC s)).

(** The loop body of [serial_read_cmd] for the byte [c] read. *)
Definition read_byte (c : Z) (s : reader) : reader + Z * reader :=
  if c =? 0xff then
    inl (mk_reader (store_byte 0 c (package_init (reponse s)))
                   (u8 (checksum s + 0xff)) 0 false)
  else if negb (syn (reponse s) =? 0xff) then inl s
  else if c =? 0xfd then
    inl (mk_reader (reponse s) (checksum s) (rep_size s) true)
  else if ESC s then
    accept_byte (u8 (c + 1))
                (mk_reader (reponse s) (checksum s) (rep_size s) false)
  else accept_byte c s.

(** The loop of [serial_read_cmd] over the bytes the port yields: the
    command returned, if any, the state and the bytes not read. *)
Fixpoint read_bytes (input : list Z) (s : reader) : option Z * reader * list Z :=
  match input with
  | [] => (None, s, [])
  | c :: rest =>
      match read_byte c s with
      | inl s' => read_bytes rest s'
      | inr (command, s') => (Some command, s', rest)
      end
  end.

(** [serial_read_cmd]: the value returned, the packet and the bytes not
    read; [connected] is what [GetCommState] answers when the port
    yields no more bytes. *)
Definition serial_read_cmd (connected : bool) (input : list Z)
  (packet : slider_packet_t) : Z * slider_packet_t * list Z :=
  match read_bytes input (mk_reader packet 0 0 false) with
  | (Some command, s, rest) => (command, reponse s, rest)
  | (None, s, rest) => ((if connected then 0xfe else 0xff), reponse s, rest)
  end.

(** [slider_send_leds]: the packet built in the global [request]. *)
Definition led_packet (rgb : list Z) : slider_packet_t :=
  let p := package_init [] in
  let p := store_byte 0 0xff p in
  let p := store_byte 1 0x02 p in
  let p := store_byte 2 96 p in
  firstn 4 p ++ firstn 96 rgb ++ skipn 100 p.

Definition slider_send_leds (rgb : list Z) : option (slider_packet_t * list Z) :=
  sliderserial_writeresp (led_packet rgb).

End Slider.

(** The sum of the bytes of a frame. *)
Definition byte_sum (l : list Z) : Z := fold_right Z.add 0 l.

(** A byte as the reader of the slider takes it back: 0xFF and 0xFD are
    written as 0xFD and the byte before them. *)
Definition escaped (b : Z) : list Z :=
  if (b =? 0xff) || (b =? 0xfd) then [0xfd; b - 1] else [b].

Definition is_byte (b : Z) : Prop := 0 <= b <= 255.

Definition plain_byte (b : Z) : Prop := 0 <= b <= 255 /\ b <> 0xff /\ b <> 0xfd.

(** ** Callers and devices of the examples *)

(** The status buffer after a call: not empty, and terminated within its
    length. *)
Definition status_message_present (cfg : caller) (w : world) : Prop :=
  hd Ascii.zero (w_status w) <> Ascii.zero
  /\ In Ascii.zero (firstn (arg_status_len cfg) (w_status w)).

(** A caller with a status buffer of [len] bytes and a progress
    callback. *)
Definition plain_caller (len : nat) : caller := mk_caller true true None true len.

(** * Properties *)

(** ** Machine integers *)

Lemma u32_range z : 0 <= u32 z <= ULONG_MAX.
Proof. unfold u32, ULONG_MAX. pose proof (Z.mod_pos_bound z 4294967296). lia. Qed.

Lemma u32_small z : 0 <= z <= ULONG_MAX -> u32 z = z.
Proof. unfold u32, ULONG_MAX. intros. apply Z.mod_small. lia. Qed.

Lemma u16_range z : 0 <= u16 z < 65536.
Proof. unfold u16. apply Z.mod_pos_bound. lia. Qed.

Lemma u8_range z : 0 <= u8 z < 256.
Proof. unfold u8. apply Z.mod_pos_bound. lia. Qed.

(** ** C strings *)

Section CStringFacts.

Lemma next_length s : (String.length (next s) <= String.length s)%nat.
Proof. destruct s; simpl; lia. Qed.

Lemma strchr_length s c t :
  strchr s c = Some t ->
  (String.length (next t) < String.length s)%nat.
Proof.
  induction s as [|a s IH]; simpl; [discriminate|].
  destruct (Ascii.eqb a c).
  - intros [= <-]. simpl. lia.
  - intros H. specialize (IH H). lia.
Qed.

Lemma skip_space_length s : (String.length (skip_space s) <= String.length s)%nat.
Proof.
  induction s as [|a s IH]; simpl; [lia|].
  destruct (isspace a); simpl; lia.
Qed.

Lemma code_range c : 0 <= code c < 256.
Proof.
  unfold code. pose proof (N_ascii_bounded c) as H.
  split; [apply N2Z.is_nonneg|]. change 256 with (Z.of_N 256). lia.
Qed.

Lemma digit_in_range base c d : digit_in base c = Some d -> 0 <= d < base.
Proof.
  unfold digit_in, digit_value.
  destruct ((48 <=? code c) && (code c <=? 57)) eqn:E1;
    [|destruct ((97 <=? code c) && (code c <=? 122)) eqn:E2;
      [|destruct ((65 <=? code c) && (code c <=? 90)) eqn:E3; [|discriminate]]];
    match goal with |- context [?x <? base] => destruct (Z.ltb_spec x base) end;
    intros [= <-]; lia.
Qed.

Lemma scan_digits_spec base s acc n v m rest :
  scan_digits base s acc n = (v, m, rest) ->
  0 <= acc -> 0 < base ->
  0 <= v /\ (String.length rest <= String.length s)%nat.
Proof.
  revert acc n. induction s as [|a s IH]; simpl; intros acc n.
  - intros [= <- <- <-] ? ?. simpl. lia.
  - destruct (digit_in base a) as [d|] eqn:D.
    + intros H Hacc Hb. apply digit_in_range in D.
      apply IH in H; [|nia|lia]. lia.
    + intros [= <- <- <-] ? ?. simpl. lia.
Qed.

Lemma strtoul_spec nptr base v endptr :
  strtoul nptr base = (v, endptr) -> 0 < base ->
  0 <= v <= ULONG_MAX /\ (String.length endptr <= String.length nptr)%nat.
Proof.
  unfold strtoul. intros H Hb.
  set (s0 := skip_space nptr) in *.
  assert (L0 : (String.length s0 <= String.length nptr)%nat)
    by apply skip_space_length.
  destruct (if at_char s0 "-" then (true, next s0)
            else if at_char s0 "+" then (false, next s0) else (false, s0))
    as [neg s1] eqn:E1.
  assert (L1 : (String.length s1 <= String.length s0)%nat).
  { destruct (at_char s0 "-"); [|destruct (at_char s0 "+")];
      injection E1 as <- <-; auto using next_length. }
  match type of H with
  | context [scan_digits _ ?s _ _] => set (s2 := s) in *
  end.
  assert (L2 : (String.length s2 <= String.length s1)%nat).
  { subst s2.
    destruct ((base =? 16) && at_char s1 "0"
              && (at_char (next s1) "x" || at_char (next s1) "X")); [|lia].
    destruct (digit_in 16 (cur (next (next s1)))); [|lia].
    pose proof (next_length s1). pose proof (next_length (next s1)). lia. }
  destruct (scan_digits base s2 0 0) as [[v' m] rest] eqn:E2.
  apply scan_digits_spec in E2; [|lia|lia]. destruct E2 as [Hv Hr].
  destruct m.
  - injection H as <- <-. unfold ULONG_MAX. lia.
  - destruct (Z.ltb_spec ULONG_MAX v').
    + injection H as <- <-. unfold ULONG_MAX. lia.
    + injection H as <- <-. split; [|lia].
      destruct neg; [|lia]. unfold ulong, ULONG_MAX.
      pose proof (Z.mod_pos_bound (- v') 4294967296). lia.
Qed.

End CStringFacts.

(** ** The layout parser *)

Lemma size_digits_length s value v rest :
  size_digits s value = (v, rest) ->
  (String.length rest <= String.length s)%nat.
Proof.
  revert value. induction s as [|a s IH]; simpl; intros value.
  - intros [= <- <-]. simpl. lia.
  - destruct (isdigit a).
    + intros H. apply IH in H. lia.
    + intros [= <- <-]. simpl. lia.
Qed.

Lemma parse_size_bytes_spec text v rest :
  parse_size_bytes text = (v, rest) ->
  0 <= v <= ULONG_MAX /\ (String.length rest <= String.length text)%nat.
Proof.
  unfold parse_size_bytes.
  destruct (size_digits text 0) as [value c0] eqn:E0.
  apply size_digits_length in E0.
  destruct (if at_char c0 "K" || at_char c0 "k" then (1024, next c0)
            else if at_char c0 "M" || at_char c0 "m" then (1024 * 1024, next c0)
            else if at_char c0 "B" || at_char c0 "b" then (1, next c0)
            else (1, c0)) as [mult c1] eqn:E1.
  assert (L1 : (String.length c1 <= String.length c0)%nat).
  { pose proof (next_length c0).
    repeat match type of E1 with
           | (if ?b then _ else _) = _ => destruct b
           end; injection E1 as <- <-; lia. }
  intros [= <- <-]. split; [apply u32_range|].
  pose proof (next_length c1).
  match goal with |- context [if ?b then _ else _] => destruct b end; lia.
Qed.

Lemma layout_segments_add l start cnt page_size :
  layout_segments (add_segment l start cnt page_size) =
  if (count l <? SEGMENT_SLOTS)%nat
  then layout_segments l
         ++ [mk_segment (u32 start) (u32 (u32 start + u32 (cnt * page_size))) page_size]
  else layout_segments l.
Proof.
  unfold add_segment. destruct (count l <? SEGMENT_SLOTS)%nat; [|reflexivity].
  unfold layout_segments. simpl count. simpl segments.
  rewrite seq_S, map_app. simpl. f_equal.
  - apply map_ext_in. intros i Hi. apply in_seq in Hi. unfold store_at.
    destruct (Nat.eqb_spec i (count l)); [lia|reflexivity].
  - unfold store_at. rewrite Nat.eqb_refl. reflexivity.
Qed.

Lemma layout_segments_count l : List.length (layout_segments l) = count l.
Proof. unfold layout_segments. now rewrite length_map, length_seq. Qed.

(** Case analysis of one iteration of the parse loop. *)
Ltac parse_step IH :=
  simpl;
  match goal with
  | |- context [strchr ?c ?x] => destruct (strchr c x) as [at_slash|] eqn:Hchr
  end; [|auto];
  match goal with
  | |- context [negb ?b] => destruct b eqn:Hprefix
  end; simpl negb; cbv iota; [|apply IH; auto];
  match goal with
  | |- context [strtoul ?c 16] => destruct (strtoul c 16) as [start e1] eqn:Hstart
  end;
  match goal with
  | |- context [negb ?b] => destruct b eqn:Hslash
  end; simpl negb; cbv iota; [|apply IH; auto];
  match goal with
  | |- context [strtoul ?c 10] => destruct (strtoul c 10) as [cnt e2] eqn:Hcnt
  end;
  match goal with
  | |- context [negb ?b] => destruct b eqn:Hstar
  end; simpl negb; cbv iota; [|apply IH; auto];
  match goal with
  | |- context [parse_size_bytes ?c] =>
      destruct (parse_size_bytes c) as [page_size c3] eqn:Hsize
  end;
  match goal with
  | |- context [?p =? 0] => destruct (Z.eqb_spec p 0) as [Hzero|Hzero]
  end; [apply IH; auto|].

(** The parse loop only ever adds segments, with a start and a count read
    by [strtoul] and a page size that is not zero. *)
Lemma parse_segments_preserves (P : stm32_dfu_memory_layout_t -> Prop) :
  (forall l start cnt page_size,
      P l -> 0 <= start <= ULONG_MAX -> 0 <= cnt <= ULONG_MAX ->
      0 < page_size <= ULONG_MAX -> P (add_segment l start cnt page_size)) ->
  forall fuel cursor l, P l -> P (parse_segments fuel cursor l).
Proof.
  intros Hadd. induction fuel as [|fuel IH]; intros cursor l Hl; [exact Hl|].
  parse_step IH.
  apply IH. apply Hadd; auto.
  - apply strtoul_spec in Hstart; [tauto|lia].
  - apply strtoul_spec in Hcnt; [tauto|lia].
  - apply parse_size_bytes_spec in Hsize. lia.
Qed.

(** Two runs of the parse loop over the same string add the same
    segments. *)
Lemma parse_segments_same fuel cursor l1 l2 :
  layout_segments l1 = layout_segments l2 ->
  layout_segments (parse_segments fuel cursor l1)
  = layout_segments (parse_segments fuel cursor l2).
Proof.
  revert cursor l1 l2. induction fuel as [|fuel IH]; intros cursor l1 l2 H; [exact H|].
  parse_step IH.
  apply IH. rewrite !layout_segments_add.
  assert (count l1 = count l2) as ->
      by (rewrite <- !layout_segments_count; now rewrite H).
  now rewrite H.
Qed.

(** The fuel [parse_alt_memory_layout] gives the loop is never used up:
    any fuel above the length of the string gives the same layout. *)
Lemma parse_segments_fuel fuel1 fuel2 cursor l :
  (String.length cursor < fuel1)%nat -> (String.length cursor < fuel2)%nat ->
  parse_segments fuel1 cursor l = parse_segments fuel2 cursor l.
Proof.
  revert fuel2 cursor l.
  induction fuel1 as [|fuel1 IH]; intros fuel2 cursor l H1 H2; [lia|].
  destruct fuel2 as [|fuel2]; [lia|].
  simpl.
  destruct (strchr cursor "/") as [at_slash|] eqn:Hchr; [|reflexivity].
  apply strchr_length in Hchr.
  destruct (negb _); [apply IH; lia|].
  destruct (strtoul (next at_slash) 16) as [start e1] eqn:Hstart.
  apply strtoul_spec in Hstart; [|lia].
  destruct (negb _); [apply IH; lia|].
  destruct (strtoul (next e1) 10) as [cnt e2] eqn:Hcnt.
  apply strtoul_spec in Hcnt; [|lia].
  pose proof (next_length e1).
  destruct (negb _); [apply IH; lia|].
  destruct (parse_size_bytes (next e2)) as [page_size c3] eqn:Hsize.
  apply parse_size_bytes_spec in Hsize.
  pose proof (next_length e2).
  destruct (page_size =? 0); apply IH; lia.
Qed.

Lemma parse_alt_memory_layout_segments name before :
  layout_segments (snd (parse_alt_memory_layout name before)) =
  match name with
  | Some text =>
      layout_segments (parse_segments (S (String.length text)) text zero_layout)
  | None => []
  end.
Proof.
  unfold parse_alt_memory_layout. destruct name as [text|]; cbv zeta; cbn [snd].
  - apply parse_segments_same. reflexivity.
  - reflexivity.
Qed.

Lemma parse_alt_memory_layout_result name before :
  fst (parse_alt_memory_layout name before) =
  (0 <? List.length (layout_segments (snd (parse_alt_memory_layout name before))))%nat.
Proof.
  rewrite layout_segments_count.
  unfold parse_alt_memory_layout. destruct name; reflexivity.
Qed.

(** C3, as corrected: the parser is a pure function of the name (the
    segments it reports and its result do not depend on what the layout
    structure held before the call); the string
    0x08000000/16*001Ka,112*001Kg has no slash before its address and
    yields no segment; with the leading slash it yields the single segment
    [0x08000000, 0x08004000) of page size 1024, the part after the comma
    being skipped; two segments need an address each, and 112 pages of
    1 KiB from 0x08004000 end at 0x08020000. *)
Theorem parse_layout_pure :
  (forall name before1 before2,
      fst (parse_alt_memory_layout name before1)
      = fst (parse_alt_memory_layout name before2)
      /\ layout_segments (snd (parse_alt_memory_layout name before1))
         = layout_segments (snd (parse_alt_memory_layout name before2)))
  /\ fst (parse_alt_memory_layout (Some "0x08000000/16*001Ka,112*001Kg"%string) zero_layout)
     = false
  /\ layout_of_name "0x08000000/16*001Ka,112*001Kg" = []
  /\ layout_of_name "/0x08000000/16*001Ka,112*001Kg"
     = [mk_segment 0x08000000 0x08004000 1024]
  /\ layout_of_name "/0x08000000/16*001Ka/0x08004000/112*001Kg"
     = [mk_segment 0x08000000 0x08004000 1024;
        mk_segment 0x08004000 0x08020000 1024].
Proof.
  split; [|repeat split; vm_compute; reflexivity].
  intros name before1 before2.
  assert (E : layout_segments (snd (parse_alt_memory_layout name before1))
              = layout_segments (snd (parse_alt_memory_layout name before2)))
    by now rewrite !parse_alt_memory_layout_segments.
  split; [|exact E].
  now rewrite !parse_alt_memory_layout_result, E.
Qed.

(** C3 as stated fails: the string of the specification does not parse to
    the two segments it names. *)
Lemma parse_layout_example_fails :
  layout_of_name "0x08000000/16*001Ka,112*001Kg"
  <> [mk_segment 0x08000000 0x08004000 1024;
      mk_segment 0x08004000 0x08022000 1024].
Proof. vm_compute. discriminate. Qed.

Lemma parsed_as_invariant s cnt :
  parsed_as s cnt -> 1 <= cnt ->
  seg_start s + cnt * seg_page_size s <= ULONG_MAX ->
  segment_invariant s.
Proof.
  unfold parsed_as, segment_invariant.
  intros (Hc & Hs & He & Hp & E) H1 Hfit.
  assert (Hm : 0 <= cnt * seg_page_size s <= ULONG_MAX) by nia.
  rewrite (u32_small _ Hm) in E. rewrite u32_small in E by lia.
  rewrite E. repeat split; try nia.
  replace (seg_start s + cnt * seg_page_size s - seg_start s)
    with (cnt * seg_page_size s) by lia.
  apply Z.mod_mul. lia.
Qed.

Lemma parse_alt_memory_layout_parsed name before :
  let segs := layout_segments (snd (parse_alt_memory_layout name before)) in
  Forall parsed_segment segs /\ (List.length segs <= SEGMENT_SLOTS)%nat.
Proof.
  cbv zeta. rewrite parse_alt_memory_layout_segments.
  destruct name as [text|]; [|simpl; split; [constructor|unfold SEGMENT_SLOTS; lia]].
  pattern (parse_segments (S (String.length text)) text zero_layout).
  apply parse_segments_preserves; [|simpl; split; [constructor|unfold SEGMENT_SLOTS; lia]].
  intros l start cnt page_size [Hl Hn] Hs Hc Hp. rewrite layout_segments_add.
  destruct (Nat.ltb_spec (count l) SEGMENT_SLOTS); [|auto].
  split.
  - apply Forall_app; split; [exact Hl|]. constructor; [|constructor].
    exists cnt. unfold parsed_as. simpl.
    pose proof (u32_range start).
    pose proof (u32_range (u32 start + u32 (cnt * page_size))). tauto.
  - rewrite length_app, layout_segments_count. simpl. lia.
Qed.

(** The parse loop stores, in order, the values [sections_read] keeps. *)
Lemma parse_segments_read fuel cursor l :
  parse_segments fuel cursor l = store_sections l (sections_read fuel cursor).
Proof.
  revert cursor l. induction fuel as [|fuel IH]; intros cursor l; [reflexivity|].
  cbn [parse_segments sections_read].
  destruct (strchr cursor "/") as [at_slash|]; [|reflexivity].
  cbv zeta.
  destruct (negb _); [apply IH|].
  destruct (strtoul (next at_slash) 16) as [start e1].
  destruct (negb _); [apply IH|].
  destruct (strtoul (next e1) 10) as [cnt e2].
  destruct (negb _); [apply IH|].
  destruct (parse_size_bytes (next e2)) as [page_size c3].
  destruct (page_size =? 0); [apply IH|].
  unfold store_sections. cbn [fold_left val_start val_count val_page_size].
  apply IH.
Qed.

(** Only the first eight sections read are stored. *)
Lemma store_sections_segments read :
  forall l,
    (count l <= SEGMENT_SLOTS)%nat ->
    layout_segments (store_sections l read)
    = layout_segments l
      ++ map stored_segment (firstn (SEGMENT_SLOTS - count l) read).
Proof.
  induction read as [|v read IH]; intros l Hl.
  - rewrite firstn_nil. cbn [store_sections fold_left map]. now rewrite app_nil_r.
  - change (store_sections l (v :: read))
      with (store_sections
              (add_segment l (val_start v) (val_count v) (val_page_size v)) read).
    pose proof (layout_segments_add l (val_start v) (val_count v) (val_page_size v))
      as Hadd.
    assert (Hcount : count (add_segment l (val_start v) (val_count v) (val_page_size v))
                     = if (count l <? SEGMENT_SLOTS)%nat then S (count l) else count l).
    { unfold add_segment. now destruct (count l <? SEGMENT_SLOTS)%nat. }
    destruct (Nat.ltb_spec (count l) SEGMENT_SLOTS) as [Hlt|Hge].
    + rewrite IH by (rewrite Hcount; lia). rewrite Hadd, Hcount.
      replace (SEGMENT_SLOTS - count l)%nat with (S (SEGMENT_SLOTS - S (count l)))
        by lia.
      cbn [firstn map]. rewrite <- app_assoc. reflexivity.
    + rewrite IH by (rewrite Hcount; lia). rewrite Hadd, Hcount.
      replace (SEGMENT_SLOTS - count l)%nat with 0%nat by lia. reflexivity.
Qed.

(** The values kept are those [strtoul] and [parse_size_bytes] return: of
    32 bits, with a page size that is not zero. *)
Lemma sections_read_range fuel :
  forall cursor,
    Forall (fun v => 0 <= val_start v <= ULONG_MAX
                     /\ 0 <= val_count v <= ULONG_MAX
                     /\ 0 < val_page_size v <= ULONG_MAX)
           (sections_read fuel cursor).
Proof.
  induction fuel as [|fuel IH]; intros cursor; [constructor|].
  cbn [sections_read].
  destruct (strchr cursor "/") as [at_slash|]; [|constructor].
  cbv zeta.
  destruct (negb _); [apply IH|].
  destruct (strtoul (next at_slash) 16) as [start e1] eqn:Hstart.
  destruct (negb _); [apply IH|].
  destruct (strtoul (next e1) 10) as [cnt e2] eqn:Hcnt.
  destruct (negb _); [apply IH|].
  destruct (parse_size_bytes (next e2)) as [page_size c3] eqn:Hsize.
  destruct (Z.eqb_spec page_size 0) as [Hzero|Hzero]; [apply IH|].
  constructor; [|apply IH]. cbn [val_start val_count val_page_size].
  apply strtoul_spec in Hstart; [|lia]. apply strtoul_spec in Hcnt; [|lia].
  apply parse_size_bytes_spec in Hsize. lia.
Qed.

Lemma stored_segment_parsed v :
  0 <= val_count v <= ULONG_MAX -> 0 < val_page_size v <= ULONG_MAX ->
  parsed_as (stored_segment v) (val_count v).
Proof.
  intros Hc Hp. unfold parsed_as, stored_segment. cbn [seg_start seg_end seg_page_size].
  pose proof (u32_range (val_start v)).
  pose proof (u32_range (u32 (val_start v) + u32 (val_count v * val_page_size v))).
  tauto.
Qed.

(** C5, as corrected: the segments the parser reports are, in order,
    those of the first eight sections it reads from the name, each stored
    with 32-bit fields, a page size that is not zero and an end equal to
    its start plus the page count read for that section times the page
    size, modulo 2^32; start < end and a length that is a multiple of the
    page size hold for every section read with a count of at least one
    and an end within the 32-bit address space.  The parser checks
    neither the count, nor the overflow, nor that the segments do not
    overlap: two pages of 1 KiB from 0xFFFFFC00 end at 0x00000400, below
    their start, and two sections may name the same pages. *)
Theorem parsed_layout_segments name before :
  let segs := layout_segments (snd (parse_alt_memory_layout name before)) in
  let read := sections_of_name name in
  segs = map stored_segment (firstn SEGMENT_SLOTS read)
  /\ (List.length segs <= SEGMENT_SLOTS)%nat
  /\ (forall v, In v read ->
        parsed_as (stored_segment v) (val_count v)
        /\ (1 <= val_count v ->
            val_start v + val_count v * val_page_size v <= ULONG_MAX ->
            segment_invariant (stored_segment v)))
  /\ sections_of_name (Some "/0x08000000/16*001Ka,112*001Kg"%string)
     = [mk_values 0x08000000 16 1024]
  /\ layout_of_name "/0xFFFFFC00/2*1K" = [mk_segment 0xFFFFFC00 0x00000400 1024]
  /\ layout_of_name "/0x08000000/2*1K/0x08000400/2*1K"
     = [mk_segment 0x08000000 0x08000800 1024;
        mk_segment 0x08000400 0x08000C00 1024].
Proof.
  cbv zeta.
  assert (Hsegs : layout_segments (snd (parse_alt_memory_layout name before))
                  = map stored_segment (firstn SEGMENT_SLOTS (sections_of_name name))).
  { rewrite parse_alt_memory_layout_segments. unfold sections_of_name.
    destruct name as [text|]; [|reflexivity].
    rewrite parse_segments_read, store_sections_segments
      by (cbn [count zero_layout]; unfold SEGMENT_SLOTS; lia).
    cbn [count zero_layout layout_segments seq map app].
    now rewrite Nat.sub_0_r. }
  split; [exact Hsegs|]. split.
  { rewrite Hsegs, length_map, length_firstn. lia. }
  split; [|repeat split; vm_compute; reflexivity].
  intros v Hin.
  assert (Hrange : 0 <= val_start v <= ULONG_MAX
                   /\ 0 <= val_count v <= ULONG_MAX
                   /\ 0 < val_page_size v <= ULONG_MAX).
  { unfold sections_of_name in Hin. destruct name as [text|]; [|destruct Hin].
    pose proof (sections_read_range (S (String.length text)) text) as Hall.
    rewrite Forall_forall in Hall. exact (Hall v Hin). }
  destruct Hrange as (Hs & Hc & Hp).
  pose proof (stored_segment_parsed v Hc Hp) as Hparsed.
  split; [exact Hparsed|]. intros H1 Hfit.
  apply (parsed_as_invariant _ _ Hparsed H1).
  unfold stored_segment. cbn [seg_start seg_page_size].
  now rewrite (u32_small _ Hs).
Qed.

(** C5 as stated fails: a page count of zero is accepted and gives a
    segment whose end is its start. *)
Lemma parsed_layout_breaks_invariant :
  ~ memory_layout_invariant (layout_of_name "/0x08000000/0*1K").
Proof.
  intros [H _].
  assert (E : layout_of_name "/0x08000000/0*1K"
              = [mk_segment 0x08000000 0x08000000 1024]) by (vm_compute; reflexivity).
  rewrite E in H. apply Forall_inv in H. destruct H as [Hlt _].
  simpl in Hlt. lia.
Qed.

Lemma parsed_layout_segments_witness :
  segment_invariant (mk_segment 0x08000000 0x08004000 1024).
Proof.
  apply (proj2 (proj1 (proj2 (proj2 (parsed_layout_segments
                                       (Some "/0x08000000/16*001Ka,112*001Kg"%string)
                                       zero_layout)))
                  (mk_values 0x08000000 16 1024)
                  ltac:(vm_compute; left; reflexivity))).
  - cbn [val_count]. lia.
  - unfold ULONG_MAX. cbn [val_start val_count val_page_size]. lia.
Defined.

(** ** Frames: what a computation leaves of the world *)

Section Closure.

Variable R : world -> world -> Prop.
Hypothesis R_refl : forall w, R w w.
Hypothesis R_trans : forall w1 w2 w3, R w1 w2 -> R w2 w3 -> R w1 w3.

Lemma keeps_ret {A} (a : A) : keeps R (ret a).
Proof. intros w. apply R_refl. Qed.

Lemma keeps_stuck {A} l : keeps R (@stuck A l).
Proof. intros w. apply R_refl. Qed.

Lemma keeps_bind {A B} (m : M A) (k : A -> M B) :
  keeps R m -> (forall a, keeps R (k a)) -> keeps R (bind m k).
Proof.
  intros Hm Hk w. unfold bind. specialize (Hm w).
  destruct (m w) as [a w'|l w']; simpl in *; [|exact Hm].
  eapply R_trans; [exact Hm|apply Hk].
Qed.

End Closure.

Lemma only_refl p w : only p w w.
Proof. exists []. now rewrite app_nil_r. Qed.

Lemma only_trans p w1 w2 w3 : only p w1 w2 -> only p w2 w3 -> only p w1 w3.
Proof.
  intros (e1 & E1 & Q1) (e2 & E2 & Q2). exists (e1 ++ e2).
  rewrite E2, E1, app_assoc, forallb_app, Q1, Q2. auto.
Qed.

Lemma only_weaken (p q : event -> bool) w w' :
  (forall e, p e = true -> q e = true) -> only p w w' -> only q w w'.
Proof.
  intros Hpq (evs & E & Q). exists evs. split; [exact E|].
  rewrite forallb_forall in *. auto.
Qed.

Lemma keeps_weaken {A} (p q : event -> bool) (m : M A) :
  (forall e, p e = true -> q e = true) -> keeps (only p) m -> keeps (only q) m.
Proof. intros Hpq H w. eapply only_weaken; eauto. Qed.

Lemma status_step_refl cfg w : status_step cfg w w.
Proof. now left. Qed.

Lemma status_step_trans cfg w1 w2 w3 :
  status_step cfg w1 w2 -> status_step cfg w2 w3 -> status_step cfg w1 w3.
Proof.
  intros [E1|E1] [E2|E2]; [left; congruence|now right| |now right].
  right. now rewrite E2.
Qed.

Lemma visible_app tr evs : visible (tr ++ evs) = visible tr ++ visible evs.
Proof. apply filter_app. Qed.

Lemma visible_quiet evs : forallb quiet evs = true -> visible evs = [].
Proof.
  induction evs as [|e evs IH]; simpl; [reflexivity|].
  intros H. apply andb_prop in H. destruct H as [H1 H2].
  rewrite H1. simpl. auto.
Qed.

Lemma quiet_step_visible w w' :
  quiet_step w w' -> visible (w_trace w') = visible (w_trace w).
Proof.
  intros (evs & E & Q). rewrite E, visible_app, (visible_quiet _ Q).
  apply app_nil_r.
Qed.

Lemma only_ret p {A} (a : A) : keeps (only p) (ret a).
Proof. apply keeps_ret, only_refl. Qed.

Lemma only_stuck p {A} l : keeps (only p) (@stuck A l).
Proof. apply keeps_stuck, only_refl. Qed.

Lemma only_bind p {A B} (m : M A) (k : A -> M B) :
  keeps (only p) m -> (forall a, keeps (only p) (k a)) -> keeps (only p) (bind m k).
Proof. apply keeps_bind, only_trans. Qed.

Lemma status_ret cfg {A} (a : A) : keeps (status_step cfg) (ret a).
Proof. apply keeps_ret, status_step_refl. Qed.

Lemma status_stuck cfg {A} l : keeps (status_step cfg) (@stuck A l).
Proof. apply keeps_stuck, status_step_refl. Qed.

Lemma status_bind cfg {A B} (m : M A) (k : A -> M B) :
  keeps (status_step cfg) m -> (forall a, keeps (status_step cfg) (k a)) ->
  keeps (status_step cfg) (bind m k).
Proof. apply keeps_bind, status_step_trans. Qed.

Lemma only_emit p e : p e = true -> keeps (only p) (emit e).
Proof. intros Q w. exists [e]. simpl. now rewrite Q. Qed.

Lemma only_transfer p device rq :
  p (EvControl rq) = true -> keeps (only p) (control_transfer device rq).
Proof. intros Q w. exists [EvControl rq]. simpl. now rewrite Q. Qed.

Lemma only_control p env rq :
  p (EvControl rq) = true -> keeps (only p) (libusb_control_transfer env rq).
Proof. apply only_transfer. Qed.

Lemma status_emit cfg e : keeps (status_step cfg) (emit e).
Proof. intros w. now left. Qed.

Lemma status_control cfg env rq :
  keeps (status_step cfg) (libusb_control_transfer env rq).
Proof. intros w. now left. Qed.

Create HintDb frame.
#[local] Hint Resolve only_ret only_stuck status_ret status_stuck
  only_emit only_control status_emit status_control : frame.
#[local] Hint Unfold quiet_step : frame.

(** Goals [keeps R m]: follow the structure of [m]. *)
Ltac frame :=
  repeat first
    [ solve [auto with frame]
    | apply only_bind; [|intros]
    | apply status_bind; [|intros]
    | match goal with
      | |- keeps _ (if ?b then _ else _) => destruct b
      | |- keeps _ (match ?x with _ => _ end) => destruct x
      | |- keeps _ (let '(_, _) := ?x in _) => destruct x
      end ].

(** *** The status buffer *)

Lemma status_notify cfg cfg' m : keeps (status_step cfg) (notify cfg' m).
Proof. unfold notify. frame. Qed.

#[local] Hint Resolve status_notify : frame.

Lemma status_set_status cfg m : keeps (status_step cfg) (set_status cfg m).
Proof.
  unfold set_status. apply status_bind; [|intros; apply status_notify].
  intros w. cbv beta.
  destruct (arg_status_buf cfg && (0 <? arg_status_len cfg)%nat); simpl;
    [right; do 2 eexists; reflexivity|now left].
Qed.

#[local] Hint Resolve status_set_status : frame.

Lemma status_report_progress cfg cfg' p :
  keeps (status_step cfg) (report_progress cfg' p).
Proof. unfold report_progress. frame. Qed.

Lemma status_Sleep cfg ms : keeps (status_step cfg) (Sleep ms).
Proof. unfold Sleep. frame. Qed.

#[local] Hint Resolve status_report_progress status_Sleep : frame.

Lemma status_load cfg env : keeps (status_step cfg) (load_firmware_file cfg env).
Proof. unfold load_firmware_file. frame. Qed.

Lemma status_report_errors cfg errors last :
  keeps (status_step cfg) (report_errors cfg errors last).
Proof. revert last. induction errors; intros last; simpl; frame. Qed.

#[local] Hint Resolve status_load status_report_errors : frame.

Lemma status_wait_attempts cfg env n i last :
  keeps (status_step cfg) (wait_attempts cfg env n i last).
Proof. revert i last. induction n; intros i last; simpl; frame. Qed.

Lemma status_release cfg d : keeps (status_step cfg) (release_device d).
Proof. unfold release_device. frame. Qed.

#[local] Hint Resolve status_wait_attempts status_release : frame.

Lemma status_get_status cfg env d : keeps (status_step cfg) (dfu_get_status env d).
Proof. unfold dfu_get_status. frame. Qed.

Lemma status_clear_status cfg env d :
  keeps (status_step cfg) (dfu_clear_status env d).
Proof. unfold dfu_clear_status. frame. Qed.

Lemma status_abort cfg env d : keeps (status_step cfg) (dfu_abort env d).
Proof. unfold dfu_abort. frame. Qed.

#[local] Hint Resolve status_get_status status_clear_status status_abort : frame.

Lemma status_wait_ready fuel cfg env d allow :
  keeps (status_step cfg) (dfu_wait_ready fuel cfg env d allow).
Proof. induction fuel; cbn [dfu_wait_ready]; frame. Qed.

#[local] Hint Resolve status_wait_ready : frame.

Lemma status_prepare_idle fuel cfg env d :
  keeps (status_step cfg) (dfu_prepare_idle fuel cfg env d).
Proof. unfold dfu_prepare_idle. frame. Qed.

Lemma status_download_block fuel cfg env d block data len allow :
  keeps (status_step cfg) (dfu_download_block fuel cfg env d block data len allow).
Proof. unfold dfu_download_block. frame. Qed.

#[local] Hint Resolve status_prepare_idle status_download_block : frame.

Lemma status_special_command fuel cfg env d command address len allow :
  keeps (status_step cfg)
        (dfu_send_special_command fuel cfg env d command address len allow).
Proof. unfold dfu_send_special_command. frame. Qed.

#[local] Hint Resolve status_special_command : frame.

Lemma status_erase_pages n fuel cfg env d segment page_base end_ :
  keeps (status_step cfg) (erase_pages n fuel cfg env d segment page_base end_).
Proof.
  revert d page_base. induction n; intros d page_base; cbn [erase_pages]; frame.
Qed.

#[local] Hint Resolve status_erase_pages : frame.

Lemma status_erase_segments n fuel cfg env d start end_ :
  keeps (status_step cfg) (erase_segments n fuel cfg env d start end_).
Proof.
  revert d start. induction n; intros d start; cbn [erase_segments]; frame.
Qed.

#[local] Hint Resolve status_erase_segments : frame.

Lemma status_erase_range fuel cfg env d address len :
  keeps (status_step cfg) (dfu_erase_range fuel cfg env d address len).
Proof. unfold dfu_erase_range. frame. Qed.

#[local] Hint Resolve status_erase_range : frame.

Lemma status_write_chunk fuel cfg env d firmware firmware_len written :
  keeps (status_step cfg)
        (write_chunk fuel cfg env d firmware firmware_len written).
Proof. unfold write_chunk, dfu_set_address_pointer. frame. Qed.

#[local] Hint Resolve status_write_chunk : frame.

Lemma status_write_loop n fuel cfg env d firmware firmware_len written :
  keeps (status_step cfg)
        (write_loop n fuel cfg env d firmware firmware_len written).
Proof.
  revert d written. induction n; intros d written; cbn [write_loop]; frame.
Qed.

#[local] Hint Resolve status_write_loop : frame.

Lemma status_flash_body fuel cfg env :
  keeps (status_step cfg) (flash_body fuel cfg env).
Proof.
  unfold flash_body, flash_prepare, flash_finish, choose_erase,
    wait_for_stm32_dfu_device, dfu_mass_erase, dfu_set_address_pointer.
  frame.
Qed.

(** *** The trace *)

Section Only.

Variable p : event -> bool.
Hypothesis p_quiet : forall e, quiet e = true -> p e = true.

Lemma only_quiet_emit e : quiet e = true -> keeps (only p) (emit e).
Proof. intros Q. apply only_emit. auto. Qed.

Lemma only_quiet_control env rq :
  is_dnload rq = false -> keeps (only p) (libusb_control_transfer env rq).
Proof. intros Q. apply only_control, p_quiet. simpl. now rewrite Q. Qed.

#[local] Hint Resolve only_quiet_emit only_quiet_control : frame.

Lemma only_notify cfg m : keeps (only p) (notify cfg m).
Proof. unfold notify. frame. Qed.

#[local] Hint Resolve only_notify : frame.

Lemma only_set_status cfg m : keeps (only p) (set_status cfg m).
Proof.
  unfold set_status. apply only_bind; [|intros; apply only_notify].
  intros w. cbv beta.
  destruct (arg_status_buf cfg && (0 <? arg_status_len cfg)%nat); simpl;
    [exists []; now rewrite app_nil_r|apply only_refl].
Qed.

Lemma only_Sleep ms : keeps (only p) (Sleep ms).
Proof. unfold Sleep. frame. Qed.

#[local] Hint Resolve only_set_status only_Sleep : frame.

Lemma only_load cfg env : keeps (only p) (load_firmware_file cfg env).
Proof. unfold load_firmware_file. frame. Qed.

Lemma only_report_errors cfg errors last :
  keeps (only p) (report_errors cfg errors last).
Proof. revert last. induction errors; intros last; simpl; frame. Qed.

#[local] Hint Resolve only_load only_report_errors : frame.

Lemma only_wait_attempts cfg env n i last :
  keeps (only p) (wait_attempts cfg env n i last).
Proof. revert i last. induction n; intros i last; simpl; frame. Qed.

Lemma only_release d : keeps (only p) (release_device d).
Proof. unfold release_device. frame. Qed.

#[local] Hint Resolve only_wait_attempts only_release : frame.

Lemma only_get_status env d : keeps (only p) (dfu_get_status env d).
Proof. unfold dfu_get_status. frame. Qed.

Lemma only_clear_status env d : keeps (only p) (dfu_clear_status env d).
Proof. unfold dfu_clear_status. frame. Qed.

Lemma only_abort env d : keeps (only p) (dfu_abort env d).
Proof. unfold dfu_abort. frame. Qed.

#[local] Hint Resolve only_get_status only_clear_status only_abort : frame.

Lemma only_wait_ready fuel cfg env d allow :
  keeps (only p) (dfu_wait_ready fuel cfg env d allow).
Proof. induction fuel; cbn [dfu_wait_ready]; frame. Qed.

#[local] Hint Resolve only_wait_ready : frame.

Lemma only_prepare_idle fuel cfg env d :
  keeps (only p) (dfu_prepare_idle fuel cfg env d).
Proof. unfold dfu_prepare_idle. frame. Qed.

Lemma only_download_block fuel cfg env d block data len allow :
  p (EvControl (dnload_request d block data len)) = true ->
  keeps (only p) (dfu_download_block fuel cfg env d block data len allow).
Proof. intros Hp. unfold dfu_download_block. frame. Qed.

#[local] Hint Resolve only_prepare_idle only_download_block : frame.

Lemma only_special_command fuel cfg env d command address len allow :
  allows_command p command (if 5 <? len then 5 else len) ->
  keeps (only p)
        (dfu_send_special_command fuel cfg env d command address len allow).
Proof. intros Hp. unfold dfu_send_special_command. frame. Qed.

Lemma only_report_progress cfg percent :
  allows_progress p -> keeps (only p) (report_progress cfg percent).
Proof. intros Hp. unfold report_progress. frame. Qed.

#[local] Hint Resolve only_report_progress : frame.

Lemma only_erase_pages n fuel cfg env d segment page_base end_ :
  allows_command p 0x41 5 ->
  keeps (only p) (erase_pages n fuel cfg env d segment page_base end_).
Proof.
  intros Hp. revert d page_base.
  induction n; intros d page_base; cbn [erase_pages]; frame;
    apply only_special_command; exact Hp.
Qed.

#[local] Hint Resolve only_erase_pages : frame.

Lemma only_erase_segments n fuel cfg env d start end_ :
  allows_command p 0x41 5 ->
  keeps (only p) (erase_segments n fuel cfg env d start end_).
Proof.
  intros Hp. revert d start.
  induction n; intros d start; cbn [erase_segments]; frame.
Qed.

#[local] Hint Resolve only_erase_segments : frame.

Lemma only_erase_range fuel cfg env d address len :
  allows_command p 0x41 5 ->
  keeps (only p) (dfu_erase_range fuel cfg env d address len).
Proof. intros Hp. unfold dfu_erase_range. frame. Qed.

Lemma only_set_address_pointer fuel cfg env d address :
  allows_command p 0x21 5 ->
  keeps (only p) (dfu_set_address_pointer fuel cfg env d address).
Proof. intros Hp. apply only_special_command. exact Hp. Qed.

Lemma only_mass_erase fuel cfg env d :
  allows_command p 0x41 1 -> keeps (only p) (dfu_mass_erase fuel cfg env d).
Proof. intros Hp. apply only_special_command. exact Hp. Qed.

#[local] Hint Resolve only_erase_range only_set_address_pointer
  only_mass_erase : frame.

Lemma only_write_chunk fuel cfg env d firmware firmware_len written :
  allows_data p -> allows_command p 0x21 5 -> allows_command p 0x41 5 ->
  keeps (only p) (write_chunk fuel cfg env d firmware firmware_len written).
Proof. intros Hdata Haddr Herase. unfold write_chunk. frame. Qed.

#[local] Hint Resolve only_write_chunk : frame.

Lemma only_write_loop n fuel cfg env d firmware firmware_len written :
  allows_progress p -> allows_data p -> allows_command p 0x21 5 ->
  allows_command p 0x41 5 ->
  keeps (only p) (write_loop n fuel cfg env d firmware firmware_len written).
Proof.
  intros Hprog Hdata Haddr Herase. revert d written.
  induction n; intros d written; cbn [write_loop]; frame.
Qed.

#[local] Hint Resolve only_write_loop : frame.

Lemma only_choose_erase fuel cfg env d :
  allows_progress p -> allows_command p 0x41 1 ->
  keeps (only p) (choose_erase fuel cfg env d).
Proof. intros Hprog Hmass. unfold choose_erase. frame. Qed.

#[local] Hint Resolve only_choose_erase : frame.

Lemma only_flash_prepare fuel cfg env :
  allows_progress p -> allows_command p 0x21 5 -> allows_command p 0x41 1 ->
  keeps (only p) (flash_prepare fuel cfg env).
Proof.
  intros Hprog Haddr Hmass.
  unfold flash_prepare, wait_for_stm32_dfu_device. frame.
Qed.

Lemma only_flash_finish fuel cfg env d :
  allows_progress p -> allows_data p ->
  keeps (only p) (flash_finish fuel cfg env d).
Proof. intros Hprog Hdata. unfold flash_finish. frame. Qed.

#[local] Hint Resolve only_flash_prepare only_flash_finish : frame.

Lemma only_flash_body fuel cfg env :
  allows_progress p -> allows_data p -> allows_command p 0x21 5 ->
  allows_command p 0x41 5 -> allows_command p 0x41 1 ->
  keeps (only p) (flash_body fuel cfg env).
Proof.
  intros Hprog Hdata Haddr Herase Hmass. unfold flash_body. frame.
Qed.

Lemma only_cleanup cfg success d :
  allows_progress p -> keeps (only p) (cleanup cfg success d).
Proof.
  intros Hprog. unfold cleanup. frame.
  intros w. cbv beta.
  match goal with |- context [if ?b then _ else _] => destruct b end;
    [apply only_set_status|apply only_refl].
Qed.

#[local] Hint Resolve only_flash_body only_cleanup : frame.

Lemma only_flash fuel cfg env :
  allows_progress p -> allows_data p -> allows_command p 0x21 5 ->
  allows_command p 0x41 5 -> allows_command p 0x41 1 ->
  keeps (only p) (dfu_loader_flash fuel cfg env).
Proof.
  intros Hprog Hdata Haddr Herase Hmass.
  unfold dfu_loader_flash, flash_steps. frame.
Qed.

End Only.

(** ** The DFU state machine *)

Lemma dfu_get_status_run env d w :
  dfu_get_status env d w =
  let x := status_reply env d w in
  Done (if x_ret x <? 0 then (x_ret x, zero_status)
        else if negb (x_ret x =? 6) then (LIBUSB_ERROR_IO, zero_status)
        else (LIBUSB_SUCCESS,
              mk_status (reply_status x) (reply_state x) (reply_poll_timeout x)))
       (polled d w).
Proof.
  unfold dfu_get_status, bind, libusb_control_transfer, control_transfer,
    status_reply.
  cbv zeta.
  destruct (x_ret _ <? 0); [reflexivity|].
  destruct (negb _); reflexivity.
Qed.

Lemma dfu_clear_status_run env d w :
  dfu_clear_status env d w = Done tt (cleared d w).
Proof. reflexivity. Qed.

Lemma dfu_wait_ready_round fuel cfg env d allow_manifest w :
  dfu_wait_ready (S fuel) cfg env d allow_manifest w =
  let x := status_reply env d w in
  let '(ret_code, st) :=
    if x_ret x <? 0 then (x_ret x, zero_status)
    else if negb (x_ret x =? 6) then (LIBUSB_ERROR_IO, zero_status)
    else (LIBUSB_SUCCESS,
          mk_status (reply_status x) (reply_state x) (reply_poll_timeout x)) in
  (if ret_code =? LIBUSB_ERROR_NO_DEVICE then ret allow_manifest
   else if negb (ret_code =? LIBUSB_SUCCESS) then
     fail_with cfg (MsgStatusReadFailed ret_code)
   else if negb (status st =? 0) then
     dfu_clear_status env d ;;
     fail_with cfg (MsgDfuStatus (status st) (state st))
   else if is_idle_state (state st) then ret true
   else if is_manifest_state (state st) then ret allow_manifest
   else if state st =? DFU_STATE_dfuERROR then
     dfu_clear_status env d ;; fail_with cfg MsgDfuError
   else
     Sleep (poll_pause (poll_timeout_ms st)) ;;
     dfu_wait_ready fuel cfg env d allow_manifest) (polled d w).
Proof.
  cbn [dfu_wait_ready]. unfold bind at 1. rewrite dfu_get_status_run.
  cbv zeta. destruct (if x_ret _ <? 0 then _ else _). reflexivity.
Qed.

(** C2, as corrected: one round of [dfu_wait_ready] on the answer [x] of
    the device to GETSTATUS.  Device vanished: the result is
    [allow_manifest].  Any other transport error, or a reply that is not
    six bytes long: failure with the read error.  A status byte that is
    not zero: exactly one CLRSTATUS, then failure with the message that
    carries the status and state codes.  dfuIDLE or dfuDNLOAD_IDLE:
    success.  A manifest state: [allow_manifest].  dfuERROR: exactly one
    CLRSTATUS, then failure.  Any other state: a sleep of the poll timeout
    of the device, or of 5 ms when that timeout is zero, and another
    round. *)
Theorem wait_ready_cases fuel cfg env d allow_manifest w :
  let x := status_reply env d w in
  let run := dfu_wait_ready (S fuel) cfg env d allow_manifest w in
  (x_ret x = LIBUSB_ERROR_NO_DEVICE -> run = Done allow_manifest (polled d w))
  /\ (x_ret x < 0 -> x_ret x <> LIBUSB_ERROR_NO_DEVICE ->
      run = fail_with cfg (MsgStatusReadFailed (x_ret x)) (polled d w))
  /\ (0 <= x_ret x -> x_ret x <> 6 ->
      run = fail_with cfg (MsgStatusReadFailed LIBUSB_ERROR_IO) (polled d w))
  /\ (x_ret x = 6 -> reply_status x <> 0 ->
      run = fail_with cfg (MsgDfuStatus (reply_status x) (reply_state x))
                      (cleared d (polled d w)))
  /\ (x_ret x = 6 -> reply_status x = 0 ->
      reply_state x = DFU_STATE_dfuIDLE \/ reply_state x = DFU_STATE_dfuDNLOAD_IDLE ->
      run = Done true (polled d w))
  /\ (x_ret x = 6 -> reply_status x = 0 ->
      reply_state x = DFU_STATE_dfuMANIFEST_SYNC
      \/ reply_state x = DFU_STATE_dfuMANIFEST
      \/ reply_state x = DFU_STATE_dfuMANIFEST_WAIT_RESET ->
      run = Done allow_manifest (polled d w))
  /\ (x_ret x = 6 -> reply_status x = 0 -> reply_state x = DFU_STATE_dfuERROR ->
      run = fail_with cfg MsgDfuError (cleared d (polled d w)))
  /\ (x_ret x = 6 -> reply_status x = 0 ->
      is_idle_state (reply_state x) = false ->
      is_manifest_state (reply_state x) = false ->
      reply_state x <> DFU_STATE_dfuERROR ->
      run = dfu_wait_ready fuel cfg env d allow_manifest
              (slept (poll_pause (reply_poll_timeout x)) (polled d w)))
  /\ (forall status state,
        Format.render (MsgDfuStatus status state)
        = ("Error: DFU status 0x" ++ Format.hex 2 status
             ++ " (state=0x" ++ Format.hex 2 state ++ ")")%string).
Proof.
  cbv zeta. rewrite dfu_wait_ready_round. cbv zeta.
  set (x := status_reply env d w).
  unfold LIBUSB_ERROR_NO_DEVICE, LIBUSB_SUCCESS, LIBUSB_ERROR_IO.
  repeat split.
  - intros E. rewrite E. reflexivity.
  - intros Hneg Hne.
    destruct (Z.ltb_spec (x_ret x) 0); [|lia].
    destruct (Z.eqb_spec (x_ret x) (-4)); [lia|].
    destruct (Z.eqb_spec (x_ret x) 0); [lia|]. reflexivity.
  - intros Hpos Hne.
    destruct (Z.ltb_spec (x_ret x) 0); [lia|].
    destruct (Z.eqb_spec (x_ret x) 6); [lia|]. reflexivity.
  - intros E Hs. rewrite E. cbn [Z.ltb Z.eqb negb Z.compare Pos.eqb status state].
    cbv iota. cbn [status state].
    destruct (Z.eqb_spec (reply_status x) 0); [contradiction|]. reflexivity.
  - intros E Hs Hst. rewrite E. cbn [Z.ltb Z.eqb negb Z.compare Pos.eqb].
    cbv iota. cbn [status state]. rewrite Hs.
    destruct Hst as [-> | ->]; reflexivity.
  - intros E Hs Hst. rewrite E. cbn [Z.ltb Z.eqb negb Z.compare Pos.eqb].
    cbv iota. cbn [status state]. rewrite Hs.
    destruct Hst as [-> | [-> | ->]]; reflexivity.
  - intros E Hs Hst. rewrite E. cbn [Z.ltb Z.eqb negb Z.compare Pos.eqb].
    cbv iota. cbn [status state]. rewrite Hs, Hst. reflexivity.
  - intros E Hs Hidle Hman Herr. rewrite E.
    cbn [Z.ltb Z.eqb negb Z.compare Pos.eqb].
    cbv iota. cbn [status state poll_timeout_ms]. rewrite Hs, Hidle, Hman.
    destruct (Z.eqb_spec (reply_state x) DFU_STATE_dfuERROR); [contradiction|].
    reflexivity.
Qed.

(** C2 as stated fails: a poll timeout of 3 ms is slept as 3 ms, not as
    the 5 ms of max(poll timeout, 5). *)
Lemma wait_ready_short_pause :
  let w := result_world (dfu_wait_ready 2 no_caller (bare_environment busy_once_device)
                                        zero_device false (initial_world [])) in
  In (EvSleep 3) (w_trace w) /\ ~ In (EvSleep (spec_poll_pause 3)) (w_trace w).
Proof.
  vm_compute. split; [auto|].
  intros [H|[H|[H|[]]]]; discriminate.
Qed.

Lemma wait_ready_cases_witness :
  dfu_wait_ready 1 no_caller (bare_environment busy_once_device) zero_device false
                 (initial_world [])
  = dfu_wait_ready 0 no_caller (bare_environment busy_once_device) zero_device false
                   (slept 3 (polled zero_device (initial_world []))).
Proof.
  destruct (wait_ready_cases 0 no_caller (bare_environment busy_once_device)
                             zero_device false (initial_world []))
    as (_ & _ & _ & _ & _ & _ & _ & H & _).
  apply H; vm_compute; try reflexivity. discriminate.
Defined.

(** ** The status buffer *)

Lemma substring_length n s : (String.length (substring 0 n s) <= n)%nat.
Proof.
  revert s. induction n as [|n IH]; intros [|c s]; simpl; try lia.
  specialize (IH s). lia.
Qed.

Lemma list_ascii_length s :
  List.length (list_ascii_of_string s) = String.length s.
Proof. induction s; simpl; congruence. Qed.

Lemma store_terminated len text old :
  (0 < len)%nat -> In Ascii.zero (firstn len (store len text old)).
Proof.
  intros Hlen. unfold store. set (kept := Format.truncate len text).
  assert (Hk : (String.length kept <= len - 1)%nat) by apply substring_length.
  rewrite firstn_app, list_ascii_length.
  apply in_or_app. right.
  destruct (len - String.length kept)%nat as [|k] eqn:E; [lia|].
  simpl. now left.
Qed.

Lemma store_unknown len old :
  (2 <= len)%nat ->
  hd Ascii.zero (store len (Format.render MsgUnknown) old) <> Ascii.zero.
Proof.
  intros Hlen. destruct len as [|[|len]]; try lia.
  unfold store, Format.truncate. simpl. discriminate.
Qed.

Lemma set_status_written cfg m w :
  arg_status_buf cfg = true -> (0 < arg_status_len cfg)%nat ->
  w_status (result_world (set_status cfg m w))
  = store (arg_status_len cfg) (Format.render m) (w_status w).
Proof.
  intros Hb Hl. unfold set_status, bind.
  apply Nat.ltb_lt in Hl. rewrite Hb, Hl. simpl.
  unfold notify. destruct (arg_client cfg) as [c|]; [destruct (status_cb c)|];
    reflexivity.
Qed.

Lemma report_progress_status cfg p w :
  w_status (result_world (report_progress cfg p w)) = w_status w.
Proof.
  unfold report_progress.
  destruct (arg_client cfg) as [c|]; [destruct (progress_cb c)|];
    try destruct (arg_progress_cb cfg); reflexivity.
Qed.

Lemma release_device_status d w :
  w_status (result_world (release_device d w)) = w_status w.
Proof. unfold release_device. destruct (handle d); reflexivity. Qed.

(** After the first status message the buffer always holds the text of
    some [set_status]. *)
Lemma flash_steps_written fuel cfg env w :
  arg_status_buf cfg = true -> (0 < arg_status_len cfg)%nat ->
  exists text old,
    w_status (result_world (flash_steps fuel cfg env w))
    = store (arg_status_len cfg) text old.
Proof.
  intros Hb Hl. unfold flash_steps.
  unfold bind at 1.
  pose proof (report_progress_status cfg 0 w) as E0.
  destruct (report_progress cfg 0 w) as [[] w0|l w0] eqn:R0.
  2:{ unfold report_progress in R0.
      destruct (arg_client cfg) as [c|]; [destruct (progress_cb c)|];
        try destruct (arg_progress_cb cfg); discriminate. }
  unfold bind at 1.
  pose proof (set_status_written cfg MsgLoading w0 Hb Hl) as E1.
  destruct (set_status cfg MsgLoading w0) as [[] w1|l w1] eqn:R1.
  2:{ unfold set_status, bind, notify in R1.
      destruct (_ && _) in R1;
        (destruct (arg_client cfg) as [c|]; [destruct (status_cb c)|]);
        discriminate. }
  simpl in E1.
  destruct (status_flash_body fuel cfg env w1) as [E|E].
  - rewrite E, E1. eauto.
  - exact E.
Qed.

Lemma cleanup_status cfg success d w :
  arg_status_buf cfg = true -> (2 <= arg_status_len cfg)%nat ->
  forall w', cleanup cfg success d w = Done false w' ->
  (Ascii.eqb (hd Ascii.zero (w_status w)) Ascii.zero = true ->
   w_status w' = store (arg_status_len cfg) (Format.render MsgUnknown) (w_status w))
  /\ (Ascii.eqb (hd Ascii.zero (w_status w)) Ascii.zero = false ->
      w_status w' = w_status w).
Proof.
  intros Hb Hl w'. unfold cleanup.
  assert (Hl' : (0 <? arg_status_len cfg)%nat = true) by (apply Nat.ltb_lt; lia).
  destruct success.
  - unfold bind. destruct (report_progress cfg 100 w); [|discriminate].
    destruct (release_device d w0); [|discriminate].
    match goal with |- context [if ?b then _ else _] => destruct b end;
      [|discriminate].
    destruct (set_status cfg MsgUnknown w1); discriminate.
  - unfold bind at 1. cbn [ret]. cbv iota beta.
    unfold bind at 1.
    pose proof (release_device_status d w) as E1.
    destruct (release_device d w) as [[] w1|l w1]; [|discriminate].
    simpl in E1. unfold bind at 1. cbn [negb andb]. rewrite Hb, Hl', E1.
    cbn [andb].
    destruct (Ascii.eqb (hd Ascii.zero (w_status w)) Ascii.zero) eqn:Hz.
    + pose proof (set_status_written cfg MsgUnknown w1 Hb ltac:(lia)) as E2.
      destruct (set_status cfg MsgUnknown w1) as [[] w2|l w2]; [|discriminate].
      intros [= <-]. simpl in E2. rewrite E1 in E2.
      split; [intros _; exact E2|discriminate].
    + intros [= <-]. split; [discriminate|intros _; exact E1].
Qed.

(** C9, as corrected: when [dfu_loader_flash] returns false and the
    caller gave a status buffer of at least two bytes, the buffer holds a
    message that is not empty and is terminated within the buffer; and at
    the label [cleanup] an empty buffer receives the fallback message
    (truncated to the buffer).  A buffer of one byte only ever holds the
    terminator. *)
Theorem failed_flash_leaves_status fuel cfg env w w' :
  arg_status_buf cfg = true -> (2 <= arg_status_len cfg)%nat ->
  dfu_loader_flash fuel cfg env w = Done false w' ->
  status_message_present cfg w'
  /\ (forall d w0 w1,
        cleanup cfg false d w0 = Done false w1 ->
        hd Ascii.zero (w_status w0) = Ascii.zero ->
        w_status w1
        = store (arg_status_len cfg) (Format.render MsgUnknown) (w_status w0)).
Proof.
  intros Hb Hl Hrun. split.
  - unfold dfu_loader_flash, bind in Hrun.
    destruct (flash_steps_written fuel cfg env w Hb ltac:(lia)) as (text & old & E).
    destruct (flash_steps fuel cfg env w) as [[success d] w1|l w1];
      [|discriminate].
    simpl in E.
    destruct (cleanup_status cfg success d w1 Hb Hl w' Hrun) as [Hz Hnz].
    unfold status_message_present.
    destruct (Ascii.eqb (hd Ascii.zero (w_status w1)) Ascii.zero) eqn:Hhd.
    + rewrite (Hz eq_refl). split.
      * now apply store_unknown.
      * apply store_terminated. lia.
    + rewrite (Hnz eq_refl). split.
      * intros Heq. rewrite Heq, Ascii.eqb_refl in Hhd. discriminate.
      * rewrite E. apply store_terminated. lia.
  - intros d w0 w1 Hc Hz.
    apply (cleanup_status cfg false d w0 Hb Hl w1 Hc).
    rewrite Hz. apply Ascii.eqb_refl.
Qed.

(** C9 as stated fails: a status buffer of length one is not empty as a
    buffer, and after a failed run it holds the empty message. *)
Lemma one_byte_status_is_empty :
  exists w',
    dfu_loader_flash 0 (plain_caller 1) (bare_environment busy_once_device)
                     (initial_world ["x"%char]) = Done false w'
    /\ ~ status_message_present (plain_caller 1) w'.
Proof.
  eexists. split; [vm_compute; reflexivity|].
  intros [H _]. apply H. reflexivity.
Qed.

Lemma failed_flash_leaves_status_witness :
  exists w',
    dfu_loader_flash 0 (plain_caller 32) (bare_environment busy_once_device)
                     (initial_world (repeat "x"%char 32)) = Done false w'
    /\ status_message_present (plain_caller 32) w'.
Proof.
  eexists. split; [vm_compute; reflexivity|].
  eapply (failed_flash_leaves_status 0 (plain_caller 32)
            (bare_environment busy_once_device)
            (initial_world (repeat "x"%char 32))).
  - reflexivity.
  - simpl. lia.
  - vm_compute. reflexivity.
Defined.

(** ** Chunks *)

Lemma chunks_closed_form fuel transfer remaining :
  0 < transfer -> 0 <= remaining -> (Z.to_nat remaining <= fuel)%nat ->
  chunks fuel transfer remaining =
  repeat transfer (Z.to_nat (remaining / transfer))
  ++ (if remaining mod transfer =? 0 then [] else [remaining mod transfer]).
Proof.
  intros Ht. revert remaining.
  induction fuel as [|fuel IH]; intros remaining Hr Hfuel.
  - assert (remaining = 0) as -> by lia.
    rewrite Z.div_0_l, Z.mod_0_l by lia. reflexivity.
  - cbn [chunks]. destruct (Z.ltb_spec 0 remaining) as [Hpos|Hzero].
    + destruct (Z.le_gt_cases transfer remaining) as [Hle|Hgt].
      * rewrite Z.min_l by lia.
        rewrite IH by lia.
        assert (Ed : remaining / transfer = (remaining - transfer) / transfer + 1).
        { replace remaining with (remaining - transfer + 1 * transfer) at 1 by lia.
          apply Z.div_add. lia. }
        assert (Em : remaining mod transfer = (remaining - transfer) mod transfer).
        { replace remaining with (remaining - transfer + 1 * transfer) at 1 by lia.
          apply Z.mod_add. lia. }
        rewrite Ed, Em.
        rewrite Z2Nat.inj_add by (try apply Z.div_pos; lia).
        rewrite Nat.add_comm. reflexivity.
      * rewrite Z.min_r by lia.
        replace (remaining - remaining) with 0 by lia.
        rewrite Z.div_small, Z.mod_small by lia.
        destruct (Z.eqb_spec remaining 0); [lia|].
        destruct fuel; reflexivity.
    + assert (remaining = 0) as -> by lia.
      rewrite Z.div_0_l, Z.mod_0_l by lia. reflexivity.
Qed.

Lemma chunks_more fuel transfer remaining :
  0 < transfer -> 0 <= remaining -> (Z.to_nat remaining <= fuel)%nat ->
  chunks fuel transfer remaining = chunk_sizes transfer remaining.
Proof.
  intros. unfold chunk_sizes. now rewrite !chunks_closed_form by lia.
Qed.




(** ** Running the loader step by step *)

#[local] Hint Resolve only_notify only_set_status only_Sleep only_load
  only_report_errors only_wait_attempts only_release only_get_status
  only_clear_status only_abort only_wait_ready only_prepare_idle
  only_download_block only_special_command only_report_progress
  only_erase_pages only_erase_segments only_erase_range
  only_set_address_pointer only_mass_erase only_write_chunk only_write_loop
  only_choose_erase
  only_flash_prepare only_flash_finish only_flash_body only_cleanup
  only_flash : frame.

Lemma bind_inv {A B} (m : M A) (k : A -> M B) w b w' :
  bind m k w = Done b w' ->
  exists a w1, m w = Done a w1 /\ k a w1 = Done b w'.
Proof.
  unfold bind. destruct (m w) as [a w1|l w1]; [|discriminate]. eauto.
Qed.

Lemma keeps_quiet_visible {A} (m : M A) w :
  keeps quiet_step m ->
  visible (w_trace (result_world (m w))) = visible (w_trace w).
Proof. intros H. apply quiet_step_visible, H. Qed.

Lemma quiet_run {A} (m : M A) w a w' :
  keeps quiet_step m -> m w = Done a w' ->
  visible (w_trace w') = visible (w_trace w).
Proof.
  intros H E. pose proof (keeps_quiet_visible m w H) as V.
  now rewrite E in V.
Qed.

Lemma report_progress_run cfg percent w :
  exists w',
    report_progress cfg percent w = Done tt w'
    /\ w_trace w' = w_trace w ++ progress_event cfg percent
    /\ w_status w' = w_status w /\ w_calls w' = w_calls w.
Proof.
  unfold report_progress, progress_event, has_progress_sink, emit, ret.
  destruct (arg_client cfg) as [c|]; [destruct (progress_cb c)|];
    cbn [orb]; try destruct (arg_progress_cb cfg);
    eexists; (split; [reflexivity|]); cbn [w_trace w_status w_calls];
    rewrite ?app_nil_r; auto.
Qed.

Lemma visible_progress_event cfg percent :
  visible (progress_event cfg percent) = progress_event cfg percent.
Proof. unfold progress_event. destruct (has_progress_sink cfg); reflexivity. Qed.

Lemma report_progress_visible cfg percent w :
  visible (w_trace (result_world (report_progress cfg percent w)))
  = visible (w_trace w) ++ progress_event cfg percent.
Proof.
  destruct (report_progress_run cfg percent w) as (w' & E & T & _).
  rewrite E. cbn [result_world]. now rewrite T, visible_app, visible_progress_event.
Qed.

Lemma download_block_visible fuel cfg env d block data len allow w :
  visible (w_trace (result_world
                      (dfu_download_block fuel cfg env d block data len allow w)))
  = visible (w_trace w) ++ [EvControl (dnload_request d block data len)].
Proof.
  unfold dfu_download_block. unfold bind at 1.
  unfold libusb_control_transfer, control_transfer.
  match goal with
  | |- context [result_world (?k ?w1)] =>
      rewrite (keeps_quiet_visible k w1)
  end.
  - cbn [w_trace]. now rewrite visible_app.
  - unfold quiet_step. frame.
Qed.

Lemma special_command_visible fuel cfg env d command address allow w :
  visible (w_trace (result_world
                      (dfu_send_special_command fuel cfg env d command address 5
                                                allow w)))
  = visible (w_trace w)
    ++ [EvControl (dnload_request d 0 (special_payload command address) 5)].
Proof. apply download_block_visible. Qed.


Tactic Notation "step" hyp(H) "as" simple_intropattern(a) ident(w) ident(E) :=
  let K := fresh "K" in
  apply bind_inv in H; destruct H as (a & w & E & K); rename K into H.

Tactic Notation "step" hyp(H) :=
  let a := fresh "a" in
  let w := fresh "w" in
  let E := fresh "E" in
  step H as a w E.

Ltac quiet E := apply quiet_run in E; [|unfold quiet_step; solve [frame]].



Lemma load_firmware_file_inv cfg env w r w' :
  load_firmware_file cfg env w = Done r w' -> r = loaded_image cfg env.
Proof.
  unfold load_firmware_file, loaded_image.
  destruct (arg_path cfg); cbn [negb].
  2:{ intros H. step H. now injection H as <-. }
  destruct (env_file env) as [| |size alloc bytes].
  1,2: intros H; step H; now injection H as <-.
  destruct (Z.leb_spec size 0) as [Hle|Hgt], (Z.ltb_spec 0 size) as [Hlt|Hge];
    try lia; cbn [andb].
  - intros H. step H. now injection H as <-.
  - destruct alloc; cbn [negb andb].
    + destruct (Z.of_nat (List.length bytes) =? size); cbn [negb].
      * now intros [= <-].
      * intros H. step H. now injection H as <-.
    + intros H. step H. now injection H as <-.
Qed.

Lemma wait_attempts_inv cfg env n i last w r w' :
  wait_attempts cfg env n i last w = Done r w' -> r = first_attached env n i.
Proof.
  revert i last w. induction n as [|n IH]; intros i last w; cbn [wait_attempts first_attached].
  - intros H. step H. now injection H as <-.
  - destruct (env_attempts env i).
    + intros H. step H. step H. now injection H as <-.
    + intros H. step H. step H. eauto.
Qed.

Lemma session_device_layout d :
  layout (session_device d) = layout d
  /\ layout_valid (session_device d) = layout_valid d
  /\ transfer_size (session_device d) = transfer_size d
  /\ interface_number (session_device d) = interface_number d
  /\ mass_erased (session_device d) = negb (layout_valid d)
  /\ last_erased_page (session_device d) = NO_PAGE.
Proof.
  unfold session_device.
  destruct (layout_valid d) eqn:E; cbn; rewrite ?E; repeat split; reflexivity.
Qed.

Lemma dnload_request_session d block data len :
  dnload_request (session_device d) block data len = dnload_request d block data len.
Proof.
  unfold dnload_request.
  now rewrite (proj1 (proj2 (proj2 (proj2 (session_device_layout d))))).
Qed.

Lemma choose_erase_ready fuel cfg env d w d' w' :
  choose_erase fuel cfg env d w = Done (true, d') w' ->
  d' = session_device d
  /\ visible (w_trace w')
     = visible (w_trace w)
       ++ (if layout_valid d then []
           else progress_event cfg 3
                ++ [EvControl (dnload_request d 0 (special_payload 0x41 0) 1)]).
Proof.
  unfold choose_erase, session_device.
  destruct (layout_valid d).
  - intros [= <- <-]. now rewrite app_nil_r.
  - intros H. step H as [] w1 E1. quiet E1. step H as [] w2 E2.
    pose proof (report_progress_visible cfg 3 w1) as V2. rewrite E2 in V2.
    cbn [result_world] in V2.
    step H as ok w3 E3.
    pose proof (download_block_visible fuel cfg env d 0 (special_payload 0x41 0) 1
                  false w2) as V3.
    unfold dfu_mass_erase, dfu_send_special_command in E3.
    cbn [Z.ltb Z.compare Pos.compare Pos.compare_cont] in E3.
    rewrite E3 in V3. cbn [result_world] in V3.
    destruct ok; cbn [negb] in H; [|discriminate H].
    step H as ok w4 E4. quiet E4.
    destruct ok; cbn [negb] in H; [|discriminate H].
    injection H as <- <-. split; [reflexivity|].
    rewrite E4, V3, V2, E1. now rewrite <- app_assoc.
Qed.

(** A run that reaches the write loop: the image that was loaded, the
    device that was attached, and what was sent and reported so far. *)
Lemma flash_prepare_ready fuel cfg env w d image w' :
  flash_prepare fuel cfg env w = Done (true, d, image) w' ->
  loaded_image cfg env = Some image
  /\ exists d0,
      attached_device env = Some d0 /\ d = session_device d0
      /\ visible (w_trace w') = visible (w_trace w) ++ prepare_events cfg d0.
Proof.
  unfold flash_prepare. intros H.
  step H as loaded w1 E1.
  pose proof (load_firmware_file_inv _ _ _ _ _ E1) as Hload. quiet E1.
  destruct loaded as [img|]; [|discriminate H].
  step H as [] w2 E2. quiet E2.
  destruct (negb (env_usb_init env =? LIBUSB_SUCCESS)).
  { step H. discriminate H. }
  step H as [] w3 E3. quiet E3.
  step H as found w4 E4. unfold wait_for_stm32_dfu_device in E4.
  pose proof (wait_attempts_inv _ _ _ _ _ _ _ _ E4) as Hdev. quiet E4.
  destruct found as [d0|]; [|discriminate H].
  step H as [] w5 E5. quiet E5.
  step H as ok w6 E6. quiet E6.
  destruct ok; cbn [negb] in H; [|discriminate H].
  step H as [ok d1] w7 E7.
  destruct ok; cbn [negb] in H; [|discriminate H].
  apply choose_erase_ready in E7. destruct E7 as [-> V7].
  step H as [] w8 E8. quiet E8.
  step H as ok w9 E9.
  pose proof (special_command_visible fuel cfg env (session_device d0) 0x21
                STM32_BASE_ADDRESS false w8) as V9.
  unfold dfu_set_address_pointer in E9. rewrite E9 in V9.
  cbn [result_world] in V9. rewrite dnload_request_session in V9.
  destruct ok; cbn [negb] in H; [|discriminate H].
  step H as [] w10 E10.
  pose proof (report_progress_visible cfg (initial_percent (session_device d0)) w9)
    as V10.
  rewrite E10 in V10. cbn [result_world] in V10.
  step H as [] w11 E11. quiet E11.
  destruct (env_chunk_alloc env); cbn [negb] in H.
  2:{ step H. discriminate H. }
  injection H as <- <- <-.
  split; [now rewrite <- Hload|].
  exists d0. split; [symmetry; exact Hdev|]. split; [reflexivity|].
  rewrite E11, V10, V9, E8, V7, E6, E5, E4, E3, E2, E1.
  unfold prepare_events, initial_percent.
  rewrite (proj1 (proj2 (session_device_layout d0))).
  now rewrite <- !app_assoc.
Qed.

Lemma flash_finish_done fuel cfg env d w w' :
  flash_finish fuel cfg env d w = Done true w' ->
  visible (w_trace w')
  = visible (w_trace w)
    ++ [EvControl (dnload_request d data_block_number [] 0)]
    ++ progress_event cfg 99.
Proof.
  unfold flash_finish. intros H. step H as ok w1 E1.
  pose proof (download_block_visible fuel cfg env d data_block_number [] 0 true w)
    as V1.
  rewrite E1 in V1. cbn [result_world] in V1.
  destruct ok; cbn [negb] in H; [|discriminate H].
  step H as [] w2 E2.
  pose proof (report_progress_visible cfg 99 w1) as V2. rewrite E2 in V2.
  cbn [result_world] in V2.
  step H as [] w3 E3. quiet E3. injection H as <-.
  now rewrite E3, V2, V1, <- app_assoc.
Qed.

Lemma cleanup_done cfg d w w' :
  cleanup cfg true d w = Done true w' ->
  visible (w_trace w') = visible (w_trace w) ++ progress_event cfg 100.
Proof.
  unfold cleanup. intros H. step H as [] w1 E1.
  pose proof (report_progress_visible cfg 100 w) as V1. rewrite E1 in V1.
  cbn [result_world] in V1.
  step H as [] w2 E2. quiet E2. step H as [] w3 E3.
  cbn [negb andb] in E3. injection E3 as <-. injection H as <-.
  now rewrite E2, V1.
Qed.

Lemma cleanup_result cfg success d w b w' :
  cleanup cfg success d w = Done b w' -> b = success.
Proof.
  unfold cleanup. intros H. step H. step H. step H. now injection H as <-.
Qed.

Lemma loaded_image_length cfg env firmware firmware_len :
  loaded_image cfg env = Some (firmware, firmware_len) ->
  0 < firmware_len /\ Z.of_nat (List.length firmware) = firmware_len.
Proof.
  unfold loaded_image.
  destruct (arg_path cfg); [|discriminate].
  destruct (env_file env) as [| |size alloc bytes]; try discriminate.
  destruct (Z.ltb_spec 0 size); [|discriminate].
  destruct alloc; [|discriminate]. cbn [andb negb].
  destruct (Z.eqb_spec (Z.of_nat (List.length bytes)) size); [|discriminate].
  intros [= <- <-]. lia.
Qed.

(** A run that succeeds has loaded an image, attached a device and gone
    through the write loop. *)
Lemma flash_success fuel cfg env w w' :
  dfu_loader_flash fuel cfg env w = Done true w' ->
  exists firmware firmware_len d w1 w2,
    loaded_image cfg env = Some (firmware, firmware_len)
    /\ attached_device env = Some d
    /\ visible (w_trace w1)
       = visible (w_trace w) ++ progress_event cfg 0 ++ prepare_events cfg d
    /\ write_loop fuel fuel cfg env (session_device d) firmware firmware_len 0 w1
       = Done true w2
    /\ visible (w_trace w') = visible (w_trace w2) ++ finish_events cfg d.
Proof.
  intros H. unfold dfu_loader_flash, flash_steps in H.
  step H as [success d1] w3 E.
  pose proof (cleanup_result _ _ _ _ _ _ H) as <-.
  step E as [] w4 E0.
  pose proof (report_progress_visible cfg 0 w) as V0. rewrite E0 in V0.
  cbn [result_world] in V0.
  step E as [] w5 E1. quiet E1.
  unfold flash_body in E. step E as [[ready d2] [fw len]] w6 E2.
  destruct ready; cbn [negb] in E; [|discriminate E].
  apply flash_prepare_ready in E2.
  destruct E2 as (Himage & d0 & Hdev & -> & V2).
  step E as ok w7 E3. destruct ok; cbn [negb] in E; [|discriminate E].
  step E as ok w8 E4. injection E as -> <- <-.
  apply flash_finish_done in E4. rewrite dnload_request_session in E4.
  apply cleanup_done in H.
  exists fw, len, d0, w6, w7. repeat split; auto.
  - now rewrite V2, E1, V0, <- app_assoc.
  - rewrite H, E4. unfold finish_events. now rewrite <- !app_assoc.
Qed.


(** ** The blocks of a run *)

Lemma dnloads_of_app tr evs : dnloads_of (tr ++ evs) = dnloads_of tr ++ dnloads_of evs.
Proof. apply flat_map_app. Qed.









(** ** The transfer size *)

Lemma scan_descriptors_range fuel extra :
  1 <= scan_descriptors fuel extra <= 65535.
Proof.
  revert extra. induction fuel as [|fuel IH]; intros extra; cbn [scan_descriptors];
    unfold STM32_DEFAULT_TRANSFER; [lia|].
  repeat match goal with
         | |- context [if ?b then _ else _] => destruct b eqn:?
         end; try lia; try apply IH.
  match goal with
  | H : (?t =? 0) = false |- 1 <= ?t <= _ =>
      apply Z.eqb_neq in H; pose proof (u16_range (Z.lor (u8 (nth 5 extra 0))
                                             (Z.shiftl (u8 (nth 6 extra 0)) 8)))
  end.
  lia.
Qed.

(** [parse_transfer_size] never returns zero: the default stands in for a
    descriptor that is absent or announces zero. *)
Lemma parse_transfer_size_range extra :
  1 <= parse_transfer_size extra <= 65535.
Proof.
  unfold parse_transfer_size.
  destruct (_ <? 9); [unfold STM32_DEFAULT_TRANSFER; lia|].
  apply scan_descriptors_range.
Qed.

Lemma first_attached_opened env n i d :
  first_attached env n i = Some d ->
  exists iface alt extra name, d = opened_device iface alt extra name.
Proof.
  revert i. induction n as [|n IH]; intros i; cbn [first_attached]; [discriminate|].
  destruct (env_attempts env i); eauto.
  intros [= <-]. eauto.
Qed.

Lemma attached_device_transfer env d :
  attached_device env = Some d -> 1 <= transfer_size d <= 65535.
Proof.
  intros H. apply first_attached_opened in H.
  destruct H as (iface & alt & extra & name & ->).
  apply parse_transfer_size_range.
Qed.




(** ** Segments *)

Lemma in_segment_contains address s :
  in_segment address s = true <-> contains s address.
Proof.
  unfold in_segment, contains. rewrite andb_true_iff, Z.leb_le, Z.ltb_lt. tauto.
Qed.

Lemma find_segment_some l address s :
  find_segment l address = Some s ->
  In s (layout_segments l) /\ contains s address.
Proof.
  unfold find_segment. intros H. apply find_some in H.
  now rewrite in_segment_contains in H.
Qed.

Lemma find_segment_none l address :
  find_segment l address = None <->
  forall s, In s (layout_segments l) -> ~ contains s address.
Proof.
  unfold find_segment. split.
  - intros H s Hin Hc. apply in_segment_contains in Hc.
    now rewrite (find_none _ _ H s Hin) in Hc.
  - intros H. destruct (find _ _) as [s|] eqn:E; [|reflexivity].
    apply find_some in E. rewrite in_segment_contains in E.
    destruct E as [Hin Hc]. now apply H in Hc.
Qed.

Lemma find_segment_unique l address s :
  non_overlapping (layout_segments l) ->
  In s (layout_segments l) -> contains s address ->
  find_segment l address = Some s.
Proof.
  intros Hno Hin Hc.
  destruct (find_segment l address) as [t|] eqn:E.
  - apply find_segment_some in E. destruct E as [Hint Hct].
    apply In_nth_error in Hin. destruct Hin as [i Hi].
    apply In_nth_error in Hint. destruct Hint as [j Hj].
    destruct (Nat.eq_dec j i) as [->|Hne]; [congruence|].
    destruct (Hno j i t s Hj Hi Hne) as [Hd|Hd]; unfold contains in *; lia.
  - rewrite find_segment_none in E. now apply E in Hc.
Qed.

(** ** The session during the erase *)

Lemma same_session_refl d : same_session d d.
Proof. unfold same_session. now destruct d. Qed.

Lemma same_session_step d page d' :
  same_session (with_last_erased_page d page) d' -> same_session d d'.
Proof. unfold same_session. intros ->. reflexivity. Qed.

Lemma same_session_trans d1 d2 d3 :
  same_session d1 d2 -> same_session d2 d3 -> same_session d1 d3.
Proof. unfold same_session. intros -> ->. reflexivity. Qed.

Lemma same_session_fields d d' :
  same_session d d' ->
  layout d' = layout d /\ layout_valid d' = layout_valid d
  /\ transfer_size d' = transfer_size d /\ mass_erased d' = mass_erased d
  /\ interface_number d' = interface_number d.
Proof. unfold same_session. intros ->. repeat split. Qed.

Lemma erase_pages_session n fuel cfg env d segment page_base end_ w b d' w' :
  erase_pages n fuel cfg env d segment page_base end_ w = Done (b, d') w' ->
  same_session d d'.
Proof.
  revert d page_base w. induction n as [|n IH]; intros d page_base w;
    cbn [erase_pages].
  - destruct (_ && _); [discriminate|]. intros [= _ <- _]. apply same_session_refl.
  - destruct (_ && _).
    2:{ intros [= _ <- _]. apply same_session_refl. }
    destruct (negb _).
    + intros H. step H as ok w1 E1. destruct ok; cbn [negb] in H.
      * apply IH in H. eapply same_session_step, H.
      * injection H as _ <- _. apply same_session_refl.
    + apply IH.
Qed.

Lemma erase_segments_session n fuel cfg env d start end_ w b d' w' :
  erase_segments n fuel cfg env d start end_ w = Done (b, d') w' ->
  same_session d d'.
Proof.
  revert d start w. induction n as [|n IH]; intros d start w;
    cbn [erase_segments].
  - destruct (_ <? _); [discriminate|]. intros [= _ <- _]. apply same_session_refl.
  - destruct (_ <? _).
    2:{ intros [= _ <- _]. apply same_session_refl. }
    destruct (find_segment (layout d) start) as [segment|].
    + intros H. step H as [ok d1] w1 E1. apply erase_pages_session in E1.
      destruct ok; cbn [negb] in H.
      * apply IH in H. eapply same_session_trans; eauto.
      * injection H as _ <- _. exact E1.
    + intros H. step H as [] w1 E1. injection H as _ <- _.
      apply same_session_refl.
Qed.

Lemma erase_range_session fuel cfg env d address len w b d' w' :
  dfu_erase_range fuel cfg env d address len w = Done (b, d') w' ->
  same_session d d'.
Proof.
  unfold dfu_erase_range. destruct (_ || _).
  - intros [= _ <- _]. apply same_session_refl.
  - apply erase_segments_session.
Qed.

(** ** One chunk of the write loop *)

Lemma ret_inv {A} (a b : A) w w' : ret a w = Done b w' -> a = b /\ w = w'.
Proof. unfold ret. intros H. injection H as -> ->. auto. Qed.

Lemma some_inv {A} (a a' : A) : Some a = Some a' -> a = a'.
Proof. intros H. now injection H. Qed.

Lemma some_pair_inv {A B} (a a' : A) (b b' : B) :
  Some (a, b) = Some (a', b') -> a = a' /\ b = b'.
Proof. intros H. injection H as -> ->. auto. Qed.

(** A chunk that is written: the session goes on, the cursor advances by
    the size of the chunk, and with a layout the address of the chunk lies
    in a segment. *)
Lemma write_chunk_done fuel cfg env d firmware firmware_len written w d' written' w' :
  write_chunk fuel cfg env d firmware firmware_len written w
  = Done (Some (d', written')) w' ->
  same_session d d'
  /\ written' = written + chunk_size_at d (chunk_segment d written) firmware_len written
  /\ (layout_valid d = true ->
      exists s, find_segment (layout d) (chunk_address written) = Some s).
Proof.
  unfold write_chunk, chunk_segment, chunk_address. cbv zeta. intros H.
  destruct (layout_valid d) eqn:Hv; cbn [andb] in H.
  - destruct (find_segment (layout d) (u32 (STM32_BASE_ADDRESS + u32 written)))
      as [s|] eqn:Hs.
    2:{ cbv iota in H. step H. discriminate H. }
    cbv iota in H.
    step H as [erased d1] w1 E1.
    assert (Hd1 : same_session d d1).
    { destruct (negb (mass_erased d) && true).
      - eapply erase_range_session, E1.
      - injection E1 as _ <- _. apply same_session_refl. }
    destruct erased; cbn [negb] in H; [|discriminate H].
    step H as ok2 w2 E2. destruct ok2; cbn [negb] in H; [|discriminate H].
    step H as ok3 w3 E3. destruct ok3; cbn [negb] in H.
    2:{ step H. discriminate H. }
    apply ret_inv in H. destruct H as [H _].
    apply some_pair_inv in H. destruct H as [Hd Hw]. subst d' written'.
    split; [exact Hd1|]. split; [reflexivity|]. intros _. exists s. reflexivity.
  - cbv iota in H. rewrite andb_false_r in H. cbv iota in H.
    step H as [erased d1] w1 E1. injection E1 as <- <- <-. cbn [negb] in H.
    step H as ok2 w2 E2. destruct ok2; cbn [negb] in H; [|discriminate H].
    step H as ok3 w3 E3. destruct ok3; cbn [negb] in H.
    2:{ step H. discriminate H. }
    apply ret_inv in H. destruct H as [H _].
    apply some_pair_inv in H. destruct H as [Hd Hw]. subst d' written'.
    split; [apply same_session_refl|]. split; [reflexivity|discriminate].
Qed.

Lemma u32_le z : 0 <= z -> 0 <= u32 z <= z.
Proof.
  intros H. unfold u32. split; [apply Z.mod_pos_bound; lia|].
  apply Z.mod_le; lia.
Qed.

(** The size of a chunk: at least one byte when the transfer size is not
    zero, never more than what is left of the image or of the segment. *)
Lemma chunk_size_at_bounds d segment firmware_len written :
  written < firmware_len -> 0 <= transfer_size d ->
  (forall s, segment = Some s -> contains s (chunk_address written)) ->
  let size := chunk_size_at d segment firmware_len written in
  0 <= size <= firmware_len - written
  /\ (forall s, segment = Some s -> size <= seg_end s - chunk_address written)
  /\ (0 < transfer_size d ->
      (forall s, segment = Some s -> seg_end s <= ULONG_MAX) -> 1 <= size).
Proof.
  intros Hlt Ht Hseg. cbv zeta. unfold chunk_size_at. cbv zeta.
  fold (chunk_address written).
  set (c := if transfer_size d <? firmware_len - written
            then transfer_size d else firmware_len - written).
  assert (Hc : 0 <= c <= firmware_len - written
               /\ (0 < transfer_size d -> 1 <= c)).
  { unfold c. destruct (Z.ltb_spec (transfer_size d) (firmware_len - written)); lia. }
  destruct segment as [s|].
  - specialize (Hseg s eq_refl). unfold contains in Hseg.
    pose proof (u32_le (seg_end s - chunk_address written) ltac:(lia)) as Hu.
    pose proof (u32_range (STM32_BASE_ADDRESS + u32 written)) as Ha.
    fold (chunk_address written) in Ha.
    destruct (Z.ltb_spec (u32 (seg_end s - chunk_address written)) c).
    + split; [lia|]. split; [intros ? [= <-]; lia|].
      intros Hpos Hend. specialize (Hend s eq_refl).
      rewrite u32_small by lia. lia.
    + split; [lia|]. split; [intros ? [= <-]; lia|]. intros; lia.
  - split; [lia|]. split; [discriminate|]. intros; lia.
Qed.

Lemma chunk_segment_contains d written s :
  chunk_segment d written = Some s -> contains s (chunk_address written).
Proof.
  unfold chunk_segment. destruct (layout_valid d); [|discriminate].
  intros H. now apply find_segment_some in H.
Qed.

Lemma chunk_segment_in d written s :
  chunk_segment d written = Some s -> In s (layout_segments (layout d)).
Proof.
  unfold chunk_segment. destruct (layout_valid d); [|discriminate].
  intros H. now apply find_segment_some in H.
Qed.

Lemma same_session_chunk_segment d d' written :
  same_session d d' -> chunk_segment d' written = chunk_segment d written.
Proof. unfold same_session, chunk_segment. intros ->. reflexivity. Qed.

Lemma chunk_address_small written :
  0 <= written -> STM32_BASE_ADDRESS + written <= ULONG_MAX ->
  chunk_address written = image_address written.
Proof.
  unfold chunk_address, image_address, STM32_BASE_ADDRESS, ULONG_MAX.
  intros H0 H1. rewrite (u32_small written) by (unfold ULONG_MAX; lia).
  apply u32_small. unfold ULONG_MAX. lia.
Qed.

(** A write loop that succeeds has found a segment for every byte of the
    image it wrote. *)
Lemma write_loop_covers fuel cfg env firmware firmware_len :
  STM32_BASE_ADDRESS + firmware_len <= ULONG_MAX + 1 ->
  forall n d written w w',
    layout_valid d = true -> 0 <= transfer_size d -> 0 <= written ->
    write_loop n fuel cfg env d firmware firmware_len written w = Done true w' ->
    forall k, written <= k < firmware_len ->
              find_segment (layout d) (image_address k) <> None.
Proof.
  intros Hfit. induction n as [|n IH]; intros d written w w' Hv Ht Hw H k Hk;
    cbn [write_loop] in H.
  - destruct (Z.ltb_spec written firmware_len); [discriminate|lia].
  - destruct (Z.ltb_spec written firmware_len) as [Hlt|]; [|lia].
    step H as r w1 E1. destruct r as [[d1 written1]|]; [|discriminate H].
    apply write_chunk_done in E1. destruct E1 as (Hs & -> & Hseg).
    destruct (Hseg Hv) as [s Hfind].
    assert (Ecs : chunk_segment d written = Some s)
      by (unfold chunk_segment; now rewrite Hv).
    rewrite Ecs in *.
    pose proof (chunk_size_at_bounds d (Some s) firmware_len written Hlt Ht) as Hb.
    cbv zeta in Hb.
    destruct Hb as (Hsize & Hend & _).
    { intros s0 Hs0. apply some_inv in Hs0. subst s0.
      exact (proj2 (find_segment_some _ _ _ Hfind)). }
    specialize (Hend s eq_refl).
    set (size := chunk_size_at d (Some s) firmware_len written) in *.
    step H as [] w2 E2.
    destruct (same_session_fields _ _ Hs) as (Hl & Hv1 & Ht1 & _).
    destruct (Z.lt_ge_cases k (written + size)) as [Hin|Hout].
    + apply find_segment_some in Hfind. destruct Hfind as [Hin_s Hc].
      rewrite chunk_address_small in Hc, Hend
        by (unfold ULONG_MAX in *; lia).
      intros Hnone. rewrite find_segment_none in Hnone.
      apply (Hnone s Hin_s). unfold contains, image_address in *. lia.
    + rewrite <- Hl. apply (IH d1 (written + size) w2 w'); try lia; auto.
      congruence.
Qed.

(** C8: [find_segment] returns the segment that contains the address when
    there is one (the only one, as segments do not overlap) and none when
    no segment contains it; an address equal to the exclusive end of a
    segment and outside all the others has no segment; the write loop
    stops at a chunk address without a segment with the message that the
    address is outside the segments, sending nothing; and a run never
    succeeds when a byte of the image has no segment. *)
Theorem find_segment_spec l address :
  non_overlapping (layout_segments l) ->
  (forall s, In s (layout_segments l) -> contains s address ->
             find_segment l address = Some s)
  /\ (forall s, find_segment l address = Some s ->
                In s (layout_segments l) /\ contains s address)
  /\ ((forall s, In s (layout_segments l) -> ~ contains s address) ->
      find_segment l address = None)
  /\ (forall s, In s (layout_segments l) -> address = seg_end s ->
                (forall t, In t (layout_segments l) -> t <> s -> ~ contains t address) ->
                find_segment l address = None)
  /\ (forall n fuel cfg env d firmware firmware_len written w,
        layout d = l -> layout_valid d = true -> written < firmware_len ->
        chunk_address written = address -> find_segment l address = None ->
        write_loop (S n) fuel cfg env d firmware firmware_len written w
        = fail_with cfg (MsgOutside address) w)
  /\ (forall fuel cfg env w w' firmware firmware_len d k,
        loaded_image cfg env = Some (firmware, firmware_len) ->
        attached_device env = Some d ->
        layout d = l -> layout_valid d = true ->
        STM32_BASE_ADDRESS + firmware_len <= ULONG_MAX + 1 ->
        0 <= k < firmware_len -> image_address k = address ->
        find_segment l address = None ->
        dfu_loader_flash fuel cfg env w <> Done true w').
Proof.
  intros Hno.
  split; [intros s; now apply find_segment_unique|].
  split; [intros s; apply find_segment_some|].
  split; [intros H; now apply find_segment_none|].
  split.
  { intros s Hin -> Hothers. apply find_segment_none. intros t Hint.
    destruct t as [t1 t2 t3], s as [s1 s2 s3].
    intros Hc.
    assert (Hne : mk_segment t1 t2 t3 <> mk_segment s1 s2 s3).
    { intros [= -> -> ->]. unfold contains in Hc. simpl in Hc. lia. }
    exact (Hothers _ Hint Hne Hc). }
  split.
  { intros n fuel cfg env d firmware firmware_len written w <- Hv Hlt <- Hnone.
    cbn [write_loop].
    destruct (Z.ltb_spec written firmware_len); [|lia].
    unfold bind at 1. unfold write_chunk. cbv zeta.
    fold (chunk_address written). rewrite Hv, Hnone. cbn [andb]. cbv iota.
    unfold fail_with, bind.
    destruct (set_status cfg (MsgOutside (chunk_address written)) w); reflexivity. }
  intros fuel cfg env w w' firmware firmware_len d k Himage Hdev <- Hv Hfit Hk <-
    Hnone Hrun.
  apply flash_success in Hrun.
  destruct Hrun as (fw & len & d0 & w1 & w2 & Himage' & Hdev' & _ & Hloop & _).
  rewrite Himage in Himage'. apply some_pair_inv in Himage'.
  destruct Himage' as [<- <-].
  rewrite Hdev in Hdev'. injection Hdev' as <-.
  destruct (session_device_layout d) as (Hl & Hv' & Ht & _).
  pose proof (attached_device_transfer _ _ Hdev) as Hts.
  eapply (write_loop_covers fuel cfg env firmware firmware_len Hfit) in Hloop.
  - rewrite Hl in Hloop. exact (Hloop Hnone).
  - congruence.
  - lia.
  - lia.
  - lia.
Qed.

Lemma scenario_loaded device len transfer name n :
  0 < len ->
  loaded_image (plain_caller n) (scenario device len transfer name)
  = Some (repeat 0xAA (Z.to_nat len), len).
Proof.
  intros H. unfold loaded_image, scenario, plain_caller.
  cbn [arg_path negb env_file].
  rewrite repeat_length, Z2Nat.id by lia.
  destruct (Z.ltb_spec 0 len); [|lia]. now rewrite Z.eqb_refl.
Qed.

(** The scenario of the specification: the only segment of the device
    ends at 0x08022000 and the image is one byte longer than the segment.
    The address has no segment, no run succeeds, and the run against a
    device that accepts every block fails with the message that the
    address is outside the segments. *)
Lemma find_segment_spec_witness :
  let name := "/0x08000000/136*001Kg"%string in
  let d := opened_device 0 0 (functional_descriptor 2048) name in
  let env := scenario accepting_device 139265 2048 name in
  layout_segments (layout d) = [mk_segment 0x08000000 0x08022000 1024]
  /\ find_segment (layout d) 0x08022000 = None
  /\ (forall fuel w w', dfu_loader_flash fuel (plain_caller 64) env w <> Done true w')
  /\ match dfu_loader_flash 100 (plain_caller 64) env
                            (initial_world (repeat "x"%char 64)) with
     | Done success w' =>
         success = false
         /\ firstn 45 (w_status w')
            = list_ascii_of_string "Error: address 0x08022000 outside DFU segment"
     | Stuck _ _ => False
     end.
Proof.
  cbv zeta.
  assert (Hsegs : layout_segments
                    (layout (opened_device 0 0 (functional_descriptor 2048)
                                           "/0x08000000/136*001Kg"))
                  = [mk_segment 0x08000000 0x08022000 1024])
    by (vm_compute; reflexivity).
  assert (Hno : non_overlapping
                  (layout_segments
                     (layout (opened_device 0 0 (functional_descriptor 2048)
                                            "/0x08000000/136*001Kg")))).
  { rewrite Hsegs. intros [|i] [|j] s t Hi Hj Hne; try congruence;
      try (destruct i; discriminate); destruct j; discriminate. }
  destruct (find_segment_spec
              (layout (opened_device 0 0 (functional_descriptor 2048)
                                     "/0x08000000/136*001Kg"))
              0x08022000 Hno) as (_ & _ & _ & Hend & _ & Hrun).
  assert (Hnone : find_segment
                    (layout (opened_device 0 0 (functional_descriptor 2048)
                                           "/0x08000000/136*001Kg"))
                    0x08022000 = None).
  { apply (Hend (mk_segment 0x08000000 0x08022000 1024)).
    - rewrite Hsegs. now left.
    - reflexivity.
    - rewrite Hsegs. intros t [<-|[]] Hne. now contradiction Hne. }
  split; [exact Hsegs|]. split; [exact Hnone|]. split.
  - intros fuel w w'.
    apply (Hrun fuel (plain_caller 64) _ w w' (repeat 0xAA (Z.to_nat 139265)) 139265
                (opened_device 0 0 (functional_descriptor 2048)
                               "/0x08000000/136*001Kg") 139264).
    + apply scenario_loaded. lia.
    + reflexivity.
    + reflexivity.
    + vm_compute. reflexivity.
    + vm_compute. discriminate.
    + lia.
    + reflexivity.
    + exact Hnone.
  - vm_compute. split; reflexivity.
Defined.

(** ** The loops a run can be cut off in *)

Lemma never_ret l {A} (a : A) : never l (ret a).
Proof. intros w w'. discriminate. Qed.

Lemma never_stuck l l' {A} : l' <> l -> never l (@stuck A l').
Proof. intros H w w' [= E _]. contradiction. Qed.

Lemma never_bind_run l {A B} (m : M A) (k : A -> M B) :
  never l m -> (forall a w w1, m w = Done a w1 -> never l (k a)) ->
  never l (bind m k).
Proof.
  intros Hm Hk w w'. unfold bind. destruct (m w) as [a w1|l1 w1] eqn:E.
  - eapply Hk; eauto.
  - intros [= -> ->]. exact (Hm _ _ E).
Qed.

Lemma never_bind l {A B} (m : M A) (k : A -> M B) :
  never l m -> (forall a, never l (k a)) -> never l (bind m k).
Proof. intros Hm Hk. apply never_bind_run; auto. Qed.

Lemma never_emit l e : never l (emit e).
Proof. intros w w'. discriminate. Qed.

Lemma never_transfer l device rq : never l (control_transfer device rq).
Proof. intros w w'. discriminate. Qed.

Lemma never_control l env rq : never l (libusb_control_transfer env rq).
Proof. apply never_transfer. Qed.

Create HintDb unstuck.
#[local] Hint Resolve never_ret never_emit never_transfer never_control : unstuck.
#[local] Hint Extern 1 (never _ (stuck _)) =>
  apply never_stuck; discriminate : unstuck.

(** Goals [never l m]: follow the structure of [m]. *)
Ltac unstuck :=
  repeat first
    [ solve [auto with unstuck]
    | apply never_bind; [|intros]
    | match goal with
      | |- never _ (if ?b then _ else _) => destruct b
      | |- never _ (match ?x with _ => _ end) => destruct x
      | |- never _ (let '(_, _) := ?x in _) => destruct x
      end ].

Lemma never_notify l cfg m : never l (notify cfg m).
Proof. unfold notify. unstuck. Qed.

#[local] Hint Resolve never_notify : unstuck.

Lemma never_set_status l cfg m : never l (set_status cfg m).
Proof.
  unfold set_status. apply never_bind; [|intros; apply never_notify].
  intros w w'. cbv beta.
  destruct (arg_status_buf cfg && (0 <? arg_status_len cfg)%nat); discriminate.
Qed.

Lemma never_report_progress l cfg percent : never l (report_progress cfg percent).
Proof. unfold report_progress. unstuck. Qed.

Lemma never_Sleep l ms : never l (Sleep ms).
Proof. unfold Sleep. unstuck. Qed.

#[local] Hint Resolve never_set_status never_report_progress never_Sleep : unstuck.

Lemma never_load l cfg env : never l (load_firmware_file cfg env).
Proof. unfold load_firmware_file. unstuck. Qed.

Lemma never_report_errors l cfg errors last : never l (report_errors cfg errors last).
Proof. revert last. induction errors; intros last; simpl; unstuck. Qed.

#[local] Hint Resolve never_load never_report_errors : unstuck.

Lemma never_wait_attempts l cfg env n i last :
  never l (wait_attempts cfg env n i last).
Proof. revert i last. induction n; intros i last; simpl; unstuck. Qed.

Lemma never_release l d : never l (release_device d).
Proof. unfold release_device. unstuck. Qed.

Lemma never_get_status l env d : never l (dfu_get_status env d).
Proof. unfold dfu_get_status. unstuck. Qed.

Lemma never_clear_status l env d : never l (dfu_clear_status env d).
Proof. unfold dfu_clear_status. unstuck. Qed.

Lemma never_abort l env d : never l (dfu_abort env d).
Proof. unfold dfu_abort. unstuck. Qed.

#[local] Hint Resolve never_wait_attempts never_release never_get_status
  never_clear_status never_abort : unstuck.

(** The polls, the page loop and the segment loop of the erase are never
    cut off as the write loop. *)
Lemma never_wait_ready fuel cfg env d allow :
  never WriteLoop (dfu_wait_ready fuel cfg env d allow).
Proof. induction fuel; cbn [dfu_wait_ready]; unstuck. Qed.

#[local] Hint Resolve never_wait_ready : unstuck.

Lemma never_prepare_idle fuel cfg env d :
  never WriteLoop (dfu_prepare_idle fuel cfg env d).
Proof. unfold dfu_prepare_idle. unstuck. Qed.

Lemma never_download_block fuel cfg env d block data len allow :
  never WriteLoop (dfu_download_block fuel cfg env d block data len allow).
Proof. unfold dfu_download_block. unstuck. Qed.

#[local] Hint Resolve never_prepare_idle never_download_block : unstuck.

Lemma never_special_command fuel cfg env d command address len allow :
  never WriteLoop (dfu_send_special_command fuel cfg env d command address len allow).
Proof. unfold dfu_send_special_command. unstuck. Qed.

#[local] Hint Resolve never_special_command : unstuck.

Lemma never_erase_pages n fuel cfg env d segment page_base end_ :
  never WriteLoop (erase_pages n fuel cfg env d segment page_base end_).
Proof.
  revert d page_base. induction n; intros d page_base; cbn [erase_pages]; unstuck.
Qed.

#[local] Hint Resolve never_erase_pages : unstuck.

Lemma never_erase_segments n fuel cfg env d start end_ :
  never WriteLoop (erase_segments n fuel cfg env d start end_).
Proof.
  revert d start. induction n; intros d start; cbn [erase_segments]; unstuck.
Qed.

#[local] Hint Resolve never_erase_segments : unstuck.

Lemma never_erase_range fuel cfg env d address len :
  never WriteLoop (dfu_erase_range fuel cfg env d address len).
Proof. unfold dfu_erase_range. unstuck. Qed.

#[local] Hint Resolve never_erase_range : unstuck.

Lemma never_write_chunk fuel cfg env d firmware firmware_len written :
  never WriteLoop (write_chunk fuel cfg env d firmware firmware_len written).
Proof. unfold write_chunk, dfu_set_address_pointer. unstuck. Qed.

Lemma never_choose_erase fuel cfg env d :
  never WriteLoop (choose_erase fuel cfg env d).
Proof. unfold choose_erase, dfu_mass_erase. unstuck. Qed.

#[local] Hint Resolve never_write_chunk never_choose_erase : unstuck.

Lemma never_flash_prepare fuel cfg env :
  never WriteLoop (flash_prepare fuel cfg env).
Proof.
  unfold flash_prepare, wait_for_stm32_dfu_device, dfu_set_address_pointer.
  unstuck.
Qed.

Lemma never_flash_finish fuel cfg env d :
  never WriteLoop (flash_finish fuel cfg env d).
Proof. unfold flash_finish. unstuck. Qed.

Lemma never_cleanup l cfg success d : never l (cleanup cfg success d).
Proof.
  unfold cleanup. unstuck.
  intros w w'. cbv beta.
  match goal with |- context [if ?b then _ else _] => destruct b end;
    [apply never_set_status|discriminate].
Qed.

#[local] Hint Resolve never_flash_prepare never_flash_finish never_cleanup : unstuck.

(** The write loop advances by at least one byte per iteration, so [n]
    iterations are enough for the [n] bytes that are left. *)
Lemma write_loop_bounded fuel cfg env firmware firmware_len :
  forall n d written,
    0 < transfer_size d ->
    Forall (fun s => seg_end s <= ULONG_MAX) (layout_segments (layout d)) ->
    (Z.to_nat (firmware_len - written) <= n)%nat ->
    never WriteLoop (write_loop n fuel cfg env d firmware firmware_len written).
Proof.
  induction n as [|n IH]; intros d written Ht Hends Hn; cbn [write_loop].
  - destruct (Z.ltb_spec written firmware_len); [lia|apply never_ret].
  - destruct (Z.ltb_spec written firmware_len) as [Hlt|]; [|apply never_ret].
    apply never_bind_run; [apply never_write_chunk|].
    intros [[d1 written1]|] w w1 E; [|apply never_ret].
    apply write_chunk_done in E. destruct E as (Hs & -> & _).
    pose proof (chunk_size_at_bounds d (chunk_segment d written) firmware_len
                  written Hlt ltac:(lia)
                  (fun s => chunk_segment_contains d written s)) as Hb.
    cbv zeta in Hb. destruct Hb as (_ & _ & Hone).
    assert (1 <= chunk_size_at d (chunk_segment d written) firmware_len written).
    { apply Hone; [exact Ht|]. intros s Hseg.
      apply chunk_segment_in in Hseg.
      rewrite Forall_forall in Hends. now apply Hends. }
    destruct (same_session_fields _ _ Hs) as (Hl & _ & Ht1 & _).
    apply never_bind; [apply never_report_progress|].
    intros _. apply IH; [lia|now rewrite Hl|lia].
Qed.

Lemma attached_device_ends env d :
  attached_device env = Some d ->
  Forall (fun s => seg_end s <= ULONG_MAX) (layout_segments (layout d)).
Proof.
  intros H. apply first_attached_opened in H.
  destruct H as (iface & alt & extra & name & ->).
  unfold opened_device. cbn [layout].
  destruct (parse_alt_memory_layout_parsed (Some name) zero_layout) as [Hp _].
  eapply Forall_impl; [|exact Hp].
  intros s (cnt & _ & _ & He & _). lia.
Qed.

(** A device that is busy at every poll never lets a poll loop end. *)
Lemma busy_poll cfg env d allow :
  env_device env = busy_device ->
  forall fuel w, exists w',
    dfu_wait_ready fuel cfg env d allow w = Stuck PollLoop w'.
Proof.
  intros Hdev. induction fuel as [|fuel IH]; intros w.
  - eexists. reflexivity.
  - rewrite dfu_wait_ready_round. cbv zeta. unfold status_reply. rewrite Hdev.
    change (busy_device (w_calls w) (get_status_request d))
      with (mk_transfer 6 [0; 0; 0; 0; DFU_STATE_dfuDNBUSY; 0]).
    change (x_ret (mk_transfer 6 [0; 0; 0; 0; DFU_STATE_dfuDNBUSY; 0]) <? 0)
      with false.
    cbv iota.
    change (negb (x_ret (mk_transfer 6 [0; 0; 0; 0; DFU_STATE_dfuDNBUSY; 0]) =? 6))
      with false.
    cbv iota.
    change (reply_status (mk_transfer 6 [0; 0; 0; 0; DFU_STATE_dfuDNBUSY; 0]))
      with 0.
    change (reply_state (mk_transfer 6 [0; 0; 0; 0; DFU_STATE_dfuDNBUSY; 0]))
      with 4.
    change (reply_poll_timeout (mk_transfer 6 [0; 0; 0; 0; DFU_STATE_dfuDNBUSY; 0]))
      with 0.
    change (LIBUSB_SUCCESS =? LIBUSB_ERROR_NO_DEVICE) with false.
    change (negb (LIBUSB_SUCCESS =? LIBUSB_SUCCESS)) with false.
    cbv iota. cbn [status state poll_timeout_ms].
    change (negb (0 =? 0)) with false.
    change (is_idle_state 4) with false.
    change (is_manifest_state 4) with false.
    change (4 =? DFU_STATE_dfuERROR) with false.
    cbv iota. unfold bind at 1. unfold Sleep, emit.
    apply IH.
Qed.

(** C10, as corrected: [parse_transfer_size] never returns zero; a chunk
    that is written advances the write cursor by at least one byte and
    never past the end of the image; hence the write loop of
    [dfu_loader_flash] makes at most L iterations for an image of L
    bytes: with room for L iterations it is never cut off as the write
    loop, whatever the device answers.  Whether it ends depends on the
    polls of the device inside it, which have no bound. *)
Theorem write_loop_iterations fuel cfg env firmware firmware_len :
  loaded_image cfg env = Some (firmware, firmware_len) ->
  (Z.to_nat firmware_len <= fuel)%nat ->
  never WriteLoop (dfu_loader_flash fuel cfg env)
  /\ (forall extra, 1 <= parse_transfer_size extra <= 65535)
  /\ (forall d0 d written w d' written' w',
        attached_device env = Some d0 -> same_session (session_device d0) d ->
        written < firmware_len ->
        write_chunk fuel cfg env d firmware firmware_len written w
        = Done (Some (d', written')) w' ->
        written + 1 <= written' <= firmware_len).
Proof.
  intros Himage Hfuel. split; [|split].
  - unfold dfu_loader_flash.
    apply never_bind; [|intros [success d]; apply never_cleanup].
    unfold flash_steps.
    apply never_bind; [apply never_report_progress|intros _].
    apply never_bind; [apply never_set_status|intros _].
    unfold flash_body.
    apply never_bind_run; [apply never_flash_prepare|].
    intros [[ready d] [fw len]] w w1 E.
    destruct ready; cbn [negb]; [|apply never_ret].
    apply flash_prepare_ready in E.
    destruct E as (Himage' & d0 & Hdev & -> & _).
    rewrite Himage in Himage'. apply some_inv in Himage'.
    injection Himage' as <- <-.
    destruct (session_device_layout d0) as (Hl & _ & Ht & _).
    apply never_bind.
    + apply write_loop_bounded.
      * rewrite Ht. pose proof (attached_device_transfer _ _ Hdev). lia.
      * rewrite Hl. exact (attached_device_ends _ _ Hdev).
      * now rewrite Z.sub_0_r.
    + intros ok. destruct ok; cbn [negb]; [|apply never_ret].
      apply never_bind; [apply never_flash_finish|intros; apply never_ret].
  - apply parse_transfer_size_range.
  - intros d0 d written w d' written' w' Hdev Hs Hlt E.
    apply write_chunk_done in E. destruct E as (_ & -> & _).
    destruct (same_session_fields _ _ Hs) as (Hl & _ & Ht & _).
    destruct (session_device_layout d0) as (Hl0 & _ & Ht0 & _).
    pose proof (attached_device_transfer _ _ Hdev) as Hrange.
    pose proof (chunk_size_at_bounds d (chunk_segment d written) firmware_len
                  written Hlt ltac:(lia)
                  (fun s => chunk_segment_contains d written s)) as Hb.
    cbv zeta in Hb. destruct Hb as (Hsize & _ & Hone).
    assert (1 <= chunk_size_at d (chunk_segment d written) firmware_len written).
    { apply Hone; [lia|]. intros s Hseg. apply chunk_segment_in in Hseg.
      rewrite Hl, Hl0 in Hseg.
      pose proof (attached_device_ends _ _ Hdev) as Hends.
      rewrite Forall_forall in Hends. exact (Hends s Hseg). }
    lia.
Qed.

(** A computation that is cut off cuts off what follows it. *)
Lemma bind_stuck {A B} (m : M A) (k : A -> M B) l w w' :
  m w = Stuck l w' -> bind m k w = Stuck l w'.
Proof. intros E. unfold bind. now rewrite E. Qed.

(** A block that a busy device accepts is never seen to complete. *)
Lemma download_block_busy fuel cfg env d block_number data len allow :
  env_device env = busy_device -> 0 <= len ->
  forall w, exists w',
    dfu_download_block fuel cfg env d block_number data len allow w
    = Stuck PollLoop w'.
Proof.
  intros Hdev Hlen w. unfold dfu_download_block.
  unfold bind at 1. unfold libusb_control_transfer, control_transfer.
  rewrite Hdev. unfold busy_device, dnload_request. cbn [rq_in rq_length x_ret].
  cbv iota. cbn [x_ret].
  replace (len <? 0) with false by (symmetry; apply Z.ltb_ge; lia).
  rewrite Z.eqb_refl. cbn [negb]. cbv iota.
  apply busy_poll. exact Hdev.
Qed.

(** With a busy device the first chunk is never written. *)
Lemma write_chunk_busy fuel cfg env d firmware firmware_len written :
  env_device env = busy_device -> layout_valid d = false ->
  forall w, exists w',
    write_chunk fuel cfg env d firmware firmware_len written w
    = Stuck PollLoop w'.
Proof.
  intros Hdev Hvalid w. unfold write_chunk. cbv zeta.
  rewrite Hvalid. cbn [andb]. cbv iota. rewrite andb_false_r. cbv iota.
  unfold bind at 1. cbn [ret negb]. cbv beta iota.
  unfold dfu_set_address_pointer, dfu_send_special_command.
  change (5 <? 5) with false. cbv iota.
  destruct (download_block_busy fuel cfg env d 0
              (special_payload 33 (u32 (STM32_BASE_ADDRESS + u32 written))) 5
              false Hdev ltac:(lia) w) as [w' E].
  exists w'. apply bind_stuck. exact E.
Qed.

(** C10 as stated fails: with a device that stays busy the write loop
    never ends, however many polls are granted: the one iteration that
    an image of one byte needs is never completed. *)
Lemma write_loop_stalls :
  stalls PollLoop
         (fun fuel =>
            write_loop 1 fuel no_caller (scenario busy_device 1 1024 "@Option Bytes")
                       (scenario_session 1024 "@Option Bytes") [0xAA] 1 0)
         (initial_world []).
Proof.
  intros fuel. cbn [write_loop].
  change (0 <? 1) with true. cbv iota.
  destruct (write_chunk_busy fuel no_caller
              (scenario busy_device 1 1024 "@Option Bytes")
              (scenario_session 1024 "@Option Bytes") [0xAA] 1 0
              eq_refl eq_refl (initial_world [])) as [w' E].
  exists w'. apply bind_stuck. exact E.
Qed.

Lemma write_loop_iterations_witness :
  never WriteLoop
        (dfu_loader_flash 3000 (plain_caller 64)
                          (scenario accepting_device 3000 1024 "@Option Bytes")).
Proof.
  apply (write_loop_iterations 3000 (plain_caller 64)
           (scenario accepting_device 3000 1024 "@Option Bytes")
           (repeat 0xAA (Z.to_nat 3000)) 3000).
  - apply scenario_loaded. lia.
  - vm_compute. lia.
Defined.

(** ** Block numbers *)

Lemma block_number_ok_quiet e : quiet e = true -> block_number_ok e = true.
Proof.
  destruct e as [rq| | | |]; cbn [quiet block_number_ok]; auto.
  intros ->. reflexivity.
Qed.

Lemma block_number_ok_progress : allows_progress block_number_ok.
Proof. intros percent. reflexivity. Qed.

Lemma block_number_ok_data : allows_data block_number_ok.
Proof.
  intros d data len. cbn [block_number_ok dnload_request rq_value].
  rewrite Z.eqb_refl. apply orb_true_r.
Qed.

Lemma block_number_ok_address : allows_command block_number_ok 0x21 5.
Proof. intros d address. reflexivity. Qed.

Lemma block_number_ok_erase : allows_command block_number_ok 0x41 5.
Proof. intros d address. reflexivity. Qed.

Lemma block_number_ok_mass_erase : allows_command block_number_ok 0x41 1.
Proof. intros d address. reflexivity. Qed.

Lemma no_dnload_quiet e : quiet e = true -> no_dnload e = true.
Proof. destruct e; cbn [quiet no_dnload]; auto. Qed.

Lemma no_dnload_progress : allows_progress no_dnload.
Proof. intros percent. reflexivity. Qed.

Lemma no_dnload_dnloads evs : forallb no_dnload evs = true -> dnloads_of evs = [].
Proof.
  induction evs as [|e evs IH]; [reflexivity|].
  cbn [forallb]. intros H. apply andb_prop in H. destruct H as [H1 H2].
  change (e :: evs) with ([e] ++ evs).
  rewrite dnloads_of_app, (IH H2), app_nil_r.
  destruct e as [rq| | | |]; try reflexivity.
  cbn [no_dnload] in H1. cbn [dnloads_of flat_map].
  destruct (is_dnload rq); [discriminate H1|reflexivity].
Qed.

Lemma silent_run {A} (m : M A) w a w' :
  keeps (only no_dnload) m -> m w = Done a w' ->
  dnloads_of (w_trace w') = dnloads_of (w_trace w).
Proof.
  intros H E. specialize (H w). rewrite E in H. destruct H as (evs & T & Q).
  cbn [result_world] in T. rewrite T, dnloads_of_app, (no_dnload_dnloads _ Q).
  apply app_nil_r.
Qed.

(** *** The earlier loader: what its steps add to the trace *)

Section LegacyOnly.

Variable p : event -> bool.
Hypothesis p_quiet : forall e, quiet e = true -> p e = true.

Lemma legacy_only_transfer device rq :
  is_dnload rq = false -> keeps (only p) (control_transfer device rq).
Proof. intros Q. apply only_transfer, p_quiet. simpl. now rewrite Q. Qed.

Lemma legacy_only_set_status cfg m : keeps (only p) (Legacy.set_status cfg m).
Proof.
  intros w. unfold Legacy.set_status.
  destruct (arg_status_buf cfg && (0 <? arg_status_len cfg)%nat); simpl;
    [exists []; now rewrite app_nil_r|apply only_refl].
Qed.

Lemma legacy_only_Sleep ms : keeps (only p) (Sleep ms).
Proof. apply only_emit, p_quiet. reflexivity. Qed.

#[local] Hint Resolve legacy_only_transfer legacy_only_set_status
  legacy_only_Sleep : frame.

Lemma legacy_only_load cfg env : keeps (only p) (Legacy.load_firmware_file cfg env).
Proof. unfold Legacy.load_firmware_file. frame. Qed.

Lemma legacy_only_wait_attempts cfg env n i last :
  keeps (only p) (Legacy.wait_attempts cfg env n i last).
Proof. revert i last. induction n; intros i last; simpl; frame. Qed.

Lemma legacy_only_release d : keeps (only p) (Legacy.release_device d).
Proof.
  unfold Legacy.release_device. destruct (Legacy.handle d); [|frame].
  apply only_emit, p_quiet. reflexivity.
Qed.

Lemma legacy_only_get_status env d : keeps (only p) (Legacy.dfu_get_status env d).
Proof. unfold Legacy.dfu_get_status. frame. Qed.

Lemma legacy_only_clear_status env d :
  keeps (only p) (Legacy.dfu_clear_status env d).
Proof. unfold Legacy.dfu_clear_status. frame. Qed.

Lemma legacy_only_abort env d : keeps (only p) (Legacy.dfu_abort env d).
Proof. unfold Legacy.dfu_abort. frame. Qed.

#[local] Hint Resolve legacy_only_load legacy_only_wait_attempts
  legacy_only_release legacy_only_get_status legacy_only_clear_status
  legacy_only_abort : frame.

Lemma legacy_only_wait_ready fuel cfg env d allow :
  keeps (only p) (Legacy.dfu_wait_ready fuel cfg env d allow).
Proof. induction fuel; cbn [Legacy.dfu_wait_ready]; frame. Qed.

#[local] Hint Resolve legacy_only_wait_ready : frame.

Lemma legacy_only_prepare_idle fuel cfg env d :
  keeps (only p) (Legacy.dfu_prepare_idle fuel cfg env d).
Proof. unfold Legacy.dfu_prepare_idle. frame. Qed.

Lemma legacy_only_report_progress cfg percent :
  allows_progress p -> keeps (only p) (Legacy.report_progress cfg percent).
Proof. intros Hp. unfold Legacy.report_progress. frame. Qed.

Lemma legacy_only_cleanup cfg success d :
  allows_progress p -> keeps (only p) (Legacy.cleanup cfg success d).
Proof.
  intros Hp. pose proof (legacy_only_report_progress cfg 100 Hp).
  unfold Legacy.cleanup. frame.
  intros w. cbv beta.
  match goal with |- context [if ?b then _ else _] => destruct b end;
    [apply legacy_only_set_status|apply only_refl].
Qed.

End LegacyOnly.

#[local] Hint Resolve no_dnload_quiet no_dnload_progress
  legacy_only_transfer legacy_only_set_status legacy_only_Sleep
  legacy_only_load legacy_only_wait_attempts legacy_only_release
  legacy_only_get_status legacy_only_clear_status legacy_only_abort
  legacy_only_wait_ready legacy_only_prepare_idle legacy_only_report_progress
  legacy_only_cleanup : frame.

Ltac silent E := apply silent_run in E; [|solve [frame]].

Lemma legacy_download_block_run fuel cfg env d block data len allow w ok w' :
  Legacy.dfu_download_block fuel cfg env d block data len allow w = Done ok w' ->
  dnloads_of (w_trace w')
  = dnloads_of (w_trace w)
    ++ [Legacy.request_of d false DFU_REQUEST_DNLOAD block data len].
Proof.
  unfold Legacy.dfu_download_block. intros H.
  step H as x w1 E1. unfold control_transfer in E1. injection E1 as <- <-.
  silent H. rewrite H. cbn [w_trace]. now rewrite dnloads_of_app.
Qed.

Lemma u16_succ b i : u16 (u16 (b + 1) + Z.of_nat i) = u16 (b + Z.of_nat (S i)).
Proof.
  unfold u16. rewrite Zplus_mod_idemp_l. f_equal. lia.
Qed.

(** The write loop of the earlier loader numbers its blocks from
    [block_number] on, one more per chunk, in 16 bits. *)
Lemma legacy_write_loop_numbers fuel cfg env d firmware firmware_len :
  forall n block_number written w w',
    0 <= block_number < 65536 ->
    Legacy.write_loop n fuel cfg env d firmware firmware_len block_number written w
    = Done true w' ->
    exists data,
      dnloads_of (w_trace w') = dnloads_of (w_trace w) ++ data
      /\ map rq_value data
         = map (fun i => u16 (block_number + Z.of_nat i)) (seq 0 (List.length data)).
Proof.
  induction n as [|n IH]; intros b written w w' Hb H; cbn [Legacy.write_loop] in H.
  - destruct (written <? firmware_len); [discriminate H|].
    apply ret_inv in H. destruct H as [_ <-].
    exists []. now rewrite app_nil_r.
  - destruct (written <? firmware_len).
    2:{ apply ret_inv in H. destruct H as [_ <-].
        exists []. now rewrite app_nil_r. }
    cbv zeta in H. step H as ok w1 E1.
    apply legacy_download_block_run in E1.
    destruct ok; cbn [negb] in H; [|discriminate H].
    step H as [] w2 E2. silent E2.
    apply IH in H; [|unfold u16; apply Z.mod_pos_bound; lia].
    destruct H as (data & T & N).
    eexists (_ :: data). split.
    + rewrite T, E2, E1, <- app_assoc. reflexivity.
    + cbn [map List.length seq rq_value Legacy.request_of].
      f_equal.
      * rewrite Z.add_0_r. unfold u16. now rewrite Z.mod_small.
      * rewrite N, <- seq_shift, map_map. apply map_ext. intros i.
        apply u16_succ.
Qed.

Lemma legacy_flash_prepare_ready fuel cfg env w d image w' :
  Legacy.flash_prepare fuel cfg env w = Done (true, d, image) w' ->
  dnloads_of (w_trace w')
  = dnloads_of (w_trace w)
    ++ [legacy_mass_erase_request d; legacy_address_request d].
Proof.
  unfold Legacy.flash_prepare. intros H.
  step H as loaded w1 E1. silent E1.
  destruct loaded as [img|]; [|discriminate H].
  step H as [] w2 E2. silent E2.
  destruct (negb (Legacy.env_usb_init env =? LIBUSB_SUCCESS)).
  { step H. discriminate H. }
  step H as [] w3 E3. silent E3.
  step H as found w4 E4. unfold Legacy.wait_for_stm32_dfu_device in E4.
  silent E4.
  destruct found as [d0|]; [|discriminate H].
  step H as [] w5 E5. silent E5.
  step H as ok w6 E6. silent E6.
  destruct ok; cbn [negb] in H; [|discriminate H].
  step H as [] w7 E7. silent E7.
  step H as [] w8 E8. silent E8.
  step H as ok w9 E9. apply legacy_download_block_run in E9.
  destruct ok; cbn [negb] in H; [|discriminate H].
  step H as ok w10 E10. silent E10.
  destruct ok; cbn [negb] in H; [|discriminate H].
  step H as [] w11 E11. silent E11.
  step H as ok w12 E12. apply legacy_download_block_run in E12.
  destruct ok; cbn [negb] in H; [|discriminate H].
  step H as [] w13 E13. silent E13.
  step H as [] w14 E14. silent E14.
  injection H as <- <- <-.
  rewrite E14, E13, E12, E11, E10, E9, E8, E7, E6, E5, E4, E3, E2, E1.
  now rewrite <- app_assoc.
Qed.

Lemma legacy_flash_finish_done fuel cfg env d w w' :
  Legacy.flash_finish fuel cfg env d w = Done true w' ->
  dnloads_of (w_trace w') = dnloads_of (w_trace w) ++ [legacy_final_request d].
Proof.
  unfold Legacy.flash_finish. intros H. step H as ok w1 E1.
  apply legacy_download_block_run in E1.
  destruct ok; cbn [negb] in H; [|discriminate H].
  step H as [] w2 E2. silent E2. step H as [] w3 E3. silent E3.
  apply ret_inv in H. destruct H as [_ <-].
  now rewrite E3, E2, E1.
Qed.

Lemma legacy_cleanup_done cfg success d w b w' :
  Legacy.cleanup cfg success d w = Done b w' ->
  b = success /\ dnloads_of (w_trace w') = dnloads_of (w_trace w).
Proof.
  intros H. split.
  - unfold Legacy.cleanup in H. step H. step H. step H.
    apply ret_inv in H. now destruct H as [<- _].
  - silent H. exact H.
Qed.

(** A run of the earlier loader that succeeds: mass erase and address
    pointer in block 0, the chunks numbered from 2, the final block in
    block 0. *)
Lemma legacy_flash_success fuel cfg env buffer w' :
  Legacy.dfu_loader_flash fuel cfg env (initial_world buffer) = Done true w' ->
  exists d data,
    dnloads_of (w_trace w')
    = [legacy_mass_erase_request d; legacy_address_request d]
      ++ data ++ [legacy_final_request d]
    /\ map rq_value data = spec_block_numbers (List.length data).
Proof.
  unfold Legacy.dfu_loader_flash. intros H.
  step H as [] w1 E1. silent E1.
  step H as [] w2 E2. silent E2.
  step H as [success d] w3 E3.
  apply legacy_cleanup_done in H. destruct H as [<- T].
  unfold Legacy.flash_body in E3.
  step E3 as [[ready d1] [fw len]] w4 E4.
  destruct ready; cbn [negb] in E3; [|discriminate E3].
  apply legacy_flash_prepare_ready in E4.
  step E3 as ok w5 E5. destruct ok; cbn [negb] in E3; [|discriminate E3].
  apply legacy_write_loop_numbers in E5; [|lia].
  destruct E5 as (data & T5 & N).
  step E3 as ok w6 E6. apply ret_inv in E3. destruct E3 as [E3 <-].
  injection E3 as -> ->.
  apply legacy_flash_finish_done in E6.
  exists d, data. split; [|exact N].
  rewrite T, E6, T5, E4, E2, E1. cbn [initial_world w_trace dnloads_of flat_map].
  now rewrite <- !app_assoc.
Qed.

(** C4, as corrected.  In the loader that reads the memory layout, every
    DNLOAD request of a run, whatever the device answers, is a vendor
    command (0x21 or 0x41) in block 0 or is sent with the one data block
    number 2: the data chunks and the final block all carry number 2,
    none is numbered one more than the previous.  In the earlier loader a
    run that succeeds sends mass erase and address pointer in block 0,
    then the data chunks numbered 2, 3, ... in 16 bits, and the final
    block of length zero in block 0, which is no vendor command. *)
Theorem block_numbers_of_a_run :
  (forall fuel cfg env,
      keeps (only block_number_ok) (dfu_loader_flash fuel cfg env))
  /\ (forall fuel cfg env buffer w',
         Legacy.dfu_loader_flash fuel cfg env (initial_world buffer) = Done true w' ->
         exists d data,
           dnloads_of (w_trace w')
           = [legacy_mass_erase_request d; legacy_address_request d]
             ++ data ++ [legacy_final_request d]
           /\ map rq_value data = spec_block_numbers (List.length data)
           /\ rq_value (legacy_final_request d) = 0
           /\ is_vendor_command (legacy_final_request d) = false).
Proof.
  split.
  - intros fuel cfg env.
    apply (only_flash block_number_ok block_number_ok_quiet).
    + exact block_number_ok_progress.
    + exact block_number_ok_data.
    + exact block_number_ok_address.
    + exact block_number_ok_erase.
    + exact block_number_ok_mass_erase.
  - intros fuel cfg env buffer w' H.
    destruct (legacy_flash_success _ _ _ _ _ H) as (d & data & T & N).
    exists d, data. repeat split; assumption.
Qed.

(** C4 as stated fails: an image of two chunks is written with block
    number 2 for both chunks and for the final block; no block carries
    number 3. *)
Lemma second_chunk_keeps_block_number :
  exists w',
    dfu_loader_flash 4 (plain_caller 64)
                     (scenario accepting_device 2048 1024 "@Option Bytes")
                     (initial_world (repeat "x"%char 64)) = Done true w'
    /\ block_numbers (w_trace w') = [0; 0; 0; 2; 0; 2; 2]
    /\ ~ incl (spec_block_numbers 2) (block_numbers (w_trace w')).
Proof.
  eexists. split; [vm_compute; reflexivity|].
  split; [vm_compute; reflexivity|].
  intros H. specialize (H 3 ltac:(right; left; reflexivity)).
  vm_compute in H. intuition discriminate.
Qed.

Lemma block_numbers_of_a_run_witness :
  match Legacy.dfu_loader_flash 4 (plain_caller 64)
          (legacy_scenario accepting_device 5 2 "@Internal Flash")
          (initial_world (repeat "x"%char 64)) with
  | Done success w' =>
      success = true
      /\ exists d data,
          dnloads_of (w_trace w')
          = [legacy_mass_erase_request d; legacy_address_request d]
            ++ data ++ [legacy_final_request d]
          /\ map rq_value data = spec_block_numbers (List.length data)
          /\ rq_value (legacy_final_request d) = 0
          /\ is_vendor_command (legacy_final_request d) = false
  | Stuck _ _ => False
  end.
Proof.
  pose proof (proj2 block_numbers_of_a_run 4%nat (plain_caller 64%nat)
                (legacy_scenario accepting_device 5 2 "@Internal Flash")
                (repeat "x"%char 64%nat)) as H.
  destruct (Legacy.dfu_loader_flash 4%nat (plain_caller 64%nat)
              (legacy_scenario accepting_device 5 2 "@Internal Flash")
              (initial_world (repeat "x"%char 64%nat))) as [success w'|l w'] eqn:E.
  - assert (success = true) as ->.
    { vm_compute in E. injection E as <- _. reflexivity. }
    split; [reflexivity|]. apply H. reflexivity.
  - vm_compute in E. discriminate E.
Defined.

(** ** Triples *)

Lemma hoare_ret {A} (P : world -> Prop) (a : A) (Q : A -> world -> Prop) X :
  (forall w, P w -> Q a w) -> hoare P (ret a) Q X.
Proof. intros H w Hw. apply H, Hw. Qed.

Lemma hoare_stuck {A} (P : world -> Prop) l (Q : A -> world -> Prop)
  (X : world -> Prop) :
  (forall w, P w -> X w) -> hoare P (stuck l) Q X.
Proof. intros H w Hw. apply H, Hw. Qed.

Lemma hoare_bind {A B} (P : world -> Prop) (m : M A) (Q : A -> world -> Prop)
  (k : A -> M B) (R : B -> world -> Prop) X :
  hoare P m Q X -> (forall a, hoare (Q a) (k a) R X) -> hoare P (bind m k) R X.
Proof.
  intros Hm Hk w Hw. specialize (Hm w Hw). unfold bind.
  destruct (m w) as [a w1|l w1]; [apply Hk, Hm|exact Hm].
Qed.

Lemma hoare_conseq {A} (P P' : world -> Prop) (m : M A)
  (Q Q' : A -> world -> Prop) (X X' : world -> Prop) :
  hoare P' m Q' X' ->
  (forall w, P w -> P' w) -> (forall a w, Q' a w -> Q a w) ->
  (forall w, X' w -> X w) ->
  hoare P m Q X.
Proof.
  intros H HP HQ HX w Hw. specialize (H w (HP w Hw)).
  destruct (m w); auto.
Qed.

Lemma hoare_pre {A} (P P' : world -> Prop) (m : M A) (Q : A -> world -> Prop) X :
  hoare P' m Q X -> (forall w, P w -> P' w) -> hoare P m Q X.
Proof. intros H HP. apply (hoare_conseq P P' m Q Q X X H); auto. Qed.

(** What a relation of the worlds keeps, every computation within the
    relation keeps. *)
Lemma hoare_keeps {A} (R : world -> world -> Prop) (I X : world -> Prop) (m : M A) :
  (forall w w', R w w' -> I w -> I w') -> (forall w, I w -> X w) ->
  keeps R m -> hoare I m (fun _ => I) X.
Proof.
  intros HR HX Hm w Hw. specialize (Hm w).
  destruct (m w) as [a w1|l w1]; cbn [result_world] in Hm; eauto.
Qed.

Lemma hoare_frame {A B} (R : world -> world -> Prop) (I X : world -> Prop)
  (m : M A) (k : A -> M B) (Q : B -> world -> Prop) :
  (forall w w', R w w' -> I w -> I w') -> (forall w, I w -> X w) ->
  keeps R m -> (forall a, hoare I (k a) Q X) -> hoare I (bind m k) Q X.
Proof.
  intros HR HX Hm Hk.
  apply (hoare_bind I m (fun _ => I)); [|exact Hk].
  now apply (hoare_keeps R).
Qed.

(** What every run that returns tells about the result can be added to
    the postcondition. *)
Lemma hoare_run {A} (P : world -> Prop) (m : M A) (Q : A -> world -> Prop) X
  (F : A -> Prop) :
  hoare P m Q X -> (forall w a w', m w = Done a w' -> F a) ->
  hoare P m (fun a w => Q a w /\ F a) X.
Proof.
  intros H HF w Hw. specialize (H w Hw). specialize (HF w).
  destruct (m w) as [a w1|l w1]; [|exact H].
  split; [exact H|]. now apply (HF a w1).
Qed.

(** ** The erase planner *)

Lemma erased_pages_app tr evs :
  erased_pages (tr ++ evs) = erased_pages tr ++ erased_pages evs.
Proof. apply flat_map_app. Qed.

Lemma not_erase_page_pages evs :
  forallb not_erase_page evs = true -> erased_pages evs = [].
Proof.
  induction evs as [|e evs IH]; [reflexivity|].
  cbn [forallb]. intros H. apply andb_prop in H. destruct H as [H1 H2].
  change (e :: evs) with ([e] ++ evs).
  rewrite erased_pages_app, (IH H2), app_nil_r.
  destruct e as [rq| | | |]; try reflexivity.
  cbn [not_erase_page] in H1. cbn [erased_pages flat_map].
  destruct (is_erase_page rq); [discriminate H1|reflexivity].
Qed.

Lemma erased_pages_only w w' :
  only not_erase_page w w' ->
  erased_pages (w_trace w') = erased_pages (w_trace w).
Proof.
  intros (evs & T & Q).
  rewrite T, erased_pages_app, (not_erase_page_pages _ Q). apply app_nil_r.
Qed.

Lemma not_erase_page_quiet e : quiet e = true -> not_erase_page e = true.
Proof.
  destruct e as [rq| | | |]; cbn [quiet not_erase_page]; auto.
  unfold is_erase_page. destruct (is_dnload rq); [discriminate|reflexivity].
Qed.

Lemma not_erase_page_progress : allows_progress not_erase_page.
Proof. intros percent. reflexivity. Qed.

Lemma not_erase_page_data : allows_data not_erase_page.
Proof. intros d data len. reflexivity. Qed.

Lemma not_erase_page_address : allows_command not_erase_page 0x21 5.
Proof. intros d address. reflexivity. Qed.

Lemma not_erase_page_mass_erase : allows_command not_erase_page 0x41 1.
Proof. intros d address. reflexivity. Qed.

#[local] Hint Resolve not_erase_page_quiet not_erase_page_progress
  not_erase_page_data not_erase_page_address not_erase_page_mass_erase : frame.

Lemma erase_safe_only w w' : only not_erase_page w w' -> erase_safe w -> erase_safe w'.
Proof. intros H. unfold erase_safe. now rewrite (erased_pages_only _ _ H). Qed.

Lemma erase_tracked_only d w w' :
  only not_erase_page w w' -> erase_tracked d w -> erase_tracked d w'.
Proof.
  intros H. unfold erase_tracked, erase_safe.
  now rewrite (erased_pages_only _ _ H).
Qed.

Lemma erase_tracked_safe d w : erase_tracked d w -> erase_safe w.
Proof. now intros [H _]. Qed.

Lemma no_pages_only w w' :
  only not_erase_page w w' ->
  erased_pages (w_trace w) = [] -> erased_pages (w_trace w') = [].
Proof. intros H. now rewrite (erased_pages_only _ _ H). Qed.

Lemma no_pages_tracked d w : erased_pages (w_trace w) = [] -> erase_tracked d w.
Proof.
  intros H. unfold erase_tracked, erase_safe. rewrite H. split; [exact I|].
  intros page E. discriminate E.
Qed.

Lemma last_page_snoc l x : last_page (l ++ [x]) = Some x.
Proof. unfold last_page. rewrite map_app. apply last_last. Qed.

Lemma no_repeat_snoc l x :
  no_repeat l -> (forall y, last_page l = Some y -> y <> x) ->
  no_repeat (l ++ [x]).
Proof.
  induction l as [|a l IH]; intros Hl Hx; [cbn; auto|].
  destruct l as [|b l].
  - cbn. repeat split. apply Hx. reflexivity.
  - destruct Hl as [Hab Hl]. change ((a :: b :: l) ++ [x]) with (a :: (b :: l) ++ [x]).
    split; [exact Hab|]. apply IH; [exact Hl|].
    intros y Hy. apply Hx. exact Hy.
Qed.

(** The address an erase-page command carries is the page it was sent
    for. *)
Lemma payload_address_page page :
  0 <= page <= ULONG_MAX ->
  payload_address (special_payload 0x41 page) = page.
Proof.
  unfold ULONG_MAX. intros H. unfold payload_address, special_payload.
  cbn [nth]. unfold u8.
  change 255 with (Z.ones 8). rewrite !Z.land_ones by lia.
  rewrite !Z.shiftr_div_pow2 by lia.
  change (2 ^ 8) with 256. change (2 ^ 16) with 65536.
  change (2 ^ 24) with 16777216.
  rewrite !Z.mod_mod by lia.
  Z.div_mod_to_equations. lia.
Qed.

Lemma erase_command_pages d page :
  0 <= page <= ULONG_MAX ->
  erased_pages [EvControl (dnload_request d 0 (special_payload 0x41 page) 5)]
  = [page].
Proof.
  intros H. cbn [erased_pages flat_map].
  change (is_erase_page (dnload_request d 0 (special_payload 0x41 page) 5))
    with true.
  cbv iota. rewrite app_nil_r. f_equal.
  change (rq_data (dnload_request d 0 (special_payload 0x41 page) 5))
    with (special_payload 0x41 page).
  now apply payload_address_page.
Qed.

Ltac unerased :=
  first
    [ apply (hoare_frame (only not_erase_page));
      [ first [ exact (erase_tracked_only _) | exact erase_safe_only
              | exact no_pages_only ]
      | first [ exact (erase_tracked_safe _) | exact (fun w H => H)
              | (intros ? H; unfold erase_safe; rewrite H; exact I) ]
      | solve [frame]
      | intros ]
    | apply (hoare_conseq _ _ _ _ (fun _ => _) _ _
               (hoare_keeps (only not_erase_page) _ _ _ _ _ _)) ].

(** The erase-page command, sent for a page that was not erased last. *)
Lemma erase_command_tracked fuel cfg env d page allow :
  0 <= page <= ULONG_MAX -> last_erased_page d <> page ->
  hoare (erase_tracked d)
        (dfu_send_special_command fuel cfg env d 0x41 page 5 allow)
        (fun _ => erase_tracked (with_last_erased_page d page))
        erase_safe.
Proof.
  intros Hpage Hlast.
  unfold dfu_send_special_command, dfu_download_block.
  change (5 <? 5) with false. cbv iota.
  apply (hoare_bind _ _ (fun _ => erase_tracked (with_last_erased_page d page))).
  - intros w [Hsafe Htrack].
    unfold libusb_control_transfer, control_transfer.
    unfold erase_tracked, erase_safe. cbn [w_trace].
    rewrite erased_pages_app, (erase_command_pages d page Hpage).
    split.
    + apply no_repeat_snoc; [exact Hsafe|].
      intros y Hy. rewrite <- (Htrack y Hy). exact Hlast.
    + intros p. rewrite last_page_snoc. intros E. injection E as <-.
      reflexivity.
  - intros x.
    apply (hoare_keeps (only not_erase_page));
      [exact (erase_tracked_only _)|exact (erase_tracked_safe _)|frame].
Qed.

Lemma erase_result_ret ok d w : erase_tracked d w -> erase_result (ok, d) w.
Proof. intros H. split; [exact (erase_tracked_safe _ _ H)|intros _; exact H]. Qed.

Lemma erase_result_failed d w : erase_safe w -> erase_result (false, d) w.
Proof. intros H. split; [exact H|intros E; discriminate E]. Qed.

(** The inner loop sends an erase-page command only for a page that is
    not the one erased last, and records the page. *)
Lemma erase_pages_tracked n fuel cfg env segment end_ :
  forall d page_base,
    0 <= page_base <= ULONG_MAX ->
    hoare (erase_tracked d)
          (erase_pages n fuel cfg env d segment page_base end_)
          erase_result erase_safe.
Proof.
  induction n as [|n IH]; intros d page_base Hpage; cbn [erase_pages].
  - destruct ((page_base <? seg_end segment) && (page_base <? end_)).
    + apply hoare_stuck. exact (erase_tracked_safe _).
    + apply hoare_ret. exact (erase_result_ret _ _).
  - destruct ((page_base <? seg_end segment) && (page_base <? end_));
      [|apply hoare_ret; exact (erase_result_ret _ _)].
    destruct (Z.eqb_spec (last_erased_page d) page_base) as [Heq|Hneq];
      cbn [negb].
    + apply IH, u32_range.
    + apply (hoare_bind _ _ _ _ _ _
               (erase_command_tracked fuel cfg env d page_base false Hpage Hneq)).
      intros ok. destruct ok; cbn [negb].
      * apply IH, u32_range.
      * apply hoare_ret. intros w H. apply erase_result_failed.
        exact (erase_tracked_safe _ _ H).
Qed.

Lemma erase_segments_tracked n fuel cfg env end_ :
  forall d start,
    hoare (erase_tracked d) (erase_segments n fuel cfg env d start end_)
          erase_result erase_safe.
Proof.
  induction n as [|n IH]; intros d start; cbn [erase_segments].
  - destruct (start <? end_).
    + apply hoare_stuck. exact (erase_tracked_safe _).
    + apply hoare_ret. exact (erase_result_ret _ _).
  - destruct (start <? end_); [|apply hoare_ret; exact (erase_result_ret _ _)].
    destruct (find_segment (layout d) start) as [segment|].
    + cbv zeta.
      apply (hoare_bind _ _ _ _ _ _
               (erase_pages_tracked fuel fuel cfg env segment end_ d _
                  (u32_range _))).
      intros [ok d']. destruct ok; cbn [negb].
      * apply (hoare_pre _ _ _ _ _ (IH d' (seg_end segment))).
        intros w [_ H]. now apply H.
      * apply hoare_ret. intros w [H _]. now apply erase_result_failed.
    + unerased. apply hoare_ret. intros w H. apply erase_result_failed.
      exact (erase_tracked_safe _ _ H).
Qed.

Lemma erase_range_tracked fuel cfg env d address len :
  hoare (erase_tracked d) (dfu_erase_range fuel cfg env d address len)
        erase_result erase_safe.
Proof.
  unfold dfu_erase_range.
  destruct (negb (layout_valid d) || (count (layout d) =? 0)%nat).
  - apply hoare_ret. exact (erase_result_ret _ _).
  - apply erase_segments_tracked.
Qed.

Lemma write_chunk_tracked fuel cfg env d firmware firmware_len written :
  hoare (erase_tracked d)
        (write_chunk fuel cfg env d firmware firmware_len written)
        (fun r w => match r with
                    | Some (d', _) => erase_tracked d' w
                    | None => erase_safe w
                    end)
        erase_safe.
Proof.
  unfold write_chunk. cbv zeta.
  match goal with |- context [if ?b then _ else _] => destruct b end.
  { unerased. apply hoare_ret. exact (erase_tracked_safe _). }
  apply (hoare_bind _ _ erase_result).
  { match goal with |- context [if ?b then _ else _] => destruct b end.
    - apply erase_range_tracked.
    - apply hoare_ret. exact (erase_result_ret _ _). }
  intros [erased d1]. destruct erased; cbn [negb].
  2:{ apply hoare_ret. now intros w [H _]. }
  apply (hoare_pre _ (erase_tracked d1)); [|intros w [_ H]; now apply H].
  unerased. destruct a; cbn [negb].
  2:{ apply hoare_ret. exact (erase_tracked_safe _). }
  unerased. destruct a; cbn [negb].
  - apply hoare_ret. auto.
  - unerased. apply hoare_ret. exact (erase_tracked_safe _).
Qed.

Lemma write_loop_tracked fuel cfg env firmware firmware_len :
  forall n d written,
    hoare (erase_tracked d)
          (write_loop n fuel cfg env d firmware firmware_len written)
          (fun _ => erase_safe) erase_safe.
Proof.
  induction n as [|n IH]; intros d written; cbn [write_loop].
  - destruct (written <? firmware_len).
    + apply hoare_stuck. exact (erase_tracked_safe _).
    + apply hoare_ret. exact (erase_tracked_safe _).
  - destruct (written <? firmware_len);
      [|apply hoare_ret; exact (erase_tracked_safe _)].
    apply (hoare_bind _ _ _ _ _ _
             (write_chunk_tracked fuel cfg env d firmware firmware_len written)).
    intros [[d1 written1]|].
    + unerased. apply IH.
    + apply hoare_ret. auto.
Qed.

(** A run of the loader that starts with no page erased. *)
Lemma flash_tracked fuel cfg env :
  hoare (fun w => erased_pages (w_trace w) = [])
        (dfu_loader_flash fuel cfg env) (fun _ => erase_safe) erase_safe.
Proof.
  assert (Hsafe : forall w, erased_pages (w_trace w) = [] -> erase_safe w).
  { intros w H. unfold erase_safe. rewrite H. exact I. }
  unfold dfu_loader_flash.
  apply (hoare_bind _ _ (fun _ => erase_safe)).
  2:{ intros [success d].
      apply (hoare_keeps (only not_erase_page));
        [exact erase_safe_only|auto|frame]. }
  unfold flash_steps.
  apply (hoare_frame (only not_erase_page)); [exact no_pages_only|exact Hsafe|frame|].
  intros _.
  apply (hoare_frame (only not_erase_page)); [exact no_pages_only|exact Hsafe|frame|].
  intros _. unfold flash_body.
  apply (hoare_frame (only not_erase_page)); [exact no_pages_only|exact Hsafe|frame|].
  intros [[ready d] [firmware firmware_len]].
  destruct ready; cbn [negb]; [|apply hoare_ret; exact Hsafe].
  apply (hoare_bind _ _ (fun _ => erase_safe)).
  { apply (hoare_pre _ _ _ _ _
             (write_loop_tracked fuel cfg env firmware firmware_len fuel d 0)).
    exact (no_pages_tracked d). }
  intros ok. destruct ok; cbn [negb]; [|apply hoare_ret; auto].
  apply (hoare_frame (only not_erase_page)); [exact erase_safe_only|auto|frame|].
  intros ok. apply hoare_ret. auto.
Qed.

(** *** Erasing the same page again *)

Lemma page_base_of_bounds s address :
  0 <= seg_start s -> seg_end s <= ULONG_MAX -> 0 < seg_page_size s ->
  contains s address ->
  page_base_of s address <= address < page_base_of s address + seg_page_size s
  /\ 0 <= page_base_of s address.
Proof.
  unfold contains, ULONG_MAX. intros Hstart Hend Hsize [Hlo Hhi].
  unfold page_base_of.
  set (a := address - seg_start s). set (ps := seg_page_size s) in *.
  assert (Ha : 0 <= a <= ULONG_MAX) by (unfold ULONG_MAX; lia).
  rewrite (u32_small a Ha).
  assert (Hq : 0 <= a / ps <= a).
  { split; [apply Z.div_pos; lia|]. apply Z.div_le_upper_bound; nia. }
  rewrite (u32_small (a / ps)) by (unfold ULONG_MAX in *; lia).
  pose proof (Z.mul_div_le a ps Hsize) as Hle.
  pose proof (Z.mod_pos_bound a ps Hsize) as Hmod.
  pose proof (Z.div_mod a ps ltac:(lia)) as Hdm.
  assert (Hm : 0 <= a / ps * ps <= a) by nia.
  rewrite (u32_small (a / ps * ps)) by (unfold ULONG_MAX in *; lia).
  rewrite u32_small by (unfold ULONG_MAX in *; lia).
  lia.
Qed.

Lemma erase_pages_past n fuel cfg env d s page_base end_ w :
  (page_base <? seg_end s) && (page_base <? end_) = false ->
  erase_pages n fuel cfg env d s page_base end_ w = Done (true, d) w.
Proof. intros H. destruct n; cbn [erase_pages]; now rewrite H. Qed.

Lemma erase_pages_first n fuel cfg env d s page end_ w d1 w1 :
  (page <? seg_end s) && (page <? end_) = true ->
  (u32 (page + seg_page_size s) <? seg_end s)
  && (u32 (page + seg_page_size s) <? end_) = false ->
  erase_pages (S n) fuel cfg env d s page end_ w = Done (true, d1) w1 ->
  last_erased_page d1 = page.
Proof.
  intros Hin Hpast H. cbn [erase_pages] in H. rewrite Hin in H.
  destruct (Z.eqb_spec (last_erased_page d) page) as [Heq|Hneq]; cbn [negb] in H.
  - rewrite (erase_pages_past _ _ _ _ _ _ _ _ _ Hpast) in H.
    injection H as <- _. exact Heq.
  - step H as ok w2 E. destruct ok; cbn [negb] in H.
    + rewrite (erase_pages_past _ _ _ _ _ _ _ _ _ Hpast) in H.
      injection H as <- _. reflexivity.
    + apply ret_inv in H. destruct H as [H _]. discriminate H.
Qed.

Lemma erase_pages_again n fuel cfg env d s page end_ w :
  last_erased_page d = page ->
  (u32 (page + seg_page_size s) <? seg_end s)
  && (u32 (page + seg_page_size s) <? end_) = false ->
  erase_pages (S n) fuel cfg env d s page end_ w = Done (true, d) w.
Proof.
  intros Hlast Hpast. cbn [erase_pages].
  destruct ((page <? seg_end s) && (page <? end_)); [|reflexivity].
  rewrite Hlast, Z.eqb_refl. cbn [negb].
  exact (erase_pages_past _ _ _ _ _ _ _ _ _ Hpast).
Qed.

Lemma erase_segments_past n fuel cfg env d start end_ w :
  end_ <= start ->
  erase_segments n fuel cfg env d start end_ w = Done (true, d) w.
Proof.
  intros H. destruct n; cbn [erase_segments];
    (destruct (Z.ltb_spec start end_); [lia|reflexivity]).
Qed.

Lemma find_segment_count l address s :
  find_segment l address = Some s -> (count l =? 0)%nat = false.
Proof.
  intros H. apply find_segment_some in H. destruct H as [H _].
  unfold layout_segments in H. apply Nat.eqb_neq. intros E.
  rewrite E in H. exact H.
Qed.

(** The range of one page, erased with success, leaves the page as the
    page erased last; erasing a range of that page again sends nothing
    and changes nothing. *)
Lemma erase_range_again fuel cfg env d s address len len' w d1 w1 :
  (1 <= fuel)%nat -> layout_valid d = true ->
  find_segment (layout d) address = Some s ->
  in_one_page s address len -> in_one_page s address len' -> 0 < len ->
  dfu_erase_range fuel cfg env d address len w = Done (true, d1) w1 ->
  last_erased_page d1 = page_base_of s address
  /\ dfu_erase_range fuel cfg env d1 address len' w1 = Done (true, d1) w1.
Proof.
  intros Hfuel Hvalid Hfind (Hstart & Hend & Hsize & Hin & _ & Hlen & Hpage)
         (_ & _ & _ & _ & Hlen0 & Hlen' & _) Hpos H.
  pose proof (page_base_of_bounds s address Hstart Hend Hsize Hin) as (Hb & Hb0).
  pose proof (erase_range_session _ _ _ _ _ _ _ _ _ _ H) as Hsession.
  destruct (same_session_fields _ _ Hsession) as (Hl & Hv & _).
  set (page := page_base_of s address) in *.
  assert (Hpast : forall end_, end_ <= page + seg_page_size s ->
                    (u32 (page + seg_page_size s) <? seg_end s)
                    && (u32 (page + seg_page_size s) <? end_) = false).
  { intros end_ He. rewrite u32_small by lia. apply andb_false_iff. right.
    apply Z.ltb_ge. exact He. }
  destruct fuel as [|fuel]; [lia|].
  assert (Hfirst : last_erased_page d1 = page
                   /\ erase_segments fuel (S fuel) cfg env d1 (seg_end s)
                                     (u32 (address + len)) w1
                      = Done (true, d1) w1).
  { unfold dfu_erase_range in H.
    rewrite Hvalid, (find_segment_count _ _ _ Hfind) in H.
    cbn [negb orb] in H. cbn [erase_segments] in H.
    rewrite (u32_small (address + len)) in * by lia.
    destruct (Z.ltb_spec address (address + len)) as [_|]; [|lia].
    rewrite Hfind in H. cbv zeta in H. fold (page_base_of s address) in H.
    fold page in H.
    step H as [ok d2] w2 E. destruct ok; cbn [negb] in H.
    2:{ apply ret_inv in H. destruct H as [H _]. discriminate H. }
    apply erase_pages_first in E.
    - rewrite erase_segments_past in H by lia.
      injection H as <- <-. split; [exact E|].
      apply erase_segments_past. lia.
    - apply andb_true_iff. split; apply Z.ltb_lt; unfold contains in Hin; lia.
    - apply Hpast. lia. }
  destruct Hfirst as [Hlast _]. split; [exact Hlast|].
  unfold dfu_erase_range. rewrite Hv, Hvalid, Hl, (find_segment_count _ _ _ Hfind).
  cbn [negb orb]. cbn [erase_segments].
  rewrite (u32_small (address + len')) by lia.
  destruct (Z.ltb_spec address (address + len')) as [_|]; [|reflexivity].
  rewrite Hl, Hfind. cbv zeta. fold (page_base_of s address). fold page.
  unfold bind at 1.
  rewrite (erase_pages_again _ _ _ _ _ _ _ _ _ Hlast (Hpast _ Hlen')).
  cbn [negb]. apply erase_segments_past. lia.
Qed.

(** C7.  In every run of [dfu_loader_flash], however it ends, no two
    consecutive erase-page commands are for the same page.  The planner
    keeps the session invariant: [last_erased_page] is the page of the
    last erase-page command, and a command is sent only for a page that
    differs from it.  After a range within one page was erased with
    success, erasing a range of the same page again sends no command and
    leaves the device structure and the trace as they are. *)
Theorem erase_planner_no_repeat :
  (forall fuel cfg env buffer,
      no_repeat (erased_pages
                   (w_trace (result_world
                               (dfu_loader_flash fuel cfg env
                                                 (initial_world buffer))))))
  /\ (forall fuel cfg env d address len,
         hoare (erase_tracked d) (dfu_erase_range fuel cfg env d address len)
               erase_result erase_safe)
  /\ (forall fuel cfg env d s address len len' w d1 w1,
         (1 <= fuel)%nat -> layout_valid d = true ->
         find_segment (layout d) address = Some s ->
         in_one_page s address len -> in_one_page s address len' -> 0 < len ->
         dfu_erase_range fuel cfg env d address len w = Done (true, d1) w1 ->
         last_erased_page d1 = page_base_of s address
         /\ dfu_erase_range fuel cfg env d1 address len' w1 = Done (true, d1) w1).
Proof.
  split; [|split].
  - intros fuel cfg env buffer.
    pose proof (flash_tracked fuel cfg env (initial_world buffer) eq_refl) as H.
    destruct (dfu_loader_flash fuel cfg env (initial_world buffer));
      exact H.
  - exact erase_range_tracked.
  - exact erase_range_again.
Qed.

Lemma erase_planner_no_repeat_witness :
  match dfu_erase_range 2 no_caller (bare_environment accepting_device)
                        paged_session 0x08000100 512 (initial_world []) with
  | Done (ok, d1) w1 =>
      ok = true
      /\ erased_pages (w_trace w1) = [0x08000000]
      /\ last_erased_page d1 = page_base_of first_page 0x08000100
      /\ dfu_erase_range 2 no_caller (bare_environment accepting_device)
                         d1 0x08000100 256 w1 = Done (true, d1) w1
  | Stuck _ _ => False
  end.
Proof.
  pose proof (proj2 (proj2 erase_planner_no_repeat) 2%nat no_caller
                (bare_environment accepting_device) paged_session first_page
                0x08000100 512 256 (initial_world [])) as H.
  destruct (dfu_erase_range 2%nat no_caller (bare_environment accepting_device)
              paged_session 0x08000100 512 (initial_world []))
    as [[ok d1] w1|l w1] eqn:E.
  - assert (ok = true /\ erased_pages (w_trace w1) = [0x08000000]) as [-> Hpages].
    { vm_compute in E. injection E as <- _ <-. split; reflexivity. }
    split; [reflexivity|]. split; [exact Hpages|].
    apply H.
    + lia.
    + reflexivity.
    + reflexivity.
    + unfold in_one_page, contains. vm_compute. intuition congruence.
    + unfold in_one_page, contains. vm_compute. intuition congruence.
    + lia.
    + reflexivity.
  - vm_compute in E. discriminate E.
Defined.

(** ** Progress *)

Lemma progress_of_app tr evs :
  progress_of (tr ++ evs) = progress_of tr ++ progress_of evs.
Proof. apply flat_map_app. Qed.

Lemma unreported_progress evs :
  forallb unreported evs = true -> progress_of evs = [].
Proof.
  induction evs as [|e evs IH]; [reflexivity|].
  cbn [forallb]. intros H. apply andb_prop in H. destruct H as [H1 H2].
  change (e :: evs) with ([e] ++ evs).
  rewrite progress_of_app, (IH H2), app_nil_r.
  destruct e; try reflexivity. discriminate H1.
Qed.

Lemma progress_of_only w w' :
  only unreported w w' -> progress_of (w_trace w') = progress_of (w_trace w).
Proof.
  intros (evs & T & Q).
  rewrite T, progress_of_app, (unreported_progress _ Q). apply app_nil_r.
Qed.

Lemma unreported_quiet e : quiet e = true -> unreported e = true.
Proof. destruct e; cbn [quiet unreported]; auto. Qed.

Lemma unreported_data : allows_data unreported.
Proof. intros d data len. reflexivity. Qed.

Lemma unreported_command command len : allows_command unreported command len.
Proof. intros d address. reflexivity. Qed.

#[local] Hint Resolve unreported_quiet unreported_data unreported_command : frame.

Lemma reported_only a w w' :
  only unreported w w' -> reported_up_to a w -> reported_up_to a w'.
Proof. intros H. unfold reported_up_to. now rewrite (progress_of_only _ _ H). Qed.

Lemma reported_weaken a b w : a <= b -> reported_up_to a w -> reported_up_to b w.
Proof.
  intros Hab [H1 H2]. split; [exact H1|].
  eapply Forall_impl; [|exact H2]. cbv beta. intros p Hp. lia.
Qed.

Lemma reported_at_return_only cfg success w w' :
  only unreported w w' -> reported_at_return cfg success w ->
  reported_at_return cfg success w'.
Proof.
  intros H. unfold reported_at_return. now rewrite (progress_of_only _ _ H).
Qed.

Lemma nondecreasing_snoc l x :
  nondecreasing l -> Forall (fun p => p <= x) l -> nondecreasing (l ++ [x]).
Proof.
  induction l as [|a l IH]; intros Hl Hx; [cbn; auto|].
  destruct Hl as [Ha Hl]. pose proof (Forall_inv Hx) as Hax.
  pose proof (Forall_inv_tail Hx) as Hx'.
  change ((a :: l) ++ [x]) with (a :: (l ++ [x])). split; [|now apply IH].
  destruct l as [|b l]; [exact Hax|exact Ha].
Qed.

Lemma progress_of_progress_event cfg percent :
  progress_of (progress_event cfg percent)
  = if has_progress_sink cfg then [percent] else [].
Proof. unfold progress_event. now destruct (has_progress_sink cfg). Qed.

(** A report that is not below the reports before it. *)
Lemma report_progress_reported cfg percent a :
  a <= percent ->
  hoare (reported_up_to a) (report_progress cfg percent)
        (fun _ => reported_up_to percent) (reported_up_to percent).
Proof.
  intros Ha w [H1 H2].
  destruct (report_progress_run cfg percent w) as (w' & E & T & _).
  rewrite E. unfold reported_up_to. rewrite T, progress_of_app.
  rewrite progress_of_progress_event.
  assert (H3 : Forall (fun p => p <= percent) (progress_of (w_trace w))).
  { eapply Forall_impl; [|exact H2]. cbv beta. intros p Hp. lia. }
  destruct (has_progress_sink cfg).
  - split; [now apply nondecreasing_snoc|].
    apply Forall_app. split; [exact H3|]. constructor; [lia|constructor].
  - rewrite app_nil_r. split; assumption.
Qed.

Lemma initial_percent_range d : 5 <= initial_percent d <= 6.
Proof. unfold initial_percent. destruct (layout_valid d); lia. Qed.

Lemma write_percent_start d firmware_len :
  write_percent d 0 firmware_len = initial_percent d.
Proof.
  unfold write_percent. cbv zeta. cbn [Z.mul]. rewrite Zdiv_0_l.
  pose proof (initial_percent_range d). rewrite Z.add_0_r.
  destruct (Z.ltb_spec 95 (initial_percent d)); [lia|reflexivity].
Qed.

Lemma write_percent_top d written firmware_len :
  write_percent d written firmware_len <= 95.
Proof.
  unfold write_percent. cbv zeta.
  match goal with |- context [?a <? ?b] => destruct (Z.ltb_spec a b) end; lia.
Qed.

Lemma write_percent_mono d d' written written' firmware_len :
  layout_valid d' = layout_valid d -> 0 < firmware_len -> written <= written' ->
  write_percent d written firmware_len <= write_percent d' written' firmware_len.
Proof.
  intros Hv Hlen Hw. unfold write_percent, initial_percent. cbv zeta.
  rewrite Hv.
  assert (written * 90 / firmware_len <= written' * 90 / firmware_len)
    by (apply Z.div_le_mono; lia).
  repeat match goal with
         | |- context [?a <? ?b] => destruct (Z.ltb_spec a b)
         end; lia.
Qed.

(** Reports up to [a] are reports up to 99 when [a] is at most 99. *)
Ltac reported_le :=
  let w := fresh "w" in
  let H := fresh "H" in
  intros w H; cbn [fst snd]; eapply reported_weaken; [|exact H];
  first
    [ lia
    | match goal with
      | |- initial_percent ?d <= _ =>
          pose proof (initial_percent_range d); lia
      | |- write_percent ?d ?x ?l <= _ =>
          pose proof (write_percent_top d x l); lia
      end ].

(** A step that reports nothing, in a triple of the reports. *)
Ltac unreported_step :=
  apply (hoare_frame (only unreported));
  [ exact (reported_only _) | reported_le | solve [frame] | ].

Ltac reported_ret := apply hoare_ret; first [ solve [auto] | reported_le ].

Lemma choose_erase_reported fuel cfg env d :
  hoare (reported_up_to 0) (choose_erase fuel cfg env d)
        (fun _ => reported_up_to 3) (reported_up_to 99).
Proof.
  unfold choose_erase. destruct (layout_valid d).
  - apply hoare_ret. intros w H. apply (reported_weaken 0); [lia|exact H].
  - unreported_step. intros _.
    apply (hoare_bind _ _ (fun _ => reported_up_to 3)).
    { apply (hoare_conseq _ _ _ _ _ _ _
               (report_progress_reported cfg 3 0 ltac:(lia))); auto.
      intros w H. apply (reported_weaken 3); [lia|exact H]. }
    intros _. unreported_step. intros ok. destruct ok; cbn [negb].
    + unreported_step. intros ok. destruct ok; cbn [negb]; apply hoare_ret; auto.
    + apply hoare_ret; auto.
Qed.

Lemma flash_prepare_reported fuel cfg env :
  hoare (reported_up_to 0) (flash_prepare fuel cfg env)
        (fun r => reported_up_to
                    (if fst (fst r) then initial_percent (snd (fst r)) else 99))
        (reported_up_to 99).
Proof.
  unfold flash_prepare, wait_for_stm32_dfu_device.
  unreported_step. intros [image|]; [|reported_ret].
  unreported_step. intros _.
  destruct (negb (env_usb_init env =? LIBUSB_SUCCESS)).
  { unreported_step. intros _. reported_ret. }
  unreported_step. intros _. unreported_step.
  intros [d|]; [|reported_ret].
  unreported_step. intros _. unreported_step.
  intros ok. destruct ok; cbn [negb]; [|reported_ret].
  apply (hoare_bind _ _ _ _ _ _ (choose_erase_reported fuel cfg env d)).
  intros [ok d1]. destruct ok; cbn [negb]; [|reported_ret].
  unreported_step. intros _. unreported_step.
  intros ok. destruct ok; cbn [negb]; [|reported_ret].
  apply (hoare_bind _ _ (fun _ => reported_up_to (initial_percent d1))).
  { pose proof (initial_percent_range d1).
    apply (hoare_conseq _ _ _ _ _ _ _
             (report_progress_reported cfg (initial_percent d1) 3 ltac:(lia)));
      auto.
    reported_le. }
  intros _. unreported_step. intros _.
  destruct (negb (env_chunk_alloc env)).
  - unreported_step. intros _. reported_ret.
  - reported_ret.
Qed.

(** The write loop reports the percentage of what is written, which
    does not decrease. *)
Lemma write_loop_reported fuel cfg env firmware firmware_len :
  forall n d written,
    0 <= transfer_size d -> 0 <= written ->
    hoare (reported_up_to (write_percent d written firmware_len))
          (write_loop n fuel cfg env d firmware firmware_len written)
          (fun _ => reported_up_to 95) (reported_up_to 99).
Proof.
  assert (Htop : forall d written w,
             reported_up_to (write_percent d written firmware_len) w ->
             reported_up_to 95 w).
  { intros d written w H. eapply reported_weaken; [|exact H].
    apply write_percent_top. }
  induction n as [|n IH]; intros d written Ht Hw; cbn [write_loop].
  - destruct (written <? firmware_len).
    + apply hoare_stuck. reported_le.
    + apply hoare_ret. apply Htop.
  - destruct (Z.ltb_spec written firmware_len) as [Hlt|];
      [|apply hoare_ret; apply Htop].
    apply (hoare_bind _ _
             (fun r w => reported_up_to (write_percent d written firmware_len) w
                         /\ match r with
                            | Some (d', written') =>
                                same_session d d' /\ written <= written'
                            | None => True
                            end)).
    { apply hoare_run.
      - apply (hoare_keeps (only unreported));
          [exact (reported_only _)|reported_le|frame].
      - intros w [[d' written']|] w' E; [|exact I].
        apply write_chunk_done in E. destruct E as (Hs & -> & _).
        split; [exact Hs|].
        pose proof (chunk_size_at_bounds d (chunk_segment d written) firmware_len
                      written Hlt Ht
                      (fun s => chunk_segment_contains d written s)) as Hb.
        cbv zeta in Hb. lia. }
    intros [[d' written']|].
    + apply (hoare_pre _ (fun w => reported_up_to
                                     (write_percent d written firmware_len) w
                                   /\ (same_session d d' /\ written <= written')));
        [|auto].
      intros w [H [Hs Hle]]. revert w H.
      change (hoare (reported_up_to (write_percent d written firmware_len))
                    (report_progress cfg (write_percent d' written' firmware_len) ;;
                     write_loop n fuel cfg env d' firmware firmware_len written')
                    (fun _ => reported_up_to 95) (reported_up_to 99)).
      destruct (same_session_fields _ _ Hs) as (_ & Hv & Htr & _).
      apply (hoare_bind _ _
               (fun _ => reported_up_to (write_percent d' written' firmware_len))).
      * apply (hoare_conseq _ _ _ _ _ _ _
                 (report_progress_reported cfg
                    (write_percent d' written' firmware_len)
                    (write_percent d written firmware_len)
                    (write_percent_mono d d' written written' firmware_len Hv
                       ltac:(lia) Hle))); auto.
        reported_le.
      * intros _. apply IH; [rewrite Htr; exact Ht|lia].
    + apply hoare_ret. intros w [H _]. now apply (Htop d written).
Qed.

Lemma flash_finish_reported fuel cfg env d :
  hoare (reported_up_to 95) (flash_finish fuel cfg env d)
        (fun _ => reported_up_to 99) (reported_up_to 99).
Proof.
  unfold flash_finish. unreported_step.
  intros ok. destruct ok; cbn [negb]; [|reported_ret].
  apply (hoare_bind _ _ (fun _ => reported_up_to 99)).
  { apply (report_progress_reported cfg 99 95). lia. }
  intros _. unreported_step. intros _. reported_ret.
Qed.

Lemma flash_prepare_transfer fuel cfg env w d image w' :
  flash_prepare fuel cfg env w = Done (true, d, image) w' ->
  1 <= transfer_size d.
Proof.
  intros H. apply flash_prepare_ready in H.
  destruct H as (_ & d0 & Hdev & -> & _).
  destruct (session_device_layout d0) as (_ & _ & -> & _).
  pose proof (attached_device_transfer _ _ Hdev). lia.
Qed.

Lemma flash_body_reported fuel cfg env :
  hoare (reported_up_to 0) (flash_body fuel cfg env)
        (fun _ => reported_up_to 99) (reported_up_to 99).
Proof.
  unfold flash_body.
  apply (hoare_bind _ _
           (fun (r : bool * stm32_dfu_device_t * (list Z * Z)) w =>
              reported_up_to
                (if fst (fst r) then initial_percent (snd (fst r)) else 99) w
              /\ (fst (fst r) = true -> 1 <= transfer_size (snd (fst r))))).
  { apply hoare_run; [apply flash_prepare_reported|].
    intros w [[ready d] image] w' E. cbn [fst snd]. intros ->.
    exact (flash_prepare_transfer _ _ _ _ _ _ _ E). }
  intros [[ready d] [firmware firmware_len]]. cbn [fst snd].
  destruct ready; cbn [negb].
  2:{ apply hoare_ret. now intros w [H _]. }
  intros w [H Ht]. specialize (Ht eq_refl). revert w H.
  change (hoare (reported_up_to (initial_percent d))
                (ok <- write_loop fuel fuel cfg env d firmware firmware_len 0 ;;
                 if negb ok then ret (false, d)
                 else ok <- flash_finish fuel cfg env d ;; ret (ok, d))
                (fun _ => reported_up_to 99) (reported_up_to 99)).
  rewrite <- (write_percent_start d firmware_len).
  apply (hoare_bind _ _ _ _ _ _
           (write_loop_reported fuel cfg env firmware firmware_len fuel d 0
              ltac:(lia) ltac:(lia))).
  intros ok. destruct ok; cbn [negb]; [|reported_ret].
  apply (hoare_bind _ _ _ _ _ _ (flash_finish_reported fuel cfg env d)).
  intros ok. reported_ret.
Qed.

Lemma progress_of_visible tr : progress_of (visible tr) = progress_of tr.
Proof.
  induction tr as [|e tr IH]; [reflexivity|].
  change (e :: tr) with ([e] ++ tr).
  rewrite visible_app, !progress_of_app, IH. f_equal.
  destruct e as [rq| | | |]; try reflexivity.
  cbn [visible filter quiet]. destruct (is_dnload rq); reflexivity.
Qed.

Lemma cleanup_reports cfg success d w b w' :
  cleanup cfg success d w = Done b w' ->
  progress_of (w_trace w')
  = progress_of (w_trace w)
    ++ (if success then progress_of (progress_event cfg 100) else []).
Proof.
  intros H. destruct success.
  - pose proof (cleanup_result _ _ _ _ _ _ H) as ->.
    apply cleanup_done in H. apply (f_equal progress_of) in H.
    now rewrite progress_of_app, !progress_of_visible in H.
  - rewrite app_nil_r. unfold cleanup in H.
    step H as [] w1 E1. apply ret_inv in E1. destruct E1 as [_ <-].
    step H as [] w2 E2. quiet E2. step H as [] w3 E3.
    assert (V3 : visible (w_trace w3) = visible (w_trace w2)).
    { match type of E3 with
      | (if ?c then _ else _) = _ => destruct c
      end; [now quiet E3|now injection E3 as <-]. }
    apply ret_inv in H. destruct H as [_ <-].
    rewrite <- (progress_of_visible (w_trace w3)), V3, E2.
    apply progress_of_visible.
Qed.

Lemma cleanup_reported cfg success d :
  hoare (reported_up_to 99) (cleanup cfg success d)
        (fun b w => b = success /\ reported_at_return cfg success w)
        (fun _ => False).
Proof.
  intros w [H1 H2].
  destruct (cleanup cfg success d w) as [b w'|l w'] eqn:E.
  - split; [exact (cleanup_result _ _ _ _ _ _ E)|].
    exists (progress_of (w_trace w)). split; [exact H1|]. split; [exact H2|].
    exact (cleanup_reports _ _ _ _ _ _ E).
  - exact (never_cleanup l cfg success d w w' E).
Qed.

(** A run of the loader: what is reported when it returns and when it
    does not. *)
Lemma flash_reported fuel cfg env :
  hoare (reported_up_to 0) (dfu_loader_flash fuel cfg env)
        (reported_at_return cfg) (reported_up_to 99).
Proof.
  unfold dfu_loader_flash.
  apply (hoare_bind _ _ (fun _ => reported_up_to 99)).
  - unfold flash_steps.
    apply (hoare_bind _ _ (fun _ => reported_up_to 0)).
    { apply (hoare_conseq _ _ _ _ _ _ _
               (report_progress_reported cfg 0 0 ltac:(lia))); auto.
      reported_le. }
    intros _. unreported_step. intros _. apply flash_body_reported.
  - intros [success d].
    apply (hoare_conseq _ _ _ _ _ _ _ (cleanup_reported cfg success d)); auto.
    + now intros b w [-> H].
    + intros w [].
Qed.

Lemma not_reported_100 l : Forall (fun p => p <= 99) l -> ~ In 100 l.
Proof.
  intros H Hin. rewrite Forall_forall in H. specialize (H 100 Hin). lia.
Qed.

(** C6.  In a run of [dfu_loader_flash], however it ends, the
    percentages passed to the progress callback never decrease.  When
    there is a progress callback, 100 is reported if and only if the run
    returns success, and then it is the last report and the only one
    above 99. *)
Theorem progress_reports fuel cfg env buffer :
  let run := dfu_loader_flash fuel cfg env (initial_world buffer) in
  let reports := progress_of (w_trace (result_world run)) in
  nondecreasing reports
  /\ (has_progress_sink cfg = true ->
      (In 100 reports <-> exists w', run = Done true w')
      /\ (forall w', run = Done true w' ->
                     exists before,
                       reports = before ++ [100]
                       /\ Forall (fun p => p <= 99) before)).
Proof.
  cbv zeta.
  pose proof (flash_reported fuel cfg env (initial_world buffer)) as H.
  assert (H0 : reported_up_to 0 (initial_world buffer)).
  { split; [exact I|constructor]. }
  specialize (H H0). clear H0.
  destruct (dfu_loader_flash fuel cfg env (initial_world buffer))
    as [success w'|l w']; cbn [result_world].
  - destruct H as (before & Hnd & Hle & ->).
    rewrite progress_of_progress_event.
    split.
    + destruct success; [|now rewrite app_nil_r].
      destruct (has_progress_sink cfg); [|now rewrite app_nil_r].
      apply nondecreasing_snoc; [exact Hnd|].
      eapply Forall_impl; [|exact Hle]. cbv beta. intros p Hp. lia.
    + intros ->. split; [split|].
      * intros Hin. destruct success; [now exists w'|].
        rewrite app_nil_r in Hin. now apply not_reported_100 in Hin.
      * intros [w'' E]. injection E as -> _. apply in_or_app. right. now left.
      * intros w'' E. injection E as -> _. now exists before.
  - destruct H as [Hnd Hle]. split; [exact Hnd|].
    intros _. split; [split|].
    + intros Hin. now apply not_reported_100 in Hin.
    + intros [w'' E]. discriminate E.
    + intros w'' E. discriminate E.
Qed.

Lemma progress_reports_witness :
  has_progress_sink (plain_caller 64) = true
  /\ progress_of
       (w_trace (result_world
                   (dfu_loader_flash 4 (plain_caller 64)
                      (scenario accepting_device 3000 1024 "@Option Bytes")
                      (initial_world (repeat "x"%char 64)))))
     = [0; 3; 5; 35; 66; 95; 99; 100]
  /\ (In 100
         (progress_of
            (w_trace (result_world
                        (dfu_loader_flash 4 (plain_caller 64)
                           (scenario accepting_device 3000 1024 "@Option Bytes")
                           (initial_world (repeat "x"%char 64))))))
      <-> exists w',
          dfu_loader_flash 4 (plain_caller 64)
            (scenario accepting_device 3000 1024 "@Option Bytes")
            (initial_world (repeat "x"%char 64)) = Done true w').
Proof.
  split; [reflexivity|]. split; [vm_compute; reflexivity|].
  apply (progress_reports 4%nat (plain_caller 64%nat)
           (scenario accepting_device 3000 1024 "@Option Bytes")
           (repeat "x"%char 64%nat)).
  reflexivity.
Defined.

(** * Further properties of the loader *)

(** ** Bytes *)

Lemma byte_bits b n : 0 <= b <= 255 -> 8 <= n -> Z.testbit b n = false.
Proof.
  intros Hb Hn. destruct (Z.eq_dec b 0) as [->|Hnz]; [apply Z.testbit_0_l|].
  apply Z.bits_above_log2; [lia|].
  assert (Z.log2 b < 8); [|lia].
  apply Z.log2_lt_pow2; [lia|]. change (2 ^ 8) with 256. lia.
Qed.

Lemma land_shiftl_low lo hi k :
  0 <= lo < 2 ^ k -> 0 <= k -> Z.land lo (Z.shiftl hi k) = 0.
Proof.
  intros Hlo Hk. apply Z.bits_inj'. intros n Hn.
  rewrite Z.land_spec, Z.bits_0.
  destruct (Z.lt_ge_cases n k) as [Hlt|Hge].
  - rewrite (Z.shiftl_spec_low hi k n Hlt). apply andb_false_r.
  - destruct (Z.eq_dec lo 0) as [->|Hnz]; [now rewrite Z.testbit_0_l|].
    rewrite (Z.bits_above_log2 lo n); [reflexivity|lia|].
    apply Z.lt_le_trans with k; [|exact Hge].
    apply Z.log2_lt_pow2; lia.
Qed.

(** A value put above a smaller one with a shift and an or is the sum of
    the two. *)
Lemma lor_shiftl_byte lo hi k :
  0 <= lo < 2 ^ k -> 0 <= k ->
  Z.lor lo (Z.shiftl hi k) = lo + 2 ^ k * hi.
Proof.
  intros Hlo Hk.
  pose proof (land_shiftl_low lo hi k Hlo Hk) as Hland.
  rewrite <- (Z.lxor_lor _ _ Hland), <- (Z.add_nocarry_lxor _ _ Hland).
  rewrite Z.shiftl_mul_pow2 by exact Hk. lia.
Qed.

(** ** The transfer size *)

Lemma u8_byte b : 0 <= b <= 255 -> u8 b = b.
Proof. intros H. unfold u8. apply Z.mod_small. lia. Qed.

Lemma nth_byte (l : list Z) i :
  Forall (fun b => 0 <= b <= 255) l -> 0 <= nth i l 0 <= 255.
Proof.
  intros H. destruct (Nat.lt_ge_cases i (List.length l)) as [Hlt|Hge].
  - rewrite Forall_forall in H. apply H, nth_In, Hlt.
  - rewrite nth_overflow by exact Hge. lia.
Qed.

Lemma nth_app_byte (desc rest : list Z) i :
  (i < List.length desc)%nat -> nth i (desc ++ rest) 0 = nth i desc 0.
Proof. intros H. now apply app_nth1. Qed.

(** The scan steps over a descriptor that is not the functional one. *)
Lemma scan_descriptors_skip fuel desc rest :
  well_formed_descriptor desc -> ~ is_functional desc ->
  9 <= Z.of_nat (List.length (desc ++ rest)) ->
  scan_descriptors (S fuel) (desc ++ rest) = scan_descriptors fuel rest.
Proof.
  intros (Hbytes & Hlen & Hfirst) Hnot Hnine. cbn [scan_descriptors]. cbv zeta.
  destruct (Z.ltb_spec (Z.of_nat (List.length (desc ++ rest))) 9); [lia|].
  rewrite !nth_app_byte by lia.
  pose proof (nth_byte desc 0 Hbytes) as H0.
  pose proof (nth_byte desc 1 Hbytes) as H1.
  rewrite !u8_byte by assumption. rewrite Hfirst.
  rewrite length_app, Nat2Z.inj_add.
  destruct (Z.ltb_spec (Z.of_nat (List.length desc)) 3); [lia|].
  destruct (Z.ltb_spec (Z.of_nat (List.length desc) + Z.of_nat (List.length rest))
                       (Z.of_nat (List.length desc))); [lia|].
  cbn [orb].
  assert (Hf : (nth 1 desc 0 =? 33) && (9 <=? Z.of_nat (List.length desc)) = false).
  { destruct (Z.eqb_spec (nth 1 desc 0) 33) as [Ht|]; [|reflexivity].
    destruct (Z.leb_spec 9 (Z.of_nat (List.length desc))); [|reflexivity].
    exfalso. apply Hnot. split; assumption. }
  rewrite Hf. rewrite Nat2Z.id.
  now rewrite skipn_app, skipn_all, Nat.sub_diag.
Qed.

(** The scan stops at the functional descriptor with its transfer size,
    or with the default when the descriptor announces zero. *)
Lemma scan_descriptors_found fuel desc rest :
  well_formed_descriptor desc -> is_functional desc ->
  scan_descriptors (S fuel) (desc ++ rest)
  = if wTransferSize desc =? 0 then STM32_DEFAULT_TRANSFER else wTransferSize desc.
Proof.
  intros (Hbytes & Hlen & Hfirst) (Htype & Hnine). cbn [scan_descriptors]. cbv zeta.
  rewrite length_app, Nat2Z.inj_add.
  destruct (Z.ltb_spec (Z.of_nat (List.length desc) + Z.of_nat (List.length rest)) 9);
    [lia|].
  rewrite !nth_app_byte by lia.
  pose proof (nth_byte desc 0 Hbytes) as H0.
  pose proof (nth_byte desc 5 Hbytes) as H5.
  pose proof (nth_byte desc 6 Hbytes) as H6.
  rewrite (u8_byte (nth 0 desc 0)), (u8_byte (nth 5 desc 0)),
    (u8_byte (nth 6 desc 0)) by assumption.
  rewrite Htype, Hfirst. change (u8 33) with 33.
  destruct (Z.ltb_spec (Z.of_nat (List.length desc)) 3); [lia|].
  destruct (Z.ltb_spec (Z.of_nat (List.length desc) + Z.of_nat (List.length rest))
                       (Z.of_nat (List.length desc))); [lia|].
  destruct (Z.leb_spec 9 (Z.of_nat (List.length desc))); [|lia].
  cbn [orb andb Z.eqb Pos.eqb].
  rewrite (lor_shiftl_byte (nth 5 desc 0) (nth 6 desc 0) 8) by
    (change (2 ^ 8) with 256; lia).
  change (2 ^ 8) with 256. fold (wTransferSize desc).
  assert (Hw : u16 (wTransferSize desc) = wTransferSize desc).
  { unfold u16, wTransferSize. apply Z.mod_small. lia. }
  now rewrite Hw.
Qed.

Lemma scan_descriptors_finds before :
  forall fuel fd rest,
    Forall well_formed_descriptor before ->
    Forall (fun desc => ~ is_functional desc) before ->
    well_formed_descriptor fd -> is_functional fd ->
    (List.length before < fuel)%nat ->
    scan_descriptors fuel (List.concat before ++ fd ++ rest)
    = if wTransferSize fd =? 0 then STM32_DEFAULT_TRANSFER else wTransferSize fd.
Proof.
  induction before as [|desc before IH]; intros fuel fd rest Hwf Hnot Hfd Hfun Hfuel.
  - destruct fuel as [|fuel]; [lia|]. cbn [List.concat app].
    now apply scan_descriptors_found.
  - destruct fuel as [|fuel]; [cbn [List.length] in Hfuel; lia|].
    cbn [List.concat]. rewrite <- app_assoc.
    rewrite scan_descriptors_skip.
    + apply IH; [exact (Forall_inv_tail Hwf)|exact (Forall_inv_tail Hnot)
                |exact Hfd|exact Hfun|cbn [List.length] in Hfuel; lia].
    + exact (Forall_inv Hwf).
    + exact (Forall_inv Hnot).
    + destruct Hfun as [_ Hnine]. rewrite !length_app, !Nat2Z.inj_add. lia.
Qed.

Lemma concat_length_descriptors before :
  Forall well_formed_descriptor before ->
  (List.length before <= List.length (List.concat before))%nat.
Proof.
  induction before as [|desc before IH]; intros H; [cbn; lia|].
  cbn [List.concat List.length]. rewrite length_app.
  pose proof (Forall_inv H) as (_ & Hlen & _).
  specialize (IH (Forall_inv_tail H)). lia.
Qed.

(** X1: [parse_transfer_size] steps over any well-formed descriptors that
    precede the DFU functional descriptor in the extra bytes of the
    alternate setting and returns the wTransferSize of the first
    functional descriptor, or the default of 1024 when that field is
    zero, whatever bytes follow. *)
Theorem parse_transfer_size_functional before fd rest :
  Forall well_formed_descriptor before ->
  Forall (fun desc => ~ is_functional desc) before ->
  well_formed_descriptor fd -> is_functional fd ->
  parse_transfer_size (List.concat before ++ fd ++ rest)
  = if wTransferSize fd =? 0 then STM32_DEFAULT_TRANSFER else wTransferSize fd.
Proof.
  intros Hwf Hnot Hfd Hfun. unfold parse_transfer_size.
  pose proof (concat_length_descriptors before Hwf) as Hc.
  destruct Hfun as [Htype Hnine].
  destruct (Z.ltb_spec (Z.of_nat (List.length (List.concat before ++ fd ++ rest))) 9)
    as [Hshort|_].
  { rewrite !length_app, !Nat2Z.inj_add in Hshort. lia. }
  apply scan_descriptors_finds; try assumption; [now split|].
  rewrite !length_app. lia.
Qed.

Lemma parse_transfer_size_functional_witness :
  parse_transfer_size
    (List.concat [[4; 0x0B; 1; 2]; [5; 0x21; 0; 0; 0]]
     ++ [9; 0x21; 0x0B; 0xFF; 0x00; 0x00; 0x08; 0x1A; 0x01] ++ [7; 5; 1])
  = 2048.
Proof.
  apply (parse_transfer_size_functional
           [[4; 0x0B; 1; 2]; [5; 0x21; 0; 0; 0]]
           [9; 0x21; 0x0B; 0xFF; 0x00; 0x00; 0x08; 0x1A; 0x01] [7; 5; 1]).
  - repeat constructor; cbn; lia.
  - repeat constructor; intros [H1 H2]; cbn in *; lia.
  - repeat constructor; cbn; lia.
  - split; cbn; lia.
Defined.

(** ** The status reply *)

Lemma reply_byte_range x i : 0 <= reply_byte x i <= 255.
Proof. unfold reply_byte. pose proof (u8_range (nth i (x_data x) 0)). lia. Qed.

(** X2: [dfu_get_status] decodes a reply of six bytes as status = byte 0,
    state = byte 4 and poll timeout = bytes 1 to 3 as a little-endian
    number of 24 bits; the pause [dfu_wait_ready] makes before it polls
    again is therefore between 1 and 16777215 ms, whatever the device
    answers. *)
Theorem dfu_get_status_decodes env d w :
  let x := status_reply env d w in
  x_ret x = 6 ->
  exists st,
    dfu_get_status env d w = Done (LIBUSB_SUCCESS, st) (polled d w)
    /\ status st = reply_byte x 0 /\ state st = reply_byte x 4
    /\ poll_timeout_ms st
       = reply_byte x 1 + 256 * reply_byte x 2 + 65536 * reply_byte x 3
    /\ 0 <= poll_timeout_ms st < 16777216
    /\ 1 <= poll_pause (poll_timeout_ms st) <= 16777215.
Proof.
  cbv zeta. intros Hret. rewrite dfu_get_status_run. cbv zeta. rewrite Hret.
  change (6 <? 0) with false. change (negb (6 =? 6)) with false. cbv iota.
  eexists. split; [reflexivity|]. cbn [status state poll_timeout_ms].
  unfold reply_status, reply_state, reply_poll_timeout.
  pose proof (reply_byte_range (status_reply env d w) 1) as H1.
  pose proof (reply_byte_range (status_reply env d w) 2) as H2.
  pose proof (reply_byte_range (status_reply env d w) 3) as H3.
  rewrite (lor_shiftl_byte (reply_byte (status_reply env d w) 1)
             (reply_byte (status_reply env d w) 2) 8)
    by (change (2 ^ 8) with 256; lia).
  change (2 ^ 8) with 256.
  rewrite (lor_shiftl_byte _ (reply_byte (status_reply env d w) 3) 16)
    by (change (2 ^ 16) with 65536; lia).
  change (2 ^ 16) with 65536.
  split; [reflexivity|]. split; [reflexivity|]. split; [lia|]. split; [lia|].
  unfold poll_pause.
  match goal with |- context [?a <? ?b] => destruct (Z.ltb_spec a b) end; lia.
Qed.

Lemma dfu_get_status_decodes_witness :
  exists st,
    dfu_get_status (bare_environment busy_once_device) zero_device (initial_world [])
    = Done (LIBUSB_SUCCESS, st) (polled zero_device (initial_world []))
    /\ poll_timeout_ms st = 3 /\ poll_pause (poll_timeout_ms st) = 3.
Proof.
  destruct (dfu_get_status_decodes (bare_environment busy_once_device) zero_device
              (initial_world []) eq_refl) as (st & E & _ & _ & Hp & _).
  exists st. split; [exact E|]. rewrite Hp. split; reflexivity.
Defined.

(** ** Vendor commands *)

(** X3: [dfu_send_special_command] sends, in block 0, the command byte
    followed by the address as four little-endian bytes, and of these
    five bytes no more than five whatever length is asked for: the bytes
    after the command are bytes and put together again they are the
    address in 32 bits. *)
Theorem special_command_encoding fuel cfg env d command address length allow :
  dfu_send_special_command fuel cfg env d command address length allow
  = dfu_download_block fuel cfg env d 0 (special_payload command address)
                       (Z.min length 5) allow
  /\ List.length (special_payload command address) = 5%nat
  /\ hd 0 (special_payload command address) = command
  /\ Forall (fun b => 0 <= b <= 255) (tl (special_payload command address))
  /\ payload_address (special_payload command address) = u32 address.
Proof.
  split; [|split; [reflexivity|split; [reflexivity|split]]].
  - unfold dfu_send_special_command. cbv zeta. f_equal.
    destruct (Z.ltb_spec 5 length); lia.
  - unfold special_payload. cbn [tl].
    repeat constructor;
      match goal with |- context [u8 ?z] => pose proof (u8_range z); lia end.
  - unfold payload_address, special_payload. cbn [nth]. unfold u8, u32.
    change 255 with (Z.ones 8). rewrite !Z.land_ones by lia.
    rewrite !Z.shiftr_div_pow2 by lia.
    change (2 ^ 8) with 256. change (2 ^ 16) with 65536.
    change (2 ^ 24) with 16777216.
    rewrite !Z.mod_mod by lia.
    Z.div_mod_to_equations. lia.
Qed.

(** ** Discovery *)

Lemma select_altsetting_rule strings alts :
  forall selected d,
    select_altsetting strings alts selected = Some d ->
    (selected = Some d /\ Forall (fun a => is_dfu_interface a = false) alts)
    \/ exists pre alt post,
        alts = pre ++ alt :: post
        /\ is_dfu_interface alt = true
        /\ d = selected_device alt (alt_string strings alt)
        /\ Forall (fun a => is_dfu_interface a
                            && is_internal (alt_string strings a) = false) pre
        /\ (is_internal (alt_string strings alt) = true
            \/ Forall (fun a => is_dfu_interface a = false) post).
Proof.
  induction alts as [|alt rest IH]; intros selected d H; cbn [select_altsetting] in H.
  - left. split; [exact H|constructor].
  - destruct (is_dfu_interface alt) eqn:Hdfu; cbn [negb] in H.
    + cbv zeta in H.
      destruct (is_internal (alt_string strings alt)) eqn:Hint.
      * right. exists [], alt, rest. injection H as <-.
        repeat split; auto.
      * apply IH in H. destruct H as [[Hsel Hnone]|(pre & a & post & -> & H)].
        -- right. exists [], alt, rest. injection Hsel as <-.
           repeat split; auto.
        -- right. exists (alt :: pre), a, post.
           destruct H as (Ha & Hd & Hpre & Hpost).
           repeat split; auto.
           constructor; [now rewrite Hdfu, Hint|exact Hpre].
    + apply IH in H. destruct H as [[Hsel Hnone]|(pre & a & post & -> & H)].
      * left. split; [exact Hsel|]. constructor; assumption.
      * right. exists (alt :: pre), a, post.
        destruct H as (Ha & Hd & Hpre & Hpost).
        repeat split; auto.
        constructor; [now rewrite Hdfu|exact Hpre].
Qed.

Lemma select_altsetting_none strings alts :
  select_altsetting strings alts None = None
  <-> Forall (fun a => is_dfu_interface a = false) alts.
Proof.
  split.
  - induction alts as [|alt rest IH]; [constructor|].
    cbn [select_altsetting]. destruct (is_dfu_interface alt) eqn:Hdfu; cbn [negb].
    + cbv zeta. destruct (is_internal (alt_string strings alt)); [discriminate|].
      intros H. exfalso.
      destruct (select_altsetting strings rest
                  (Some (selected_device alt (alt_string strings alt))))
        as [d|] eqn:E; [discriminate H|].
      clear H IH. revert E.
      generalize (selected_device alt (alt_string strings alt)).
      induction rest as [|a rest IH]; intros s; cbn [select_altsetting];
        [discriminate|].
      destruct (negb (is_dfu_interface a)); [apply IH|]. cbv zeta.
      destruct (is_internal (alt_string strings a)); [discriminate|apply IH].
    + intros H. constructor; [exact Hdfu|now apply IH].
  - induction 1 as [|alt rest Ha _ IH]; [reflexivity|].
    cbn [select_altsetting]. now rewrite Ha.
Qed.

(** The alternate setting the loops choose. *)
Lemma select_interface_chosen strings interfaces :
  forall d,
    select_interface strings interfaces = Some d ->
    exists before pre alt post after,
      interfaces = before ++ (pre ++ alt :: post) :: after
      /\ Forall (Forall (fun a => is_dfu_interface a = false)) before
      /\ is_dfu_interface alt = true
      /\ d = selected_device alt (alt_string strings alt)
      /\ Forall (fun a => is_dfu_interface a
                          && is_internal (alt_string strings a) = false) pre
      /\ (is_internal (alt_string strings alt) = true
          \/ Forall (fun a => is_dfu_interface a = false) post).
Proof.
  induction interfaces as [|iface rest IH]; intros d H; cbn [select_interface] in H;
    [discriminate H|].
  destruct (select_altsetting strings iface None) as [s|] eqn:E.
  - injection H as ->.
    apply select_altsetting_rule in E.
    destruct E as [[E _]|(pre & alt & post & -> & Ha & Hd & Hpre & Hpost)];
      [discriminate E|].
    exists [], pre, alt, post, rest. repeat split; auto.
  - apply select_altsetting_none in E.
    destruct (IH d H) as (before & pre & alt & post & after & -> & Hb & Hrest).
    exists (iface :: before), pre, alt, post, after.
    split; [reflexivity|]. split; [constructor; assumption|exact Hrest].
Qed.

(** X4: [select_dfu_interface] looks only at the first interface that
    has a DFU alternate setting (class 0xFE, subclass 1, protocol 2) and
    selects there the first DFU alternate setting whose name contains
    Internal, or, when there is none, the last DFU alternate setting of
    that interface; it finds nothing exactly when no alternate setting of
    the configuration is a DFU one. *)
Theorem select_dfu_interface_rule strings interfaces :
  (forall d,
      select_dfu_interface (Some interfaces) strings = Some d ->
      exists before pre alt post after,
        interfaces = before ++ (pre ++ alt :: post) :: after
        /\ Forall (Forall (fun a => is_dfu_interface a = false)) before
        /\ is_dfu_interface alt = true
        /\ d = selected_device alt (alt_string strings alt)
        /\ Forall (fun a => is_dfu_interface a
                            && is_internal (alt_string strings a) = false) pre
        /\ (is_internal (alt_string strings alt) = true
            \/ Forall (fun a => is_dfu_interface a = false) post))
  /\ (select_dfu_interface (Some interfaces) strings = None
      <-> Forall (Forall (fun a => is_dfu_interface a = false)) interfaces).
Proof.
  cbn [select_dfu_interface]. split; [apply select_interface_chosen|].
  induction interfaces as [|iface rest IH]; cbn [select_interface].
  - split; [constructor|reflexivity].
  - destruct (select_altsetting strings iface None) as [s|] eqn:E.
    + split; [discriminate|]. intros H.
      apply Forall_inv in H. apply (select_altsetting_none strings) in H.
      rewrite H in E. discriminate E.
    + apply select_altsetting_none in E. rewrite IH. split.
      * intros H. constructor; assumption.
      * intros H. exact (Forall_inv_tail H).
Qed.

Lemma select_dfu_interface_rule_witness :
  exists before pre alt post after,
    bootloader_config = before ++ (pre ++ alt :: post) :: after
    /\ Forall (Forall (fun a => is_dfu_interface a = false)) before
    /\ is_dfu_interface alt = true
    /\ selected_device
         (mk_interface_descriptor 0 1 0xFE 1 2 5 (functional_descriptor 2048))
         "@Internal Flash  /0x08000000/16*001Kg"
       = selected_device alt (alt_string bootloader_strings alt)
    /\ Forall (fun a => is_dfu_interface a
                        && is_internal (alt_string bootloader_strings a) = false) pre
    /\ (is_internal (alt_string bootloader_strings alt) = true
        \/ Forall (fun a => is_dfu_interface a = false) post).
Proof.
  apply (proj1 (select_dfu_interface_rule bootloader_strings bootloader_config)).
  reflexivity.
Defined.

Lemma and_then_result errors actions tail :
  snd (and_then errors actions tail) = snd tail.
Proof. now destruct tail as [[e a] r]. Qed.

Lemma and_then_actions errors actions tail :
  snd (fst (and_then errors actions tail)) = actions ++ snd (fst tail).
Proof. now destruct tail as [[e a] r]. Qed.





Lemma open_handles_app actions actions' held :
  open_handles (actions ++ actions') held
  = open_handles actions' (open_handles actions held).
Proof.
  revert held. induction actions as [|a actions IH]; intros held; [reflexivity|].
  destruct a; cbn [app open_handles]; apply IH.
Qed.

Lemma claimed_interfaces_app actions actions' held :
  claimed_interfaces (actions ++ actions') held
  = claimed_interfaces actions' (claimed_interfaces actions held).
Proof.
  revert held. induction actions as [|a actions IH]; intros held; [reflexivity|].
  destruct a; cbn [app claimed_interfaces]; apply IH.
Qed.

Lemma last_app_cons {A} (l : list A) a tail d :
  last (l ++ a :: tail) d = last (a :: tail) d.
Proof.
  induction l as [|b l IH]; [reflexivity|].
  change ((b :: l) ++ a :: tail) with (b :: (l ++ a :: tail)).
  cbn [last]. destruct (l ++ a :: tail) eqn:E; [|exact IH].
  destruct l; discriminate E.
Qed.

Lemma remove_only i : remove Nat.eq_dec i [i] = [].
Proof. cbn [remove]. destruct (Nat.eq_dec i i); [reflexivity|contradiction]. Qed.

(** X6: [open_stm32_dfu_device_once] leaks nothing: when it returns, every
    handle it opened is closed again and every interface it claimed is
    released, except the handle and the interface of the one device it
    returns; when it returns no device, nothing is left open or
    claimed. *)
Theorem open_once_leaks_nothing bus :
  let actions := snd (fst (open_stm32_dfu_device_once bus)) in
  match snd (open_stm32_dfu_device_once bus) with
  | Some d =>
      exists i iface,
        open_handles actions [] = [i] /\ claimed_interfaces actions [] = [i]
        /\ last actions (UsbClosed i) = UsbClaimed i iface
        /\ iface = interface_number d
  | None => open_handles actions [] = [] /\ claimed_interfaces actions [] = []
  end.
Proof.
  cbv zeta. destruct bus as [count|devices]; cbn [open_stm32_dfu_device_once];
    [split; reflexivity|].
  generalize 0%nat.
  induction devices as [|dev rest IH]; intros i; [split; reflexivity|].
  cbn [open_devices]. cbv zeta. specialize (IH (S i)).
  destruct (usb_descriptor dev) as [[idVendor idProduct]|]; [|exact IH].
  destruct (negb (idVendor =? STM32_VENDOR_ID) || negb (idProduct =? STM32_PRODUCT_ID));
    [exact IH|].
  assert (Hskip : forall errors actions,
             open_handles actions [] = [] -> claimed_interfaces actions [] = [] ->
             (forall j iface, Some (last actions (UsbClosed j))
                              <> Some (UsbClaimed j iface)) ->
             match snd (and_then errors actions (open_devices rest (S i))) with
             | Some d =>
                 exists j iface,
                   open_handles
                     (snd (fst (and_then errors actions (open_devices rest (S i)))))
                     [] = [j]
                   /\ claimed_interfaces
                        (snd (fst (and_then errors actions
                                            (open_devices rest (S i))))) [] = [j]
                   /\ last (snd (fst (and_then errors actions
                                               (open_devices rest (S i)))))
                           (UsbClosed j) = UsbClaimed j iface
                   /\ iface = interface_number d
             | None =>
                 open_handles
                   (snd (fst (and_then errors actions (open_devices rest (S i)))))
                   [] = []
                 /\ claimed_interfaces
                      (snd (fst (and_then errors actions (open_devices rest (S i)))))
                      [] = []
             end).
  { intros errors actions Ho Hc Hl.
    rewrite and_then_result, and_then_actions.
    rewrite open_handles_app, claimed_interfaces_app, Ho, Hc.
    destruct (snd (open_devices rest (S i))) as [d|].
    - destruct IH as (j & iface & H1 & H2 & H3 & H4).
      exists j, iface. repeat split; try assumption.
      destruct (snd (fst (open_devices rest (S i)))) as [|a tail] eqn:E;
        [discriminate H1|].
      rewrite last_app_cons. exact H3.
    - exact IH. }
  destruct (negb (usb_open dev =? LIBUSB_SUCCESS)).
  { apply Hskip; [reflexivity|reflexivity|discriminate]. }
  destruct (select_dfu_interface (usb_config dev) (usb_strings dev)) as [device|].
  2:{ apply Hskip; cbn [open_handles claimed_interfaces last];
        [apply remove_only|reflexivity|discriminate]. }
  destruct (negb (usb_claim dev =? LIBUSB_SUCCESS)).
  { apply Hskip; cbn [open_handles claimed_interfaces last];
      [apply remove_only|reflexivity|discriminate]. }
  destruct (negb (usb_set_alt dev =? LIBUSB_SUCCESS)).
  { apply Hskip; cbn [open_handles claimed_interfaces last];
      [apply remove_only|apply remove_only|discriminate]. }
  cbn [snd fst]. exists i, (interface_number device).
  repeat split.
Qed.

(** ** Waiting for the device *)

Lemma sleeps_of_app tr evs : sleeps_of (tr ++ evs) = sleeps_of tr ++ sleeps_of evs.
Proof. apply flat_map_app. Qed.

Lemma controls_of_app tr evs :
  controls_of (tr ++ evs) = controls_of tr ++ controls_of evs.
Proof. apply flat_map_app. Qed.

Lemma status_events_silent evs :
  forallb is_status_event evs = true -> sleeps_of evs = [] /\ controls_of evs = [].
Proof.
  induction evs as [|e evs IH]; [split; reflexivity|].
  cbn [forallb]. intros H. apply andb_prop in H. destruct H as [He H].
  destruct e; try discriminate He. exact (IH H).
Qed.

Lemma notify_status_only cfg m : status_only (notify cfg m) tt (fun old => old).
Proof.
  intros w. unfold notify.
  destruct (arg_client cfg) as [c|]; [destruct (status_cb c)|].
  - eexists [_]. split; reflexivity.
  - exists []. rewrite app_nil_r. destruct w. split; reflexivity.
  - exists []. rewrite app_nil_r. destruct w. split; reflexivity.
Qed.

Lemma set_status_status_only cfg m :
  status_only (set_status cfg m) tt (status_after cfg m).
Proof.
  intros w. unfold set_status, status_after, bind.
  destruct (arg_status_buf cfg && (0 <? arg_status_len cfg)%nat).
  - destruct (notify_status_only cfg m
                (mk_world (w_calls w) (w_trace w)
                   (store (arg_status_len cfg) (Format.render m) (w_status w))))
      as (evs & E & Q).
    exists evs. split; [exact E|exact Q].
  - destruct (notify_status_only cfg m w) as (evs & E & Q).
    exists evs. split; [exact E|exact Q].
Qed.

Lemma report_errors_status_only cfg errors :
  forall last,
    status_only (report_errors cfg errors last) (last_error_of errors last)
                (fun old => old).
Proof.
  induction errors as [|m errors IH]; intros last w; cbn [report_errors].
  - exists []. rewrite app_nil_r. destruct w. split; reflexivity.
  - unfold bind. destruct (notify_status_only cfg m w) as (evs & -> & Q).
    destruct (IH (Format.truncate 160 (Format.render m))
                 (mk_world (w_calls w) (w_trace w ++ evs) (w_status w)))
      as (evs' & -> & Q').
    exists (evs ++ evs'). cbn [w_calls w_trace w_status]. rewrite app_assoc.
    split; [reflexivity|]. rewrite forallb_app, Q, Q'. reflexivity.
Qed.

Lemma last_error_of_app errors errors' last :
  last_error_of (errors ++ errors') last
  = last_error_of errors' (last_error_of errors last).
Proof. apply fold_left_app. Qed.

(** The loop of the wait: its result, its sleeps, and the message it ends
    with when no device was attached. *)
Lemma wait_attempts_run cfg env n :
  forall i last w,
  exists evs status,
    wait_attempts cfg env n i last w
    = Done (first_attached env n i)
           (mk_world (w_calls w) (w_trace w ++ evs) status)
    /\ sleeps_of evs = repeat 100 (failed_attempts env n i)
    /\ controls_of evs = []
    /\ (first_attached env n i = None ->
        failed_attempts env n i = n
        /\ status
           = status_after cfg
               (timeout_message (last_error_of (attempt_errors env n i) last))
               (w_status w)).
Proof.
  induction n as [|n IH]; intros i last w;
    cbn [wait_attempts first_attached failed_attempts attempt_errors].
  - unfold bind.
    assert (Hs : exists evs,
               (if arg_status_buf cfg && (0 <? arg_status_len cfg)%nat
                then if negb (at_char last "") then set_status cfg (MsgText last)
                     else set_status cfg MsgNotFound
                else ret tt) w
               = Done tt (mk_world (w_calls w) (w_trace w ++ evs)
                                   (status_after cfg (timeout_message last)
                                                 (w_status w)))
               /\ forallb is_status_event evs = true).
    { unfold timeout_message.
      destruct (arg_status_buf cfg && (0 <? arg_status_len cfg)%nat) eqn:Hb.
      - destruct (negb (at_char last "")); apply set_status_status_only.
      - exists []. rewrite app_nil_r. unfold status_after. rewrite Hb.
        destruct (negb (at_char last "")); destruct w; split; reflexivity. }
    destruct Hs as (evs & -> & Q). destruct (status_events_silent _ Q) as [Q1 Q2].
    exists evs. eexists. split; [reflexivity|].
    split; [exact Q1|]. split; [exact Q2|]. intros _. split; reflexivity.
  - destruct (env_attempts env i) as [errors iface alt bytes name|errors].
    + unfold bind.
      destruct (report_errors_status_only cfg errors last w) as (evs & -> & Q).
      assert (Hs : exists evs' status,
                 (if arg_status_buf cfg && (0 <? arg_status_len cfg)%nat
                  then if negb (at_char (alt_name (opened_device iface alt bytes name)) "")
                       then set_status cfg
                              (MsgUsing (alt_setting (opened_device iface alt bytes name))
                                        (alt_name (opened_device iface alt bytes name)))
                       else set_status cfg
                              (MsgUsingUnnamed
                                 (alt_setting (opened_device iface alt bytes name)))
                  else ret tt)
                   (mk_world (w_calls w) (w_trace w ++ evs) (w_status w))
                 = Done tt (mk_world (w_calls w) ((w_trace w ++ evs) ++ evs') status)
                 /\ forallb is_status_event evs' = true).
      { destruct (arg_status_buf cfg && (0 <? arg_status_len cfg)%nat).
        - destruct (negb (at_char _ ""));
            match goal with
            | |- context [set_status cfg ?m ?w0] =>
                destruct (set_status_status_only cfg m w0) as (evs' & E & Q')
            end; exists evs'; eexists; split; [exact E|exact Q'|exact E|exact Q'].
        - exists []. eexists. rewrite app_nil_r. split; reflexivity. }
      cbv zeta. destruct Hs as (evs' & status & -> & Q').
      exists (evs ++ evs'), status. rewrite app_assoc.
      destruct (status_events_silent _ Q) as [Q1 Q2].
      destruct (status_events_silent _ Q') as [Q1' Q2'].
      split; [reflexivity|].
      rewrite sleeps_of_app, controls_of_app, Q1, Q2, Q1', Q2'.
      split; [reflexivity|]. split; [reflexivity|discriminate].
    + unfold bind.
      destruct (report_errors_status_only cfg errors last w) as (evs & -> & Q).
      unfold Sleep, emit. cbn [w_calls w_trace w_status].
      destruct (IH (S i) (last_error_of errors last)
                   (mk_world (w_calls w) ((w_trace w ++ evs) ++ [EvSleep 100])
                             (w_status w)))
        as (evs' & status & -> & S1 & S2 & S3).
      cbn [w_calls w_trace w_status].
      exists (evs ++ EvSleep 100 :: evs'), status.
      destruct (status_events_silent _ Q) as [Q1 Q2].
      split; [now rewrite <- !app_assoc|].
      change (EvSleep 100 :: evs') with ([EvSleep 100] ++ evs').
      rewrite !sleeps_of_app, !controls_of_app, Q1, Q2, S1, S2.
      split; [reflexivity|]. split; [reflexivity|].
      intros Hnone. destruct (S3 Hnone) as [Hn Hst].
      split; [now rewrite Hn|]. now rewrite last_error_of_app.
Qed.

(** The counter of the wait does not wrap for a timeout below
    4294967200: the loop ends after [timeout_ms / 100 + 1] rounds. *)
Lemma wait_rounds_steps timeout_ms :
  0 <= timeout_ms < 4294967200 ->
  forall r fuel j,
    0 <= j -> Z.of_nat r = timeout_ms / 100 + 1 - j -> (r < fuel)%nat ->
    wait_rounds fuel timeout_ms (100 * j) = Some r.
Proof.
  intros Ht.
  pose proof (Z.div_mod timeout_ms 100 ltac:(lia)) as Hdm.
  pose proof (Z.mod_pos_bound timeout_ms 100 ltac:(lia)) as Hm.
  induction r as [|r IH]; intros fuel j Hj Hr Hf;
    (destruct fuel as [|fuel]; [lia|]); cbn [wait_rounds].
  - destruct (Z.leb_spec (100 * j) timeout_ms); [lia|reflexivity].
  - destruct (Z.leb_spec (100 * j) timeout_ms); [|lia].
    replace (u32 (100 * j + 100)) with (100 * (j + 1))
      by (unfold u32; rewrite Z.mod_small; lia).
    rewrite (IH fuel (j + 1)) by lia. reflexivity.
Qed.

(** For the four largest values of a DWORD the counter, a multiple of 4,
    never passes the timeout: the loop ends only when a device is
    attached. *)
Lemma wait_rounds_wraps timeout_ms :
  4294967292 <= timeout_ms ->
  forall fuel elapsed,
    0 <= elapsed < 4294967296 -> elapsed mod 4 = 0 ->
    wait_rounds fuel timeout_ms elapsed = None.
Proof.
  intros Ht. induction fuel as [|fuel IH]; intros elapsed He H4; [reflexivity|].
  cbn [wait_rounds].
  pose proof (Z.div_mod elapsed 4 ltac:(lia)) as Hdm. rewrite H4 in Hdm.
  destruct (Z.leb_spec elapsed timeout_ms); [|lia].
  rewrite IH; [reflexivity| |].
  - unfold u32. pose proof (Z.mod_pos_bound (elapsed + 100) 4294967296). lia.
  - unfold u32.
    pose proof (Z.div_mod (elapsed + 100) 4294967296 ltac:(lia)) as Hw.
    replace ((elapsed + 100) mod 4294967296)
      with ((elapsed / 4 + 25 - 1073741824 * ((elapsed + 100) / 4294967296)) * 4)
      by lia.
    apply Z.mod_mul. lia.
Qed.

(** X7: for a timeout below 4294967200 ms, where its DWORD counter does
    not wrap, [wait_for_stm32_dfu_device] makes timeout/100 + 1 attempts,
    100 ms apart: it returns the device of the first attempt that
    attaches one, having slept 100 ms for each failed attempt before it,
    and gives up only after all attempts have failed, having slept
    100 * (timeout/100 + 1) ms, which is more than the timeout. *)
Theorem wait_for_device_attempts cfg env timeout_ms w :
  let n := Z.to_nat (timeout_ms / 100 + 1) in
  0 <= timeout_ms < 4294967200 ->
  wait_rounds (S n) timeout_ms 0 = Some n
  /\ exists w',
      wait_for_stm32_dfu_device cfg env timeout_ms w
      = Done (first_attached env n 0) w'
      /\ sleeps_of (w_trace w')
         = sleeps_of (w_trace w) ++ repeat 100 (failed_attempts env n 0)
      /\ (first_attached env n 0 = None ->
          failed_attempts env n 0 = n
          /\ timeout_ms < 100 * Z.of_nat n <= timeout_ms + 100).
Proof.
  cbv zeta. intros Ht.
  assert (0 <= timeout_ms / 100) by (apply Z.div_pos; lia).
  split.
  { apply (wait_rounds_steps timeout_ms Ht _ _ 0); lia. }
  unfold wait_for_stm32_dfu_device.
  destruct (wait_attempts_run cfg env (Z.to_nat (timeout_ms / 100 + 1)) 0 "" w)
    as (evs & status & E & S1 & _ & S3).
  eexists. split; [exact E|]. cbn [w_trace].
  rewrite sleeps_of_app, S1.
  split; [reflexivity|].
  intros Hnone. split; [exact (proj1 (S3 Hnone))|].
  rewrite Z2Nat.id by lia.
  pose proof (Z.div_mod timeout_ms 100 ltac:(lia)).
  pose proof (Z.mod_pos_bound timeout_ms 100 ltac:(lia)). lia.
Qed.

Lemma wait_for_device_attempts_witness :
  wait_rounds 102 10000 0 = Some 101%nat
  /\ exists w',
      wait_for_stm32_dfu_device no_caller late_environment 10000 (initial_world [])
      = Done (first_attached late_environment 101 0) w'
      /\ sleeps_of (w_trace w') = [100; 100].
Proof.
  destruct (wait_for_device_attempts no_caller late_environment 10000
              (initial_world []) ltac:(lia))
    as (Hrounds & w' & E & S1 & _).
  split; [exact Hrounds|].
  exists w'. split; [exact E|exact S1].
Defined.

(** X8: for a timeout below 4294967200 ms, where the DWORD counter of
    the wait does not wrap: when no attempt attaches a device, the
    message [wait_for_stm32_dfu_device] leaves in the status buffer is
    the last error any of its attempts reported, as [last_error] is not
    cleared between the attempts, and the message that no device with
    VID 0483 and PID DF11 was found only when no attempt reported an
    error. *)
Theorem wait_for_device_message cfg env timeout_ms w :
  let n := Z.to_nat (timeout_ms / 100 + 1) in
  0 <= timeout_ms < 4294967200 ->
  first_attached env n 0 = None ->
  exists w',
    wait_for_stm32_dfu_device cfg env timeout_ms w = Done None w'
    /\ w_status w'
       = status_after cfg
           (timeout_message (last_error_of (attempt_errors env n 0) ""))
           (w_status w)
    /\ (attempt_errors env n 0 = [] ->
        timeout_message (last_error_of (attempt_errors env n 0) "") = MsgNotFound)
    /\ (forall m, attempt_errors env n 0 <> [] ->
                  last (attempt_errors env n 0) MsgNotFound = m ->
                  hd Ascii.zero (list_ascii_of_string (Format.render m)) <> Ascii.zero ->
                  Format.render
                    (timeout_message (last_error_of (attempt_errors env n 0) ""))
                  = Format.truncate 160 (Format.render m)).
Proof.
  cbv zeta. intros _ Hnone. unfold wait_for_stm32_dfu_device.
  destruct (wait_attempts_run cfg env (Z.to_nat (timeout_ms / 100 + 1)) 0 "" w)
    as (evs & status & E & _ & _ & S3).
  rewrite Hnone in E. eexists. split; [exact E|]. cbn [w_status].
  split; [exact (proj2 (S3 Hnone))|]. split.
  - intros ->. reflexivity.
  - intros m Hne Hlast Hhd.
    destruct (exists_last Hne) as (front & m' & Hsplit).
    rewrite Hsplit in Hlast |- *. rewrite last_last in Hlast. subst m'.
    unfold last_error_of. rewrite fold_left_app. cbn [fold_left].
    unfold timeout_message.
    assert (Hat : at_char (Format.truncate 160 (Format.render m)) "" = false).
    { unfold at_char, cur, Format.truncate.
      destruct (Format.render m) as [|c text]; [now elim Hhd|].
      cbn [list_ascii_of_string hd] in Hhd. cbn [Nat.sub substring].
      now apply Ascii.eqb_neq. }
    rewrite Hat. reflexivity.
Qed.

Lemma wait_for_device_message_witness :
  exists w',
    wait_for_stm32_dfu_device (plain_caller 64) empty_environment 10000
                              (initial_world (repeat "x"%char 64))
    = Done None w'
    /\ w_status w'
       = status_after (plain_caller 64)
           (timeout_message
              (last_error_of (attempt_errors empty_environment 101 0) ""))
           (repeat "x"%char 64)
    /\ Format.render
         (timeout_message
            (last_error_of (attempt_errors empty_environment 101 0) ""))
       = "Error: cannot open DFU device (LIBUSB_ERROR_ACCESS)"%string.
Proof.
  destruct (wait_for_device_message (plain_caller 64) empty_environment 10000
              (initial_world (repeat "x"%char 64)) ltac:(lia) eq_refl)
    as (w' & E & Hs & _ & Hm).
  change (Z.to_nat (10000 / 100 + 1)) with 101%nat in Hs, Hm.
  exists w'. split; [exact E|]. split; [exact Hs|].
  rewrite (Hm (MsgCannotOpen (-3))); [reflexivity|discriminate|reflexivity|].
  cbn. discriminate.
Defined.

Lemma legacy_wait_attempts_run cfg env n :
  forall i last w,
    legacy_all_absent env n i = true ->
    Legacy.wait_attempts cfg env n i last w
    = Done None
           (mk_world (w_calls w) (w_trace w ++ repeat (EvSleep 100) n)
                     (legacy_status_after cfg
                        (legacy_timeout_message (legacy_last_error env n i last))
                        (w_status w))).
Proof.
  induction n as [|n IH]; intros i last w Habsent;
    cbn [Legacy.wait_attempts legacy_all_absent] in *.
  - unfold bind, legacy_status_after, legacy_timeout_message, Legacy.set_status.
    cbn [legacy_last_error repeat]. rewrite app_nil_r.
    destruct (arg_status_buf cfg && (0 <? arg_status_len cfg)%nat) eqn:Hb.
    + destruct (negb (at_char last "")); rewrite ?Hb; reflexivity.
    + destruct w. reflexivity.
  - destruct (Legacy.env_attempts env i) as [iface alt bytes name|error] eqn:Ei;
      [discriminate Habsent|].
    unfold bind at 1. unfold Sleep, emit.
    rewrite (IH (S i) _ _ Habsent). cbn [w_calls w_trace w_status].
    rewrite <- app_assoc. change ([EvSleep 100] ++ repeat (EvSleep 100) n)
      with (repeat (EvSleep 100) (S n)).
    f_equal. f_equal. f_equal. f_equal.
    destruct n as [|n]; cbn [legacy_last_error].
    + rewrite Nat.add_0_r, Ei. now destruct error.
    + replace (S i + n)%nat with (i + S n)%nat by lia. reflexivity.
Qed.

(** X9: in the earlier loader [wait_for_stm32_dfu_device] clears
    [last_error] before every attempt: for a timeout below 4294967200 ms,
    where its DWORD counter does not wrap, when no attempt attaches a
    device the message it leaves is the error of the last attempt alone,
    and the message that no device was found when that attempt reported
    none, whatever the attempts before it reported. *)
Theorem legacy_wait_for_device_message cfg env timeout_ms w :
  let n := Z.to_nat (timeout_ms / 100 + 1) in
  0 <= timeout_ms < 4294967200 ->
  legacy_all_absent env n 0 = true ->
  exists w',
    Legacy.wait_for_stm32_dfu_device cfg env timeout_ms w = Done None w'
    /\ w_status w'
       = legacy_status_after cfg
           (match Legacy.env_attempts env (n - 1) with
            | Legacy.Absent (Some m) =>
                legacy_timeout_message (Format.truncate 160 (Legacy.render m))
            | _ => Legacy.MsgNotFound
            end)
           (w_status w)
    /\ w_trace w' = w_trace w ++ repeat (EvSleep 100) n.
Proof.
  cbv zeta. intros Hpos Habsent. unfold Legacy.wait_for_stm32_dfu_device.
  rewrite (legacy_wait_attempts_run cfg env _ 0 "" w Habsent).
  eexists. split; [reflexivity|]. cbn [w_status w_trace]. split; [|reflexivity].
  assert (0 <= timeout_ms / 100) by (apply Z.div_pos; lia).
  destruct (Z.to_nat (timeout_ms / 100 + 1)) as [|n] eqn:En; [lia|].
  cbn [legacy_last_error]. replace (S n - 1)%nat with n by lia. cbn [Nat.add].
  destruct (Legacy.env_attempts env n) as [iface alt bytes name|[m|]];
    reflexivity.
Qed.

Lemma legacy_wait_for_device_message_witness :
  exists w',
    Legacy.wait_for_stm32_dfu_device (plain_caller 64) legacy_empty_environment
                                     10000 (initial_world (repeat "x"%char 64))
    = Done None w'
    /\ w_status w'
       = legacy_status_after (plain_caller 64) Legacy.MsgNotFound
                             (repeat "x"%char 64)
    /\ w_trace w' = repeat (EvSleep 100) 101.
Proof.
  destruct (legacy_wait_for_device_message (plain_caller 64)
              legacy_empty_environment 10000
              (initial_world (repeat "x"%char 64)) ltac:(lia) eq_refl)
    as (w' & E & Hs & Ht).
  exists w'. split; [exact E|]. split; [exact Hs|exact Ht].
Defined.

(** ** Runs that send no request *)

Lemma local_only_ret {A} (a : A) : local_only (ret a) a.
Proof.
  intros w. exists [], (w_status w). rewrite app_nil_r. destruct w.
  split; reflexivity.
Qed.

Lemma local_only_bind {A B} (m : M A) (k : A -> M B) a b :
  local_only m a -> local_only (k a) b -> local_only (bind m k) b.
Proof.
  intros Hm Hk w. unfold bind.
  destruct (Hm w) as (evs & status & -> & Q).
  destruct (Hk (mk_world (w_calls w) (w_trace w ++ evs) status))
    as (evs' & status' & -> & Q').
  exists (evs ++ evs'), status'. cbn [w_calls w_trace]. rewrite app_assoc.
  split; [reflexivity|]. now rewrite forallb_app, Q, Q'.
Qed.

Lemma local_only_emit e : is_local e = true -> local_only (emit e) tt.
Proof.
  intros H w. exists [e], (w_status w). split; [reflexivity|].
  cbn [forallb]. now rewrite H.
Qed.

Lemma local_only_status {A} (m : M A) a after :
  status_only m a after -> local_only m a.
Proof.
  intros H w. destruct (H w) as (evs & E & Q).
  exists evs, (after (w_status w)). split; [exact E|].
  clear E. induction evs as [|e evs IH]; [reflexivity|].
  cbn [forallb] in *. apply andb_prop in Q. destruct Q as [He Q].
  rewrite (IH Q). destruct e; try discriminate He. reflexivity.
Qed.

Lemma local_only_set_status cfg m : local_only (set_status cfg m) tt.
Proof. exact (local_only_status _ _ _ (set_status_status_only cfg m)). Qed.

Lemma local_only_report_progress cfg percent :
  local_only (report_progress cfg percent) tt.
Proof.
  unfold report_progress.
  destruct (arg_client cfg) as [c|]; [destruct (progress_cb c)|];
    try destruct (arg_progress_cb cfg);
    first [apply local_only_emit; reflexivity|apply local_only_ret].
Qed.

Lemma local_only_load cfg env :
  local_only (load_firmware_file cfg env) (loaded_image cfg env).
Proof.
  unfold load_firmware_file, loaded_image.
  destruct (arg_path cfg); cbn [negb].
  2:{ eapply local_only_bind; [apply local_only_set_status|apply local_only_ret]. }
  destruct (env_file env) as [| |size alloc bytes];
    try (eapply local_only_bind; [apply local_only_set_status|apply local_only_ret]).
  destruct (Z.leb_spec size 0) as [Hle|Hgt], (Z.ltb_spec 0 size) as [Hlt|Hge];
    try lia; cbn [andb];
    try (eapply local_only_bind; [apply local_only_set_status|apply local_only_ret]).
  destruct alloc; cbn [negb andb];
    try (eapply local_only_bind; [apply local_only_set_status|apply local_only_ret]).
  destruct (Z.of_nat (List.length bytes) =? size); cbn [negb];
    [apply local_only_ret
    |eapply local_only_bind; [apply local_only_set_status|apply local_only_ret]].
Qed.

Lemma local_only_wait cfg env timeout_ms :
  local_only (wait_for_stm32_dfu_device cfg env timeout_ms)
             (first_attached env (Z.to_nat (timeout_ms / 100 + 1)) 0).
Proof.
  unfold wait_for_stm32_dfu_device. generalize (Z.to_nat (timeout_ms / 100 + 1)).
  generalize 0%nat. generalize ""%string. intros last i n. revert i last.
  induction n as [|n IH]; intros i last; cbn [wait_attempts first_attached].
  - eapply local_only_bind; [|apply local_only_ret].
    destruct (arg_status_buf cfg && (0 <? arg_status_len cfg)%nat);
      [|apply local_only_ret].
    destruct (negb (at_char last "")); apply local_only_set_status.
  - destruct (env_attempts env i) as [errors iface alt bytes name|errors].
    + eapply local_only_bind;
        [exact (local_only_status _ _ _ (report_errors_status_only cfg errors last))|].
      cbv zeta. eapply local_only_bind; [|apply local_only_ret].
      destruct (arg_status_buf cfg && (0 <? arg_status_len cfg)%nat);
        [|apply local_only_ret].
      destruct (negb (at_char _ "")); apply local_only_set_status.
    + eapply local_only_bind;
        [exact (local_only_status _ _ _ (report_errors_status_only cfg errors last))|].
      eapply local_only_bind; [apply local_only_emit; reflexivity|].
      apply IH.
Qed.

Lemma local_only_cleanup cfg :
  local_only (cleanup cfg false zero_device) false.
Proof.
  unfold cleanup.
  eapply local_only_bind; [apply local_only_ret|].
  eapply local_only_bind; [apply local_only_ret|].
  eapply local_only_bind; [|apply local_only_ret].
  intros w. cbv beta.
  match goal with |- context [if ?b then _ else _] => destruct b end.
  - apply local_only_set_status.
  - apply (local_only_ret tt).
Qed.

(** X10: when the firmware file cannot be loaded, when libusb cannot be
    initialised, or when no device is attached within the wait,
    [dfu_loader_flash] returns false without having sent a DFU request:
    it has made no call of [libusb_control_transfer], and
    [release_device] has found no handle to release; besides the
    attempts of [open_stm32_dfu_device_once] to find a device, which the
    trace does not hold, all it did was to report progress and status
    and, while waiting, to sleep. *)
Theorem flash_without_device fuel cfg env w :
  loaded_image cfg env = None \/ env_usb_init env <> LIBUSB_SUCCESS
  \/ attached_device env = None ->
  exists evs status,
    dfu_loader_flash fuel cfg env w
    = Done false (mk_world (w_calls w) (w_trace w ++ evs) status)
    /\ forallb is_local evs = true
    /\ controls_of evs = [].
Proof.
  intros H.
  assert (Hrun : local_only (dfu_loader_flash fuel cfg env) false).
  { unfold dfu_loader_flash, flash_steps.
    eapply local_only_bind with (a := (false, zero_device));
      [|apply local_only_cleanup].
    eapply local_only_bind; [apply local_only_report_progress|].
    eapply local_only_bind; [apply local_only_set_status|].
    unfold flash_body.
    assert (Hprep : exists image,
               local_only (flash_prepare fuel cfg env) (false, zero_device, image)).
    { unfold flash_prepare.
      destruct (loaded_image cfg env) as [image|] eqn:Himage.
      - exists image.
        eapply local_only_bind; [apply local_only_load|]. rewrite Himage.
        eapply local_only_bind; [apply local_only_set_status|].
        destruct (Z.eqb_spec (env_usb_init env) LIBUSB_SUCCESS) as [Hinit|Hinit];
          cbn [negb].
        + eapply local_only_bind; [apply local_only_set_status|].
          eapply local_only_bind; [apply local_only_wait|].
          destruct H as [H|[H|H]]; [discriminate H|contradiction|].
          unfold attached_device in H.
          change (Z.to_nat (10000 / 100 + 1)) with 101%nat. rewrite H.
          apply local_only_ret.
        + eapply local_only_bind; [apply local_only_set_status|].
          apply local_only_ret.
      - exists ([], 0).
        eapply local_only_bind; [apply local_only_load|]. rewrite Himage.
        apply local_only_ret. }
    destruct Hprep as [[firmware firmware_len] Hprep].
    eapply local_only_bind; [exact Hprep|]. cbn [negb]. apply local_only_ret. }
  destruct (Hrun w) as (evs & status & E & Q).
  exists evs, status. split; [exact E|]. split; [exact Q|].
  clear E. induction evs as [|e evs IH]; [reflexivity|].
  cbn [forallb] in Q. apply andb_prop in Q. destruct Q as [He Q].
  change (e :: evs) with ([e] ++ evs). rewrite controls_of_app, (IH Q).
  destruct e; try reflexivity. discriminate He.
Qed.

Lemma flash_without_device_witness :
  exists evs status,
    dfu_loader_flash 4 (plain_caller 64) empty_environment
                     (initial_world (repeat "x"%char 64))
    = Done false (mk_world 0 ([] ++ evs) status)
    /\ forallb is_local evs = true
    /\ controls_of evs = [].
Proof.
  apply (flash_without_device 4 (plain_caller 64) empty_environment
           (initial_world (repeat "x"%char 64))).
  left. reflexivity.
Defined.

(** ** Before the label cleanup *)

(** A class of events that holds every control transfer, sleep, status
    and progress report holds every event of the loader before the label
    [cleanup]: only [release_device] adds an event of another kind. *)
Section Steps.

Variable p : event -> bool.
Hypothesis p_control : forall rq, p (EvControl rq) = true.
Hypothesis p_sleep : forall ms, p (EvSleep ms) = true.
Hypothesis p_status : forall text, p (EvStatus text) = true.
Hypothesis p_progress : forall percent, p (EvProgress percent) = true.

Lemma steps_emit_control env rq : keeps (only p) (libusb_control_transfer env rq).
Proof. apply only_control, p_control. Qed.

Lemma steps_notify cfg m : keeps (only p) (notify cfg m).
Proof.
  unfold notify. destruct (arg_client cfg) as [c|]; [destruct (status_cb c)|];
    try apply only_ret. apply only_emit, p_status.
Qed.

Lemma steps_set_status cfg m : keeps (only p) (set_status cfg m).
Proof.
  unfold set_status. apply only_bind; [|intros; apply steps_notify].
  intros w. cbv beta.
  destruct (arg_status_buf cfg && (0 <? arg_status_len cfg)%nat); simpl;
    [exists []; now rewrite app_nil_r|apply only_refl].
Qed.

Lemma steps_Sleep ms : keeps (only p) (Sleep ms).
Proof. apply only_emit, p_sleep. Qed.

Lemma steps_report_progress cfg percent :
  keeps (only p) (report_progress cfg percent).
Proof.
  unfold report_progress.
  destruct (arg_client cfg) as [c|]; [destruct (progress_cb c)|];
    try destruct (arg_progress_cb cfg);
    first [apply only_emit, p_progress|apply only_ret].
Qed.

#[local] Hint Resolve steps_emit_control steps_notify steps_set_status steps_Sleep
  steps_report_progress : frame.

Lemma steps_load cfg env : keeps (only p) (load_firmware_file cfg env).
Proof. unfold load_firmware_file. frame. Qed.

Lemma steps_report_errors cfg errors last :
  keeps (only p) (report_errors cfg errors last).
Proof. revert last. induction errors; intros last; simpl; frame. Qed.

#[local] Hint Resolve steps_load steps_report_errors : frame.

Lemma steps_wait_attempts cfg env n i last :
  keeps (only p) (wait_attempts cfg env n i last).
Proof. revert i last. induction n; intros i last; simpl; frame. Qed.

Lemma steps_get_status env d : keeps (only p) (dfu_get_status env d).
Proof. unfold dfu_get_status. frame. Qed.

Lemma steps_clear_status env d : keeps (only p) (dfu_clear_status env d).
Proof. unfold dfu_clear_status. frame. Qed.

Lemma steps_abort env d : keeps (only p) (dfu_abort env d).
Proof. unfold dfu_abort. frame. Qed.

#[local] Hint Resolve steps_wait_attempts steps_get_status steps_clear_status
  steps_abort : frame.

Lemma steps_wait_ready fuel cfg env d allow :
  keeps (only p) (dfu_wait_ready fuel cfg env d allow).
Proof. induction fuel; cbn [dfu_wait_ready]; frame. Qed.

#[local] Hint Resolve steps_wait_ready : frame.

Lemma steps_prepare_idle fuel cfg env d :
  keeps (only p) (dfu_prepare_idle fuel cfg env d).
Proof. unfold dfu_prepare_idle. frame. Qed.

Lemma steps_download_block fuel cfg env d block data len allow :
  keeps (only p) (dfu_download_block fuel cfg env d block data len allow).
Proof. unfold dfu_download_block. frame. Qed.

#[local] Hint Resolve steps_prepare_idle steps_download_block : frame.

Lemma steps_special_command fuel cfg env d command address len allow :
  keeps (only p)
        (dfu_send_special_command fuel cfg env d command address len allow).
Proof. unfold dfu_send_special_command. frame. Qed.

#[local] Hint Resolve steps_special_command : frame.

Lemma steps_erase_pages n fuel cfg env segment end_ :
  forall d page_base,
    keeps (only p) (erase_pages n fuel cfg env d segment page_base end_).
Proof. induction n; intros d page_base; cbn [erase_pages]; frame. Qed.

#[local] Hint Resolve steps_erase_pages : frame.

Lemma steps_erase_segments n fuel cfg env end_ :
  forall d start, keeps (only p) (erase_segments n fuel cfg env d start end_).
Proof. induction n; intros d start; cbn [erase_segments]; frame. Qed.

#[local] Hint Resolve steps_erase_segments : frame.

Lemma steps_erase_range fuel cfg env d address len :
  keeps (only p) (dfu_erase_range fuel cfg env d address len).
Proof. unfold dfu_erase_range. frame. Qed.

Lemma steps_set_address_pointer fuel cfg env d address :
  keeps (only p) (dfu_set_address_pointer fuel cfg env d address).
Proof. apply steps_special_command. Qed.

Lemma steps_mass_erase fuel cfg env d : keeps (only p) (dfu_mass_erase fuel cfg env d).
Proof. apply steps_special_command. Qed.

#[local] Hint Resolve steps_erase_range steps_set_address_pointer
  steps_mass_erase : frame.

Lemma steps_write_chunk fuel cfg env d firmware firmware_len written :
  keeps (only p) (write_chunk fuel cfg env d firmware firmware_len written).
Proof. unfold write_chunk. frame. Qed.

#[local] Hint Resolve steps_write_chunk : frame.

Lemma steps_write_loop n fuel cfg env firmware firmware_len :
  forall d written,
    keeps (only p) (write_loop n fuel cfg env d firmware firmware_len written).
Proof. induction n; intros d written; cbn [write_loop]; frame. Qed.

Lemma steps_choose_erase fuel cfg env d :
  keeps (only p) (choose_erase fuel cfg env d).
Proof. unfold choose_erase. frame. Qed.

#[local] Hint Resolve steps_write_loop steps_choose_erase : frame.

Lemma steps_flash_prepare fuel cfg env : keeps (only p) (flash_prepare fuel cfg env).
Proof. unfold flash_prepare, wait_for_stm32_dfu_device. frame. Qed.

Lemma steps_flash_finish fuel cfg env d :
  keeps (only p) (flash_finish fuel cfg env d).
Proof. unfold flash_finish. frame. Qed.

#[local] Hint Resolve steps_flash_prepare steps_flash_finish : frame.

Lemma steps_flash_steps fuel cfg env : keeps (only p) (flash_steps fuel cfg env).
Proof. unfold flash_steps, flash_body. frame. Qed.

End Steps.

(** ** The release of the device *)

Lemma returns_ret {A} (a : A) (F : A -> Prop) : F a -> returns (ret a) F.
Proof. intros H w b w' E. apply ret_inv in E. now destruct E as [<- _]. Qed.

Lemma returns_any {A} (m : M A) : returns m (fun _ => True).
Proof. intros w a w' _. exact I. Qed.

Lemma returns_bind {A B} (m : M A) (k : A -> M B) (F : A -> Prop) (G : B -> Prop) :
  returns m F -> (forall a, F a -> returns (k a) G) -> returns (bind m k) G.
Proof.
  intros Hm Hk w b w' E. apply bind_inv in E. destruct E as (a & w1 & E1 & E2).
  exact (Hk a (Hm _ _ _ E1) _ _ _ E2).
Qed.

Lemma returns_then {A B} (m : M A) (k : A -> M B) (G : B -> Prop) :
  (forall a, returns (k a) G) -> returns (bind m k) G.
Proof. intros Hk. apply (returns_bind m k (fun _ => True)); auto using returns_any. Qed.

Lemma returns_choose_erase fuel cfg env d :
  returns (choose_erase fuel cfg env d)
          (fun r => handle (snd r) = handle d
                    /\ interface_number (snd r) = interface_number d).
Proof.
  unfold choose_erase. destruct (layout_valid d).
  - apply returns_ret. split; reflexivity.
  - apply returns_then. intros _. apply returns_then. intros _.
    apply returns_then. intros ok. destruct ok; cbn [negb].
    + apply returns_then. intros ok. destruct ok; cbn [negb];
        apply returns_ret; split; reflexivity.
    + apply returns_ret. split; reflexivity.
Qed.

Lemma opened_device_handle iface alt bytes name :
  handle (opened_device iface alt bytes name) = true.
Proof. reflexivity. Qed.

Lemma attached_device_handle env d : attached_device env = Some d -> handle d = true.
Proof.
  intros H. apply first_attached_opened in H.
  destruct H as (iface & alt & bytes & name & ->). reflexivity.
Qed.

(** The device structure [flash_prepare] hands on. *)
Lemma returns_flash_prepare fuel cfg env :
  returns (flash_prepare fuel cfg env)
          (fun r => held_at_cleanup cfg env (snd (fst r))).
Proof.
  unfold flash_prepare, held_at_cleanup, session_started.
  apply (returns_bind _ _ (fun r => r = loaded_image cfg env)).
  { intros w r w' E. exact (load_firmware_file_inv _ _ _ _ _ E). }
  intros loaded ->. destruct (loaded_image cfg env) as [image|];
    [|apply returns_ret; reflexivity].
  apply returns_then. intros _.
  destruct (env_usb_init env =? LIBUSB_SUCCESS); cbn [negb].
  2:{ apply returns_then. intros _. apply returns_ret. reflexivity. }
  apply returns_then. intros _.
  apply (returns_bind _ _ (fun r => r = attached_device env)).
  { intros w r w' E. unfold wait_for_stm32_dfu_device in E.
    exact (wait_attempts_inv _ _ _ _ _ _ _ _ E). }
  intros found ->. destruct (attached_device env) as [d0|] eqn:Hdev;
    [|apply returns_ret; reflexivity].
  pose proof (attached_device_handle _ _ Hdev) as Hh.
  apply returns_then. intros _. apply returns_then.
  intros ok. destruct ok; cbn [negb]; [|apply returns_ret; split; auto].
  apply (returns_bind _ _ _ _ (returns_choose_erase fuel cfg env d0)).
  intros [ok d1] [H1 H2]. cbn [snd] in H1, H2. rewrite Hh in H1.
  destruct ok; cbn [negb]; [|apply returns_ret; split; auto].
  apply returns_then. intros _. apply returns_then.
  intros ok. destruct ok; cbn [negb]; [|apply returns_ret; split; auto].
  apply returns_then. intros _. apply returns_then. intros _.
  destruct (negb (env_chunk_alloc env)).
  - apply returns_then. intros _. apply returns_ret. split; auto.
  - apply returns_ret. split; auto.
Qed.

Lemma returns_flash_steps fuel cfg env :
  returns (flash_steps fuel cfg env) (fun r => held_at_cleanup cfg env (snd r)).
Proof.
  unfold flash_steps. apply returns_then. intros _. apply returns_then. intros _.
  unfold flash_body.
  apply (returns_bind _ _ _ _ (returns_flash_prepare fuel cfg env)).
  intros [[ready d] [firmware firmware_len]] H. cbn [fst snd] in H.
  destruct ready; cbn [negb]; [|apply returns_ret; exact H].
  apply returns_then. intros ok. destruct ok; cbn [negb];
    [|apply returns_ret; exact H].
  apply returns_then. intros ok. apply returns_ret. exact H.
Qed.

Lemma releases_of_app tr evs :
  releases_of (tr ++ evs) = releases_of tr ++ releases_of evs.
Proof. apply flat_map_app. Qed.

Lemma not_release_releases evs :
  forallb not_release evs = true -> releases_of evs = [].
Proof.
  induction evs as [|e evs IH]; [reflexivity|].
  cbn [forallb]. intros H. apply andb_prop in H. destruct H as [He H].
  change (e :: evs) with ([e] ++ evs). rewrite releases_of_app, (IH H).
  destruct e; try reflexivity. discriminate He.
Qed.

(** The code after the label [cleanup]: the last progress report, the
    release, and the fallback message. *)
Lemma cleanup_run cfg success d w :
  exists evs evs' status,
    cleanup cfg success d w
    = Done success
           (mk_world (w_calls w)
                     (w_trace w ++ evs ++ release_events d ++ evs') status)
    /\ forallb not_release evs = true
    /\ forallb is_status_event evs' = true.
Proof.
  unfold cleanup, bind.
  assert (H1 : exists evs,
             (if success then report_progress cfg 100 else ret tt) w
             = Done tt (mk_world (w_calls w) (w_trace w ++ evs) (w_status w))
             /\ forallb not_release evs = true).
  { destruct success.
    - destruct (report_progress_run cfg 100 w) as (w1 & E & T & S & C).
      rewrite E. exists (progress_event cfg 100). destruct w1 as [c t s].
      cbn [w_trace w_status w_calls] in *. subst. split; [reflexivity|].
      unfold progress_event. now destruct (has_progress_sink cfg).
    - exists []. rewrite app_nil_r. destruct w. split; reflexivity. }
  destruct H1 as (evs & -> & Q).
  assert (H2 : release_device d (mk_world (w_calls w) (w_trace w ++ evs) (w_status w))
               = Done tt (mk_world (w_calls w)
                                   ((w_trace w ++ evs) ++ release_events d)
                                   (w_status w))).
  { unfold release_device, release_events. destruct (handle d); [reflexivity|].
    now rewrite app_nil_r. }
  rewrite H2.
  match goal with
  | |- context [if ?c then _ else _] => destruct c
  end.
  - destruct (set_status_status_only cfg MsgUnknown
                (mk_world (w_calls w) ((w_trace w ++ evs) ++ release_events d)
                          (w_status w)))
      as (evs' & -> & Q').
    exists evs, evs'. eexists. cbn [w_calls w_trace]. unfold ret.
    rewrite <- !app_assoc. split; [reflexivity|]. split; assumption.
  - exists evs, []. eexists. unfold ret. rewrite app_nil_r, <- app_assoc.
    split; [reflexivity|]. split; [assumption|reflexivity].
Qed.

(** X11: on every return of [dfu_loader_flash], [release_device] has
    released the interface of the device that was attached exactly once,
    after the last call of [libusb_control_transfer] and the last
    progress report, and has released nothing when no device was
    attached; a call that does not return has not reached
    [release_device].  What [open_stm32_dfu_device_once] releases on its
    own, the interface of a candidate whose alternate setting it could
    not set, is no event of the trace and is not counted. *)
Theorem flash_releases_once fuel cfg env w :
  match dfu_loader_flash fuel cfg env w with
  | Done success w' =>
      exists evs evs',
        w_trace w'
        = w_trace w ++ evs
          ++ match session_started cfg env with
             | Some d0 => [EvRelease (interface_number d0)]
             | None => []
             end
          ++ evs'
        /\ forallb not_release evs = true
        /\ forallb is_status_event evs' = true
  | Stuck _ w' => releases_of (w_trace w') = releases_of (w_trace w)
  end.
Proof.
  unfold dfu_loader_flash, bind.
  pose proof (steps_flash_steps not_release (fun _ => eq_refl) (fun _ => eq_refl)
                (fun _ => eq_refl) (fun _ => eq_refl) fuel cfg env w) as Hsteps.
  pose proof (returns_flash_steps fuel cfg env w) as Hheld.
  destruct (flash_steps fuel cfg env w) as [[success d] w1|l w1].
  - specialize (Hheld _ _ eq_refl). cbn [snd] in Hheld.
    cbn [result_world] in Hsteps. destruct Hsteps as (evs0 & T0 & Q0).
    destruct (cleanup_run cfg success d w1) as (evs & evs' & status & -> & Q & Q').
    exists (evs0 ++ evs), evs'. cbn [w_trace]. rewrite T0.
    assert (Hrel : release_events d
                   = match session_started cfg env with
                     | Some d0 => [EvRelease (interface_number d0)]
                     | None => []
                     end).
    { unfold held_at_cleanup in Hheld. unfold release_events.
      destruct (session_started cfg env) as [d0|].
      - destruct Hheld as [-> ->]. reflexivity.
      - rewrite Hheld. reflexivity. }
    rewrite Hrel, <- !app_assoc. split; [reflexivity|].
    split; [now rewrite forallb_app, Q0, Q|exact Q'].
  - cbn [result_world] in Hsteps. destruct Hsteps as (evs0 & T0 & Q0).
    now rewrite T0, releases_of_app, (not_release_releases _ Q0), app_nil_r.
Qed.

(** ** The erase strategy *)


Lemma not_mass_erase_quiet e : quiet e = true -> not_mass_erase e = true.
Proof.
  destruct e as [rq| | | |]; cbn [quiet not_mass_erase]; auto.
  unfold is_mass_erase. destruct (is_dnload rq); [discriminate|reflexivity].
Qed.

Lemma not_mass_erase_progress : allows_progress not_mass_erase.
Proof. intros percent. reflexivity. Qed.

Lemma not_mass_erase_data : allows_data not_mass_erase.
Proof. intros d data len. reflexivity. Qed.

Lemma not_mass_erase_address : allows_command not_mass_erase 0x21 5.
Proof. intros d address. reflexivity. Qed.

Lemma not_mass_erase_page : allows_command not_mass_erase 0x41 5.
Proof. intros d address. reflexivity. Qed.

#[local] Hint Resolve not_mass_erase_quiet not_mass_erase_progress
  not_mass_erase_data not_mass_erase_address not_mass_erase_page : frame.






(** ** What a run writes *)

Lemma only_run {A} p (m : M A) w a w' :
  keeps (only p) m -> m w = Done a w' ->
  exists evs, w_trace w' = w_trace w ++ evs /\ forallb p evs = true.
Proof. intros H E. specialize (H w). now rewrite E in H. Qed.

Lemma pointer_after_app tr evs pointer :
  pointer_after (tr ++ evs) pointer = pointer_after evs (pointer_after tr pointer).
Proof.
  revert pointer. induction tr as [|e tr IH]; intros pointer; [reflexivity|].
  destruct e as [rq| | | |]; cbn [app pointer_after]; try apply IH.
  destruct (is_set_address rq); apply IH.
Qed.

Lemma writes_of_app tr evs pointer :
  writes_of (tr ++ evs) pointer
  = writes_of tr pointer ++ writes_of evs (pointer_after tr pointer).
Proof.
  revert pointer. induction tr as [|e tr IH]; intros pointer; [reflexivity|].
  destruct e as [rq| | | |]; cbn [app writes_of pointer_after]; try apply IH.
  destruct (is_set_address rq); [apply IH|].
  destruct (is_data_block rq); [|apply IH].
  cbn [app]. f_equal. apply IH.
Qed.

Lemma neutral_writes evs pointer :
  forallb neutral evs = true ->
  writes_of evs pointer = [] /\ pointer_after evs pointer = pointer.
Proof.
  induction evs as [|e evs IH]; [split; reflexivity|].
  cbn [forallb]. intros H. apply andb_prop in H. destruct H as [He H].
  destruct e as [rq| | | |]; cbn [writes_of pointer_after]; try exact (IH H).
  cbn [neutral] in He. apply andb_prop in He. destruct He as [H1 H2].
  apply negb_true_iff in H1, H2. rewrite H1, H2. exact (IH H).
Qed.

Lemma no_write_writes evs pointer :
  forallb no_write evs = true -> writes_of evs pointer = [].
Proof.
  revert pointer. induction evs as [|e evs IH]; intros pointer; [reflexivity|].
  cbn [forallb]. intros H. apply andb_prop in H. destruct H as [He H].
  destruct e as [rq| | | |]; cbn [writes_of]; try exact (IH _ H).
  cbn [no_write] in He. apply negb_true_iff in He. rewrite He.
  destruct (is_set_address rq); exact (IH _ H).
Qed.

Lemma quiet_neutral evs : forallb quiet evs = true -> forallb neutral evs = true.
Proof.
  induction evs as [|e evs IH]; [reflexivity|].
  cbn [forallb]. intros H. apply andb_prop in H. destruct H as [He H].
  rewrite (IH H), andb_true_r.
  destruct e as [rq| | | |]; try reflexivity.
  cbn [quiet] in He. cbn [neutral]. unfold is_set_address, is_data_block.
  apply negb_true_iff in He. now rewrite He.
Qed.

Lemma neutral_quiet e : quiet e = true -> neutral e = true.
Proof.
  intros H. pose proof (quiet_neutral [e]) as Hq. cbn [forallb] in Hq.
  rewrite H in Hq. specialize (Hq eq_refl). now rewrite andb_true_r in Hq.
Qed.

Lemma neutral_erase : allows_command neutral 0x41 5.
Proof. intros d address. reflexivity. Qed.

Lemma neutral_progress : allows_progress neutral.
Proof. intros percent. reflexivity. Qed.

Lemma no_write_quiet e : quiet e = true -> no_write e = true.
Proof.
  destruct e as [rq| | | |]; cbn [quiet no_write]; auto.
  unfold is_data_block. destruct (is_dnload rq); [discriminate|reflexivity].
Qed.

Lemma no_write_progress : allows_progress no_write.
Proof. intros percent. reflexivity. Qed.

Lemma no_write_command command len : allows_command no_write command len.
Proof. intros d address. reflexivity. Qed.

#[local] Hint Resolve neutral_quiet neutral_erase neutral_progress
  no_write_quiet no_write_progress no_write_command : frame.

(** What a block adds to the trace when the call returns: the request,
    and then polls. *)
Lemma download_block_trace fuel cfg env d block data len allow w ok w' :
  dfu_download_block fuel cfg env d block data len allow w = Done ok w' ->
  exists evs,
    w_trace w' = w_trace w ++ EvControl (dnload_request d block data len) :: evs
    /\ forallb quiet evs = true.
Proof.
  unfold dfu_download_block. intros H. step H as x w1 E1.
  unfold libusb_control_transfer, control_transfer in E1.
  injection E1 as <- <-.
  apply (only_run quiet) in H; [|frame].
  destruct H as (evs & T & Q). exists evs. cbn [w_trace] in T.
  rewrite T, <- app_assoc. split; [reflexivity|exact Q].
Qed.

Lemma chunk_payload_slice firmware written size :
  chunk_payload firmware written size
  = image_slice firmware written size ++ (if size mod 2 =? 0 then [] else [0xFF]).
Proof.
  unfold chunk_payload, image_slice. cbv zeta.
  destruct (size mod 2 =? 0); cbn [negb]; [now rewrite app_nil_r|reflexivity].
Qed.

Lemma image_slice_length firmware offset size :
  0 <= offset -> 0 <= size ->
  offset + size <= Z.of_nat (List.length firmware) ->
  Z.of_nat (List.length (image_slice firmware offset size)) = size.
Proof.
  intros Ho Hs Hfit. unfold image_slice.
  rewrite length_firstn, length_skipn. lia.
Qed.

Lemma aligned_length_even size :
  0 <= size -> size <= aligned_length size <= size + 1
  /\ aligned_length size
     = size + (if size mod 2 =? 0 then 0 else 1).
Proof.
  intros H. unfold aligned_length. destruct (size mod 2 =? 0); cbn [negb]; lia.
Qed.

Lemma chunk_size_at_transfer d segment firmware_len written :
  chunk_size_at d segment firmware_len written <= transfer_size d.
Proof.
  unfold chunk_size_at. cbv zeta.
  destruct (Z.ltb_spec (transfer_size d) (firmware_len - written));
    destruct segment as [s|];
    try match goal with |- context [if ?a <? ?b then _ else _] =>
          destruct (Z.ltb_spec a b) end; lia.
Qed.

(** The chunk that is written: the pointer is set to its address and its
    bytes are sent as one block. *)
Lemma write_chunk_writes fuel cfg env d firmware firmware_len written w d' written' w'
      pointer :
  0 <= written < firmware_len ->
  Z.of_nat (List.length firmware) = firmware_len ->
  1 <= transfer_size d <= 65534 ->
  Forall (fun s => seg_end s <= ULONG_MAX) (layout_segments (layout d)) ->
  write_chunk fuel cfg env d firmware firmware_len written w
  = Done (Some (d', written')) w' ->
  same_session d d' /\ written < written' <= firmware_len
  /\ exists evs,
      w_trace w' = w_trace w ++ evs
      /\ writes_of evs pointer
         = [chunk_write firmware (written, written' - written)]
      /\ pointer_after evs pointer = chunk_address written.
Proof.
  intros Hw Hlen Ht Hends H.
  pose proof (write_chunk_done _ _ _ _ _ _ _ _ _ _ _ H) as (Hs & Hw' & _).
  pose proof (chunk_size_at_bounds d (chunk_segment d written) firmware_len written
                (proj2 Hw) ltac:(lia)
                (fun s => chunk_segment_contains d written s)) as Hb.
  cbv zeta in Hb. destruct Hb as (Hsize & _ & Hone).
  assert (Hpos : 1 <= chunk_size_at d (chunk_segment d written) firmware_len written).
  { apply Hone; [lia|]. intros s Hseg. apply chunk_segment_in in Hseg.
    rewrite Forall_forall in Hends. exact (Hends s Hseg). }
  pose proof (chunk_size_at_transfer d (chunk_segment d written) firmware_len written)
    as Hmax.
  split; [exact Hs|]. split; [lia|].
  unfold write_chunk in H. cbv zeta in H.
  fold (chunk_address written) in H. fold (chunk_segment d written) in H.
  set (size := chunk_size_at d (chunk_segment d written) firmware_len written) in *.
  match type of H with
  | (if ?c then _ else _) _ = _ => destruct c
  end.
  { step H. apply ret_inv in H. destruct H as [H _]. discriminate H. }
  step H as [erased d1] w1 E1.
  assert (T1 : exists evs, w_trace w1 = w_trace w ++ evs
                           /\ forallb neutral evs = true).
  { apply (only_run neutral) in E1; [exact E1|].
    match goal with |- context [if ?c then _ else _] => destruct c end; frame. }
  destruct T1 as (evs1 & T1 & Q1).
  destruct erased; cbn [negb] in H.
  2:{ apply ret_inv in H. destruct H as [H _]. discriminate H. }
  step H as ok w2 E2.
  unfold dfu_set_address_pointer, dfu_send_special_command in E2.
  change (5 <? 5) with false in E2. cbv iota in E2.
  apply download_block_trace in E2. destruct E2 as (evs2 & T2 & Q2).
  destruct ok; cbn [negb] in H.
  2:{ apply ret_inv in H. destruct H as [H _]. discriminate H. }
  cbv zeta in H. step H as ok w3 E3.
  apply download_block_trace in E3. destruct E3 as (evs3 & T3 & Q3).
  destruct ok; cbn [negb] in H.
  2:{ step H. apply ret_inv in H. destruct H as [H _]. discriminate H. }
  apply ret_inv in H. destruct H as [_ <-].
  eexists. split.
  { rewrite T3, T2, T1, <- !app_assoc. reflexivity. }
  destruct (neutral_writes evs1 pointer Q1) as [W1 P1].
  assert (Hsa : is_set_address
                  (dnload_request d1 0 (special_payload 33 (chunk_address written)) 5)
                = true) by reflexivity.
  assert (Hpa : payload_address
                  (rq_data (dnload_request d1 0
                              (special_payload 33 (chunk_address written)) 5))
                = chunk_address written).
  { change (rq_data (dnload_request d1 0
                       (special_payload 33 (chunk_address written)) 5))
      with (special_payload 33 (chunk_address written)).
    pose proof (u32_range (STM32_BASE_ADDRESS + u32 written)) as Hr.
    fold (chunk_address written) in Hr.
    unfold payload_address, special_payload. cbn [nth]. unfold u8.
    unfold ULONG_MAX in Hr.
    change 255 with (Z.ones 8). rewrite !Z.land_ones by lia.
    rewrite !Z.shiftr_div_pow2 by lia.
    change (2 ^ 8) with 256. change (2 ^ 16) with 65536.
    change (2 ^ 24) with 16777216.
    rewrite !Z.mod_mod by lia.
    Z.div_mod_to_equations. lia. }
  destruct (neutral_writes evs2 (chunk_address written) (quiet_neutral _ Q2))
    as [W2 P2].
  destruct (neutral_writes evs3 (chunk_address written) (quiet_neutral _ Q3))
    as [W3 P3].
  destruct (aligned_length_even size ltac:(lia)) as [Ha Ha'].
  assert (Hu : u16 (aligned_length size) = aligned_length size).
  { unfold u16. apply Z.mod_small. lia. }
  assert (Hdata : rq_data (dnload_request d1 data_block_number
                             (chunk_payload firmware written size)
                             (u16 (aligned_length size)))
                  = chunk_payload firmware written size).
  { unfold dnload_request. cbn [rq_data]. rewrite Hu. apply firstn_all2.
    rewrite chunk_payload_slice, length_app.
    pose proof (image_slice_length firmware written size ltac:(lia) ltac:(lia)
                  ltac:(lia)) as Hl.
    rewrite Ha'. destruct (size mod 2 =? 0); cbn [List.length]; lia. }
  assert (Hdb : is_data_block
                  (dnload_request d1 data_block_number
                     (chunk_payload firmware written size)
                     (u16 (aligned_length size))) = true).
  { unfold is_data_block, dnload_request, is_dnload.
    cbn [rq_in rq_code rq_value rq_length negb andb]. rewrite Hu.
    rewrite !Z.eqb_refl. cbn [andb]. apply Z.ltb_lt. lia. }
  assert (Hnsa : is_set_address
                   (dnload_request d1 data_block_number
                      (chunk_payload firmware written size)
                      (u16 (aligned_length size))) = false).
  { unfold is_set_address, dnload_request, is_dnload.
    cbn [rq_in rq_code rq_value negb andb]. rewrite Z.eqb_refl. reflexivity. }
  split.
  - rewrite writes_of_app, W1, P1. cbn [app writes_of]. rewrite Hsa, Hpa.
    rewrite writes_of_app, W2, P2. cbn [app writes_of]. rewrite Hnsa, Hdb, Hdata, W3.
    unfold chunk_write. cbn [fst snd]. rewrite Hw'.
    replace (written + size - written) with size by lia.
    now rewrite chunk_payload_slice.
  - rewrite pointer_after_app, P1. cbn [app pointer_after]. rewrite Hsa, Hpa.
    rewrite pointer_after_app, P2. cbn [pointer_after]. rewrite Hnsa. exact P3.
Qed.

Lemma write_loop_writes fuel cfg env firmware firmware_len :
  Z.of_nat (List.length firmware) = firmware_len ->
  forall n d written w w' pointer,
    1 <= transfer_size d <= 65534 ->
    Forall (fun s => seg_end s <= ULONG_MAX) (layout_segments (layout d)) ->
    0 <= written <= firmware_len ->
    write_loop n fuel cfg env d firmware firmware_len written w = Done true w' ->
    exists evs chunks,
      w_trace w' = w_trace w ++ evs
      /\ writes_of evs pointer = map (chunk_write firmware) chunks
      /\ covers chunks written firmware_len.
Proof.
  intros Hlen. induction n as [|n IH];
    intros d written w w' pointer Ht Hends Hw H; cbn [write_loop] in H.
  - destruct (Z.ltb_spec written firmware_len); [discriminate|].
    apply ret_inv in H. destruct H as [_ <-].
    exists [], []. rewrite app_nil_r. repeat split. cbn [covers]. lia.
  - destruct (Z.ltb_spec written firmware_len) as [Hlt|].
    2:{ apply ret_inv in H. destruct H as [_ <-].
        exists [], []. rewrite app_nil_r. repeat split. cbn [covers]. lia. }
    step H as r w1 E1. destruct r as [[d1 written1]|]; [|discriminate H].
    apply (write_chunk_writes _ _ _ _ _ _ _ _ _ _ _ pointer) in E1;
      [|lia|exact Hlen|exact Ht|exact Hends].
    destruct E1 as (Hs & Hw1 & evs1 & T1 & W1 & P1).
    step H as [] w2 E2.
    apply (only_run neutral) in E2; [|frame].
    destruct E2 as (evs2 & T2 & Q2).
    destruct (neutral_writes evs2 (chunk_address written) Q2) as [W2 P2].
    destruct (same_session_fields _ _ Hs) as (Hl & _ & Ht1 & _).
    apply (IH d1 written1 w2 w' (chunk_address written)) in H;
      [|rewrite Ht1; exact Ht|rewrite Hl; exact Hends|lia].
    destruct H as (evs3 & chunks & T3 & W3 & C3).
    exists (evs1 ++ evs2 ++ evs3), ((written, written1 - written) :: chunks).
    split; [rewrite T3, T2, T1, <- !app_assoc; reflexivity|]. split.
    + rewrite writes_of_app, W1, P1, writes_of_app, W2, P2, W3. reflexivity.
    + cbn [covers]. split; [reflexivity|]. split; [lia|].
      now replace (written + (written1 - written)) with written1 by lia.
Qed.

Lemma covers_concat firmware chunks start :
  0 <= start ->
  covers chunks start (Z.of_nat (List.length firmware)) ->
  List.concat (map (fun c => image_slice firmware (fst c) (snd c)) chunks)
  = skipn (Z.to_nat start) firmware.
Proof.
  revert start. induction chunks as [|[offset size] chunks IH];
    intros start Hs H; cbn [covers] in H.
  - cbn [map List.concat]. symmetry. apply skipn_all2. lia.
  - destruct H as (-> & Hpos & H). cbn [map List.concat fst snd].
    rewrite (IH (start + size)) by (auto; lia).
    unfold image_slice.
    replace (Z.to_nat (start + size)) with (Z.to_nat size + Z.to_nat start)%nat
      by lia.
    rewrite <- skipn_skipn. apply firstn_skipn.
Qed.

Lemma no_write_flash_finish fuel cfg env d :
  keeps (only no_write) (flash_finish fuel cfg env d).
Proof.
  unfold flash_finish. apply only_bind.
  - apply only_download_block; [exact no_write_quiet|reflexivity].
  - intros ok. frame.
Qed.

(** X13: a run of [dfu_loader_flash] that returns true has asked the
    bootloader to write the image and nothing else: its blocks of data,
    each at the address the pointer was set to before it, are consecutive
    pieces of the file starting at the base address (each followed by one
    byte 0xFF when its size is odd), none is empty, and together they are
    the file.  The device announces at most 65534 bytes per block. *)
Theorem flash_writes_image fuel cfg env w w' firmware firmware_len d0 pointer :
  dfu_loader_flash fuel cfg env w = Done true w' ->
  loaded_image cfg env = Some (firmware, firmware_len) ->
  attached_device env = Some d0 ->
  transfer_size d0 <= 65534 ->
  exists evs chunks,
    w_trace w' = w_trace w ++ evs
    /\ writes_of evs pointer = map (chunk_write firmware) chunks
    /\ covers chunks 0 firmware_len
    /\ List.concat (map (fun c => image_slice firmware (fst c) (snd c)) chunks)
       = firmware.
Proof.
  intros H Himage Hdev Hmax.
  destruct (loaded_image_length _ _ _ _ Himage) as [Hpos Hlen].
  pose proof (attached_device_transfer _ _ Hdev) as Ht.
  pose proof (attached_device_ends _ _ Hdev) as Hends.
  unfold dfu_loader_flash, flash_steps in H.
  step H as [success d1] w3 E.
  pose proof (cleanup_result _ _ _ _ _ _ H) as <-.
  apply (only_run no_write) in H; [|apply only_cleanup; frame].
  destruct H as (evs5 & T5 & Q5).
  step E as [] w4 E0.
  apply (only_run no_write) in E0; [|frame]. destruct E0 as (evs0 & T0 & Q0).
  step E as [] w5 E1.
  apply (only_run no_write) in E1; [|frame]. destruct E1 as (evs1 & T1 & Q1).
  unfold flash_body in E. step E as [[ready d2] [fw len]] w6 E2.
  destruct ready; cbn [negb] in E; [|discriminate E].
  pose proof (flash_prepare_ready _ _ _ _ _ _ _ E2) as (Himage' & d0' & Hdev' & -> & _).
  rewrite Himage in Himage'. injection Himage' as <- <-.
  rewrite Hdev in Hdev'. injection Hdev' as <-.
  apply (only_run no_write) in E2; [|apply only_flash_prepare; frame].
  destruct E2 as (evs2 & T2 & Q2).
  step E as ok w7 E3. destruct ok; cbn [negb] in E; [|discriminate E].
  step E as ok w8 E4. injection E as -> <- <-.
  apply (only_run no_write) in E4; [|apply no_write_flash_finish].
  destruct E4 as (evs4 & T4 & Q4).
  destruct (session_device_layout d0) as (Hl & _ & Hts & _).
  apply (write_loop_writes _ _ _ _ _ Hlen _ _ _ _ _
           (pointer_after (evs0 ++ evs1 ++ evs2) pointer)) in E3;
    [|rewrite Hts; lia|rewrite Hl; exact Hends|lia].
  destruct E3 as (evs3 & chunks & T3 & W3 & C3).
  exists (evs0 ++ evs1 ++ evs2 ++ evs3 ++ evs4 ++ evs5), chunks.
  split; [rewrite T5, T4, T3, T2, T1, T0, <- !app_assoc; reflexivity|].
  split; [|split; [exact C3|]].
  - assert (Hpre : forallb no_write (evs0 ++ evs1 ++ evs2) = true)
      by (rewrite !forallb_app, Q0, Q1, Q2; reflexivity).
    assert (Hpost : forallb no_write (evs4 ++ evs5) = true)
      by (rewrite !forallb_app, Q4, Q5; reflexivity).
    replace (evs0 ++ evs1 ++ evs2 ++ evs3 ++ evs4 ++ evs5)
      with ((evs0 ++ evs1 ++ evs2) ++ evs3 ++ (evs4 ++ evs5))
      by (rewrite <- !app_assoc; reflexivity).
    rewrite writes_of_app, (no_write_writes _ _ Hpre).
    cbn [app]. rewrite writes_of_app, (no_write_writes _ _ Hpost), app_nil_r.
    exact W3.
  - rewrite <- Hlen in C3. rewrite (covers_concat _ _ 0 ltac:(lia) C3).
    reflexivity.
Qed.

Lemma flash_writes_image_witness :
  exists evs chunks,
    w_trace (result_world
               (dfu_loader_flash 4 (plain_caller 64)
                  (scenario accepting_device 5 4 "@Option Bytes")
                  (initial_world (repeat "x"%char 64))))
    = evs
    /\ writes_of evs 0 = map (chunk_write (repeat 0xAA 5)) chunks
    /\ covers chunks 0 5
    /\ List.concat (map (fun c => image_slice (repeat 0xAA 5) (fst c) (snd c)) chunks)
       = repeat 0xAA 5.
Proof.
  apply (flash_writes_image 4%nat (plain_caller 64%nat)
           (scenario accepting_device 5 4 "@Option Bytes")
           (initial_world (repeat "x"%char 64%nat)) _ (repeat 0xAA 5%nat) 5
           (opened_device 0 0 (functional_descriptor 4) "@Option Bytes") 0).
  - vm_compute. reflexivity.
  - vm_compute. reflexivity.
  - vm_compute. reflexivity.
  - vm_compute. discriminate.
Defined.

(** ** What [dfu_erase_range] erases *)

Lemma pages_of_range_cons first page_size end_ :
  0 < page_size -> first < end_ ->
  pages_of_range first page_size end_
  = first :: pages_of_range (first + page_size) page_size end_.
Proof.
  intros Hps Hlt. unfold pages_of_range.
  replace (end_ - first + page_size - 1)
    with ((end_ - (first + page_size) + page_size - 1) + 1 * page_size) by lia.
  rewrite Z.div_add by lia.
  assert (H0 : 0 <= (end_ - (first + page_size) + page_size - 1) / page_size)
    by (apply Z.div_pos; lia).
  rewrite Z2Nat.inj_add by lia.
  rewrite Nat.add_comm. reflexivity.
Qed.

Lemma pages_of_range_nil first page_size end_ :
  0 < page_size -> end_ <= first -> pages_of_range first page_size end_ = [].
Proof.
  intros Hps Hle. unfold pages_of_range.
  assert (H : (end_ - first + page_size - 1) / page_size <= 0).
  { apply Z.lt_succ_r. apply Z.div_lt_upper_bound; lia. }
  replace (Z.to_nat _) with 0%nat by lia. reflexivity.
Qed.

Lemma in_page_seq page first page_size n :
  In page (page_seq first page_size n)
  <-> exists i, (i < n)%nat /\ page = first + Z.of_nat i * page_size.
Proof.
  revert first. induction n as [|n IH]; intros first; cbn [page_seq In].
  - split; [tauto|]. intros (i & Hi & _). lia.
  - rewrite IH. split.
    + intros [<-|(i & Hi & ->)].
      * exists 0%nat. split; lia.
      * exists (S i). split; lia.
    + intros ([|i] & Hi & ->).
      * left. lia.
      * right. exists i. split; lia.
Qed.

Lemma in_pages_of_range page first page_size end_ :
  0 < page_size ->
  In page (pages_of_range first page_size end_)
  <-> first <= page < end_ /\ (page - first) mod page_size = 0.
Proof.
  intros Hps. unfold pages_of_range. rewrite in_page_seq. split.
  - intros (i & Hi & ->).
    replace (first + Z.of_nat i * page_size - first) with (Z.of_nat i * page_size)
      by lia.
    rewrite Z.mod_mul by lia. split; [|reflexivity]. split; [nia|].
    assert (Hn : Z.of_nat i + 1 <= (end_ - first + page_size - 1) / page_size) by lia.
    pose proof (Z.mul_div_le (end_ - first + page_size - 1) page_size Hps). nia.
  - intros ([Hlo Hhi] & Hmod).
    apply Z.mod_divide in Hmod; [|lia]. destruct Hmod as [q Hq].
    assert (Hq0 : 0 <= q) by nia.
    exists (Z.to_nat q). split; [|lia].
    assert (q + 1 <= (end_ - first + page_size - 1) / page_size)
      by (apply Z.div_le_lower_bound; nia).
    lia.
Qed.

Lemma page_base_of_eq s address :
  0 <= seg_start s -> seg_end s <= ULONG_MAX -> 0 < seg_page_size s ->
  contains s address ->
  page_base_of s address
  = seg_start s + (address - seg_start s) / seg_page_size s * seg_page_size s.
Proof.
  unfold contains, ULONG_MAX. intros Hstart Hend Hsize [Hlo Hhi].
  unfold page_base_of.
  set (a := address - seg_start s). set (ps := seg_page_size s) in *.
  assert (Ha : 0 <= a <= ULONG_MAX) by (unfold ULONG_MAX; lia).
  rewrite (u32_small a Ha).
  assert (Hq : 0 <= a / ps <= a).
  { split; [apply Z.div_pos; lia|]. apply Z.div_le_upper_bound; nia. }
  rewrite (u32_small (a / ps)) by (unfold ULONG_MAX in *; lia).
  pose proof (Z.mul_div_le a ps Hsize) as Hle.
  assert (Hm : 0 <= a / ps * ps <= a) by nia.
  rewrite (u32_small (a / ps * ps)) by (unfold ULONG_MAX in *; lia).
  apply u32_small. unfold ULONG_MAX in *. lia.
Qed.

Lemma quiet_pages evs : forallb quiet evs = true -> erased_pages evs = [].
Proof.
  intros H. apply not_erase_page_pages.
  rewrite forallb_forall in *. intros e He. apply not_erase_page_quiet. auto.
Qed.

Lemma erase_plan_next page page_size end_ :
  0 < page_size ->
  erase_plan page (page + page_size) page_size end_
  = pages_of_range (page + page_size) page_size end_.
Proof.
  intros Hps. unfold erase_plan.
  destruct (Z.lt_ge_cases (page + page_size) end_) as [Hlt|Hge].
  - rewrite (pages_of_range_cons _ _ _ Hps Hlt).
    destruct (Z.eqb_spec page (page + page_size)); [lia|reflexivity].
  - now rewrite (pages_of_range_nil _ _ _ Hps Hge).
Qed.

(** The pages below a multiple of the page size end a page before it. *)
Lemma next_page_fits start end_ page page_size :
  0 < page_size -> (end_ - start) mod page_size = 0 ->
  (page - start) mod page_size = 0 -> page < end_ ->
  page + page_size <= end_.
Proof.
  intros Hps He Hp Hlt.
  apply Z.mod_divide in He; [|lia]. apply Z.mod_divide in Hp; [|lia].
  destruct He as [q1 H1], Hp as [q2 H2].
  assert (q2 < q1) by nia. nia.
Qed.

Lemma last_cons_default {A} (x : A) l default :
  last (x :: l) default = last l x.
Proof.
  revert x default. induction l as [|y l IH]; intros x default; [reflexivity|].
  change (last (x :: y :: l) default) with (last (y :: l) default).
  rewrite IH. symmetry. apply IH.
Qed.

Lemma erase_pages_plan s end_ :
  0 <= seg_start s -> seg_end s <= ULONG_MAX -> 0 < seg_page_size s ->
  (seg_end s - seg_start s) mod seg_page_size s = 0 ->
  end_ <= seg_end s ->
  forall n fuel cfg env d page w d1 w1,
    seg_start s <= page -> (page - seg_start s) mod seg_page_size s = 0 ->
    erase_pages n fuel cfg env d s page end_ w = Done (true, d1) w1 ->
    exists evs,
      w_trace w1 = w_trace w ++ evs
      /\ erased_pages evs
         = erase_plan (last_erased_page d) page (seg_page_size s) end_
      /\ last_erased_page d1
         = last (pages_of_range page (seg_page_size s) end_) (last_erased_page d).
Proof.
  intros Hstart Hend Hps Hal Hle.
  assert (Hstop : forall page, (page <? seg_end s) && (page <? end_) = false ->
                               end_ <= page).
  { intros page H. apply andb_false_iff in H.
    destruct H as [H|H]; apply Z.ltb_ge in H; lia. }
  induction n as [|n IH]; intros fuel cfg env d page w d1 w1 Hlo Hmod H;
    cbn [erase_pages] in H.
  - destruct ((page <? seg_end s) && (page <? end_)) eqn:Hc; [discriminate H|].
    apply ret_inv in H. destruct H as [H <-]. injection H as <-.
    exists []. unfold erase_plan.
    rewrite (pages_of_range_nil _ _ _ Hps (Hstop _ Hc)), app_nil_r.
    repeat split.
  - destruct ((page <? seg_end s) && (page <? end_)) eqn:Hc.
    2:{ apply ret_inv in H. destruct H as [H <-]. injection H as <-.
        exists []. unfold erase_plan.
        rewrite (pages_of_range_nil _ _ _ Hps (Hstop _ Hc)), app_nil_r.
        repeat split. }
    apply andb_prop in Hc. destruct Hc as [Hc1 Hc2].
    apply Z.ltb_lt in Hc1, Hc2.
    pose proof (next_page_fits _ _ _ _ Hps Hal Hmod Hc1) as Hfit.
    assert (Hnext : u32 (page + seg_page_size s) = page + seg_page_size s)
      by (apply u32_small; lia).
    rewrite Hnext in H.
    assert (Hmod' : (page + seg_page_size s - seg_start s) mod seg_page_size s = 0).
    { replace (page + seg_page_size s - seg_start s)
        with (page - seg_start s + 1 * seg_page_size s) by lia.
      now rewrite Z.mod_add by lia. }
    unfold erase_plan at 1. rewrite (pages_of_range_cons _ _ _ Hps Hc2).
    destruct (Z.eqb_spec (last_erased_page d) page) as [Heq|Hneq]; cbn [negb] in H.
    + apply IH in H; [|lia|exact Hmod'].
      destruct H as (evs & T & P & L). exists evs. split; [exact T|].
      rewrite Heq in P, L. rewrite (erase_plan_next _ _ _ Hps) in P.
      split; [exact P|].
      rewrite L. symmetry. apply last_cons_default.
    + step H as ok w2 E. destruct ok; cbn [negb] in H.
      2:{ apply ret_inv in H. destruct H as [H _]. discriminate H. }
      unfold dfu_send_special_command in E. change (5 <? 5) with false in E.
      cbv iota zeta in E. apply download_block_trace in E.
      destruct E as (evs1 & T1 & Q1).
      apply IH in H; [|lia|exact Hmod'].
      destruct H as (evs & T & P & L).
      change (last_erased_page (with_last_erased_page d page)) with page in P, L.
      rewrite (erase_plan_next _ _ _ Hps) in P.
      eexists. split; [rewrite T, T1, <- app_assoc; reflexivity|].
      split.
      * change (EvControl (dnload_request d 0 (special_payload 65 page) 5) :: evs1)
          with ([EvControl (dnload_request d 0 (special_payload 65 page) 5)] ++ evs1).
        rewrite !erased_pages_app, erase_command_pages by lia.
        rewrite (quiet_pages _ Q1), P. reflexivity.
      * rewrite L. symmetry. apply last_cons_default.
Qed.

Lemma erase_range_pages fuel cfg env d s address len w d1 w1 :
  layout_valid d = true ->
  find_segment (layout d) address = Some s ->
  0 <= seg_start s -> seg_end s <= ULONG_MAX -> segment_invariant s ->
  0 < len -> address + len <= seg_end s ->
  dfu_erase_range fuel cfg env d address len w = Done (true, d1) w1 ->
  let pages :=
    pages_of_range (page_base_of s address) (seg_page_size s) (address + len) in
  exists evs,
    w_trace w1 = w_trace w ++ evs
    /\ erased_pages evs
       = erase_plan (last_erased_page d) (page_base_of s address) (seg_page_size s)
                    (address + len)
    /\ last_erased_page d1 = last pages (last_erased_page d)
    /\ (forall page,
           In page pages
           <-> exists b, address <= b < address + len /\ page = page_base_of s b).
Proof.
  intros Hv Hfind Hstart Hend (Hlt & Hps & Hal) Hlen Hfit H. cbv zeta.
  assert (Hps' : 0 < seg_page_size s) by lia.
  pose proof (find_segment_some _ _ _ Hfind) as [_ Hc].
  pose proof (page_base_of_eq s address Hstart Hend Hps' Hc) as Hpb.
  pose proof (page_base_of_bounds s address Hstart Hend Hps' Hc) as (Hb & Hb0).
  assert (Hmod : (page_base_of s address - seg_start s) mod seg_page_size s = 0).
  { rewrite Hpb.
    replace (seg_start s + (address - seg_start s) / seg_page_size s * seg_page_size s
             - seg_start s)
      with ((address - seg_start s) / seg_page_size s * seg_page_size s) by lia.
    apply Z.mod_mul. lia. }
  assert (Hcover : forall page,
             In page (pages_of_range (page_base_of s address) (seg_page_size s)
                                     (address + len))
             <-> exists b, address <= b < address + len /\ page = page_base_of s b).
  { intros page. rewrite (in_pages_of_range _ _ _ _ Hps'). split.
    - intros ([Hlo Hhi] & Hm).
      exists (Z.max page address). split; [lia|].
      assert (Hcb : contains s (Z.max page address))
        by (unfold contains in *; lia).
      rewrite (page_base_of_eq s _ Hstart Hend Hps' Hcb).
      apply Z.mod_divide in Hm; [|lia]. apply Z.mod_divide in Hmod; [|lia].
      destruct Hm as [q1 H1], Hmod as [q2 H2].
      assert (Hpage : page = seg_start s + (q1 + q2) * seg_page_size s) by lia.
      assert (Hdiv : (Z.max page address - seg_start s) / seg_page_size s = q1 + q2).
      { symmetry. apply (Z.div_unique_pos _ _ _
                           (Z.max page address - seg_start s
                            - (q1 + q2) * seg_page_size s)); [|lia].
        destruct (Z.max_spec page address) as [[Hm1 ->]|[Hm1 ->]]; [|lia].
        split; [lia|].
        assert (page + seg_page_size s > address); [|lia].
        destruct (Z.eq_dec q1 0) as [->|Hq1]; [lia|].
        assert (0 < q1) by nia. nia. }
      rewrite Hdiv. exact Hpage.
    - intros (b & Hbr & ->).
      assert (Hcb : contains s b) by (unfold contains in *; lia).
      pose proof (page_base_of_bounds s b Hstart Hend Hps' Hcb) as (Hbb & _).
      rewrite (page_base_of_eq s b Hstart Hend Hps' Hcb), Hpb.
      pose proof (Z.div_le_mono (address - seg_start s) (b - seg_start s)
                    (seg_page_size s) Hps' ltac:(lia)) as Hmono.
      rewrite (page_base_of_eq s b Hstart Hend Hps' Hcb) in Hbb.
      split; [split; [nia|lia]|].
      replace (seg_start s + (b - seg_start s) / seg_page_size s * seg_page_size s
               - (seg_start s
                  + (address - seg_start s) / seg_page_size s * seg_page_size s))
        with (((b - seg_start s) / seg_page_size s
               - (address - seg_start s) / seg_page_size s) * seg_page_size s) by lia.
      apply Z.mod_mul. lia. }
  unfold dfu_erase_range in H. rewrite Hv in H.
  rewrite (find_segment_count _ _ _ Hfind) in H. cbn [negb orb] in H.
  unfold contains in Hc.
  rewrite (u32_small (address + len)) in H by lia.
  destruct fuel as [|fuel]; cbn [erase_segments] in H.
  { destruct (Z.ltb_spec address (address + len)); [discriminate H|lia]. }
  destruct (Z.ltb_spec address (address + len)); [|lia].
  rewrite Hfind in H. fold (page_base_of s address) in H.
  step H as [ok d2] w2 E. destruct ok; cbn [negb] in H.
  2:{ apply ret_inv in H. destruct H as [H _]. discriminate H. }
  rewrite erase_segments_past in H by exact Hfit.
  injection H as <- <-.
  assert (Hlo : seg_start s <= page_base_of s address).
  { rewrite Hpb.
    pose proof (Z.div_pos (address - seg_start s) (seg_page_size s)
                  ltac:(lia) Hps'). nia. }
  apply (erase_pages_plan s (address + len) Hstart Hend Hps' Hal Hfit) in E;
    [|exact Hlo|exact Hmod].
  destruct E as (evs & T & P & L).
  exists evs. repeat split; auto; apply Hcover; auto.
Qed.

(** X14: [dfu_erase_range], when it succeeds on a range that lies in one
    segment of the layout, has sent the erase-page commands of the pages
    that touch the range, once each and in ascending order, leaving out
    the first page when it is the page erased last; it leaves the last of
    these pages as the page erased last. *)
Theorem erase_range_plan fuel cfg env d s address len w d1 w1 :
  layout_valid d = true ->
  find_segment (layout d) address = Some s ->
  0 <= seg_start s -> seg_end s <= ULONG_MAX -> segment_invariant s ->
  0 < len -> address + len <= seg_end s ->
  dfu_erase_range fuel cfg env d address len w = Done (true, d1) w1 ->
  let pages :=
    pages_of_range (page_base_of s address) (seg_page_size s) (address + len) in
  exists evs,
    w_trace w1 = w_trace w ++ evs
    /\ erased_pages evs
       = erase_plan (last_erased_page d) (page_base_of s address) (seg_page_size s)
                    (address + len)
    /\ last_erased_page d1 = last pages (last_erased_page d)
    /\ (forall page,
           In page pages
           <-> exists b, address <= b < address + len /\ page = page_base_of s b).
Proof. exact (erase_range_pages fuel cfg env d s address len w d1 w1). Qed.

Lemma erase_range_plan_witness :
  exists evs,
    w_trace (result_world
               (dfu_erase_range 4 (plain_caller 64) (scenario accepting_device 8 4 "")
                  paged_session 0x08000300 2048 (initial_world [])))
    = evs
    /\ erased_pages evs = [0x08000000; 0x08000400; 0x08000800].
Proof.
  destruct (erase_range_plan 4%nat (plain_caller 64%nat)
              (scenario accepting_device 8 4 "") paged_session first_page
              0x08000300 2048 (initial_world [])
              (with_last_erased_page paged_session 0x08000800)
              (result_world
                 (dfu_erase_range 4 (plain_caller 64)
                    (scenario accepting_device 8 4 "")
                    paged_session 0x08000300 2048 (initial_world []))))
    as (evs & T & P & _).
  - reflexivity.
  - vm_compute. reflexivity.
  - vm_compute. discriminate.
  - vm_compute. discriminate.
  - repeat split; vm_compute; congruence.
  - reflexivity.
  - vm_compute. discriminate.
  - vm_compute. reflexivity.
  - exists evs. split; [exact T|]. rewrite P. vm_compute. reflexivity.
Defined.

(** ** Erased before written *)

Lemma attached_device_fields env d :
  attached_device env = Some d ->
  Forall segment_fields (layout_segments (layout d)).
Proof.
  intros H. apply first_attached_opened in H.
  destruct H as (iface & alt & extra & name & ->).
  unfold opened_device. cbn [layout].
  destruct (parse_alt_memory_layout_parsed (Some name) zero_layout) as [Hp _].
  eapply Forall_impl; [|exact Hp].
  intros s (cnt & _ & Hs & He & _). unfold segment_fields. lia.
Qed.

(** The steps of a chunk that is written: the erase of its range, the
    address pointer, the block of data. *)
Lemma write_chunk_steps fuel cfg env d firmware firmware_len written w d' written' w' :
  write_chunk fuel cfg env d firmware firmware_len written w
  = Done (Some (d', written')) w' ->
  let size := chunk_size_at d (chunk_segment d written) firmware_len written in
  exists w1 evs2 evs3,
    (if negb (mass_erased d)
        && match chunk_segment d written with Some _ => true | None => false end
     then dfu_erase_range fuel cfg env d (chunk_address written) (u32 size)
     else ret (true, d)) w = Done (true, d') w1
    /\ w_trace w'
       = w_trace w1
         ++ EvControl (dnload_request d' 0
                         (special_payload 0x21 (chunk_address written)) 5)
         :: evs2
         ++ EvControl (dnload_request d' data_block_number
                         (chunk_payload firmware written size)
                         (u16 (aligned_length size)))
         :: evs3
    /\ forallb quiet evs2 = true /\ forallb quiet evs3 = true
    /\ written' = written + size.
Proof.
  intros H. cbv zeta.
  unfold write_chunk in H. cbv zeta in H.
  fold (chunk_address written) in H. fold (chunk_segment d written) in H.
  set (size := chunk_size_at d (chunk_segment d written) firmware_len written) in *.
  match type of H with
  | (if ?c then _ else _) _ = _ => destruct c
  end.
  { step H. apply ret_inv in H. destruct H as [H _]. discriminate H. }
  step H as [erased d1] w1 E1.
  destruct erased; cbn [negb] in H.
  2:{ apply ret_inv in H. destruct H as [H _]. discriminate H. }
  step H as ok w2 E2.
  unfold dfu_set_address_pointer, dfu_send_special_command in E2.
  change (5 <? 5) with false in E2. cbv iota in E2.
  apply download_block_trace in E2. destruct E2 as (evs2 & T2 & Q2).
  destruct ok; cbn [negb] in H.
  2:{ apply ret_inv in H. destruct H as [H _]. discriminate H. }
  cbv zeta in H. step H as ok w3 E3.
  apply download_block_trace in E3. destruct E3 as (evs3 & T3 & Q3).
  destruct ok; cbn [negb] in H.
  2:{ step H. apply ret_inv in H. destruct H as [H _]. discriminate H. }
  apply ret_inv in H. destruct H as [H <-].
  apply some_pair_inv in H. destruct H as [<- <-].
  exists w1, evs2, evs3. split; [exact E1|].
  split; [rewrite T3, T2, <- app_assoc; reflexivity|]. auto.
Qed.

Lemma set_address_pointer_after d address pointer :
  0 <= address <= ULONG_MAX ->
  pointer_after [EvControl (dnload_request d 0 (special_payload 0x21 address) 5)]
                pointer
  = address.
Proof.
  intros Hr. cbn [pointer_after].
  change (is_set_address (dnload_request d 0 (special_payload 33 address) 5))
    with true. cbv iota.
  change (rq_data (dnload_request d 0 (special_payload 33 address) 5))
    with (special_payload 33 address).
  unfold payload_address, special_payload. cbn [nth]. unfold u8.
  unfold ULONG_MAX in Hr.
  change 255 with (Z.ones 8). rewrite !Z.land_ones by lia.
  rewrite !Z.shiftr_div_pow2 by lia.
  change (2 ^ 8) with 256. change (2 ^ 16) with 65536.
  change (2 ^ 24) with 16777216.
  rewrite !Z.mod_mod by lia.
  Z.div_mod_to_equations. lia.
Qed.

Lemma data_block_payload d firmware written size :
  0 <= written -> 1 <= size <= 65534 ->
  written + size <= Z.of_nat (List.length firmware) ->
  let rq := dnload_request d data_block_number
              (chunk_payload firmware written size) (u16 (aligned_length size)) in
  is_data_block rq = true
  /\ rq_data rq = chunk_payload firmware written size.
Proof.
  intros Hw Hs Hfit. cbv zeta.
  destruct (aligned_length_even size ltac:(lia)) as [Ha Ha'].
  assert (Hu : u16 (aligned_length size) = aligned_length size).
  { unfold u16. apply Z.mod_small. lia. }
  split.
  - unfold is_data_block, dnload_request, is_dnload.
    cbn [rq_in rq_code rq_value rq_length negb andb]. rewrite Hu.
    rewrite !Z.eqb_refl. cbn [andb]. apply Z.ltb_lt. lia.
  - unfold dnload_request. cbn [rq_data]. rewrite Hu. apply firstn_all2.
    rewrite chunk_payload_slice, length_app.
    pose proof (image_slice_length firmware written size ltac:(lia) ltac:(lia)
                  ltac:(lia)) as Hl.
    rewrite Ha'. destruct (size mod 2 =? 0); cbn [List.length]; lia.
Qed.

Lemma chunk_payload_byte firmware written size i :
  0 <= written -> 0 <= i < size ->
  written + size <= Z.of_nat (List.length firmware) ->
  nth_error (chunk_payload firmware written size) (Z.to_nat i)
  = nth_error firmware (Z.to_nat (written + i)).
Proof.
  intros Hw Hi Hfit. rewrite chunk_payload_slice. unfold image_slice.
  rewrite nth_error_app1 by (rewrite length_firstn, length_skipn; lia).
  rewrite nth_error_firstn.
  destruct (Nat.ltb_spec (Z.to_nat i) (Z.to_nat size)); [|lia].
  rewrite nth_error_skipn. f_equal. lia.
Qed.

Lemma plan_covers last first page_size end_ page :
  In page (pages_of_range first page_size end_) ->
  In page (erase_plan last first page_size end_) \/ page = last.
Proof.
  unfold erase_plan. destruct (pages_of_range first page_size end_) as [|p rest].
  - intros [].
  - destruct (Z.eqb_spec last p) as [->|Hneq]; cbn [In]; intuition auto.
Qed.

Lemma last_in {A} (l : list A) default : l <> [] -> In (last l default) l.
Proof.
  induction l as [|x l IH]; [congruence|]. intros _.
  destruct l as [|y l]; [left; reflexivity|].
  right. apply IH. discriminate.
Qed.

Lemma written_after_erase_more l firmware pointer evs post k :
  written_after_erase l firmware pointer evs k ->
  written_after_erase l firmware pointer (evs ++ post) k.
Proof.
  intros (tr1 & rq & tr2 & s & -> & H). exists tr1, rq, (tr2 ++ post), s.
  split; [|exact H]. now rewrite <- app_assoc.
Qed.

Section ErasedBeforeWritten.

Variables (fuel : nat) (cfg : caller) (env : environment).
Variables (firmware : list Z) (firmware_len : Z).
Hypothesis firmware_length : Z.of_nat (List.length firmware) = firmware_len.
Hypothesis image_fits : STM32_BASE_ADDRESS + firmware_len <= ULONG_MAX + 1.

(** A chunk that is written on a device whose layout is known: the pages
    of its bytes are erased before its block is sent. *)
Lemma write_chunk_erased d written w d' written' w' pre :
  0 <= written < firmware_len ->
  1 <= transfer_size d <= 65534 ->
  layout_valid d = true -> mass_erased d = false ->
  Forall segment_invariant (layout_segments (layout d)) ->
  Forall segment_fields (layout_segments (layout d)) ->
  non_overlapping (layout_segments (layout d)) ->
  last_page_erased d pre ->
  write_chunk fuel cfg env d firmware firmware_len written w
  = Done (Some (d', written')) w' ->
  exists evs,
    w_trace w' = w_trace w ++ evs
    /\ written < written' <= firmware_len
    /\ same_session d d'
    /\ last_page_erased d' (pre ++ evs)
    /\ forall k, written <= k < written' ->
                 forall pointer,
                   written_after_erase (layout d) firmware pointer (pre ++ evs) k.
Proof.
  intros Hw Ht Hv Hm Hinv Hfields Hno Hlast H.
  pose proof (write_chunk_done _ _ _ _ _ _ _ _ _ _ _ H) as (Hs & Hw' & Hseg).
  destruct (Hseg Hv) as [s Hfind].
  assert (Ecs : chunk_segment d written = Some s)
    by (unfold chunk_segment; now rewrite Hv).
  pose proof (find_segment_some _ _ _ Hfind) as [Hin Hc].
  rewrite Forall_forall in Hinv, Hfields.
  pose proof (Hinv s Hin) as Hsi. destruct (Hfields s Hin) as [Hstart Hend].
  pose proof (chunk_size_at_bounds d (chunk_segment d written) firmware_len written
                (proj2 Hw) ltac:(lia)
                (fun s => chunk_segment_contains d written s)) as Hb.
  cbv zeta in Hb. destruct Hb as (Hsize & Hsegend & Hone).
  specialize (Hsegend s Ecs).
  assert (Hpos : 1 <= chunk_size_at d (chunk_segment d written) firmware_len written).
  { apply Hone; [lia|]. intros s0 Hs0. rewrite Ecs in Hs0.
    apply some_inv in Hs0. now subst s0. }
  pose proof (chunk_size_at_transfer d (chunk_segment d written) firmware_len written)
    as Hmax.
  pose proof (write_chunk_steps _ _ _ _ _ _ _ _ _ _ _ H)
    as (w1 & evs2 & evs3 & E1 & T & Q2 & Q3 & _).
  cbv zeta in E1, T.
  set (size := chunk_size_at d (chunk_segment d written) firmware_len written) in *.
  assert (Ha : chunk_address written = image_address written)
    by (apply chunk_address_small; unfold ULONG_MAX in *; lia).
  rewrite Hm, Ecs in E1. cbn [negb andb] in E1.
  rewrite (u32_small size) in E1 by (unfold ULONG_MAX; lia).
  apply (erase_range_pages _ _ _ _ s) in E1; auto; [|lia|lia].
  cbv zeta in E1. destruct E1 as (evs1 & T1 & P1 & L1 & Hcover).
  set (sa := EvControl (dnload_request d' 0
                          (special_payload 33 (chunk_address written)) 5)) in *.
  set (data := dnload_request d' data_block_number
                 (chunk_payload firmware written size)
                 (u16 (aligned_length size))) in *.
  assert (Hsa : erased_pages [sa] = []) by reflexivity.
  assert (Hpages : forall page,
             In page (pages_of_range (page_base_of s (chunk_address written))
                                     (seg_page_size s)
                                     (chunk_address written + size)) ->
             In page (erased_pages (pre ++ evs1))).
  { intros page Hp. rewrite erased_pages_app, P1. apply in_or_app.
    destruct (plan_covers (last_erased_page d) _ _ _ _ Hp) as [Hplan|Heq];
      [right; exact Hplan|left].
    subst page. destruct Hlast as [Hno_page|Hlast]; [|exact Hlast].
    exfalso.
    apply in_pages_of_range in Hp; [|destruct Hsi; lia].
    unfold contains in Hc. unfold NO_PAGE, ULONG_MAX in *. lia. }
  exists (evs1 ++ (sa :: evs2) ++ EvControl data :: evs3).
  split; [rewrite T, T1, <- !app_assoc; reflexivity|].
  split; [lia|]. split; [exact Hs|]. split.
  - right. rewrite L1.
    assert (Hne : pages_of_range (page_base_of s (chunk_address written))
                                 (seg_page_size s) (chunk_address written + size)
                  <> []).
    { intros Hnil.
      assert (Hhd : In (page_base_of s (chunk_address written))
                       (pages_of_range (page_base_of s (chunk_address written))
                                       (seg_page_size s)
                                       (chunk_address written + size))).
      { apply Hcover. exists (chunk_address written). split; [lia|reflexivity]. }
      rewrite Hnil in Hhd. exact Hhd. }
    pose proof (Hpages _ (last_in _ (last_erased_page d) Hne)) as Hl.
    rewrite app_assoc, erased_pages_app. apply in_or_app. left. exact Hl.
  - intros k Hk pointer.
    exists (pre ++ evs1 ++ sa :: evs2), data, evs3, s.
    assert (Hptr : pointer_after (pre ++ evs1 ++ sa :: evs2) pointer
                   = chunk_address written).
    { rewrite !pointer_after_app.
      change (sa :: evs2) with ([sa] ++ evs2). rewrite pointer_after_app.
      unfold sa. rewrite set_address_pointer_after
        by (rewrite Ha; unfold image_address, STM32_BASE_ADDRESS, ULONG_MAX in *; lia).
      exact (proj2 (neutral_writes evs2 _ (quiet_neutral _ Q2))). }
    destruct (data_block_payload d' firmware written size ltac:(lia) ltac:(lia)
                ltac:(lia)) as [Hdb Hdata].
    fold data in Hdb, Hdata.
    assert (Hcb : contains s (image_address k))
      by (unfold contains, image_address in *; lia).
    split; [rewrite <- !app_assoc; reflexivity|].
    split; [exact Hdb|]. rewrite Hptr, Ha.
    split; [unfold image_address; lia|]. split; [|split].
    + rewrite Hdata.
      replace (image_address k - image_address written) with (k - written)
        by (unfold image_address; lia).
      rewrite chunk_payload_byte by lia. f_equal. lia.
    + apply find_segment_unique; auto.
    + rewrite app_assoc, erased_pages_app. apply in_or_app. left.
      apply Hpages. apply Hcover. exists (image_address k).
      split; [unfold image_address in *; lia|reflexivity].
Qed.

Lemma write_loop_erased n :
  forall d written w w' pre,
    0 <= written <= firmware_len ->
    1 <= transfer_size d <= 65534 ->
    layout_valid d = true -> mass_erased d = false ->
    Forall segment_invariant (layout_segments (layout d)) ->
    Forall segment_fields (layout_segments (layout d)) ->
    non_overlapping (layout_segments (layout d)) ->
    last_page_erased d pre ->
    write_loop n fuel cfg env d firmware firmware_len written w = Done true w' ->
    exists evs,
      w_trace w' = w_trace w ++ evs
      /\ forall k, written <= k < firmware_len ->
                   forall pointer,
                     written_after_erase (layout d) firmware pointer (pre ++ evs) k.
Proof.
  induction n as [|n IH];
    intros d written w w' pre Hw Ht Hv Hm Hinv Hfields Hno Hlast H;
    cbn [write_loop] in H.
  - destruct (Z.ltb_spec written firmware_len); [discriminate|].
    apply ret_inv in H. destruct H as [_ <-].
    exists []. rewrite app_nil_r. split; [reflexivity|]. intros k Hk. lia.
  - destruct (Z.ltb_spec written firmware_len) as [Hlt|].
    2:{ apply ret_inv in H. destruct H as [_ <-].
        exists []. rewrite app_nil_r. split; [reflexivity|]. intros k Hk. lia. }
    step H as r w1 E1. destruct r as [[d1 written1]|]; [|discriminate H].
    apply (write_chunk_erased _ _ _ _ _ _ pre) in E1; auto; [|lia].
    destruct E1 as (evs1 & T1 & Hw1 & Hs & Hlast1 & Hbytes).
    step H as [] w2 E2.
    apply (only_run neutral) in E2; [|frame].
    destruct E2 as (evs2 & T2 & Q2).
    destruct (same_session_fields _ _ Hs) as (Hl & Hv1 & Ht1 & Hm1 & _).
    apply (IH d1 written1 w2 w' (pre ++ evs1 ++ evs2)) in H;
      try (rewrite ?Hl, ?Hv1, ?Ht1, ?Hm1; auto; lia).
    2:{ destruct Hlast1 as [Hn|Hi]; [left; exact Hn|right].
        rewrite app_assoc, erased_pages_app. apply in_or_app. now left. }
    destruct H as (evs3 & T3 & Hrest).
    exists (evs1 ++ evs2 ++ evs3).
    split; [rewrite T3, T2, T1, <- !app_assoc; reflexivity|].
    intros k Hk pointer.
    destruct (Z.lt_ge_cases k written1) as [Hin|Hout].
    + rewrite app_assoc. apply written_after_erase_more.
      apply Hbytes. lia.
    + rewrite <- Hl.
      replace (pre ++ evs1 ++ evs2 ++ evs3) with ((pre ++ evs1 ++ evs2) ++ evs3)
        by (rewrite <- !app_assoc; reflexivity).
      apply Hrest. lia.
Qed.

End ErasedBeforeWritten.

(** X15: in a run of [dfu_loader_flash] that returns true on a device
    whose layout is known and keeps the layout invariant, every byte of
    the image is sent in a block of data that puts it at its address, the
    base address plus its offset, and the erase-page command of the page
    of that address is sent before that block. *)
Theorem flash_erases_before_writing fuel cfg env w w' firmware firmware_len d0 :
  dfu_loader_flash fuel cfg env w = Done true w' ->
  loaded_image cfg env = Some (firmware, firmware_len) ->
  attached_device env = Some d0 ->
  layout_valid d0 = true ->
  memory_layout_invariant (layout_segments (layout d0)) ->
  transfer_size d0 <= 65534 ->
  STM32_BASE_ADDRESS + firmware_len <= ULONG_MAX + 1 ->
  exists evs,
    w_trace w' = w_trace w ++ evs
    /\ forall k, 0 <= k < firmware_len ->
                 forall pointer,
                   written_after_erase (layout d0) firmware pointer evs k.
Proof.
  intros H Himage Hdev Hv [Hinv Hno] Hmax Hfit.
  destruct (loaded_image_length _ _ _ _ Himage) as [Hpos Hlen].
  pose proof (attached_device_transfer _ _ Hdev) as Ht.
  pose proof (attached_device_fields _ _ Hdev) as Hfields.
  unfold dfu_loader_flash, flash_steps in H.
  step H as [success d1] w3 E.
  pose proof (cleanup_result _ _ _ _ _ _ H) as <-.
  apply (only_run no_write) in H; [|apply only_cleanup; frame].
  destruct H as (evs5 & T5 & _).
  step E as [] w4 E0.
  apply (only_run no_write) in E0; [|frame]. destruct E0 as (evs0 & T0 & _).
  step E as [] w5 E1.
  apply (only_run no_write) in E1; [|frame]. destruct E1 as (evs1 & T1 & _).
  unfold flash_body in E. step E as [[ready d2] [fw len]] w6 E2.
  destruct ready; cbn [negb] in E; [|discriminate E].
  pose proof (flash_prepare_ready _ _ _ _ _ _ _ E2) as (Himage' & d0' & Hdev' & -> & _).
  rewrite Himage in Himage'. injection Himage' as <- <-.
  rewrite Hdev in Hdev'. injection Hdev' as <-.
  apply (only_run no_write) in E2; [|apply only_flash_prepare; frame].
  destruct E2 as (evs2 & T2 & _).
  step E as ok w7 E3. destruct ok; cbn [negb] in E; [|discriminate E].
  step E as ok w8 E4. injection E as -> <- <-.
  apply (only_run no_write) in E4; [|apply no_write_flash_finish].
  destruct E4 as (evs4 & T4 & _).
  destruct (session_device_layout d0) as (Hl & Hv' & Hts & _ & Hme & Hlp).
  apply (write_loop_erased _ _ _ _ _ Hlen Hfit _ _ _ _ _ (evs0 ++ evs1 ++ evs2))
    in E3; rewrite ?Hl, ?Hv', ?Hts, ?Hme, ?Hv; auto; try lia.
  2:{ left. exact Hlp. }
  destruct E3 as (evs3 & T3 & Hbytes).
  exists (((evs0 ++ evs1 ++ evs2) ++ evs3) ++ evs4 ++ evs5).
  split; [rewrite T5, T4, T3, T2, T1, T0, <- !app_assoc; reflexivity|].
  intros k Hk pointer. apply written_after_erase_more.
  rewrite <- Hl. apply Hbytes. exact Hk.
Qed.


Lemma flash_erases_before_writing_witness :
  exists evs,
    w_trace (result_world
               (dfu_loader_flash 4 (plain_caller 64)
                  (scenario accepting_device 5 4 "/0x08000000/16*001Kg")
                  (initial_world (repeat "x"%char 64))))
    = evs
    /\ written_after_erase
         (layout (opened_device 0 0 (functional_descriptor 4) "/0x08000000/16*001Kg"))
         (repeat 0xAA 5) 0 evs 4.
Proof.
  assert (Hsegs : layout_segments
                    (layout (opened_device 0 0 (functional_descriptor 4)
                                           "/0x08000000/16*001Kg"))
                  = [mk_segment 0x08000000 0x08004000 1024])
    by (vm_compute; reflexivity).
  destruct (flash_erases_before_writing 4%nat (plain_caller 64%nat)
              (scenario accepting_device 5 4 "/0x08000000/16*001Kg")
              (initial_world (repeat "x"%char 64%nat))
              (result_world
                 (dfu_loader_flash 4 (plain_caller 64)
                    (scenario accepting_device 5 4 "/0x08000000/16*001Kg")
                    (initial_world (repeat "x"%char 64))))
              (repeat 0xAA 5%nat) 5
              (opened_device 0 0 (functional_descriptor 4) "/0x08000000/16*001Kg"))
    as (evs & T & H).
  - vm_compute. reflexivity.
  - vm_compute. reflexivity.
  - vm_compute. reflexivity.
  - vm_compute. reflexivity.
  - rewrite Hsegs. split.
    + constructor; [|constructor]. repeat split; vm_compute; congruence.
    + intros [|i] [|j] s t Hi Hj Hne; try congruence;
        try (destruct i; discriminate); destruct j; discriminate.
  - vm_compute. discriminate.
  - vm_compute. discriminate.
  - exists evs. split; [exact T|]. apply H. lia.
Defined.

(** ** Pages erased once *)

Lemma increasing_tail x l : increasing (x :: l) -> increasing l.
Proof. intros [_ H]. exact H. Qed.

Lemma increasing_lt x l : increasing (x :: l) -> forall y, In y l -> x < y.
Proof.
  revert x. induction l as [|a l IH]; intros x H y Hy; [destruct Hy|].
  destruct H as [Hxa H]. destruct Hy as [<-|Hy]; [exact Hxa|].
  pose proof (IH a H y Hy). lia.
Qed.

Lemma increasing_split l1 l2 x :
  increasing (l1 ++ l2) -> In x l1 -> ~ In x l2.
Proof.
  induction l1 as [|a l1 IH]; intros H Hx; [destruct Hx|].
  destruct Hx as [<-|Hx].
  - intros Hin. pose proof (increasing_lt a (l1 ++ l2) H a) as Hlt.
    specialize (Hlt (in_or_app _ _ _ (or_intror Hin))). lia.
  - apply IH; [|exact Hx]. exact (increasing_tail _ _ H).
Qed.

Lemma increasing_le_last l default y :
  increasing l -> In y l -> y <= last l default.
Proof.
  induction l as [|a l IH]; intros H Hy; [destruct Hy|].
  destruct l as [|b l].
  - destruct Hy as [<-|[]]. cbn. lia.
  - change (last (a :: b :: l) default) with (last (b :: l) default).
    destruct Hy as [->|Hy].
    + pose proof (increasing_lt y (b :: l) H (last (b :: l) default)) as Hlt.
      assert (Hne : b :: l <> []) by discriminate.
      specialize (Hlt (last_in _ default Hne)). lia.
    + apply IH; [exact (increasing_tail _ _ H)|exact Hy].
Qed.

Lemma last_page_last l default : l <> [] -> last_page l = Some (last l default).
Proof.
  induction l as [|a l IH]; [congruence|]. intros _.
  destruct l as [|b l]; [reflexivity|].
  change (last_page (a :: b :: l)) with (last_page (b :: l)).
  change (last (a :: b :: l) default) with (last (b :: l) default).
  apply IH. discriminate.
Qed.

Lemma last_page_app l1 l2 : l2 <> [] -> last_page (l1 ++ l2) = last_page l2.
Proof.
  intros H. induction l1 as [|a l1 IH]; [reflexivity|].
  cbn [app]. destruct (l1 ++ l2) as [|b l] eqn:E.
  - apply app_eq_nil in E. destruct E as [_ E]. contradiction.
  - change (last_page (a :: b :: l)) with (last_page (b :: l)). exact IH.
Qed.

Lemma increasing_app l1 l2 :
  increasing l1 -> increasing l2 ->
  (forall x y, last_page l1 = Some x -> hd_error l2 = Some y -> x < y) ->
  increasing (l1 ++ l2).
Proof.
  induction l1 as [|a l1 IH]; intros H1 H2 Hb; [exact H2|].
  destruct l1 as [|b l1].
  - cbn [app]. destruct l2 as [|y l2]; [cbn; auto|].
    split; [apply Hb; reflexivity|exact H2].
  - destruct H1 as [Hab H1].
    change ((a :: b :: l1) ++ l2) with (a :: (b :: l1) ++ l2).
    split; [exact Hab|]. apply IH; [exact H1|exact H2|].
    intros x y Hx Hy. apply Hb; [exact Hx|exact Hy].
Qed.

Lemma increasing_page_seq first page_size n :
  0 < page_size -> increasing (page_seq first page_size n).
Proof.
  intros Hps. revert first. induction n as [|n IH]; intros first; [exact I|].
  cbn [page_seq]. split; [|apply IH].
  destruct n; cbn [page_seq]; [exact I|lia].
Qed.

Lemma page_base_of_lower s address :
  0 <= seg_start s -> seg_end s <= ULONG_MAX -> 0 < seg_page_size s ->
  contains s address -> seg_start s <= page_base_of s address.
Proof.
  intros Hstart Hend Hps Hc. rewrite (page_base_of_eq s address Hstart Hend Hps Hc).
  unfold contains in Hc.
  pose proof (Z.div_pos (address - seg_start s) (seg_page_size s) ltac:(lia) Hps).
  nia.
Qed.

Lemma page_base_of_mono s a b :
  0 <= seg_start s -> seg_end s <= ULONG_MAX -> 0 < seg_page_size s ->
  contains s a -> contains s b -> a <= b ->
  page_base_of s a <= page_base_of s b.
Proof.
  intros Hstart Hend Hps Ha Hb Hab.
  rewrite (page_base_of_eq s a Hstart Hend Hps Ha),
    (page_base_of_eq s b Hstart Hend Hps Hb).
  pose proof (Z.div_le_mono (a - seg_start s) (b - seg_start s) (seg_page_size s)
                Hps ltac:(lia)).
  nia.
Qed.

(** The page of an address is not below the page of the address before
    it, whatever segments of the layout the two lie in. *)
Lemma page_order segs s s' address :
  non_overlapping segs -> Forall segment_invariant segs ->
  Forall segment_fields segs ->
  In s segs -> In s' segs ->
  contains s' (address - 1) -> contains s address ->
  page_base_of s' (address - 1) <= page_base_of s address.
Proof.
  intros Hno Hinv Hfields Hs Hs' Hc' Hc.
  rewrite Forall_forall in Hinv, Hfields.
  destruct (Hinv s Hs) as (_ & Hps & _). destruct (Hfields s Hs) as [Hst He].
  destruct (Hinv s' Hs') as (_ & Hps' & _). destruct (Hfields s' Hs') as [Hst' He'].
  pose proof (page_base_of_bounds s' _ Hst' He' ltac:(lia) Hc') as [Hb' _].
  pose proof (page_base_of_lower s _ Hst He ltac:(lia) Hc) as Hlo.
  destruct (In_nth_error _ _ Hs) as [i Hi].
  destruct (In_nth_error _ _ Hs') as [j Hj].
  destruct (Nat.eq_dec i j) as [->|Hne].
  - rewrite Hi in Hj. injection Hj as <-.
    apply page_base_of_mono; auto; lia.
  - destruct (Hno i j s s' Hi Hj Hne) as [Hd|Hd]; unfold contains in *; lia.
Qed.

Section ErasedOnce.

Variables (fuel : nat) (cfg : caller) (env : environment).
Variables (firmware : list Z) (firmware_len : Z).
Hypothesis image_fits : STM32_BASE_ADDRESS + firmware_len <= ULONG_MAX + 1.

Lemma write_chunk_ascending d written w d' written' w' pre :
  0 <= written < firmware_len ->
  1 <= transfer_size d ->
  layout_valid d = true -> mass_erased d = false ->
  Forall segment_invariant (layout_segments (layout d)) ->
  Forall segment_fields (layout_segments (layout d)) ->
  non_overlapping (layout_segments (layout d)) ->
  erased_up_to d written (erased_pages pre) ->
  write_chunk fuel cfg env d firmware firmware_len written w
  = Done (Some (d', written')) w' ->
  exists evs,
    w_trace w' = w_trace w ++ evs
    /\ written < written' <= firmware_len
    /\ same_session d d'
    /\ erased_up_to d' written' (erased_pages (pre ++ evs)).
Proof.
  intros Hw Ht Hv Hm Hinv Hfields Hno [Hinc Hlast] H.
  pose proof (write_chunk_done _ _ _ _ _ _ _ _ _ _ _ H) as (Hs & Hw' & Hseg).
  destruct (Hseg Hv) as [s Hfind].
  assert (Ecs : chunk_segment d written = Some s)
    by (unfold chunk_segment; now rewrite Hv).
  pose proof (find_segment_some _ _ _ Hfind) as [Hin Hc].
  pose proof Hinv as Hinv'. pose proof Hfields as Hfields'.
  rewrite Forall_forall in Hinv', Hfields'.
  pose proof (Hinv' s Hin) as Hsi. destruct (Hfields' s Hin) as [Hstart Hend].
  assert (Hps : 0 < seg_page_size s) by (destruct Hsi; lia).
  pose proof (chunk_size_at_bounds d (chunk_segment d written) firmware_len written
                (proj2 Hw) ltac:(lia)
                (fun s => chunk_segment_contains d written s)) as Hb.
  cbv zeta in Hb. destruct Hb as (Hsize & Hsegend & Hone).
  specialize (Hsegend s Ecs).
  assert (Hpos : 1 <= chunk_size_at d (chunk_segment d written) firmware_len written).
  { apply Hone; [lia|]. intros s0 Hs0. rewrite Ecs in Hs0.
    apply some_inv in Hs0. now subst s0. }
  pose proof (write_chunk_steps _ _ _ _ _ _ _ _ _ _ _ H)
    as (w1 & evs2 & evs3 & E1 & T & Q2 & Q3 & _).
  cbv zeta in E1, T.
  set (size := chunk_size_at d (chunk_segment d written) firmware_len written) in *.
  assert (Ha : chunk_address written = image_address written)
    by (apply chunk_address_small; unfold ULONG_MAX in *; lia).
  rewrite Hm, Ecs in E1. cbn [negb andb] in E1.
  rewrite (u32_small size) in E1
    by (unfold ULONG_MAX, STM32_BASE_ADDRESS in *; lia).
  apply (erase_range_pages _ _ _ _ s) in E1; auto; [|lia|lia].
  cbv zeta in E1. destruct E1 as (evs1 & T1 & P1 & L1 & Hcover).
  set (sa := EvControl (dnload_request d' 0
                          (special_payload 33 (chunk_address written)) 5)) in *.
  set (data := EvControl (dnload_request d' data_block_number
                            (chunk_payload firmware written size)
                            (u16 (aligned_length size)))) in *.
  set (first := page_base_of s (chunk_address written)) in *.
  set (stop := chunk_address written + size) in *.
  set (pages := pages_of_range first (seg_page_size s) stop) in *.
  pose proof (page_base_of_bounds s _ Hstart Hend Hps Hc) as [Hfirst _].
  fold first in Hfirst.
  assert (Hcons : pages
                  = first :: pages_of_range (first + seg_page_size s)
                                            (seg_page_size s) stop)
    by (apply pages_of_range_cons; unfold stop; lia).
  assert (Hpinc : increasing pages) by (apply increasing_page_seq; exact Hps).
  assert (Hclast : contains s (stop - 1))
    by (unfold contains, stop in *; lia).
  assert (Hplast : last pages (last_erased_page d) = page_base_of s (stop - 1)).
  { assert (Hne : pages <> []) by (rewrite Hcons; discriminate).
    pose proof (last_in pages (last_erased_page d) Hne) as Hl.
    apply Hcover in Hl. destruct Hl as (b & Hb & Hl).
    assert (Hi : In (page_base_of s (stop - 1)) pages)
      by (apply Hcover; exists (stop - 1); unfold stop; split; [lia|reflexivity]).
    pose proof (increasing_le_last pages (last_erased_page d) _ Hpinc Hi) as Hle.
    rewrite Hl in *.
    pose proof (page_base_of_mono s b (stop - 1) Hstart Hend Hps
                  ltac:(unfold contains, stop in *; lia) Hclast
                  ltac:(unfold stop; lia)).
    lia. }
  assert (Hpages : erased_pages (pre ++ evs1 ++ (sa :: evs2) ++ data :: evs3)
                   = erased_pages pre
                     ++ erase_plan (last_erased_page d) first (seg_page_size s) stop).
  { rewrite !erased_pages_app, P1.
    change (sa :: evs2) with ([sa] ++ evs2).
    change (data :: evs3) with ([data] ++ evs3).
    rewrite !erased_pages_app, (quiet_pages _ Q2), (quiet_pages _ Q3).
    change (erased_pages [sa]) with (@nil Z).
    change (erased_pages [data]) with (@nil Z).
    now rewrite !app_nil_r. }
  exists (evs1 ++ (sa :: evs2) ++ data :: evs3).
  split; [rewrite T, T1, <- !app_assoc; reflexivity|].
  split; [lia|]. split; [exact Hs|].
  rewrite Hpages. unfold erase_plan. fold pages. rewrite Hcons.
  set (rest := pages_of_range (first + seg_page_size s) (seg_page_size s) stop) in *.
  assert (Hbound : forall x, last_page (erased_pages pre) = Some x ->
                             last_erased_page d = x /\ x <= first).
  { intros x Hx. destruct (Hlast x Hx) as (Hd & s' & Hs' & Hc' & ->).
    split; [exact Hd|]. unfold first. rewrite Ha.
    apply (page_order (layout_segments (layout d))); auto.
    now rewrite <- Ha. }
  assert (Hwritten : image_address written' - 1 = stop - 1)
    by (unfold stop; rewrite Ha; unfold image_address; lia).
  destruct (same_session_fields _ _ Hs) as (Hl & _).
  assert (Hend' : forall x, x = page_base_of s (stop - 1) ->
             last_erased_page d' = x
             /\ exists s0, In s0 (layout_segments (layout d'))
                           /\ contains s0 (image_address written' - 1)
                           /\ x = page_base_of s0 (image_address written' - 1)).
  { intros x ->. split; [now rewrite L1|].
    exists s. rewrite Hl, Hwritten. auto. }
  rewrite Hcons in Hplast, Hpinc.
  destruct (Z.eqb_spec (last_erased_page d) first) as [Heq|Hneq].
  - split.
    + apply increasing_app; [exact Hinc|exact (increasing_tail _ _ Hpinc)|].
      intros x y Hx Hy. destruct (Hbound x Hx) as [Hd _].
      destruct rest as [|r rest']; [discriminate Hy|].
      injection Hy as <-. destruct Hpinc as [Hlt _]. lia.
    + intros x Hx. apply Hend'.
      destruct rest as [|r rest'].
      * rewrite app_nil_r in Hx. destruct (Hbound x Hx) as [Hd _].
        rewrite <- Hplast. cbn [last]. lia.
      * rewrite last_page_app in Hx by discriminate.
        rewrite (last_page_last _ (last_erased_page d)) in Hx by discriminate.
        injection Hx as <-. rewrite <- Hplast. reflexivity.
  - split.
    + apply increasing_app; [exact Hinc|exact Hpinc|].
      intros x y Hx Hy. destruct (Hbound x Hx) as [Hd Hle].
      injection Hy as <-. lia.
    + intros x Hx. apply Hend'.
      rewrite last_page_app in Hx by discriminate.
      rewrite (last_page_last _ (last_erased_page d)) in Hx by discriminate.
      injection Hx as <-. exact Hplast.
Qed.

Lemma write_loop_ascending n :
  forall d written w w' pre,
    0 <= written <= firmware_len ->
    1 <= transfer_size d ->
    layout_valid d = true -> mass_erased d = false ->
    Forall segment_invariant (layout_segments (layout d)) ->
    Forall segment_fields (layout_segments (layout d)) ->
    non_overlapping (layout_segments (layout d)) ->
    erased_up_to d written (erased_pages pre) ->
    write_loop n fuel cfg env d firmware firmware_len written w = Done true w' ->
    exists evs,
      w_trace w' = w_trace w ++ evs /\ increasing (erased_pages (pre ++ evs)).
Proof.
  induction n as [|n IH];
    intros d written w w' pre Hw Ht Hv Hm Hinv Hfields Hno Hup H;
    cbn [write_loop] in H.
  - destruct (Z.ltb_spec written firmware_len); [discriminate|].
    apply ret_inv in H. destruct H as [_ <-].
    exists []. rewrite !app_nil_r. split; [reflexivity|exact (proj1 Hup)].
  - destruct (Z.ltb_spec written firmware_len) as [Hlt|].
    2:{ apply ret_inv in H. destruct H as [_ <-].
        exists []. rewrite !app_nil_r. split; [reflexivity|exact (proj1 Hup)]. }
    step H as r w1 E1. destruct r as [[d1 written1]|]; [|discriminate H].
    apply (write_chunk_ascending _ _ _ _ _ _ pre) in E1; auto; [|lia].
    destruct E1 as (evs1 & T1 & Hw1 & Hs & Hup1).
    step H as [] w2 E2.
    apply (only_run not_erase_page) in E2; [|frame].
    destruct E2 as (evs2 & T2 & Q2).
    destruct (same_session_fields _ _ Hs) as (Hl & Hv1 & Ht1 & Hm1 & _).
    apply (IH d1 written1 w2 w' (pre ++ evs1 ++ evs2)) in H;
      try (rewrite ?Hl, ?Hv1, ?Ht1, ?Hm1; auto; lia).
    2:{ rewrite app_assoc, erased_pages_app, (not_erase_page_pages _ Q2), app_nil_r.
        exact Hup1. }
    destruct H as (evs3 & T3 & Hrest).
    exists (evs1 ++ evs2 ++ evs3).
    split; [rewrite T3, T2, T1, <- !app_assoc; reflexivity|].
    now rewrite <- !app_assoc in Hrest.
Qed.

End ErasedOnce.

(** X16: in a run of [dfu_loader_flash] that returns true on a device
    whose layout is known and keeps the layout invariant, the erase-page
    commands are sent in strictly ascending order of their pages: no page
    is erased twice, and a page erased before some point of the run is
    not erased after it. *)
Theorem flash_erases_once fuel cfg env w w' firmware firmware_len d0 :
  dfu_loader_flash fuel cfg env w = Done true w' ->
  loaded_image cfg env = Some (firmware, firmware_len) ->
  attached_device env = Some d0 ->
  layout_valid d0 = true ->
  memory_layout_invariant (layout_segments (layout d0)) ->
  STM32_BASE_ADDRESS + firmware_len <= ULONG_MAX + 1 ->
  exists evs,
    w_trace w' = w_trace w ++ evs
    /\ increasing (erased_pages evs)
    /\ forall tr1 tr2 page,
         evs = tr1 ++ tr2 -> In page (erased_pages tr1) ->
         ~ In page (erased_pages tr2).
Proof.
  intros H Himage Hdev Hv [Hinv Hno] Hfit.
  destruct (loaded_image_length _ _ _ _ Himage) as [Hpos Hlen].
  pose proof (attached_device_transfer _ _ Hdev) as Ht.
  pose proof (attached_device_fields _ _ Hdev) as Hfields.
  unfold dfu_loader_flash, flash_steps in H.
  step H as [success d1] w3 E.
  pose proof (cleanup_result _ _ _ _ _ _ H) as <-.
  apply (only_run not_erase_page) in H; [|apply only_cleanup; frame].
  destruct H as (evs5 & T5 & Q5).
  step E as [] w4 E0.
  apply (only_run not_erase_page) in E0; [|frame]. destruct E0 as (evs0 & T0 & Q0).
  step E as [] w5 E1.
  apply (only_run not_erase_page) in E1; [|frame]. destruct E1 as (evs1 & T1 & Q1).
  unfold flash_body in E. step E as [[ready d2] [fw len]] w6 E2.
  destruct ready; cbn [negb] in E; [|discriminate E].
  pose proof (flash_prepare_ready _ _ _ _ _ _ _ E2) as (Himage' & d0' & Hdev' & -> & _).
  rewrite Himage in Himage'. injection Himage' as <- <-.
  rewrite Hdev in Hdev'. injection Hdev' as <-.
  apply (only_run not_erase_page) in E2; [|apply only_flash_prepare; frame].
  destruct E2 as (evs2 & T2 & Q2).
  step E as ok w7 E3. destruct ok; cbn [negb] in E; [|discriminate E].
  step E as ok w8 E4. injection E as -> <- <-.
  apply (only_run not_erase_page) in E4; [|apply only_flash_finish; frame].
  destruct E4 as (evs4 & T4 & Q4).
  destruct (session_device_layout d0) as (Hl & Hv' & Hts & _ & Hme & Hlp).
  assert (Hpre : erased_pages (evs0 ++ evs1 ++ evs2) = []).
  { rewrite !erased_pages_app, !not_erase_page_pages by assumption. reflexivity. }
  apply (write_loop_ascending _ _ _ _ _ Hfit _ _ _ _ _ (evs0 ++ evs1 ++ evs2))
    in E3; rewrite ?Hl, ?Hv', ?Hts, ?Hme, ?Hv; auto; try lia.
  2:{ rewrite Hpre. split; [exact I|]. intros x Hx. discriminate Hx. }
  destruct E3 as (evs3 & T3 & Hinc).
  exists (((evs0 ++ evs1 ++ evs2) ++ evs3) ++ evs4 ++ evs5).
  split; [rewrite T5, T4, T3, T2, T1, T0, <- !app_assoc; reflexivity|].
  assert (Hall : increasing
                   (erased_pages (((evs0 ++ evs1 ++ evs2) ++ evs3) ++ evs4 ++ evs5))).
  { rewrite (erased_pages_app _ (evs4 ++ evs5)), (erased_pages_app evs4).
    rewrite (not_erase_page_pages _ Q4), (not_erase_page_pages _ Q5), !app_nil_r.
    exact Hinc. }
  split; [exact Hall|].
  intros tr1 tr2 page Hsplit. rewrite Hsplit, erased_pages_app in Hall.
  now apply increasing_split.
Qed.

Lemma flash_erases_once_witness :
  exists evs,
    w_trace (result_world
               (dfu_loader_flash 8 (plain_caller 64)
                  (scenario accepting_device 3000 1024 "/0x08000000/16*001Kg")
                  (initial_world (repeat "x"%char 64))))
    = evs
    /\ increasing (erased_pages evs)
    /\ forall tr1 tr2 page,
         evs = tr1 ++ tr2 -> In page (erased_pages tr1) ->
         ~ In page (erased_pages tr2).
Proof.
  assert (Hsegs : layout_segments
                    (layout (opened_device 0 0 (functional_descriptor 1024)
                                           "/0x08000000/16*001Kg"))
                  = [mk_segment 0x08000000 0x08004000 1024])
    by (vm_compute; reflexivity).
  apply (flash_erases_once 8%nat (plain_caller 64%nat)
           (scenario accepting_device 3000 1024 "/0x08000000/16*001Kg")
           (initial_world (repeat "x"%char 64%nat)) _
           (repeat 0xAA 3000%nat) 3000
           (opened_device 0 0 (functional_descriptor 1024) "/0x08000000/16*001Kg")).
  - vm_compute. reflexivity.
  - vm_compute. reflexivity.
  - vm_compute. reflexivity.
  - vm_compute. reflexivity.
  - rewrite Hsegs. split.
    + constructor; [|constructor]. repeat split; vm_compute; congruence.
    + intros [|i] [|j] s t Hi Hj Hne; try congruence;
        try (destruct i; discriminate); destruct j; discriminate.
  - vm_compute. discriminate.
Defined.

(** ** A bootloader that answers *)

Lemma succeeds_ret {A} (a : A) (F : A -> Prop) : F a -> succeeds (ret a) F.
Proof. intros H w. exists a, w. split; [reflexivity|exact H]. Qed.

Lemma succeeds_bind {A B} (m : M A) (k : A -> M B) (F : A -> Prop) (G : B -> Prop) :
  succeeds m F -> (forall a, F a -> succeeds (k a) G) -> succeeds (bind m k) G.
Proof.
  intros Hm Hk w. destruct (Hm w) as (a & w1 & E & Fa).
  destruct (Hk a Fa w1) as (b & w2 & E2 & Gb).
  exists b, w2. unfold bind. rewrite E. split; [exact E2|exact Gb].
Qed.

Lemma succeeds_then {A B} (m : M A) (k : M B) (F : A -> Prop) (G : B -> Prop) :
  succeeds m F -> succeeds k G -> succeeds (bind m (fun _ => k)) G.
Proof. intros Hm Hk. apply (succeeds_bind _ _ F); [exact Hm|]. intros _ _. exact Hk. Qed.

Lemma succeeds_weaken {A} (m : M A) (F G : A -> Prop) :
  (forall a, F a -> G a) -> succeeds m F -> succeeds m G.
Proof.
  intros HFG Hm w. destruct (Hm w) as (a & w1 & E & Fa). exists a, w1. auto.
Qed.

Lemma succeeds_emit e : succeeds (emit e) (fun _ => True).
Proof. intros w. eexists _, _. split; [reflexivity|exact I]. Qed.

Lemma succeeds_Sleep ms : succeeds (Sleep ms) (fun _ => True).
Proof. apply succeeds_emit. Qed.

Lemma succeeds_notify cfg m : succeeds (notify cfg m) (fun _ => True).
Proof.
  unfold notify. destruct (arg_client cfg) as [client|];
    [destruct (status_cb client)|];
    first [apply succeeds_emit | now apply succeeds_ret].
Qed.

Lemma succeeds_set_status cfg m : succeeds (set_status cfg m) (fun _ => True).
Proof.
  unfold set_status. apply (succeeds_then _ _ (fun _ => True)).
  - intros w. destruct (arg_status_buf cfg && (0 <? arg_status_len cfg)%nat);
      eexists _, _; split; reflexivity || exact I.
  - apply succeeds_notify.
Qed.

Lemma succeeds_report_progress cfg percent :
  succeeds (report_progress cfg percent) (fun _ => True).
Proof.
  unfold report_progress. destruct (arg_client cfg) as [client|];
    [destruct (progress_cb client)|]; try destruct (arg_progress_cb cfg);
    first [apply succeeds_emit | now apply succeeds_ret].
Qed.

Lemma succeeds_load cfg env image :
  loaded_image cfg env = Some image ->
  succeeds (load_firmware_file cfg env) (eq (Some image)).
Proof.
  unfold loaded_image, load_firmware_file.
  destruct (arg_path cfg); cbn [negb]; [|discriminate].
  destruct (env_file env) as [| |size alloc bytes]; try discriminate.
  destruct (Z.ltb_spec 0 size) as [Hlt|]; [|discriminate].
  destruct (Z.leb_spec size 0); [lia|].
  destruct alloc; [|discriminate]. cbn [andb negb].
  destruct (Z.of_nat (List.length bytes) =? size); [|discriminate].
  intros [= <-]. cbn [negb]. now apply succeeds_ret.
Qed.

Lemma succeeds_report_errors cfg errors last :
  succeeds (report_errors cfg errors last) (fun _ => True).
Proof.
  revert last. induction errors as [|m errors IH]; intros last; cbn [report_errors].
  - now apply succeeds_ret.
  - apply (succeeds_then _ _ (fun _ => True)); [apply succeeds_notify|apply IH].
Qed.

Lemma succeeds_wait_attempts cfg env n :
  forall i last d,
    first_attached env n i = Some d ->
    succeeds (wait_attempts cfg env n i last) (eq (Some d)).
Proof.
  induction n as [|n IH]; intros i last d; cbn [first_attached wait_attempts];
    [discriminate|].
  destruct (env_attempts env i) as [errors iface alt extra name|errors].
  - intros [= <-].
    apply (succeeds_then _ _ (fun _ => True)); [apply succeeds_report_errors|].
    apply (succeeds_then _ _ (fun _ => True)); [|now apply succeeds_ret].
    destruct (arg_status_buf cfg && (0 <? arg_status_len cfg)%nat);
      [|now apply succeeds_ret].
    destruct (negb _); apply succeeds_set_status.
  - intros H.
    apply (succeeds_bind _ _ (fun _ => True)); [apply succeeds_report_errors|].
    intros last' _.
    apply (succeeds_then _ _ (fun _ => True)); [apply succeeds_Sleep|].
    now apply IH.
Qed.

Lemma succeeds_cleanup cfg d : succeeds (cleanup cfg true d) (eq true).
Proof.
  unfold cleanup.
  apply (succeeds_then _ _ (fun _ => True)); [apply succeeds_report_progress|].
  apply (succeeds_then _ _ (fun _ => True)).
  { unfold release_device. destruct (handle d);
      [apply succeeds_emit|now apply succeeds_ret]. }
  apply (succeeds_then _ _ (fun _ => True)); [|now apply succeeds_ret].
  intros w. cbn [negb andb]. eexists _, _. split; [reflexivity|exact I].
Qed.

Section Responsive.

Variables (cfg : caller) (env : environment).
Hypothesis env_responsive : responsive env.

Lemma succeeds_get_status d :
  succeeds (dfu_get_status env d)
           (fun r => fst r = LIBUSB_SUCCESS /\ status (snd r) = 0
                     /\ is_idle_state (state (snd r)) = true).
Proof.
  intros w. unfold dfu_get_status, bind, libusb_control_transfer, control_transfer.
  pose proof (env_responsive (w_calls w) (get_status_request d)) as H.
  change (rq_in (get_status_request d)) with true in H. cbv iota in H.
  destruct H as (H6 & H0 & Hidle). rewrite H6.
  change (6 <? 0) with false. change (6 =? 6) with true. cbn [negb].
  eexists _, _. split; [reflexivity|]. cbn [fst snd status state]. auto.
Qed.

Lemma succeeds_wait_ready fuel d allow :
  succeeds (dfu_wait_ready (S fuel) cfg env d allow) (eq true).
Proof.
  cbn [dfu_wait_ready].
  eapply succeeds_bind; [apply succeeds_get_status|].
  intros [rc st] (Hrc & Hst & Hidle). cbn [fst snd] in Hrc, Hst, Hidle.
  subst rc. rewrite Hst, Hidle.
  change (LIBUSB_SUCCESS =? LIBUSB_ERROR_NO_DEVICE) with false.
  change (LIBUSB_SUCCESS =? LIBUSB_SUCCESS) with true.
  change (0 =? 0) with true. cbn [negb].
  now apply succeeds_ret.
Qed.

Lemma succeeds_download_block fuel d block data len allow :
  0 <= len ->
  succeeds (dfu_download_block (S fuel) cfg env d block data len allow) (eq true).
Proof.
  intros Hlen. unfold dfu_download_block.
  apply (succeeds_bind _ _ (fun x => x_ret x = len)).
  - intros w. unfold libusb_control_transfer, control_transfer.
    eexists _, _. split; [reflexivity|].
    exact (env_responsive (w_calls w) (dnload_request d block data len)).
  - intros x ->. destruct (Z.ltb_spec len 0); [lia|].
    rewrite Z.eqb_refl. cbn [negb]. apply succeeds_wait_ready.
Qed.

Lemma succeeds_special_command fuel d command address allow len :
  0 <= len ->
  succeeds (dfu_send_special_command (S fuel) cfg env d command address len allow)
           (eq true).
Proof.
  intros Hlen. unfold dfu_send_special_command. cbv zeta.
  apply succeeds_download_block. destruct (5 <? len); lia.
Qed.

Lemma succeeds_prepare_idle fuel d :
  succeeds (dfu_prepare_idle (S fuel) cfg env d) (eq true).
Proof.
  unfold dfu_prepare_idle.
  apply (succeeds_bind _ _ (eq true)); [apply succeeds_wait_ready|].
  intros ok <-. cbn [negb]. now apply succeeds_ret.
Qed.

Lemma succeeds_choose_erase fuel d :
  succeeds (choose_erase (S fuel) cfg env d)
           (fun r => fst r = true /\ snd r = session_device d).
Proof.
  unfold choose_erase, session_device. destruct (layout_valid d).
  - apply succeeds_ret. split; reflexivity.
  - apply (succeeds_then _ _ (fun _ => True)); [apply succeeds_set_status|].
    apply (succeeds_then _ _ (fun _ => True)); [apply succeeds_report_progress|].
    apply (succeeds_bind _ _ (eq true)).
    { unfold dfu_mass_erase. apply succeeds_special_command. lia. }
    intros ok <-. cbn [negb].
    apply (succeeds_bind _ _ (eq true)); [apply succeeds_prepare_idle|].
    intros ok <-. cbn [negb]. apply succeeds_ret. split; reflexivity.
Qed.

Lemma succeeds_erase_pages fuel s end_ :
  0 <= seg_start s -> seg_end s <= ULONG_MAX -> 0 < seg_page_size s ->
  (seg_end s - seg_start s) mod seg_page_size s = 0 ->
  end_ <= seg_end s ->
  forall n d page,
    seg_start s <= page -> (page - seg_start s) mod seg_page_size s = 0 ->
    (List.length (pages_of_range page (seg_page_size s) end_) <= n)%nat ->
    succeeds (erase_pages n (S fuel) cfg env d s page end_)
             (fun r => fst r = true /\ same_session d (snd r)).
Proof.
  intros Hstart Hend Hps Hal Hle.
  induction n as [|n IH]; intros d page Hlo Hmod Hn; cbn [erase_pages].
  - destruct (Z.ltb_spec page end_) as [Hlt|Hge].
    { rewrite (pages_of_range_cons _ _ _ Hps Hlt) in Hn. cbn [List.length] in Hn. lia. }
    rewrite andb_false_r. apply succeeds_ret. split; [reflexivity|].
    apply same_session_refl.
  - destruct (Z.ltb_spec page end_) as [Hlt|Hge].
    2:{ rewrite andb_false_r. apply succeeds_ret. split; [reflexivity|].
        apply same_session_refl. }
    destruct (Z.ltb_spec page (seg_end s)) as [_|]; [|lia]. cbn [andb].
    rewrite (pages_of_range_cons _ _ _ Hps Hlt) in Hn. cbn [List.length] in Hn.
    pose proof (next_page_fits _ _ _ _ Hps Hal Hmod ltac:(lia)) as Hfit.
    assert (Hnext : u32 (page + seg_page_size s) = page + seg_page_size s)
      by (apply u32_small; lia).
    rewrite Hnext.
    assert (Hmod' : (page + seg_page_size s - seg_start s) mod seg_page_size s = 0).
    { replace (page + seg_page_size s - seg_start s)
        with (page - seg_start s + 1 * seg_page_size s) by lia.
      now rewrite Z.mod_add by lia. }
    destruct (negb (last_erased_page d =? page)).
    + apply (succeeds_bind _ _ (eq true)); [apply succeeds_special_command; lia|].
      intros ok <-. cbn [negb].
      eapply succeeds_weaken; [|apply IH; [lia|exact Hmod'|lia]].
      intros [ok d1] [Hok Hs]. split; [exact Hok|].
      exact (same_session_step _ _ _ Hs).
    + apply IH; [lia|exact Hmod'|lia].
Qed.

Lemma succeeds_erase_range fuel d s address len :
  layout_valid d = true ->
  find_segment (layout d) address = Some s ->
  segment_fields s -> segment_invariant s ->
  0 < len -> address + len <= seg_end s ->
  len < Z.of_nat fuel ->
  succeeds (dfu_erase_range (S fuel) cfg env d address len)
           (fun r => fst r = true /\ same_session d (snd r)).
Proof.
  intros Hv Hfind [Hstart Hend] (Hlt & Hps & Hal) Hlen Hfit Hfuel.
  assert (Hps' : 0 < seg_page_size s) by lia.
  pose proof (find_segment_some _ _ _ Hfind) as [_ Hc].
  pose proof (page_base_of_eq s address Hstart Hend Hps' Hc) as Hpb.
  pose proof (page_base_of_bounds s address Hstart Hend Hps' Hc) as (Hb & Hb0).
  pose proof (page_base_of_lower s address Hstart Hend Hps' Hc) as Hlo.
  assert (Hmod : (page_base_of s address - seg_start s) mod seg_page_size s = 0).
  { rewrite Hpb.
    replace (seg_start s + (address - seg_start s) / seg_page_size s * seg_page_size s
             - seg_start s)
      with ((address - seg_start s) / seg_page_size s * seg_page_size s) by lia.
    apply Z.mod_mul. lia. }
  unfold dfu_erase_range. rewrite Hv, (find_segment_count _ _ _ Hfind).
  cbn [negb orb]. unfold contains in Hc.
  rewrite (u32_small (address + len)) by lia.
  cbn [erase_segments].
  destruct (Z.ltb_spec address (address + len)); [|lia].
  rewrite Hfind. fold (page_base_of s address).
  apply (succeeds_bind _ _ (fun r => fst r = true /\ same_session d (snd r))).
  - apply succeeds_erase_pages; auto.
    unfold pages_of_range. rewrite Nat2Z.inj_le.
    set (q := (address + len - page_base_of s address + seg_page_size s - 1)
              / seg_page_size s).
    assert (Hq : q <= len + 1).
    { apply Z.lt_succ_r. apply Z.div_lt_upper_bound; [lia|]. nia. }
    assert (Hlen_seq : forall first n,
               List.length (page_seq first (seg_page_size s) n) = n).
    { intros first n. revert first. induction n as [|n IHn]; intros first;
        cbn [page_seq List.length]; [reflexivity|now rewrite IHn]. }
    rewrite Hlen_seq. lia.
  - intros [ok d1] [Hok Hs]. cbn [fst snd] in Hok, Hs. subst ok. cbn [negb].
    intros w. rewrite erase_segments_past by exact Hfit.
    eexists _, _. split; [reflexivity|]. split; [reflexivity|exact Hs].
Qed.

End Responsive.


Section ResponsiveFlash.

Variables (cfg : caller) (env : environment).
Hypothesis env_responsive : responsive env.
Variables (firmware : list Z) (firmware_len : Z).

Lemma succeeds_write_chunk fuel d written :
  writable firmware_len d -> 0 <= written < firmware_len ->
  firmware_len < Z.of_nat fuel ->
  succeeds (write_chunk (S fuel) cfg env d firmware firmware_len written)
           (fun r => exists d' written',
                       r = Some (d', written') /\ same_session d d'
                       /\ written < written' <= firmware_len).
Proof.
  intros [Ht Hlayout] Hw Hfuel.
  pose proof (chunk_size_at_bounds d (chunk_segment d written) firmware_len written
                (proj2 Hw) ltac:(lia)
                (fun s => chunk_segment_contains d written s)) as Hb.
  cbv zeta in Hb. destruct Hb as (Hsize & Hsegend & Hone).
  unfold write_chunk. cbv zeta.
  fold (chunk_address written). fold (chunk_segment d written).
  set (size := chunk_size_at d (chunk_segment d written) firmware_len written) in *.
  assert (Hrest : forall d1, same_session d d1 -> 1 <= size ->
            succeeds
              (ok <- dfu_set_address_pointer (S fuel) cfg env d1 (chunk_address written) ;;
               if negb ok then ret None
               else
                 ok0 <- dfu_download_block (S fuel) cfg env d1 data_block_number
                          (chunk_payload firmware written size)
                          (u16 (aligned_length size)) false ;;
                 if negb ok0
                 then set_status cfg
                        (MsgWriteFailed (chunk_address written) (aligned_length size)) ;;
                      ret None
                 else ret (Some (d1, written + size)))
              (fun r => exists d' written',
                          r = Some (d', written') /\ same_session d d'
                          /\ written < written' <= firmware_len)).
  { intros d1 Hs Hpos.
    apply (succeeds_bind _ _ (eq true)).
    { unfold dfu_set_address_pointer.
      apply succeeds_special_command; [exact env_responsive|lia]. }
    intros ok <-. cbn [negb].
    apply (succeeds_bind _ _ (eq true)).
    { apply succeeds_download_block; [exact env_responsive|].
      pose proof (u16_range (aligned_length size)). lia. }
    intros ok <-. cbn [negb]. apply succeeds_ret.
    exists d1, (written + size). split; [reflexivity|]. split; [exact Hs|lia]. }
  destruct (layout_valid d) eqn:Hv.
  - destruct (Hlayout eq_refl) as (Hinv & Hfields & Hfit & Hcover).
    assert (Ha : chunk_address written = image_address written)
      by (apply chunk_address_small; unfold ULONG_MAX in *; lia).
    assert (Ecs : chunk_segment d written
                  = find_segment (layout d) (chunk_address written))
      by (unfold chunk_segment; now rewrite Hv).
    destruct (find_segment (layout d) (chunk_address written)) as [s|] eqn:Hfind.
    2:{ exfalso. rewrite Ha in Hfind. exact (Hcover written Hw Hfind). }
    rewrite Ecs in *. cbn [andb].
    pose proof (find_segment_some _ _ _ Hfind) as [Hin Hc].
    rewrite Forall_forall in Hinv, Hfields.
    pose proof (Hfields s Hin) as Hsf.
    specialize (Hsegend s eq_refl).
    assert (Hpos : 1 <= size).
    { apply Hone; [lia|]. intros s0 Hs0. apply some_inv in Hs0. subst s0.
      exact (proj2 Hsf). }
    apply (succeeds_bind _ _ (fun r => fst r = true /\ same_session d (snd r))).
    + destruct (mass_erased d); cbn [negb andb].
      * apply succeeds_ret. split; [reflexivity|apply same_session_refl].
      * rewrite (u32_small size)
          by (destruct Hsf; unfold contains, ULONG_MAX in *; lia).
        apply (succeeds_erase_range cfg env env_responsive fuel d s); auto; lia.
    + intros [ok d1] [Hok Hs]. cbn [fst snd] in Hok, Hs. subst ok. cbn [negb].
      now apply Hrest.
  - assert (Ecs : chunk_segment d written = None)
      by (unfold chunk_segment; now rewrite Hv).
    rewrite Ecs in *. cbn [andb]. rewrite andb_false_r.
    assert (Hpos : 1 <= size) by (apply Hone; [lia|discriminate]).
    apply (succeeds_bind _ _ (fun r => fst r = true /\ same_session d (snd r))).
    + apply succeeds_ret. split; [reflexivity|apply same_session_refl].
    + intros [ok d1] [Hok Hs]. cbn [fst snd] in Hok, Hs. subst ok. cbn [negb].
      now apply Hrest.
Qed.

Lemma writable_session d d' :
  same_session d d' -> writable firmware_len d -> writable firmware_len d'.
Proof.
  intros Hs [Ht Hl]. destruct (same_session_fields _ _ Hs) as (El & Ev & Et & _).
  unfold writable. now rewrite El, Ev, Et.
Qed.

Lemma succeeds_write_loop fuel n :
  forall d written,
    writable firmware_len d -> 0 <= written <= firmware_len ->
    firmware_len < Z.of_nat fuel ->
    firmware_len - written <= Z.of_nat n ->
    succeeds (write_loop n (S fuel) cfg env d firmware firmware_len written) (eq true).
Proof.
  induction n as [|n IH]; intros d written Hd Hw Hfuel Hn; cbn [write_loop].
  - destruct (Z.ltb_spec written firmware_len); [lia|]. now apply succeeds_ret.
  - destruct (Z.ltb_spec written firmware_len); [|now apply succeeds_ret].
    eapply succeeds_bind; [apply succeeds_write_chunk; auto; lia|].
    intros r (d' & written' & -> & Hs & Hw').
    apply (succeeds_then _ _ (fun _ => True)); [apply succeeds_report_progress|].
    apply IH; [exact (writable_session _ _ Hs Hd)|lia|exact Hfuel|lia].
Qed.

Lemma succeeds_flash fuel d0 :
  loaded_image cfg env = Some (firmware, firmware_len) ->
  env_usb_init env = LIBUSB_SUCCESS ->
  env_chunk_alloc env = true ->
  attached_device env = Some d0 ->
  writable firmware_len d0 ->
  firmware_len < Z.of_nat fuel ->
  succeeds (dfu_loader_flash (S fuel) cfg env) (eq true).
Proof.
  intros Himage Hinit Halloc Hdev Hd Hfuel.
  destruct (loaded_image_length _ _ _ _ Himage) as [Hpos Hlen].
  unfold dfu_loader_flash.
  apply (succeeds_bind _ _ (fun r => fst r = true)).
  2:{ intros [success d] Hs. cbn [fst] in Hs. subst success.
      apply succeeds_cleanup. }
  unfold flash_steps.
  apply (succeeds_then _ _ (fun _ => True)); [apply succeeds_report_progress|].
  apply (succeeds_then _ _ (fun _ => True)); [apply succeeds_set_status|].
  unfold flash_body.
  apply (succeeds_bind _ _ (fun r => r = (true, session_device d0,
                                          (firmware, firmware_len)))).
  - unfold flash_prepare.
    apply (succeeds_bind _ _ (eq (Some (firmware, firmware_len))));
      [now apply succeeds_load|].
    intros loaded <-.
    apply (succeeds_then _ _ (fun _ => True)); [apply succeeds_set_status|].
    rewrite Hinit. change (LIBUSB_SUCCESS =? LIBUSB_SUCCESS) with true. cbn [negb].
    apply (succeeds_then _ _ (fun _ => True)); [apply succeeds_set_status|].
    apply (succeeds_bind _ _ (eq (Some d0))).
    { unfold wait_for_stm32_dfu_device. apply succeeds_wait_attempts. exact Hdev. }
    intros found <-.
    apply (succeeds_then _ _ (fun _ => True)); [apply succeeds_set_status|].
    apply (succeeds_bind _ _ (eq true));
      [apply succeeds_prepare_idle; exact env_responsive|].
    intros ok <-. cbn [negb].
    apply (succeeds_bind _ _ (fun r => fst r = true /\ snd r = session_device d0));
      [apply succeeds_choose_erase; exact env_responsive|].
    intros [ok d] [Hok Hs]. cbn [fst snd] in Hok, Hs. subst ok d. cbn [negb].
    apply (succeeds_then _ _ (fun _ => True)); [apply succeeds_set_status|].
    apply (succeeds_bind _ _ (eq true)).
    { unfold dfu_set_address_pointer.
      apply succeeds_special_command; [exact env_responsive|lia]. }
    intros ok <-. cbn [negb].
    apply (succeeds_then _ _ (fun _ => True)); [apply succeeds_report_progress|].
    apply (succeeds_then _ _ (fun _ => True)); [apply succeeds_set_status|].
    rewrite Halloc. cbn [negb]. now apply succeeds_ret.
  - intros r ->. cbn [negb].
    assert (Hsession : writable firmware_len (session_device d0)).
    { destruct (session_device_layout d0) as (El & Ev & Et & _).
      unfold writable. rewrite El, Ev, Et. exact Hd. }
    apply (succeeds_bind _ _ (eq true)).
    { apply succeeds_write_loop; auto; lia. }
    intros ok <-. cbn [negb].
    apply (succeeds_bind _ _ (eq true)).
    2:{ intros ok <-. now apply succeeds_ret. }
    unfold flash_finish.
    apply (succeeds_bind _ _ (eq true));
      [apply succeeds_download_block; [exact env_responsive|lia]|].
    intros ok <-. cbn [negb].
    apply (succeeds_then _ _ (fun _ => True)); [apply succeeds_report_progress|].
    apply (succeeds_then _ _ (fun _ => True)); [apply succeeds_set_status|].
    now apply succeeds_ret.
Qed.

End ResponsiveFlash.

(** X17: [dfu_loader_flash] returns true, and none of its loops runs on,
    when the firmware file loads, libusb starts, the bootloader is found
    and it accepts every transfer and answers every status request with
    status OK and an idle state, provided that a layout parsed from its
    name keeps the invariant and covers the image: the status is read
    once after each block, and the loops are given more rounds than the
    image has bytes. *)
Theorem flash_succeeds fuel cfg env w firmware firmware_len d0 :
  loaded_image cfg env = Some (firmware, firmware_len) ->
  env_usb_init env = LIBUSB_SUCCESS ->
  env_chunk_alloc env = true ->
  attached_device env = Some d0 ->
  responsive env ->
  (layout_valid d0 = true ->
   memory_layout_invariant (layout_segments (layout d0))
   /\ STM32_BASE_ADDRESS + firmware_len <= ULONG_MAX + 1
   /\ layout_covers (layout d0) firmware_len) ->
  firmware_len < Z.of_nat fuel ->
  exists w', dfu_loader_flash (S fuel) cfg env w = Done true w'.
Proof.
  intros Himage Hinit Halloc Hdev Hresp Hlayout Hfuel.
  pose proof (attached_device_transfer _ _ Hdev) as Ht.
  pose proof (attached_device_fields _ _ Hdev) as Hfields.
  destruct (succeeds_flash cfg env Hresp firmware firmware_len fuel d0
              Himage Hinit Halloc Hdev) with (w := w) as (ok & w' & E & <-);
    [|exact Hfuel|exists w'; exact E].
  split; [lia|]. intros Hv. destruct (Hlayout Hv) as ([Hinv _] & Hfit & Hcover).
  auto.
Qed.


Lemma flash_succeeds_witness :
  exists w',
    dfu_loader_flash 3002 (plain_caller 64)
      (scenario accepting_device 3000 1024 "/0x08000000/16*001Kg")
      (initial_world (repeat "x"%char 64)) = Done true w'.
Proof.
  assert (Hsegs : layout_segments
                    (layout (opened_device 0 0 (functional_descriptor 1024)
                                           "/0x08000000/16*001Kg"))
                  = [mk_segment 0x08000000 0x08004000 1024])
    by (vm_compute; reflexivity).
  apply (flash_succeeds 3001%nat (plain_caller 64%nat)
           (scenario accepting_device 3000 1024 "/0x08000000/16*001Kg")
           (initial_world (repeat "x"%char 64%nat))
           (repeat 0xAA 3000%nat) 3000
           (opened_device 0 0 (functional_descriptor 1024) "/0x08000000/16*001Kg")).
  - vm_compute. reflexivity.
  - reflexivity.
  - reflexivity.
  - vm_compute. reflexivity.
  - intros n rq. unfold scenario, accepting_device. cbn [env_device].
    destruct (rq_in rq); [|reflexivity].
    repeat split.
  - intros _. split; [|split].
    + rewrite Hsegs. split.
      * constructor; [|constructor]. repeat split; vm_compute; congruence.
      * intros [|i] [|j] s t Hi Hj Hne; try congruence;
          try (destruct i; discriminate); destruct j; discriminate.
    + vm_compute. discriminate.
    + intros k Hk Hnone. rewrite find_segment_none in Hnone.
      apply (Hnone (mk_segment 0x08000000 0x08004000 1024)).
      * rewrite Hsegs. now left.
      * unfold contains, image_address, STM32_BASE_ADDRESS. cbn [seg_start seg_end].
        lia.
  - lia.
Defined.

(** ** Reading the text of a memory layout *)

Lemma append_empty s : (s ++ "")%string = s.
Proof. induction s as [|c s IH]; [reflexivity|]. cbn. now rewrite IH. Qed.

Lemma append_assoc (a b c : string) : ((a ++ b) ++ c = a ++ b ++ c)%string.
Proof. induction a as [|x a IH]; [reflexivity|]. cbn. now rewrite IH. Qed.

Lemma length_append (a b : string) :
  String.length (a ++ b) = (String.length a + String.length b)%nat.
Proof. induction a as [|x a IH]; [reflexivity|]. cbn. now rewrite IH. Qed.

Lemma strchr_append label c rest :
  strchr label c = None ->
  strchr (label ++ String c rest) c = Some (String c rest).
Proof.
  induction label as [|a label IH]; cbn [strchr append].
  - intros _. now rewrite Ascii.eqb_refl.
  - destruct (Ascii.eqb a c); [discriminate|exact IH].
Qed.

Lemma digit_value_code c d : digit_value c = Some d -> 48 <= code c <= 122.
Proof.
  unfold digit_value. cbv zeta.
  destruct ((48 <=? code c) && (code c <=? 57)) eqn:E1;
    [|destruct ((97 <=? code c) && (code c <=? 122)) eqn:E2;
      [|destruct ((65 <=? code c) && (code c <=? 90)) eqn:E3; [|discriminate]]];
    intros _;
    match goal with
    | H : _ && _ = true |- _ =>
        apply andb_prop in H; destruct H as [Ha Hb];
        apply Z.leb_le in Ha, Hb; lia
    end.
Qed.

Lemma digit_in_value base c d :
  digit_in base c = Some d -> digit_value c = Some d /\ digit_of c = d.
Proof.
  unfold digit_in, digit_of. destruct (digit_value c) as [v|]; [|discriminate].
  destruct (v <? base); [|discriminate]. intros [= <-]. auto.
Qed.

Lemma digit_not c other :
  digit_value c <> None -> (code other < 48) -> Ascii.eqb c other = false.
Proof.
  intros Hd Ho. destruct (Ascii.eqb_spec c other) as [->|]; [|reflexivity].
  destruct (digit_value other) as [d|] eqn:E; [|congruence].
  apply digit_value_code in E. lia.
Qed.

Lemma digit_not_space c : digit_value c <> None -> isspace c = false.
Proof.
  intros Hd. destruct (digit_value c) as [d|] eqn:E; [|congruence].
  apply digit_value_code in E. unfold isspace.
  destruct (Z.eqb_spec (code c) 32); [lia|].
  destruct (Z.leb_spec (code c) 13); [lia|]. now rewrite andb_false_r.
Qed.

Lemma digit_in_some base c : digit_in base c <> None -> digit_value c <> None.
Proof. unfold digit_in. destruct (digit_value c); congruence. Qed.

Lemma decimal_digit c :
  digit_in 10 c <> None -> isdigit c = true /\ code c - 48 = digit_of c.
Proof.
  unfold digit_in, digit_of, digit_value, isdigit. cbv zeta.
  destruct ((48 <=? code c) && (code c <=? 57)) eqn:E1; [auto|].
  destruct ((97 <=? code c) && (code c <=? 122)) eqn:E2.
  { apply andb_prop in E2. destruct E2 as [Ha Hb]. apply Z.leb_le in Ha, Hb.
    destruct (Z.ltb_spec (code c - 87) 10); [lia|congruence]. }
  destruct ((65 <=? code c) && (code c <=? 90)) eqn:E3; [|congruence].
  apply andb_prop in E3. destruct E3 as [Ha Hb]. apply Z.leb_le in Ha, Hb.
  destruct (Z.ltb_spec (code c - 55) 10); [lia|congruence].
Qed.

Lemma fold_digits_le base digits acc :
  1 <= base -> 0 <= acc ->
  acc <= fold_left (fun a c => a * base + digit_of c) digits acc.
Proof.
  intros Hb. revert acc. induction digits as [|c digits IH]; intros acc Hacc;
    cbn [fold_left]; [lia|].
  assert (Hd : 0 <= digit_of c).
  { unfold digit_of. destruct (digit_value c) as [d|] eqn:E; [|lia].
    unfold digit_value in E. cbv zeta in E.
    repeat match type of E with
           | (if ?b then _ else _) = _ => destruct b eqn:?
           end; try discriminate; injection E as <-;
      match goal with
      | H : _ && _ = true |- _ =>
          apply andb_prop in H; destruct H as [Ha _]; apply Z.leb_le in Ha; lia
      end. }
  specialize (IH (acc * base + digit_of c) ltac:(nia)). nia.
Qed.

Lemma scan_digits_digits base digits rest acc n :
  Forall (fun c => digit_in base c <> None) digits ->
  digit_in base (cur rest) = None ->
  scan_digits base (string_of_list_ascii digits ++ rest) acc n
  = (fold_left (fun a c => a * base + digit_of c) digits acc,
     (n + List.length digits)%nat, rest).
Proof.
  intros Hd Hrest. revert acc n.
  induction Hd as [|c digits Hc Hd IH]; intros acc n.
  - cbn [string_of_list_ascii append fold_left List.length].
    rewrite Nat.add_0_r. destruct rest as [|c rest]; [reflexivity|].
    cbn [scan_digits]. cbn [cur] in Hrest. now rewrite Hrest.
  - cbn [string_of_list_ascii append scan_digits fold_left List.length].
    destruct (digit_in base c) as [d|] eqn:E; [|congruence].
    apply digit_in_value in E. destruct E as [_ <-].
    rewrite IH. f_equal. f_equal. lia.
Qed.

Lemma size_digits_digits digits rest :
  Forall (fun c => digit_in 10 c <> None) digits ->
  isdigit (cur rest) = false ->
  forall acc,
    0 <= acc ->
    fold_left (fun a c => a * 10 + digit_of c) digits acc <= ULONG_MAX ->
    size_digits (string_of_list_ascii digits ++ rest) acc
    = (fold_left (fun a c => a * 10 + digit_of c) digits acc, rest).
Proof.
  intros Hd Hrest. induction Hd as [|c digits Hc Hd IH]; intros acc Hacc Hmax.
  - cbn [string_of_list_ascii append fold_left].
    destruct rest as [|c rest]; [reflexivity|].
    cbn [size_digits]. cbn [cur] in Hrest. now rewrite Hrest.
  - cbn [string_of_list_ascii append size_digits fold_left] in *.
    destruct (decimal_digit c Hc) as [-> ->].
    assert (Hd0 : 0 <= digit_of c).
    { pose proof (fold_digits_le 10 [c] 0 ltac:(lia) ltac:(lia)) as H.
      cbn [fold_left] in H. lia. }
    pose proof (fold_digits_le 10 digits (acc * 10 + digit_of c) ltac:(lia)
                  ltac:(lia)) as Hle.
    assert (Hu : ulong (acc * 10 + digit_of c) = acc * 10 + digit_of c).
    { unfold ulong. apply Z.mod_small. unfold ULONG_MAX in *. lia. }
    rewrite Hu. apply IH; [lia|exact Hmax].
Qed.

Lemma cur_digits digits rest c :
  hd_error digits = Some c -> cur (string_of_list_ascii digits ++ rest) = c.
Proof. destruct digits as [|a digits]; [discriminate|]. now intros [= <-]. Qed.

(** [strtoul] in base 16 on an address with its 0x prefix. *)
Lemma strtoul_hex digits rest :
  digits_in 16 digits -> number_of 16 digits <= ULONG_MAX ->
  digit_in 16 (cur rest) = None ->
  strtoul ("0x" ++ string_of_list_ascii digits ++ rest) 16
  = (number_of 16 digits, rest).
Proof.
  intros [Hne Hd] Hmax Hrest. unfold strtoul.
  change (skip_space ("0x" ++ string_of_list_ascii digits ++ rest))
    with ("0x" ++ string_of_list_ascii digits ++ rest)%string.
  change (at_char ("0x" ++ string_of_list_ascii digits ++ rest) "-") with false.
  change (at_char ("0x" ++ string_of_list_ascii digits ++ rest) "+") with false.
  cbv iota beta.
  change ((16 =? 16) && at_char ("0x" ++ string_of_list_ascii digits ++ rest) "0"
          && (at_char (next ("0x" ++ string_of_list_ascii digits ++ rest)) "x"
              || at_char (next ("0x" ++ string_of_list_ascii digits ++ rest)) "X"))
    with true.
  cbv iota.
  change (next (next ("0x" ++ string_of_list_ascii digits ++ rest)))
    with (string_of_list_ascii digits ++ rest)%string.
  destruct digits as [|c digits]; [congruence|].
  rewrite (cur_digits (c :: digits) rest c eq_refl).
  pose proof (Forall_inv Hd) as Hc. cbv beta in Hc.
  destruct (digit_in 16 c) as [d|] eqn:E; [|congruence].
  rewrite (scan_digits_digits 16 (c :: digits) rest 0 0 Hd Hrest).
  cbn [List.length Nat.add]. fold (number_of 16 (c :: digits)).
  destruct (Z.ltb_spec ULONG_MAX (number_of 16 (c :: digits))); [lia|reflexivity].
Qed.

(** [strtoul] in base 10 on a number of pages. *)
Lemma strtoul_decimal digits rest :
  digits_in 10 digits -> number_of 10 digits <= ULONG_MAX ->
  digit_in 10 (cur rest) = None ->
  strtoul (string_of_list_ascii digits ++ rest) 10 = (number_of 10 digits, rest).
Proof.
  intros [Hne Hd] Hmax Hrest. unfold strtoul.
  destruct digits as [|c digits]; [congruence|].
  pose proof (digit_in_some _ _ (Forall_inv Hd)) as Hc.
  cbn [string_of_list_ascii append skip_space].
  rewrite (digit_not_space c Hc).
  unfold at_char at 1 2. cbn [cur].
  rewrite (digit_not c "-" Hc) by (vm_compute; reflexivity).
  rewrite (digit_not c "+" Hc) by (vm_compute; reflexivity).
  cbv iota beta. change (10 =? 16) with false. cbn [andb]. cbv iota.
  change (String c (string_of_list_ascii digits ++ rest))
    with (string_of_list_ascii (c :: digits) ++ rest)%string.
  rewrite (scan_digits_digits 10 (c :: digits) rest 0 0 Hd Hrest).
  cbn [List.length Nat.add]. fold (number_of 10 (c :: digits)).
  destruct (Z.ltb_spec ULONG_MAX (number_of 10 (c :: digits))); [lia|reflexivity].
Qed.


(** The text after a section: the end of the name or the slash of the
    next section. *)
Lemma sections_head sections :
  let tail := fold_right (fun x s => (section_text x ++ s)%string) EmptyString
                         sections in
  tail = EmptyString \/ exists t, tail = String "/" t.
Proof.
  cbv zeta. destruct sections as [|x sections]; [left; reflexivity|right].
  cbn [fold_right]. unfold section_text. eexists. reflexivity.
Qed.

Lemma cur_append rest tail :
  (tail = EmptyString \/ exists t, tail = String "/" t) ->
  cur (rest ++ tail) = cur rest
  \/ rest = EmptyString /\ (cur (rest ++ tail) = "/"%char).
Proof.
  intros Ht. destruct rest as [|c rest]; [|left; reflexivity].
  destruct Ht as [->|[t ->]]; [left; reflexivity|right]. split; reflexivity.
Qed.

Lemma strchr_tail c rest a :
  strchr (String c rest) a = None -> strchr rest a = None.
Proof. cbn [strchr]. destruct (Ascii.eqb c a); [discriminate|auto]. Qed.

(** [parse_size_bytes] on a page size with its unit: the cursor is left
    in the part that holds no slash. *)
Lemma parse_size_bytes_section digits u rest tail :
  digits_in 10 digits ->
  0 < number_of 10 digits * unit_bytes u <= ULONG_MAX ->
  strchr rest "/" = None ->
  (u = UnitNone -> isdigit (cur rest) = false /\ is_unit_letter (cur rest) = false) ->
  (tail = EmptyString \/ exists t, tail = String "/" t) ->
  exists rest',
    strchr rest' "/" = None
    /\ parse_size_bytes (string_of_list_ascii digits ++ unit_text u ++ rest ++ tail)
       = (number_of 10 digits * unit_bytes u, (rest' ++ tail)%string).
Proof.
  intros [Hne Hd] Hsize Hslash Hnone Htail.
  assert (Hn : 0 <= number_of 10 digits <= ULONG_MAX).
  { pose proof (fold_digits_le 10 digits 0 ltac:(lia) ltac:(lia)) as H.
    fold (number_of 10 digits) in H. destruct u; cbn [unit_bytes] in Hsize; lia. }
  assert (Hskip : forall cursor,
             cursor = (rest ++ tail)%string ->
             exists rest',
               strchr rest' "/" = None
               /\ (if at_char cursor "g" || at_char cursor "G"
                   then next cursor else cursor) = (rest' ++ tail)%string).
  { intros cursor ->. destruct rest as [|c rest].
    - exists EmptyString. split; [reflexivity|].
      destruct Htail as [->|[t ->]]; reflexivity.
    - cbn [append]. unfold at_char. cbn [cur next].
      destruct (Ascii.eqb c "g" || Ascii.eqb c "G").
      + exists rest. split; [exact (strchr_tail _ _ _ Hslash)|reflexivity].
      + exists (String c rest). split; [exact Hslash|reflexivity]. }
  assert (Hvalue : u32 (ulong (number_of 10 digits * unit_bytes u))
                   = number_of 10 digits * unit_bytes u).
  { unfold ulong. rewrite Z.mod_small by (unfold ULONG_MAX in *; lia).
    apply u32_small. lia. }
  unfold parse_size_bytes.
  destruct u; cbn [unit_text unit_bytes] in *.
  - rewrite (size_digits_digits digits ("K" ++ rest ++ tail) Hd eq_refl 0
               ltac:(lia) (proj2 Hn)).
    fold (number_of 10 digits).
    change (at_char ("K" ++ rest ++ tail) "K") with true. cbn [orb].
    change (next ("K" ++ rest ++ tail)) with (rest ++ tail)%string.
    destruct (Hskip _ eq_refl) as (rest' & Hr & ->).
    exists rest'. split; [exact Hr|]. now rewrite Hvalue.
  - rewrite (size_digits_digits digits ("M" ++ rest ++ tail) Hd eq_refl 0
               ltac:(lia) (proj2 Hn)).
    fold (number_of 10 digits).
    change (at_char ("M" ++ rest ++ tail) "K") with false.
    change (at_char ("M" ++ rest ++ tail) "k") with false.
    change (at_char ("M" ++ rest ++ tail) "M") with true. cbn [orb].
    change (next ("M" ++ rest ++ tail)) with (rest ++ tail)%string.
    destruct (Hskip _ eq_refl) as (rest' & Hr & ->).
    exists rest'. split; [exact Hr|]. now rewrite Hvalue.
  - rewrite (size_digits_digits digits ("B" ++ rest ++ tail) Hd eq_refl 0
               ltac:(lia) (proj2 Hn)).
    fold (number_of 10 digits).
    change (at_char ("B" ++ rest ++ tail) "K") with false.
    change (at_char ("B" ++ rest ++ tail) "k") with false.
    change (at_char ("B" ++ rest ++ tail) "M") with false.
    change (at_char ("B" ++ rest ++ tail) "m") with false.
    change (at_char ("B" ++ rest ++ tail) "B") with true. cbn [orb].
    change (next ("B" ++ rest ++ tail)) with (rest ++ tail)%string.
    destruct (Hskip _ eq_refl) as (rest' & Hr & ->).
    exists rest'. split; [exact Hr|]. now rewrite Hvalue.
  - destruct (Hnone eq_refl) as [Hdigit Hletter].
    change ("" ++ rest ++ tail)%string with (rest ++ tail)%string.
    assert (Hcur : isdigit (cur (rest ++ tail)) = false
                   /\ is_unit_letter (cur (rest ++ tail)) = false).
    { destruct (cur_append rest tail Htail) as [->|[_ ->]]; [auto|].
      split; reflexivity. }
    destruct Hcur as [Hcd Hcl].
    rewrite (size_digits_digits digits (rest ++ tail) Hd Hcd 0 ltac:(lia) (proj2 Hn)).
    fold (number_of 10 digits).
    unfold is_unit_letter in Hcl. cbn [existsb] in Hcl.
    repeat (apply orb_false_elim in Hcl; destruct Hcl as [? Hcl]).
    unfold at_char at 1 2 3 4 5 6.
    repeat match goal with
           | H : Ascii.eqb _ _ = false |- _ => rewrite H; clear H
           end.
    cbn [orb]. cbv iota.
    destruct (Hskip _ eq_refl) as (rest' & Hr & ->).
    exists rest'. split; [exact Hr|]. now rewrite Hvalue.
Qed.

(** One iteration of the parse loop on a section. *)
Lemma parse_segments_section fuel label x tail l :
  strchr label "/" = None -> well_formed_section x ->
  (tail = EmptyString \/ exists t, tail = String "/" t) ->
  exists rest',
    strchr rest' "/" = None
    /\ (String.length rest' < String.length (section_text x))%nat
    /\ parse_segments (S fuel) (label ++ section_text x ++ tail) l
       = parse_segments fuel (rest' ++ tail)
           (add_segment l (number_of 16 (sec_start x)) (number_of 10 (sec_count x))
              (number_of 10 (sec_size x) * unit_bytes (sec_unit x))).
Proof.
  intros Hlabel (Hs & Hsmax & Hc & Hcmax & Hp & Hpage & Hrest & Hnone) Htail.
  destruct (parse_size_bytes_section (sec_size x) (sec_unit x) (sec_rest x) tail
              Hp Hpage Hrest Hnone Htail) as (rest' & Hr & Hsize).
  exists rest'. split; [exact Hr|].
  assert (Hlen : (String.length rest' < String.length (section_text x))%nat).
  { pose proof (parse_size_bytes_spec _ _ _ Hsize) as [_ Hl].
    unfold section_text. rewrite !length_append in *.
    cbn [String.length]. lia. }
  split; [exact Hlen|].
  cbn [parse_segments]. unfold section_text. rewrite !append_assoc.
  change ("/0x" ++ string_of_list_ascii (sec_start x) ++ "/"
          ++ string_of_list_ascii (sec_count x) ++ "*"
          ++ string_of_list_ascii (sec_size x) ++ unit_text (sec_unit x)
          ++ sec_rest x ++ tail)%string
    with (String "/" ("0x" ++ string_of_list_ascii (sec_start x) ++ "/"
                      ++ string_of_list_ascii (sec_count x) ++ "*"
                      ++ string_of_list_ascii (sec_size x) ++ unit_text (sec_unit x)
                      ++ sec_rest x ++ tail)).
  rewrite (strchr_append label "/" _ Hlabel).
  cbn [next].
  match goal with
  | |- context [negb (at_char ?c "0" && ?b)] =>
      change (negb (at_char c "0" && b)) with false
  end.
  cbv iota.
  rewrite (strtoul_hex (sec_start x)
             ("/" ++ string_of_list_ascii (sec_count x) ++ "*"
              ++ string_of_list_ascii (sec_size x) ++ unit_text (sec_unit x)
              ++ sec_rest x ++ tail) Hs Hsmax eq_refl).
  match goal with
  | |- context [negb (at_char ?c "/")] => change (negb (at_char c "/")) with false
  end.
  cbv iota.
  match goal with
  | |- context [strtoul ?s 10] =>
      change s with (string_of_list_ascii (sec_count x)
                     ++ "*" ++ string_of_list_ascii (sec_size x)
                     ++ unit_text (sec_unit x) ++ sec_rest x ++ tail)%string
  end.
  rewrite (strtoul_decimal (sec_count x)
             ("*" ++ string_of_list_ascii (sec_size x) ++ unit_text (sec_unit x)
              ++ sec_rest x ++ tail) Hc Hcmax eq_refl).
  match goal with
  | |- context [negb (at_char ?c "*")] => change (negb (at_char c "*")) with false
  end.
  cbv iota.
  match goal with
  | |- context [parse_size_bytes ?s] =>
      change s with (string_of_list_ascii (sec_size x)
                     ++ unit_text (sec_unit x) ++ sec_rest x ++ tail)%string
  end.
  rewrite Hsize.
  destruct (Z.eqb_spec (number_of 10 (sec_size x) * unit_bytes (sec_unit x)) 0);
    [lia|reflexivity].
Qed.

Lemma firstn_slots {A} (a b : list A) (x : A) :
  (List.length a <= SEGMENT_SLOTS)%nat ->
  firstn SEGMENT_SLOTS
         ((if (List.length a <? SEGMENT_SLOTS)%nat then a ++ [x] else a) ++ b)
  = firstn SEGMENT_SLOTS (a ++ x :: b).
Proof.
  intros Hle. destruct (Nat.ltb_spec (List.length a) SEGMENT_SLOTS) as [Hlt|Hge].
  - now rewrite <- app_assoc.
  - assert (E : List.length a = SEGMENT_SLOTS) by lia.
    rewrite !firstn_app, E, Nat.sub_diag. cbn [firstn]. reflexivity.
Qed.

Lemma parse_segments_sections sections :
  forall fuel label l,
    strchr label "/" = None ->
    Forall well_formed_section sections ->
    (String.length (layout_text label sections) < fuel)%nat ->
    (count l <= SEGMENT_SLOTS)%nat ->
    layout_segments (parse_segments fuel (layout_text label sections) l)
    = firstn SEGMENT_SLOTS (layout_segments l ++ map section_segment sections).
Proof.
  induction sections as [|x sections IH]; intros fuel label l Hlabel Hwf Hfuel Hcount.
  - unfold layout_text. cbn [fold_right map]. rewrite append_empty, app_nil_r.
    rewrite firstn_all2 by (rewrite layout_segments_count; exact Hcount).
    destruct fuel as [|fuel]; [reflexivity|].
    cbn [parse_segments]. now rewrite Hlabel.
  - pose proof (Forall_inv Hwf) as Hx. pose proof (Forall_inv_tail Hwf) as Hrest.
    destruct fuel as [|fuel]; [lia|].
    unfold layout_text in *. cbn [fold_right map] in *.
    set (tail := fold_right (fun x s => (section_text x ++ s)%string) EmptyString
                            sections) in *.
    destruct (parse_segments_section fuel label x tail l Hlabel Hx
                (sections_head sections)) as (rest' & Hr & Hlen & ->).
    rewrite (IH fuel rest' _ Hr Hrest).
    + rewrite layout_segments_add.
      destruct Hx as (_ & Hsmax & _).
      assert (Hstart : u32 (number_of 16 (sec_start x)) = number_of 16 (sec_start x)).
      { apply u32_small. split; [|exact Hsmax].
        exact (fold_digits_le 16 (sec_start x) 0 ltac:(lia) ltac:(lia)). }
      rewrite Hstart. fold (section_segment x).
      rewrite <- (layout_segments_count l).
      apply firstn_slots. rewrite layout_segments_count. exact Hcount.
    + rewrite !length_append in *. lia.
    + unfold add_segment.
      destruct (Nat.ltb_spec (count l) SEGMENT_SLOTS); cbn [count]; lia.
Qed.

(** X18: [parse_alt_memory_layout] reads a name made of a label and of
    sections /0x<address>/<pages>*<size><unit><rest> as the segments the
    sections describe, in order and up to eight of them: each starts at
    the address, has the page size times the unit (K, M, B or none) as
    its page size and ends the number of pages after its start; the
    result is true when there is a section.  The numbers are 32-bit
    values, a page size is not zero, and the label and what follows a
    unit hold no slash. *)
Theorem parse_layout_sections label sections before :
  strchr label "/" = None ->
  Forall well_formed_section sections ->
  parse_alt_memory_layout (Some (layout_text label sections)) before
  = (negb (List.length sections =? 0)%nat,
     snd (parse_alt_memory_layout (Some (layout_text label sections)) before))
  /\ layout_segments
       (snd (parse_alt_memory_layout (Some (layout_text label sections)) before))
     = firstn SEGMENT_SLOTS (map section_segment sections).
Proof.
  intros Hlabel Hwf.
  assert (Hsegs : layout_segments
                    (snd (parse_alt_memory_layout
                            (Some (layout_text label sections)) before))
                  = firstn SEGMENT_SLOTS (map section_segment sections)).
  { rewrite parse_alt_memory_layout_segments.
    rewrite (parse_segments_sections sections _ label zero_layout Hlabel Hwf);
      [reflexivity|lia|cbn; unfold SEGMENT_SLOTS; lia]. }
  split; [|exact Hsegs].
  rewrite (surjective_pairing (parse_alt_memory_layout _ before)) at 1.
  f_equal. rewrite parse_alt_memory_layout_result, Hsegs.
  destruct sections as [|x sections]; reflexivity.
Qed.


Lemma parse_layout_sections_witness :
  let flash := mk_section (list_ascii_of_string "08000000") (list_ascii_of_string "04")
                          (list_ascii_of_string "016") UnitK "g,01*064Kg,07*128Kg" in
  let bytes := mk_section (list_ascii_of_string "1FFFC000") (list_ascii_of_string "01")
                          (list_ascii_of_string "016") UnitNone " e" in
  layout_text "@Internal Flash  " [flash; bytes]
  = "@Internal Flash  /0x08000000/04*016Kg,01*064Kg,07*128Kg/0x1FFFC000/01*016 e"%string
  /\ layout_segments
       (snd (parse_alt_memory_layout
               (Some (layout_text "@Internal Flash  " [flash; bytes])) zero_layout))
     = [mk_segment 0x08000000 0x08010000 16384;
        mk_segment 0x1FFFC000 0x1FFFC010 16].
Proof.
  cbv zeta. split; [reflexivity|].
  rewrite (proj2 (parse_layout_sections "@Internal Flash  "
                    [mk_section (list_ascii_of_string "08000000")
                                (list_ascii_of_string "04")
                                (list_ascii_of_string "016") UnitK
                                "g,01*064Kg,07*128Kg";
                     mk_section (list_ascii_of_string "1FFFC000")
                                (list_ascii_of_string "01")
                                (list_ascii_of_string "016") UnitNone " e"]
                    zero_layout eq_refl
                    ltac:(repeat constructor; try discriminate;
                          try (vm_compute; congruence);
                          try (intros _; split; reflexivity)))).
  vm_compute. reflexivity.
Defined.

(** ** The status at the end *)

Lemma set_status_exact cfg m w :
  set_status cfg m w
  = Done tt (mk_world (w_calls w) (w_trace w ++ status_events cfg m)
                      (status_after cfg m (w_status w))).
Proof.
  unfold set_status, bind, notify, status_events, status_after.
  destruct (arg_status_buf cfg && (0 <? arg_status_len cfg)%nat);
    (destruct (arg_client cfg) as [c|]; [destruct (status_cb c)|]);
    unfold emit, ret; cbn [w_calls w_trace w_status]; rewrite ?app_nil_r;
    try reflexivity; now destruct w.
Qed.

Lemma cleanup_success cfg d w w' :
  cleanup cfg true d w = Done true w' ->
  w_status w' = w_status w
  /\ exists evs, w_trace w' = w_trace w ++ evs /\ forallb not_status evs = true.
Proof.
  unfold cleanup. intros H.
  step H as [] w1 E1.
  destruct (report_progress_run cfg 100 w) as (wx & Ex & Tx & Sx & _).
  rewrite Ex in E1. injection E1 as <-.
  step H as [] w2 E2.
  assert (R : w_status w2 = w_status w
              /\ exists evs, w_trace w2 = w_trace w ++ evs
                             /\ forallb not_status evs = true).
  { unfold release_device in E2. destruct (handle d).
    - injection E2 as <-. cbn [w_status w_trace]. rewrite Sx, Tx, <- app_assoc.
      split; [reflexivity|]. eexists. split; [reflexivity|].
      rewrite forallb_app. unfold progress_event.
      now destruct (has_progress_sink cfg).
    - injection E2 as <-. rewrite Sx, Tx. split; [reflexivity|].
      eexists. split; [reflexivity|]. unfold progress_event.
      now destruct (has_progress_sink cfg). }
  step H as [] w3 E3. cbn [negb andb] in E3. injection E3 as <-.
  apply ret_inv in H. destruct H as [_ <-]. exact R.
Qed.

(** X19: when [dfu_loader_flash] returns true, the last message it gave
    is "Firmware written, device restarting": a status buffer of at
    least one byte holds it, cut to the buffer and terminated, and it is
    the last message the status callback received. *)
Theorem flash_success_status fuel cfg env w w' :
  dfu_loader_flash fuel cfg env w = Done true w' ->
  (arg_status_buf cfg = true -> (0 < arg_status_len cfg)%nat ->
   exists old,
     w_status w' = store (arg_status_len cfg) (Format.render MsgDone) old)
  /\ exists evs evs',
       w_trace w' = w_trace w ++ evs ++ status_events cfg MsgDone ++ evs'
       /\ forallb not_status evs' = true.
Proof.
  intros H. unfold dfu_loader_flash in H.
  step H as [success d1] w3 E.
  pose proof (cleanup_result _ _ _ _ _ _ H) as <-.
  apply cleanup_success in H. destruct H as (Sc & evsc & Tc & Qc).
  unfold flash_steps in E.
  step E as [] w4 E0.
  apply (only_run any_event) in E0;
    [|apply only_report_progress; repeat intro; reflexivity].
  destruct E0 as (evs0 & T0 & _).
  step E as [] w5 E1.
  apply (only_run any_event) in E1; [|apply only_set_status; repeat intro; reflexivity].
  destruct E1 as (evs1 & T1 & _).
  unfold flash_body in E. step E as [[ready d2] [fw len]] w6 E2.
  destruct ready; cbn [negb] in E; [|discriminate E].
  apply (only_run any_event) in E2;
    [|apply only_flash_prepare; repeat intro; reflexivity].
  destruct E2 as (evs2 & T2 & _).
  step E as ok w7 E3. destruct ok; cbn [negb] in E; [|discriminate E].
  apply (only_run any_event) in E3;
    [|apply only_write_loop; repeat intro; reflexivity].
  destruct E3 as (evs3 & T3 & _).
  step E as ok w8 E4. injection E as -> <- <-.
  unfold flash_finish in E4.
  step E4 as ok w9 E5. destruct ok; cbn [negb] in E4.
  2:{ apply ret_inv in E4. destruct E4 as [E4 _]. discriminate E4. }
  apply (only_run any_event) in E5;
    [|apply only_download_block; repeat intro; reflexivity].
  destruct E5 as (evs5 & T5 & _).
  step E4 as [] w10 E6.
  apply (only_run any_event) in E6;
    [|apply only_report_progress; repeat intro; reflexivity].
  destruct E6 as (evs6 & T6 & _).
  step E4 as [] w11 E7.
  apply ret_inv in E4. destruct E4 as [_ <-].
  rewrite set_status_exact in E7. injection E7 as <-.
  cbn [w_status w_trace] in Sc, Tc.
  split.
  - intros Hb Hl. exists (w_status w10). rewrite Sc. unfold status_after.
    apply Nat.ltb_lt in Hl. now rewrite Hb, Hl.
  - exists (evs0 ++ evs1 ++ evs2 ++ evs3 ++ evs5 ++ evs6), evsc.
    split; [|exact Qc].
    rewrite Tc, T6, T5, T3, T2, T1, T0, <- !app_assoc. reflexivity.
Qed.

Lemma flash_success_status_witness :
  firstn 35 (w_status
               (result_world
                  (dfu_loader_flash 8 (plain_caller 64)
                     (scenario accepting_device 3000 1024 "@Option Bytes")
                     (initial_world (repeat "x"%char 64)))))
  = list_ascii_of_string "Firmware written, device restarting".
Proof.
  destruct (flash_success_status 8%nat (plain_caller 64%nat)
              (scenario accepting_device 3000 1024 "@Option Bytes")
              (initial_world (repeat "x"%char 64%nat))
              (result_world
                 (dfu_loader_flash 8 (plain_caller 64)
                    (scenario accepting_device 3000 1024 "@Option Bytes")
                    (initial_world (repeat "x"%char 64)))))
    as [Hs _].
  - vm_compute. reflexivity.
  - destruct (Hs eq_refl ltac:(cbn; lia)) as [old ->]. reflexivity.
Defined.

(** ** What the earlier loader writes *)









(** ** Discovery in the earlier loader *)

Lemma legacy_select_altsetting_some strings alts :
  forall cur,
    legacy_select_altsetting strings alts (Some cur)
    = match find (fun a => is_internal_flash (alt_string strings a))
                 (filter is_dfu_interface alts) with
      | Some a => Some (legacy_selected_device a (alt_string strings a))
      | None =>
          if Legacy.alt_setting cur =? 0 then Some cur
          else
            match find (fun a => bAlternateSetting a =? 0)
                       (filter is_dfu_interface alts) with
            | Some a => Some (legacy_selected_device a (alt_string strings a))
            | None => Some cur
            end
      end.
Proof.
  induction alts as [|alt rest IH]; intros cur;
    cbn [legacy_select_altsetting filter find].
  - now destruct (Legacy.alt_setting cur =? 0).
  - destruct (is_dfu_interface alt); cbn [negb]; [|apply IH].
    cbv zeta. cbn [find].
    destruct (is_internal_flash (alt_string strings alt)) eqn:Hint; cbn [orb];
      [reflexivity|].
    destruct (Z.eqb_spec (bAlternateSetting alt) 0) as [Hzero|Hnz]; cbn [andb].
    + destruct (Z.eqb_spec (Legacy.alt_setting cur) 0) as [Hc|Hc]; cbn [negb].
      * rewrite IH. apply Z.eqb_eq in Hc. now rewrite Hc.
      * rewrite IH. cbn [legacy_selected_device Legacy.alt_setting].
        rewrite Hzero. change (u8 0 =? 0) with true. cbv iota.
        reflexivity.
    + rewrite IH. reflexivity.
Qed.

Lemma legacy_select_altsetting_choice strings alts :
  legacy_select_altsetting strings alts None
  = option_map (fun a => legacy_selected_device a (alt_string strings a))
               (legacy_choice strings alts).
Proof.
  unfold legacy_choice. cbv zeta.
  induction alts as [|alt rest IH]; cbn [legacy_select_altsetting filter];
    [reflexivity|].
  destruct (is_dfu_interface alt); cbn [negb]; [|exact IH].
  cbv zeta. cbn [find].
  destruct (is_internal_flash (alt_string strings alt)) eqn:Hint; [reflexivity|].
  rewrite legacy_select_altsetting_some.
  cbn [legacy_selected_device Legacy.alt_setting].
  destruct (find (fun a => is_internal_flash (alt_string strings a))
                 (filter is_dfu_interface rest)); [reflexivity|].
  destruct (u8 (bAlternateSetting alt) =? 0); [reflexivity|].
  now destruct (find (fun a => bAlternateSetting a =? 0)
                     (filter is_dfu_interface rest)).
Qed.

Lemma legacy_choice_none strings alts :
  legacy_choice strings alts = None <-> existsb is_dfu_interface alts = false.
Proof.
  unfold legacy_choice. cbv zeta.
  induction alts as [|alt rest IH]; cbn [filter existsb]; [tauto|].
  destruct (is_dfu_interface alt); cbn [orb]; [|exact IH].
  cbn [find].
  destruct (is_internal_flash (alt_string strings alt)); [split; discriminate|].
  destruct (find _ (filter is_dfu_interface rest)); [split; discriminate|].
  destruct (u8 (bAlternateSetting alt) =? 0); [split; discriminate|].
  destruct (find _ (filter is_dfu_interface rest)); split; discriminate.
Qed.

(** X21: the earlier [select_dfu_interface] looks only at the first
    interface that has a DFU alternate setting and selects there the
    first DFU alternate setting whose name contains Internal Flash; when
    there is none it selects the first DFU alternate setting, unless the
    number of that one is not 0 and a DFU alternate setting number 0
    follows it, which it then selects.  It finds nothing exactly when no
    alternate setting of the configuration is a DFU one. *)
Theorem legacy_select_dfu_interface_rule strings interfaces :
  legacy_select_dfu_interface (Some interfaces) strings
  = match find (existsb is_dfu_interface) interfaces with
    | Some iface =>
        option_map (fun a => legacy_selected_device a (alt_string strings a))
                   (legacy_choice strings iface)
    | None => None
    end
  /\ (legacy_select_dfu_interface (Some interfaces) strings = None
      <-> Forall (Forall (fun a => is_dfu_interface a = false)) interfaces).
Proof.
  cbn [legacy_select_dfu_interface].
  induction interfaces as [|iface rest [IH1 IH2]];
    cbn [legacy_select_interface find].
  - split; [reflexivity|]. split; [constructor|reflexivity].
  - rewrite legacy_select_altsetting_choice.
    destruct (existsb is_dfu_interface iface) eqn:Hdfu.
    + destruct (legacy_choice strings iface) as [a|] eqn:Hc.
      * cbn [option_map]. split; [reflexivity|]. split; [discriminate|].
        intros H. apply Forall_inv in H. exfalso.
        apply existsb_exists in Hdfu.
        destruct Hdfu as (x & Hx & Hxd). rewrite Forall_forall in H.
        rewrite (H x Hx) in Hxd. discriminate Hxd.
      * apply legacy_choice_none in Hc. congruence.
    + assert (Hc : legacy_choice strings iface = None)
        by now apply legacy_choice_none.
      rewrite Hc. cbn [option_map]. split; [exact IH1|].
      rewrite IH2. split.
      * intros H. constructor; [|exact H].
        rewrite Forall_forall. intros x Hx.
        destruct (is_dfu_interface x) eqn:Hxd; [|reflexivity].
        assert (He : existsb is_dfu_interface iface = true)
          by (apply existsb_exists; eauto).
        congruence.
      * intros H. exact (Forall_inv_tail H).
Qed.

(** ** The transfer size in the two loaders *)

Lemma legacy_scan_descriptors_short fuel :
  forall extra,
    Z.of_nat (List.length extra) < 9 ->
    Legacy.scan_descriptors fuel extra = Legacy.STM32_DEFAULT_TRANSFER.
Proof.
  induction fuel as [|fuel IH]; intros extra Hshort;
    cbn [Legacy.scan_descriptors]; [reflexivity|]. cbv zeta.
  destruct (Z.ltb_spec (Z.of_nat (List.length extra)) 3); [reflexivity|].
  destruct (Z.ltb_spec (u8 (nth 0 extra 0)) 3); [reflexivity|].
  destruct (Z.ltb_spec (Z.of_nat (List.length extra)) (u8 (nth 0 extra 0)));
    [reflexivity|]. cbn [orb].
  destruct (Z.leb_spec 9 (u8 (nth 0 extra 0))); [lia|].
  rewrite andb_false_r. apply IH. rewrite length_skipn. lia.
Qed.

Lemma scan_descriptors_versions fuel :
  forall extra,
    Legacy.scan_descriptors fuel extra = scan_descriptors fuel extra
    \/ (scan_descriptors fuel extra = STM32_DEFAULT_TRANSFER
        /\ Legacy.scan_descriptors fuel extra = Legacy.STM32_DEFAULT_TRANSFER).
Proof.
  induction fuel as [|fuel IH]; intros extra; [right; split; reflexivity|].
  destruct (Z.lt_ge_cases (Z.of_nat (List.length extra)) 9) as [Hshort|Hlong].
  - right. split; [|now apply legacy_scan_descriptors_short].
    cbn [scan_descriptors]. cbv zeta.
    destruct (Z.ltb_spec (Z.of_nat (List.length extra)) 9); [reflexivity|lia].
  - cbn [scan_descriptors Legacy.scan_descriptors]. cbv zeta.
    destruct (Z.ltb_spec (Z.of_nat (List.length extra)) 9); [lia|].
    destruct (Z.ltb_spec (Z.of_nat (List.length extra)) 3); [lia|].
    destruct ((u8 (nth 0 extra 0) <? 3)
              || (Z.of_nat (List.length extra) <? u8 (nth 0 extra 0)));
      [right; split; reflexivity|].
    destruct ((u8 (nth 1 extra 0) =? 33) && (9 <=? u8 (nth 0 extra 0))).
    + destruct (u16 (Z.lor (u8 (nth 5 extra 0)) (Z.shiftl (u8 (nth 6 extra 0)) 8))
                =? 0); [right; split; reflexivity|left; reflexivity].
    + apply IH.
Qed.

(** X22: the two versions of [parse_transfer_size] read the same
    descriptor: on every list of extra bytes they return the same
    transfer size, or each returns its default, 1024 in the loader that
    reads the memory layout and 2048 in the earlier one. *)
Theorem parse_transfer_size_versions extra :
  Legacy.parse_transfer_size extra = parse_transfer_size extra
  \/ (parse_transfer_size extra = STM32_DEFAULT_TRANSFER
      /\ Legacy.parse_transfer_size extra = Legacy.STM32_DEFAULT_TRANSFER).
Proof.
  unfold parse_transfer_size, Legacy.parse_transfer_size.
  destruct (Z.of_nat (List.length extra) <? 9); [right; split; reflexivity|].
  apply scan_descriptors_versions.
Qed.

(** * The serial slider *)

Lemma store_byte_app (pre : list Z) x y post :
  Slider.store_byte (List.length pre) x (pre ++ y :: post) = pre ++ x :: post.
Proof.
  unfold Slider.store_byte.
  rewrite firstn_app, firstn_all, Nat.sub_diag. cbn [firstn].
  rewrite app_nil_r, skipn_app, skipn_all2 by lia.
  replace (S (List.length pre) - List.length pre)%nat with 1%nat by lia.
  reflexivity.
Qed.

Lemma byte_sum_app a b : byte_sum (a ++ b) = byte_sum a + byte_sum b.
Proof.
  unfold byte_sum.
  induction a as [|x a IH]; cbn [app fold_right]; [reflexivity|].
  rewrite IH. lia.
Qed.

Lemma slice_sum (p : list Z) n k :
  byte_sum (firstn (S n) (skipn k p))
  = nth k p 0 + byte_sum (firstn n (skipn (S k) p)).
Proof.
  revert k. induction p as [|x p IH]; intros k.
  - rewrite !skipn_nil, !firstn_nil. now destruct k.
  - destruct k as [|k]; [reflexivity|]. cbn [skipn nth]. apply IH.
Qed.

(** The test before the escape in [sliderserial_writeresp] asks of one
    byte to be 0xFF and 0xFD: it never holds. *)
Lemma escape_never d : (d =? 0xff) && (d =? 0xfd) = false.
Proof.
  destruct (Z.eqb_spec d 255) as [->|]; [reflexivity|reflexivity].
Qed.

(** The loop over the payload changes no byte of the packet and takes
    the bytes off the checksum. *)
Lemma checksum_loop_spec n :
  forall i p cs,
    0 <= i -> 0 <= cs <= 255 ->
    Slider.checksum_loop n i p cs
    = (p, u8 (cs - byte_sum (firstn n (skipn (Z.to_nat i + 3) p)))).
Proof.
  induction n as [|n IH]; intros i p cs Hi Hcs; cbn [Slider.checksum_loop].
  - cbn [firstn byte_sum fold_right]. rewrite Z.sub_0_r.
    now rewrite u8_byte.
  - cbv zeta. rewrite escape_never.
    pose proof (u8_range (cs - nth (Z.to_nat (i + 3)) p 0)) as Hr.
    rewrite IH by lia. f_equal.
    replace (Z.to_nat (i + 1) + 3)%nat with (S (Z.to_nat i + 3)) by lia.
    replace (Z.to_nat (i + 3)) with (Z.to_nat i + 3)%nat by lia.
    rewrite slice_sum. unfold u8. rewrite Zminus_mod_idemp_l. f_equal. lia.
Qed.

(** What [sliderserial_writeresp] sends. *)
Lemma writeresp_sent request :
  List.length request = Slider.BUFSIZE -> Forall is_byte request ->
  Slider.size request <= 124 ->
  exists checksum,
    Slider.sliderserial_writeresp request
    = Some (Slider.store_byte (Z.to_nat (Slider.size request) + 3) checksum request,
            firstn (Z.to_nat (Slider.size request) + 3) request ++ [checksum])
    /\ 0 <= checksum <= 255
    /\ u8 (byte_sum (firstn (Z.to_nat (Slider.size request) + 3) request
                     ++ [checksum])) = 0.
Proof.
  intros Hlen Hbytes Hsize. unfold Slider.BUFSIZE in Hlen.
  pose proof (nth_byte request 0 Hbytes) as H0.
  pose proof (nth_byte request 1 Hbytes) as H1.
  pose proof (nth_byte request 2 Hbytes) as H2.
  fold (Slider.syn request) in H0. fold (Slider.cmd request) in H1.
  fold (Slider.size request) in H2.
  unfold Slider.sliderserial_writeresp. cbv zeta.
  destruct (Z.ltb_spec 124 (Slider.size request)); [lia|].
  pose proof (u8_range (0 - Slider.syn request - Slider.cmd request
                        - Slider.size request)) as Hc0.
  rewrite checksum_loop_spec by lia.
  change (Z.to_nat 0 + 3)%nat with 3%nat.
  set (payload := firstn (Z.to_nat (Slider.size request)) (skipn 3 request)).
  set (cs := u8 (u8 (0 - Slider.syn request - Slider.cmd request
                     - Slider.size request) - byte_sum payload)).
  exists cs.
  assert (Hhead : firstn (Z.to_nat (Slider.size request) + 3) request
                  = Slider.syn request :: Slider.cmd request :: Slider.size request
                    :: payload).
  { destruct request as [|a [|b [|c rest]]]; cbn [List.length] in Hlen; try lia.
    rewrite Nat.add_comm. reflexivity. }
  split; [|split].
  - f_equal. f_equal.
    + f_equal. lia.
    + rewrite u8_byte by lia.
      replace (Z.to_nat (Slider.size request + 4))
        with (S (Z.to_nat (Slider.size request + 3))) by lia.
      unfold Slider.store_byte.
      replace (Z.to_nat (Slider.size request + 3))
        with (Z.to_nat (Slider.size request) + 3)%nat by lia.
      set (k := (Z.to_nat (Slider.size request) + 3)%nat).
      assert (Hk : List.length (firstn k request) = k)
        by (rewrite length_firstn; unfold k; lia).
      rewrite firstn_app, Hk.
      replace (S k - k)%nat with 1%nat by lia.
      rewrite firstn_all2 by lia. reflexivity.
  - pose proof (u8_range (u8 (0 - Slider.syn request - Slider.cmd request
                              - Slider.size request) - byte_sum payload)).
    unfold cs. lia.
  - rewrite Hhead, byte_sum_app. cbn [byte_sum fold_right].
    fold (byte_sum payload). unfold cs, u8.
    rewrite Zminus_mod_idemp_l.
    rewrite Z.add_0_r.
    replace (Slider.syn request
             + (Slider.cmd request + (Slider.size request + byte_sum payload))
             + (0 - Slider.syn request - Slider.cmd request - Slider.size request
                - byte_sum payload) mod 256)
      with ((0 - Slider.syn request - Slider.cmd request - Slider.size request
             - byte_sum payload) mod 256
            + (Slider.syn request + Slider.cmd request + Slider.size request
               + byte_sum payload)) by lia.
    rewrite Zplus_mod_idemp_l.
    replace (0 - Slider.syn request - Slider.cmd request - Slider.size request
             - byte_sum payload
             + (Slider.syn request + Slider.cmd request + Slider.size request
                + byte_sum payload)) with 0 by lia.
    reflexivity.
Qed.

(** X23: [sliderserial_writeresp], for a packet whose size is at most
    124, hands to the port the size plus four bytes: the bytes [syn],
    [cmd] and [size] and the payload as the packet holds them, no byte
    escaped, not even 0xFF or 0xFD, and then a checksum that makes the
    sum of the bytes sent a multiple of 256. *)
Theorem writeresp_frame request :
  List.length request = Slider.BUFSIZE -> Forall is_byte request ->
  Slider.size request <= 124 ->
  exists checksum,
    Slider.sliderserial_writeresp request
    = Some (Slider.store_byte (Z.to_nat (Slider.size request) + 3) checksum request,
            firstn (Z.to_nat (Slider.size request) + 3) request ++ [checksum])
    /\ 0 <= checksum <= 255
    /\ u8 (byte_sum (firstn (Z.to_nat (Slider.size request) + 3) request
                     ++ [checksum])) = 0.
Proof. exact (writeresp_sent request). Qed.

Lemma writeresp_frame_witness :
  exists checksum,
    Slider.sliderserial_writeresp
      ([0xff; 0x10; 2; 0xff; 0xfd] ++ repeat 0 123)
    = Some (Slider.store_byte 5 checksum ([0xff; 0x10; 2; 0xff; 0xfd] ++ repeat 0 123),
            [0xff; 0x10; 2; 0xff; 0xfd; checksum])
    /\ 0 <= checksum <= 255
    /\ u8 (byte_sum ([0xff; 0x10; 2; 0xff; 0xfd; checksum])) = 0.
Proof.
  apply (writeresp_frame ([0xff; 0x10; 2; 0xff; 0xfd] ++ repeat 0 123)).
  - reflexivity.
  - repeat constructor; unfold is_byte; lia.
  - cbn. lia.
Defined.


(** A byte as the reader takes it: written plainly or after the escape
    byte, it reaches the end of the loop body as itself. *)
Lemma read_escaped b rest s :
  is_byte b -> Slider.syn (Slider.reponse s) = 0xff -> Slider.ESC s = false ->
  Slider.read_bytes (escaped b ++ rest) s
  = match Slider.accept_byte b s with
    | inl s' => Slider.read_bytes rest s'
    | inr (command, s') => (Some command, s', rest)
    end.
Proof.
  intros Hb Hsyn Hesc. unfold escaped, is_byte in *.
  destruct s as [p cs r esc]. cbn [Slider.reponse Slider.ESC] in Hsyn, Hesc.
  subst esc.
  destruct (Z.eqb_spec b 255) as [->|Hff]; cbn [orb].
  - cbn [app Slider.read_bytes]. unfold Slider.read_byte at 1.
    cbn [Slider.reponse Slider.checksum Slider.rep_size Slider.ESC].
    rewrite Hsyn. change (253 =? 255) with false. change (255 =? 255) with true.
    change (253 =? 253) with true. cbn [negb]. cbv iota.
    cbn [Slider.read_bytes]. unfold Slider.read_byte at 1.
    cbn [Slider.reponse Slider.checksum Slider.rep_size Slider.ESC].
    rewrite Hsyn. change (255 - 1 =? 255) with false.
    change (255 =? 255) with true. change (255 - 1 =? 253) with false.
    cbn [negb]. cbv iota. change (u8 (255 - 1 + 1)) with 255. reflexivity.
  - destruct (Z.eqb_spec b 253) as [->|Hfd].
    + cbn [app Slider.read_bytes]. unfold Slider.read_byte at 1.
      cbn [Slider.reponse Slider.checksum Slider.rep_size Slider.ESC].
      rewrite Hsyn. change (253 =? 255) with false. change (255 =? 255) with true.
      change (253 =? 253) with true. cbn [negb]. cbv iota.
      cbn [Slider.read_bytes]. unfold Slider.read_byte at 1.
      cbn [Slider.reponse Slider.checksum Slider.rep_size Slider.ESC].
      rewrite Hsyn. change (253 - 1 =? 255) with false.
      change (255 =? 255) with true. change (253 - 1 =? 253) with false.
      cbn [negb]. cbv iota. change (u8 (253 - 1 + 1)) with 253. reflexivity.
    + cbn [app Slider.read_bytes]. unfold Slider.read_byte.
      cbn [Slider.reponse Slider.checksum Slider.rep_size Slider.ESC].
      rewrite Hsyn. change (255 =? 255) with true. cbn [negb].
      destruct (Z.eqb_spec b 255); [lia|].
      destruct (Z.eqb_spec b 253); [lia|]. reflexivity.
Qed.

Lemma flat_map_plain l : Forall plain_byte l -> flat_map escaped l = l.
Proof.
  induction 1 as [|b l (Hb & Hff & Hfd) _ IH]; [reflexivity|].
  cbn [flat_map]. rewrite IH. unfold escaped.
  destruct (Z.eqb_spec b 255); [lia|]. destruct (Z.eqb_spec b 253); [lia|].
  reflexivity.
Qed.

(** The payload and the last byte of a frame, read after the header. *)
Lemma read_payload command len more todo :
  command <> 0 -> 0 <= len <= 32 ->
  forall done cs,
    todo <> [] -> Forall is_byte todo ->
    (List.length done + List.length todo = S (Z.to_nat len))%nat ->
    exists cs',
      Slider.read_bytes
        (flat_map escaped todo ++ more)
        (Slider.mk_reader
           (0xff :: command :: len :: done
            ++ repeat 0 (125 - List.length done))
           cs (3 + Z.of_nat (List.length done)) false)
      = (Some command,
         Slider.mk_reader
           (0xff :: command :: len :: (done ++ todo)
            ++ repeat 0 (125 - List.length done - List.length todo))
           cs' (3 + Z.of_nat (List.length done) + Z.of_nat (List.length todo) - 1)
           false,
         more).
Proof.
  intros Hcmd Hlen. induction todo as [|b todo IH]; intros done cs Hne Hbytes Hcount;
    [congruence|].
  cbn [flat_map]. rewrite <- app_assoc.
  rewrite read_escaped; [|exact (Forall_inv Hbytes)|reflexivity|reflexivity].
  unfold Slider.accept_byte.
  cbn [Slider.reponse Slider.checksum Slider.rep_size Slider.ESC].
  change (Slider.cmd (255 :: command :: len :: done
                      ++ repeat 0 (125 - List.length done))) with command.
  destruct (Z.eqb_spec command 0); [contradiction|].
  destruct (Z.eqb_spec (3 + Z.of_nat (List.length done)) 0); [lia|].
  cbv zeta.
  cbn [List.length] in Hcount.
  assert (Hstore : Slider.store_byte (Z.to_nat (3 + Z.of_nat (List.length done))) b
                     (255 :: command :: len :: done
                      ++ repeat 0 (125 - List.length done))
                   = 255 :: command :: len :: (done ++ [b])
                     ++ repeat 0 (125 - List.length done - 1)).
  { assert (Hr : repeat 0 (125 - List.length done)
                 = 0 :: repeat 0 (125 - List.length done - 1)).
    { replace (125 - List.length done)%nat
        with (S (125 - List.length done - 1)) at 1 by lia.
      reflexivity. }
    rewrite Hr.
    replace (Z.to_nat (3 + Z.of_nat (List.length done)))
      with (List.length (255 :: command :: len :: done))
      by (cbn [List.length]; lia).
    change (255 :: command :: len :: done
            ++ 0 :: repeat 0 (125 - List.length done - 1))
      with ((255 :: command :: len :: done)
            ++ 0 :: repeat 0 (125 - List.length done - 1)).
    rewrite store_byte_app, <- app_assoc. reflexivity. }
  rewrite Hstore.
  change (Slider.size (255 :: command :: len :: (done ++ [b])
                       ++ repeat 0 (125 - List.length done - 1))) with len.
  change (Slider.cmd (255 :: command :: len :: (done ++ [b])
                      ++ repeat 0 (125 - List.length done - 1))) with command.
  destruct todo as [|b' todo].
  - assert (Hd : Z.of_nat (List.length done) = len) by (cbn [List.length] in Hcount; lia).
    destruct (Z.eqb_spec (3 + Z.of_nat (List.length done)) (len + 3)); [|lia].
    cbn [orb]. exists (u8 (cs + b)). cbn [List.length].
    replace (3 + Z.of_nat (List.length done) + Z.of_nat 1 - 1)
      with (3 + Z.of_nat (List.length done)) by lia.
    reflexivity.
  - cbn [List.length] in Hcount.
    destruct (Z.eqb_spec (3 + Z.of_nat (List.length done)) (len + 3)); [lia|].
    destruct (Z.ltb_spec 34 (3 + Z.of_nat (List.length done))); [lia|].
    cbn [orb].
    rewrite (u8_byte (3 + Z.of_nat (List.length done) + 1)) by lia.
    destruct (IH (done ++ [b]) (u8 (cs + b)) ltac:(discriminate)
                (Forall_inv_tail Hbytes)) as (cs' & E).
    { rewrite length_app. cbn [List.length]. lia. }
    rewrite length_app in E. cbn [List.length] in E.
    replace (3 + Z.of_nat (List.length done + 1))
      with (3 + Z.of_nat (List.length done) + 1) in E by lia.
    replace (125 - (List.length done + 1))%nat
      with (125 - List.length done - 1)%nat in E by lia.
    rewrite E. exists cs'. cbn [List.length].
    rewrite <- (app_assoc done [b] (b' :: todo)). cbn [app].
    replace (125 - List.length done - 1 - S (List.length todo))%nat
      with (125 - List.length done - S (S (List.length todo)))%nat by lia.
    replace (3 + Z.of_nat (List.length done) + 1
             + Z.of_nat (S (List.length todo)) - 1)
      with (3 + Z.of_nat (List.length done)
            + Z.of_nat (S (S (List.length todo))) - 1) by lia.
    reflexivity.
Qed.

(** A frame read from the start: the packet is emptied at the byte 0xFF,
    whatever it held, and filled with the frame. *)
Lemma read_frame connected command payload last more packet :
  plain_byte command -> command <> 0 ->
  Forall is_byte payload -> is_byte last ->
  (List.length payload <= 32)%nat ->
  Slider.serial_read_cmd connected
    ([0xff; command; Z.of_nat (List.length payload)]
     ++ flat_map escaped (payload ++ [last]) ++ more)
    packet
  = (command,
     [0xff; command; Z.of_nat (List.length payload)] ++ payload ++ [last]
     ++ repeat 0 (124 - List.length payload),
     more).
Proof.
  intros (Hc & Hcff & Hcfd) Hc0 Hp Hl Hlen.
  unfold Slider.serial_read_cmd.
  cbn [app Slider.read_bytes].
  unfold Slider.read_byte at 1. change (255 =? 255) with true. cbv iota.
  cbn [Slider.read_bytes].
  unfold Slider.read_byte at 1.
  cbn [Slider.reponse Slider.checksum Slider.rep_size Slider.ESC].
  destruct (Z.eqb_spec command 255); [lia|].
  change (Slider.syn (Slider.store_byte 0 255 (Slider.package_init packet)))
    with 255.
  change (255 =? 255) with true. cbn [negb].
  destruct (Z.eqb_spec command 253); [lia|].
  unfold Slider.accept_byte at 1.
  cbn [Slider.reponse Slider.checksum Slider.rep_size Slider.ESC].
  change (Slider.cmd (Slider.store_byte 0 255 (Slider.package_init packet)))
    with 0.
  change (0 =? 0) with true. cbv iota.
  change (Slider.store_byte 1 command
            (Slider.store_byte 0 255 (Slider.package_init packet)))
    with (255 :: command :: repeat 0 126).
  cbn [Slider.read_bytes].
  unfold Slider.read_byte at 1.
  cbn [Slider.reponse Slider.checksum Slider.rep_size Slider.ESC].
  destruct (Z.eqb_spec (Z.of_nat (List.length payload)) 255); [lia|].
  change (Slider.syn (255 :: command :: repeat 0 126)) with 255.
  change (255 =? 255) with true. cbn [negb].
  destruct (Z.eqb_spec (Z.of_nat (List.length payload)) 253); [lia|].
  unfold Slider.accept_byte at 1.
  cbn [Slider.reponse Slider.checksum Slider.rep_size Slider.ESC].
  change (Slider.cmd (255 :: command :: repeat 0 126)) with command.
  destruct (Z.eqb_spec command 0); [contradiction|].
  change (0 =? 0) with true. cbv iota.
  change (Slider.store_byte 2 (Z.of_nat (List.length payload))
            (255 :: command :: repeat 0 126))
    with (255 :: command :: Z.of_nat (List.length payload) :: []
          ++ repeat 0 (125 - List.length (@nil Z))).
  change 3 with (3 + Z.of_nat (List.length (@nil Z))) at 1.
  destruct (read_payload command (Z.of_nat (List.length payload)) more
              (payload ++ [last]) Hc0 ltac:(lia) [] 
              (u8 (u8 (u8 (0 + 255) + command) + Z.of_nat (List.length payload))))
    as (cs' & E).
  - destruct payload; discriminate.
  - apply Forall_app. split; [exact Hp|]. constructor; [exact Hl|constructor].
  - rewrite length_app, Nat2Z.id. cbn [List.length]. lia.
  - rewrite E. cbn [Slider.reponse]. f_equal. f_equal.
    cbn [app List.length]. rewrite length_app. cbn [List.length].
    rewrite <- app_assoc. cbn [app]. f_equal. f_equal. f_equal. f_equal.
    f_equal. f_equal. lia.
Qed.

(** X24: [serial_read_cmd] reads a frame that starts with 0xFF and holds
    a command other than 0, a size of at most 32, as many bytes of
    payload and one more byte, with 0xFF and 0xFD written after the
    escape byte, as that command with that payload: it empties the packet
    it is given at the byte 0xFF, leaves what follows the frame unread,
    and takes any value as the last byte, so that the checksum is not
    checked. *)
Theorem read_cmd_frame connected command payload last more packet :
  plain_byte command -> command <> 0 ->
  Forall is_byte payload -> is_byte last ->
  (List.length payload <= 32)%nat ->
  Slider.serial_read_cmd connected
    ([0xff; command; Z.of_nat (List.length payload)]
     ++ flat_map escaped (payload ++ [last]) ++ more)
    packet
  = (command,
     [0xff; command; Z.of_nat (List.length payload)] ++ payload ++ [last]
     ++ repeat 0 (124 - List.length payload),
     more).
Proof. exact (read_frame connected command payload last more packet). Qed.

Lemma read_cmd_frame_witness :
  Slider.serial_read_cmd true
    ([0xff; 0x01; 2] ++ flat_map escaped ([0xff; 7] ++ [0x55]) ++ [0xff; 0x10])
    (repeat 9 128)
  = (0x01, [0xff; 0x01; 2] ++ [0xff; 7] ++ [0x55] ++ repeat 0 122, [0xff; 0x10]).
Proof.
  apply (read_cmd_frame true 0x01 [0xff; 7] 0x55 [0xff; 0x10] (repeat 9 128%nat)).
  - unfold plain_byte. lia.
  - lia.
  - repeat constructor; unfold is_byte; lia.
  - unfold is_byte. lia.
  - cbn. lia.
Defined.


(** X25: a packet that [sliderserial_writeresp] sends is read back by
    [serial_read_cmd] as its command, with its size and payload, when it
    starts with 0xFF, its command is not 0, its size is at most 32 and
    neither its command, its payload nor its checksum holds the bytes
    0xFF and 0xFD, which the writer does not escape. *)
Theorem slider_round_trip connected request more packet p' sent :
  List.length request = Slider.BUFSIZE -> Forall is_byte request ->
  Slider.syn request = 0xff ->
  plain_byte (Slider.cmd request) -> Slider.cmd request <> 0 ->
  Slider.size request <= 32 ->
  Forall plain_byte (firstn (Z.to_nat (Slider.size request)) (skipn 3 request)) ->
  Slider.sliderserial_writeresp request = Some (p', sent) ->
  plain_byte (last sent 0) ->
  Slider.serial_read_cmd connected (sent ++ more) packet
  = (Slider.cmd request, sent ++ repeat 0 (128 - List.length sent), more).
Proof.
  intros Hlen Hbytes Hsyn Hcmd Hcmd0 Hsize Hpayload Hsend Hlast.
  destruct (writeresp_sent request Hlen Hbytes ltac:(lia)) as (cs & E & Hcs & _).
  rewrite E in Hsend. injection Hsend as <- <-.
  rewrite last_last in Hlast.
  pose proof (nth_byte request 2 Hbytes) as H2. fold (Slider.size request) in H2.
  unfold Slider.BUFSIZE in Hlen.
  set (payload := firstn (Z.to_nat (Slider.size request)) (skipn 3 request)) in *.
  assert (Hpl : List.length payload = Z.to_nat (Slider.size request)).
  { unfold payload. rewrite length_firstn, length_skipn. lia. }
  assert (Hhead : firstn (Z.to_nat (Slider.size request) + 3) request
                  = [0xff; Slider.cmd request; Z.of_nat (List.length payload)]
                    ++ payload).
  { rewrite Hpl, Z2Nat.id by lia. rewrite <- Hsyn. unfold payload.
    destruct request as [|a [|b [|c rest]]]; cbn [List.length] in Hlen; try lia.
    rewrite Nat.add_comm. reflexivity. }
  assert (Hplain : flat_map escaped (payload ++ [cs]) = payload ++ [cs]).
  { apply flat_map_plain. apply Forall_app. split; [exact Hpayload|].
    constructor; [exact Hlast|constructor]. }
  assert (Hin : (firstn (Z.to_nat (Slider.size request) + 3) request ++ [cs]) ++ more
                = [0xff; Slider.cmd request; Z.of_nat (List.length payload)]
                  ++ flat_map escaped (payload ++ [cs]) ++ more)
    by (rewrite Hplain, Hhead, <- !app_assoc; reflexivity).
  rewrite Hin.
  rewrite (read_frame connected (Slider.cmd request) payload cs more packet
             Hcmd Hcmd0).
  - f_equal. f_equal. rewrite Hhead, !length_app. cbn [List.length app].
    rewrite <- !app_assoc. cbn [app].
    replace (128 - (3 + List.length payload + 1))%nat
      with (124 - List.length payload)%nat by lia.
    reflexivity.
  - eapply Forall_impl; [|exact Hpayload]. intros b Hb. exact (proj1 Hb).
  - exact Hcs.
  - lia.
Qed.

Lemma slider_round_trip_witness :
  exists p' sent,
    Slider.sliderserial_writeresp ([0xff; 0x01; 2; 7; 9] ++ repeat 0 123)
    = Some (p', sent)
    /\ Slider.serial_read_cmd true (sent ++ [0xff]) (repeat 9 128)
       = (0x01, sent ++ repeat 0 (128 - List.length sent), [0xff]).
Proof.
  eexists _, _. split; [vm_compute; reflexivity|].
  apply (slider_round_trip true ([0xff; 0x01; 2; 7; 9] ++ repeat 0 123%nat) [0xff]
           (repeat 9 128%nat)
           (Slider.store_byte 5 238 ([0xff; 0x01; 2; 7; 9] ++ repeat 0 123%nat))).
  - reflexivity.
  - repeat constructor; unfold is_byte; lia.
  - reflexivity.
  - unfold plain_byte. cbn. lia.
  - cbn. lia.
  - cbn. lia.
  - repeat constructor; cbn; lia.
  - vm_compute. reflexivity.
  - unfold plain_byte. cbn. lia.
Defined.

(** X26: [slider_send_leds] sends a frame of 100 bytes: 0xFF, command 2,
    size 96, one byte 0, the first 95 of the 96 bytes of [rgb] and the
    checksum; the last byte of [rgb] is not sent, the checksum being
    stored in its place. *)
Theorem send_leds_frame rgb :
  List.length rgb = 96%nat -> Forall is_byte rgb ->
  exists p checksum,
    Slider.slider_send_leds rgb
    = Some (p, [0xff; 0x02; 96; 0] ++ firstn 95 rgb ++ [checksum])
    /\ 0 <= checksum <= 255
    /\ u8 (byte_sum ([0xff; 0x02; 96; 0] ++ firstn 95 rgb ++ [checksum])) = 0.
Proof.
  intros Hlen Hbytes. unfold Slider.slider_send_leds.
  assert (Hp : Slider.led_packet rgb
               = [0xff; 0x02; 96; 0] ++ firstn 96 rgb ++ repeat 0 28)
    by reflexivity.
  rewrite Hp.
  destruct (writeresp_sent ([0xff; 0x02; 96; 0] ++ firstn 96 rgb ++ repeat 0 28))
    as (cs & E & Hcs & Hsum).
  - rewrite !length_app, length_firstn, Hlen. reflexivity.
  - apply Forall_app. split; [repeat constructor; unfold is_byte; lia|].
    apply Forall_app. split.
    + rewrite firstn_all2 by lia. exact Hbytes.
    + apply Forall_forall. intros x Hx. apply repeat_spec in Hx. subst x.
      unfold is_byte. lia.
  - cbn. lia.
  - assert (Hhead : firstn (Z.to_nat (Slider.size
                                        ([0xff; 0x02; 96; 0] ++ firstn 96 rgb
                                         ++ repeat 0 28)) + 3)
                           ([0xff; 0x02; 96; 0] ++ firstn 96 rgb ++ repeat 0 28)
                    = [0xff; 0x02; 96; 0] ++ firstn 95 rgb).
    { change (Slider.size ([0xff; 0x02; 96; 0] ++ firstn 96 rgb ++ repeat 0 28))
        with 96.
      change (Z.to_nat 96 + 3)%nat with (4 + 95)%nat.
      rewrite firstn_app_2 with (l1 := [0xff; 0x02; 96; 0]).
      rewrite firstn_app, firstn_firstn, length_firstn, Hlen.
      cbn [Nat.min Nat.sub firstn]. now rewrite app_nil_r. }
    rewrite Hhead, <- app_assoc in E, Hsum.
    eexists _, cs. split; [exact E|]. split; [exact Hcs|exact Hsum].
Qed.

Lemma send_leds_frame_witness :
  exists p checksum,
    Slider.slider_send_leds (repeat 1 95 ++ [200])
    = Some (p, [0xff; 0x02; 96; 0] ++ firstn 95 (repeat 1 95 ++ [200]) ++ [checksum])
    /\ 0 <= checksum <= 255
    /\ u8 (byte_sum ([0xff; 0x02; 96; 0] ++ firstn 95 (repeat 1 95 ++ [200])
                     ++ [checksum])) = 0.
Proof.
  apply (send_leds_frame (repeat 1 95 ++ [200])).
  - reflexivity.
  - apply Forall_app. split.
    + apply Forall_forall. intros x Hx. apply repeat_spec in Hx. subst x.
      unfold is_byte. lia.
    + repeat constructor; unfold is_byte; lia.
Defined.
